(* ===== verification/_CoqProject ===== *)
-Q . S2P
Prelude.v
GoLib.v
Domain.v
World.v
MetricsRec.v
Store.v
StoreFacts.v
Statements.v
Valkey.v
EventBus.v
EventSchema.v
Samples.v
HttpClients.v
Postgres.v
Contracts.v
PostgresFacts.v
StoreSpec.v
PostgresSpec.v
ClientFacts.v
DelegationService.v
CascadeService.v
Consumer.v
Jobs.v
FloatFacts.v
Http.v
PageText.v
AsyncDocs.v
SchemaSpec.v
ServiceFacts.v
DelegationSpec.v
CascadeSpec.v
ConsumerSpec.v
JobSpec.v
Config.v
Startup.v
System.v
SystemFacts.v
SystemSpec.v
Actions.v
BackgroundSpec.v
Refinement.v
ReadCommitted.v
HttpSpec.v
RequestSpec.v
ValkeySpec.v
AsyncSpec.v
OutboxColumn.v
CodecSpec.v
ConfigSpec.v
Serving.v
ServingSpec.v
StartupSpec.v
TxSpec.v
OutboundSpec.v
MetricsSpec.v
Interference.v
Witnesses.v
