(* ===== verification/Prelude.v ===== *)
(** * Verification development of the delegation service (iam-delegation)

    ** The program

    A tenant's user delegates to a colleague for a while, or until a review
    deadline.  cmd/server answers the public and the internal HTTP API and
    consumes the cascade queue (memberships revoked, users disabled, tenants
    offboarded); cmd/reconciler runs the cron jobs that end what has expired,
    start what was scheduled, warn of and end what was not reviewed, and purge.
    Both write through one PostgreSQL schema with row-level security; every
    change that others must learn of puts an event into the outbox in the same
    transaction.  User Profile, Org Membership and Catalog Admin are asked over
    HTTP, and Valkey holds the list cache and the idempotency keys.

    ** The model

    A Go function becomes a function of the world ([GoM], below) to a result and
    a new world, also on its error path.  [World.World] is all that can change:
    tables, outbox, key-value store, counters, requests sent.  [World.Env]
    answers every interaction with the outside by its number, so a theorem for
    all [Env] covers every outage at every single step, every clock, every
    order of the two goroutines the code starts, and everything other requests
    and processes commit in between: [env_others] changes the tables before each
    BEGIN, in [ReadCommitted] before each statement (see Interference).  Third-party code is a
    parameter: [World.PgCommon] (error classes and transaction runners, with the
    laws [Store.PgCommonLaws]), [GoLib.UuidLib] ([UuidLaws]), [GoLib.TimeText],
    the JSON-Schema validator (two fields of [Env], with the laws
    [EventSchema.SchemaLaws]), the Prometheus registerer ([MetricsRec.Registerer],
    [RegistererLaws]), the AWS Glue API ([EventBus.Glue.GlueClient]),
    errgroup and the runners of platform-events ([Serving.ErrGroup],
    [Serving.Runners]).  [Samples] has an executable instance of each, with its laws
    proved ([ServingSpec] of the last two).

    ** Files, bottom up

    - [Prelude] this file: results, the monad, the [wp] rules, [Within].
    - [GoLib] what is used of Go: wrapping int64, time, float64, strings, UTF-8,
      strconv, durations, decoded JSON and the scanner of json.Compact.
    - [Domain] internal/core/domain, pkg/requestctx; [World] internal/core/port.
    - [Store] migrations/000001_schema.up.sql (constraints, trigger, RLS) as the
      meaning of the statements, and db.go (transactions, wrapConnErr); [OutboxColumn]
      the trigger of its outbox column.
    - [Postgres] the repositories of adapter/outbound/postgres: modules Repo,
      SettingsRepo, ProcessedEvents, Gauge.
    - [MetricsRec] metrics.go: instruments, registration, recorders, and the
      relation [metered] every part of the program moves the counters within.
    - [Valkey], [EventBus] (module Glue: codec.go), [HttpClients] (modules
      UserProfile, OrgMembership, CatalogAdmin, Tender): the other outbound
      adapters.  [EventSchema]: the JSON Schemas embedded by internal/eventschema,
      what conforms to them, the JSON of the payloads.
    - [DelegationService], [CascadeService] (modules Cascade and Settings): the
      use cases of internal/core/service.
    - [Consumer] adapter/inbound/consumer; [Http] adapter/inbound/http,
      [AsyncDocs] its documentation routes and the viewer of the event contract
      (asyncapi.go), over the text functions of [PageText]; [Jobs]
      cmd/reconciler/jobs.
    - [Config] the environment (module Reconciler: that of the other binary) and
      the DSNs; [System] the object graphs of
      cmd/server and cmd/reconciler and the steps of the running system;
      [Startup] both binaries as processes, from their configuration to the last
      deferred release, and postgres/migrate.go; [Serving] the goroutine group at the
      end of the server's run, over the errgroup and the runners it waits for.

    Definitions keep the names of the source ([End_] and [Set_] for [End] and
    [Set]); a closure or a stretch of a long function has a definition of its
    own (the stages of Create, [Jobs.expireOne]).  WHERE and SET clauses are the
    [where_...] and [set_...] definitions of [Postgres].

    ** Contracts

    [Contracts] states what the ports promise about the tables alone (every
    effect lies in a preorder; which operations leave them be); [StoreSpec] is
    the abstract store: what the repositories, the runner, the publisher and the
    ledger do in terms of rows and events, without SQL.  [PostgresFacts],
    [ClientFacts] and [PostgresSpec] discharge them for the adapters;
    [ServiceFacts], [DelegationSpec], [CascadeSpec], [ConsumerSpec] and [JobSpec]
    verify the use cases against them, [SchemaSpec] the payloads they build
    against the schemas; [SystemFacts], [SystemSpec] and
    [BackgroundSpec] put both together for the wired program.  [Actions] is the
    abstract program, fourteen actions on the tables and what each owes the
    outbox; [Refinement] shows that the wired one refines it.  [StoreFacts] has
    the proof rules for statements and transactions, [FloatFacts] the rounding
    lemmas, [Statements] the semantics of a transaction statement by statement and
    its reduction to that of [Store], [Interference] the others discharged, a rival process and overlapping
    deliveries, [Witnesses] a concrete run for every theorem with a hypothesis.

    ** Interference

    A run of [serve], [Handle] or a job is many transactions; before each of them
    others may have committed.  [StoreFacts.meanwhile] relates the tables before
    and after a stretch of that, [begins_on] what a transaction begins on to what
    was there; [concludes] is the form of a contract under interference.
    [LawfulOthers] assumes of the others what the theorems show of the program
    (constraints kept, rows only evolve), [Refinement] that they too are within
    [Actions.refines], [UniqueIds] that no id comes back as a second delegation;
    [Interference.runs_lawful] and [runs_refine] discharge the first two for runs
    of the program itself.  [Alone] (nobody else commits) is assumed only where the
    claim is that something succeeds or drains.  The jobs act on rows they read
    in an earlier transaction: that they never act on a row someone has changed
    since is what the record version buys ([StoreFacts.same_version]), and
    [JobSpec.among] counts their steps between those of others.
    [Store] runs a transaction without interruption from its BEGIN.  Under READ
    COMMITTED others also commit between its statements, except to the rows it has
    written: [Statements] takes a body apart into its statements ([Staged]) and
    runs it so ([rc_attempt]); [ReadCommitted] shows that every transaction of
    several writes is then one of [Store] that began after the others, or changes
    nothing, because its row was gone.  For the cascades this assumes that nobody
    adds rows to the selection of the cascade meanwhile (a delegation created for a
    user while he is removed may outlive the cascade whatever the order).  The
    remaining transactions write in a single statement, which is atomic; what they
    read besides only chooses the error, and may be newer than what the write saw
    ([Interference.conflict_with_the_version_sent]).  A statement of the model sees
    one state; PostgreSQL takes the rows of an UPDATE from its snapshot and checks
    the ones it had to wait for again.  Valkey and the counters are not changed by
    others.

    ** What is shown

    - [SystemFacts]: along any run of requests, deliveries, jobs and gauge ticks
      the tables keep their constraints and rows only evolve, the outbox only
      gains events that conform to their schema, the counters only grow, on
      registered series; requests and deliveries never touch a foreign tenant.
    - [Refinement]: such a run is a trace of actions of the abstract program, and
      so every start and every end of a delegation is announced, and none twice.
    - [SystemSpec]: create, cancel and extend are all or nothing, with their
      rows and events, and fail only for a reason in the tables or an outage,
      all under interference; reassign is two transactions; one winner per version.
    - [BackgroundSpec]: the three cascades, a delivery that takes effect with its
      mark or not at all, the four jobs as sequences of single lawful steps among
      those of others, that drain what is due while they are alone and the
      database answers, deferral when User Profile is down.
    - [ReadCommitted]: READ COMMITTED is enough for the transactions of several
      writes.  [TxSpec]: the transaction runner.  [ValkeySpec]: idempotency keys, cache, the
      time-outs of the client.
    - [HttpSpec], [RequestSpec]: gates, authorization, error mapping, bounds,
      the accepted requests exactly.  [OutboundSpec]: the calls to User Profile.
    - [CodecSpec], [OutboxColumn], [ConfigSpec], [FloatFacts]: wire format, outbox
      text, start-up, rounding.
    - [StartupSpec]: every run of either binary acquires, serves and releases in
      the order of an abstract protocol, ends holding nothing, and its exit status
      tells whether it failed.  [ServingSpec]: however the goroutines of the server
      interleave, it comes down in the order [Startup] has for it.  [MetricsSpec]: registration succeeds once and
      covers the program's vocabulary.
    - [AsyncSpec]: the documentation routes answer as a stateless server would
      although the viewer sorts its shared specification in place; the rows of
      its tables.

    ** Bounds and fuel

    Integers that can overflow are wrapped to 64 bits where the code computes
    with them; float64 is exact rational rounding to 53 bits.  [GoLib] uses fuel
    for UTF-8 decoding and for duration components: the length of the input,
    each round consuming at least one byte.  Retries are bounded by the three
    attempts of writeRetryOpts.  Every handler, job and delivery is a total
    function, so it returns, except the viewer: [AsyncDocs.resolveSchema] has
    fuel for the recursion through references, and [viewer_steady] shows that
    enough of it exists when the references have no cycle.  The server as a whole
    runs until it is told to stop: [ServingSpec] bounds the moves of its goroutines.

    ** Not modelled, and why

    - Logging, spans and latency histograms: nothing reads them back.  Texts that
      only a log reads are abbreviated; wrapping and sentinels are exact.
    - Command-line parsing; the serving of sockets, the SQS and SNS loops and the
      outbox relay, library code: in [Serving] they are calls that return.  What the
      goroutines do meanwhile to the tables is [System.sys_step].
    - How the migration files are applied, roles and grants; the constant parts of
      the documentation pages (style and scripts in asyncapi.go and swagger_*.go,
      the generated docs/); YAML parsing, a parameter of [AsyncDocs].  Requests to the viewer
      run one after the other, where the code lets them race on the shared order.
    - JSON request bodies are taken decoded ([GoLib.json]); the gateway identity
      is what platform-gincommon's middleware has put on the request. *)
From Stdlib Require Export Ascii.
From stdpp Require Export base tactics option list numbers gmap strings fin_maps sorting relations.
From Stdlib Require Export ZArith Lia.

(** ** Results and the effect monad

    A Go function [f(...) (T, error)] that reads and changes the outside world
    becomes a function of the world that returns a [result] and the new world.
    The new world is returned on the error path as well: a Go call that fails
    keeps whatever effects it had before failing.  Only a database transaction
    undoes anything (file [Store]). *)
Inductive result (E A : Type) : Type :=
| Ok (a : A)
| Err (e : E).
Arguments Ok {E A} a.
Arguments Err {E A} e.

Definition is_ok {E A} (r : result E A) : bool :=
  match r with Ok _ => true | Err _ => false end.

#[export] Instance result_ret {E} : MRet (result E) := λ A a, Ok a.
#[export] Instance result_bind {E} : MBind (result E) := λ A B k r,
  match r with Ok a => k a | Err e => Err e end.

Definition GoM (W E A : Type) : Type := W → result E A * W.

Section monad.
Context {W E : Type}.

#[global] Instance gom_ret : MRet (GoM W E) := λ A a w, (Ok a, w).

#[global] Instance gom_bind : MBind (GoM W E) := λ A B k m w,
  match m w with
  | (Ok a, w') => k a w'
  | (Err e, w') => (Err e, w')
  end.

(** [return nil, err] *)
Definition throw {A} (e : E) : GoM W E A := λ w, (Err e, w).

(** [v, err := f()] with [err] inspected by the caller, or ignored ([_ = f()]). *)
Definition try {A} (m : GoM W E A) : GoM W E (result E A) := λ w,
  (Ok (m w).1, (m w).2).

(** Turn an inspected result back into control flow. *)
Definition of_result {A} (r : result E A) : GoM W E A := λ w, (r, w).

Definition gets {A} (f : W → A) : GoM W E A := λ w, (Ok (f w), w).
Definition modify (f : W → W) : GoM W E unit := λ w, (Ok tt, f w).

(** [for _, x := range l { body }] whose body may return an error. *)
Fixpoint for_each {A} (l : list A) (body : A → GoM W E unit) : GoM W E unit :=
  match l with
  | [] => mret tt
  | x :: l' => body x ≫= λ _, for_each l' body
  end.

(** The same loop threading the local variables the body assigns. *)
Fixpoint fold_each {A S} (l : list A) (s : S) (body : S → A → GoM W E S) : GoM W E S :=
  match l with
  | [] => mret s
  | x :: l' => body s x ≫= λ s', fold_each l' s' body
  end.

(** [if c != nil { c.f(...) }] for an optional collaborator. *)
Definition when_some {C} (c : option C) (f : C → GoM W E unit) : GoM W E unit :=
  match c with Some x => f x | None => mret tt end.
End monad.

(** ** Weakest preconditions

    [wp m Q w]: running [m] in [w] ends in a result and a world that satisfy
    [Q].  Every model function is total, so there is one notion only: the
    postcondition speaks of the error results too. *)
Definition wp {W E A} (m : GoM W E A) (Q : result E A → W → Prop) (w : W) : Prop :=
  Q (m w).1 (m w).2.

Section wp.
Context {W E : Type}.

Lemma wp_intro {A} (m : GoM W E A) Q w : Q (m w).1 (m w).2 → wp m Q w.
Proof. done. Qed.

Lemma wp_run {A} (m : GoM W E A) Q w r w' : wp m Q w → m w = (r, w') → Q r w'.
Proof. unfold wp. intros H Heq. by rewrite Heq in H. Qed.

Lemma wp_mono {A} (m : GoM W E A) (Q Q' : result E A → W → Prop) w :
  wp m Q w → (∀ r w', Q r w' → Q' r w') → wp m Q' w.
Proof. unfold wp. auto. Qed.

Lemma wp_eq {A} (m m' : GoM W E A) Q w : m w = m' w → wp m' Q w → wp m Q w.
Proof. unfold wp. by intros ->. Qed.

Lemma wp_and {A} (m : GoM W E A) (Q Q' : result E A → W → Prop) w :
  wp m Q w → wp m Q' w → wp m (λ r w', Q r w' ∧ Q' r w') w.
Proof. unfold wp. auto. Qed.

Lemma wp_ret {A} (a : A) (Q : result E A → W → Prop) w :
  Q (Ok a) w → wp (mret (M:=GoM W E) a) Q w.
Proof. done. Qed.

Lemma wp_throw {A} (e : E) (Q : result E A → W → Prop) w :
  Q (Err e) w → wp (throw e) Q w.
Proof. done. Qed.

Lemma wp_bind {A B} (m : GoM W E A) (k : A → GoM W E B) Q w :
  wp m (λ r w', match r with Ok a => wp (k a) Q w' | Err e => Q (Err e) w' end) w →
  wp (m ≫= k) Q w.
Proof. unfold wp, mbind, gom_bind. destruct (m w) as [[a|e] w']; done. Qed.

(** Running a bind whose first half is known. *)
Lemma bind_ok {A B} (m : GoM W E A) (k : A → GoM W E B) a w w' : m w = (Ok a, w') → (m ≫= k) w = k a w'.
Proof. intros Hm. unfold mbind, gom_bind. by rewrite Hm. Qed.
Lemma wp_bind_run {A B} (m : GoM W E A) (k : A → GoM W E B) (Q : result E B → W → Prop) a w w' :
  m w = (Ok a, w') → wp (k a) Q w' → wp (m ≫= k) Q w.
Proof. intros Hm Hk. unfold wp. by rewrite (bind_ok _ _ _ _ _ Hm). Qed.
Lemma try_bind {A B} (m : GoM W E A) (k : result E A → GoM W E B) r w w' :
  m w = (r, w') → (try m ≫= k) w = k r w'.
Proof. intros Hm. unfold mbind, gom_bind, try. by rewrite Hm. Qed.

Lemma wp_try {A} (m : GoM W E A) (Q : result E (result E A) → W → Prop) w :
  wp m (λ r w', Q (Ok r) w') w → wp (try m) Q w.
Proof. done. Qed.

Lemma wp_of_result {A} (r : result E A) (Q : result E A → W → Prop) w :
  Q r w → wp (of_result r) Q w.
Proof. done. Qed.

Lemma wp_gets {A} (f : W → A) (Q : result E A → W → Prop) w :
  Q (Ok (f w)) w → wp (gets f) Q w.
Proof. done. Qed.

Lemma wp_modify (f : W → W) (Q : result E unit → W → Prop) w :
  Q (Ok tt) (f w) → wp (modify f) Q w.
Proof. done. Qed.

Lemma wp_when_some {C} (c : option C) (f : C → GoM W E unit) Q w :
  (∀ x, c = Some x → wp (f x) Q w) → (c = None → Q (Ok tt) w) →
  wp (when_some c f) Q w.
Proof. intros H1 H2. destruct c; simpl; [by apply H1|by apply wp_ret, H2]. Qed.

(** Invariant rule for [for_each]: [I done_ w] holds before each iteration,
    [done_] being the elements already processed. *)
Lemma wp_for_each {A} (l : list A) (body : A → GoM W E unit)
    (I : list A → W → Prop) (Q : result E unit → W → Prop) w :
  I [] w →
  (∀ pre x post w1, l = pre ++ x :: post → I pre w1 →
     wp (body x) (λ r w2, match r with Ok _ => I (pre ++ [x]) w2 | Err e => Q (Err e) w2 end) w1) →
  (∀ w1, I l w1 → Q (Ok tt) w1) →
  wp (for_each l body) Q w.
Proof.
  intros HI Hbody HQ.
  assert (∀ todo pre w1, l = pre ++ todo → I pre w1 → wp (for_each todo body) Q w1) as Hgen.
  { induction todo as [|x todo IH]; intros pre w1 Hl Hpre; simpl.
    - apply wp_ret, HQ. rewrite app_nil_r in Hl. by subst.
    - apply wp_bind. eapply wp_mono; [by eapply Hbody|].
      intros [[]|e] w2; [|done]. intros. apply (IH (pre ++ [x])); [|done].
      by rewrite <- app_assoc. }
  by apply (Hgen l []).
Qed.

Lemma wp_fold_each {A S} (l : list A) (s : S) (body : S → A → GoM W E S)
    (I : list A → S → W → Prop) (Q : result E S → W → Prop) w :
  I [] s w →
  (∀ pre x post s1 w1, l = pre ++ x :: post → I pre s1 w1 →
     wp (body s1 x) (λ r w2, match r with Ok s2 => I (pre ++ [x]) s2 w2 | Err e => Q (Err e) w2 end) w1) →
  (∀ s1 w1, I l s1 w1 → Q (Ok s1) w1) →
  wp (fold_each l s body) Q w.
Proof.
  intros HI Hbody HQ.
  assert (∀ todo pre s1 w1, l = pre ++ todo → I pre s1 w1 → wp (fold_each todo s1 body) Q w1) as Hgen.
  { induction todo as [|x todo IH]; intros pre s1 w1 Hl Hpre; simpl.
    - apply wp_ret, HQ. rewrite app_nil_r in Hl. by subst.
    - apply wp_bind. eapply wp_mono; [by eapply Hbody|].
      intros [s2|e] w2; [|done]. intros. apply (IH (pre ++ [x])); [|done].
      by rewrite <- app_assoc. }
  by apply (Hgen l []).
Qed.
End wp.

(** One symbolic step of a computation under [wp]. *)
Ltac wp_step :=
  lazymatch goal with
  | |- wp (mbind _ _) _ _ => apply wp_bind
  | |- wp (mret _) _ _ => apply wp_ret
  | |- wp (throw _) _ _ => apply wp_throw
  | |- wp (try _) _ _ => apply wp_try
  | |- wp (of_result _) _ _ => apply wp_of_result
  | |- wp (gets _) _ _ => apply wp_gets
  | |- wp (modify _) _ _ => apply wp_modify
  | |- wp (if ?b then _ else _) _ _ => destruct b eqn:?
  | |- wp (match ?x with _ => _ end) _ _ => destruct x eqn:?
  | |- wp ((λ _, _) _) _ _ => cbv beta
  end.
Ltac wp_steps := repeat (wp_step; cbv beta).

(** ** Effects bounded by a relation

    [Within R m]: whatever [m] does, the world after it is [R]-related to the
    world before it, on the error path too.  With [R] a preorder this composes,
    so the frame of an operation ([R] is equality of a part of the world), the
    preservation of an invariant and the lawfulness of state transitions are
    all proved by the same structural automation. *)
Class Within {W E A : Type} (R : relation W) (m : GoM W E A) : Prop :=
  within w : R w (m w).2.
#[global] Hint Mode Within + + + + ! : typeclass_instances.

Section within.
Context {W E : Type} (R : relation W).

#[global] Instance within_ret `{!Reflexive R} {A} (a : A) : Within R (mret (M:=GoM W E) a).
Proof. intros w. simpl. reflexivity. Qed.
#[global] Instance within_throw `{!Reflexive R} {A} (e : E) : Within R (throw (W:=W) (A:=A) e).
Proof. intros w. simpl. reflexivity. Qed.
#[global] Instance within_of_result `{!Reflexive R} {A} (r : result E A) :
  Within R (of_result (W:=W) r).
Proof. intros w. simpl. reflexivity. Qed.
#[global] Instance within_gets `{!Reflexive R} {A} (f : W → A) : Within R (gets (E:=E) f).
Proof. intros w. simpl. reflexivity. Qed.
#[global] Instance within_bind `{!Transitive R} {A B} (m : GoM W E A) (k : A → GoM W E B) :
  Within R m → (∀ a, Within R (k a)) → Within R (m ≫= k).
Proof.
  intros Hm Hk w. specialize (Hm w). unfold mbind, gom_bind.
  destruct (m w) as [[a|e] w']; simpl in *; [|done].
  etransitivity; [exact Hm|]. apply Hk.
Qed.
#[global] Instance within_try {A} (m : GoM W E A) : Within R m → Within R (try m).
Proof. intros Hm w. apply Hm. Qed.
#[global] Instance within_when_some `{!Reflexive R} {C} (c : option C) (f : C → GoM W E unit) :
  (∀ x, Within R (f x)) → Within R (when_some c f).
Proof. intros Hf. destruct c; simpl; [apply Hf|apply _]. Qed.
#[global] Instance within_for_each `{!Reflexive R} `{!Transitive R} {A} (l : list A) (body : A → GoM W E unit) :
  (∀ x, Within R (body x)) → Within R (for_each l body).
Proof. intros Hb. induction l; simpl; apply _. Qed.
#[global] Instance within_fold_each `{!Reflexive R} `{!Transitive R} {A S} (l : list A) (s : S)
    (body : S → A → GoM W E S) :
  (∀ s x, Within R (body s x)) → Within R (fold_each l s body).
Proof. intros Hb. revert s. induction l; intros s; simpl; apply _. Qed.
Lemma within_modify (f : W → W) : (∀ w, R w (f w)) → Within R (modify (E:=E) f).
Proof. intros Hf w. apply Hf. Qed.

Lemma within_wp {A} (m : GoM W E A) w : Within R m → wp m (λ _ w', R w w') w.
Proof. intros Hm. apply Hm. Qed.
End within.

(** Structural proof of [Within]: the instance arguments of the rules are
    resolved, their premises left as goals. *)
Ltac within_rule :=
  lazymatch goal with
  | |- Within _ (mbind _ _) =>
      notypeclasses refine (@within_bind _ _ _ _ _ _ _ _ _ _); [typeclasses eauto| |intros ?]
  | |- Within _ (try _) => notypeclasses refine (@within_try _ _ _ _ _ _)
  | |- Within _ (when_some _ _) =>
      notypeclasses refine (@within_when_some _ _ _ _ _ _ _ _); [typeclasses eauto|intros ?]
  | |- Within _ (for_each _ _) =>
      notypeclasses refine (@within_for_each _ _ _ _ _ _ _ _ _); [typeclasses eauto..|intros ?]
  | |- Within _ (fold_each _ _ _) =>
      notypeclasses refine (@within_fold_each _ _ _ _ _ _ _ _ _ _ _); [typeclasses eauto..|intros ? ?]
  | |- Within _ (mret _) => apply _
  | |- Within _ (throw _) => apply _
  | |- Within _ (of_result _) => apply _
  | |- Within _ (if ?b then _ else _) => destruct b eqn:?
  | |- Within _ (match ?x with _ => _ end) => destruct x eqn:?
  | |- Within _ (let _ := _ in _) => cbv zeta
  end.
