(* ===== verification/GoLib.v ===== *)
(** * The parts of Go and of its standard library the service uses

    Machine integers, [time], [float64], [strings], [strconv], [unicode/utf8]
    and the decoded form of JSON documents.  UUIDs are a third-party type: the
    functions on their text form are an interface ([UuidLib]) with the laws the
    service relies on ([UuidLaws]). *)
From S2P Require Import Prelude.
Local Open Scope Z_scope.

(** ** 64-bit integers *)
Definition max_int64 : Z := 2 ^ 63 - 1.
Definition min_int64 : Z := - 2 ^ 63.

(** Two's-complement wrap-around of [int64] arithmetic ([int] is 64 bits wide). *)
Definition wrap64 (z : Z) : Z := (z + 2 ^ 63) mod 2 ^ 64 - 2 ^ 63.

Lemma wrap64_id z : min_int64 ≤ z ≤ max_int64 → wrap64 z = z.
Proof. unfold wrap64, min_int64, max_int64. intros. rewrite Z.mod_small; lia. Qed.

(** ** [time]

    A [time.Time] is an absolute instant: nanoseconds since the Unix epoch.
    A [time.Duration] is an [int64] number of nanoseconds. *)
Module GoTime.
Definition Time := Z.
Definition Duration := Z.

Definition Millisecond : Duration := 1000000.
Definition Second : Duration := 1000000000.
Definition Minute : Duration := 60 * Second.
Definition Hour : Duration := 60 * Minute.
Definition Day : Duration := 24 * Hour.

(** The zero [time.Time] is January 1, year 1, 00:00:00 UTC. *)
Definition ZeroTime : Time := -62135596800 * Second.
Definition IsZero (t : Time) : bool := bool_decide (t = ZeroTime).

Definition Before (t u : Time) : bool := t <? u.
Definition After (t u : Time) : bool := u <? t.
Definition Add (t : Time) (d : Duration) : Time := t + d.

(** [t.Sub(u)] saturates at the range of a [Duration]. *)
Definition Sub (t u : Time) : Duration := Z.max min_int64 (Z.min max_int64 (t - u)).

(** [time.Duration(n) * 24 * time.Hour], with [int64] wrap-around. *)
Definition Days (n : Z) : Duration := wrap64 (wrap64 (n * 24) * Hour).

(** [t.AddDate(0, 0, n)] in UTC, where a calendar day is 24 hours long. *)
Definition AddDateDays (t : Time) (n : Z) : Time := t + n * Day.

Lemma Days_exact n : -100000 ≤ n ≤ 100000 → Days n = n * Day.
Proof.
  unfold Days, Day, Hour, Minute, Second. intros.
  rewrite (wrap64_id (n * 24)) by (unfold min_int64, max_int64; lia).
  rewrite wrap64_id by (unfold min_int64, max_int64; lia). lia.
Qed.

(** Saturation does not change a comparison with a bound inside the range. *)
Lemma Sub_gt t u d : min_int64 ≤ d < max_int64 → (Sub t u >? d) = (t - u >? d).
Proof. unfold Sub. intros. rewrite !Z.gtb_ltb. destruct (Z.ltb_spec d (t - u)), (Z.ltb_spec d (Z.max min_int64 (Z.min max_int64 (t - u)))); lia. Qed.

Lemma Sub_exact t u : min_int64 ≤ t - u ≤ max_int64 → Sub t u = t - u.
Proof. unfold Sub. lia. Qed.
End GoTime.
Export GoTime.

(** ** [float64]

    A finite [float64] is [m * 2^e].  [round64 n d] rounds the exact quotient
    [n / d] to 53 significant bits, to nearest, ties to even; overflow and
    subnormals do not occur at the magnitudes the service computes with. *)
Module Float64.
Definition f64 : Type := Z * Z.

Definition scale (n d e : Z) : Z * Z :=
  if e <? 0 then (n * 2 ^ (- e), d) else (n, d * 2 ^ e).

Definition rne (n d : Z) : Z :=
  let q := n / d in
  let r := n mod d in
  if 2 * r <? d then q
  else if d <? 2 * r then q + 1
  else if Z.even q then q else q + 1.

Definition round_pos (n d : Z) : f64 :=
  let e0 := Z.log2 n - Z.log2 d - 53 in
  let '(n0, d0) := scale n d e0 in
  let e := if 2 ^ 53 <=? n0 / d0 then e0 + 1 else e0 in
  let '(n1, d1) := scale n d e in
  (rne n1 d1, e).

Definition round64 (n d : Z) : f64 :=
  if n =? 0 then (0, 0)
  else if n <? 0 then let '(m, e) := round_pos (- n) d in (- m, e)
  else round_pos n d.

(** Numerator and denominator of the exact value. *)
Definition num (x : f64) : Z := let '(m, e) := x in if e <? 0 then m else m * 2 ^ e.
Definition den (x : f64) : Z := let '(_, e) := x in if e <? 0 then 2 ^ (- e) else 1.

Definition of_int (z : Z) : f64 := round64 z 1.
Definition add (x y : f64) : f64 := round64 (num x * den y + num y * den x) (den x * den y).
Definition div (x y : f64) : f64 := round64 (num x * den y) (den x * num y).

Definition mul (x y : f64) : f64 := round64 (num x * num y) (den x * den y).

(** [uint64(x)] for a non-negative value in range *)
Definition trunc (x : f64) : Z := num x / den x.

(** [int(math.Ceil(x))] *)
Definition ceil (x : f64) : Z := - ((- num x) / den x).
End Float64.

(** [d.Hours()]: the whole hours plus the remaining nanoseconds as a fraction,
    both divisions truncating. *)
Definition Hours (d : Duration) : Float64.f64 :=
  Float64.add (Float64.of_int (Z.quot d Hour))
    (Float64.div (Float64.of_int (Z.rem d Hour)) (Float64.of_int Hour)).

(** ** Strings: byte strings *)
Definition byte_of (a : ascii) : Z := Z.of_N (Ascii.N_of_ascii a).
Definition ascii_of (b : Z) : ascii := Ascii.ascii_of_N (Z.to_N b).
Definition bytes_of (s : string) : list Z := byte_of <$> String.list_ascii_of_string s.
Definition string_of_bytes (l : list Z) : string := String.string_of_list_ascii (ascii_of <$> l).

(** [strings.HasPrefix], [strings.Contains] *)
Definition HasPrefix (s prefix : string) : bool := String.prefix prefix s.
Fixpoint Contains (s sub : string) : bool :=
  HasPrefix s sub || match s with EmptyString => false | String _ s' => Contains s' sub end.

(** [strings.TrimRight(s, "/")] *)
Fixpoint drop_while (p : ascii → bool) (l : list ascii) : list ascii :=
  match l with
  | [] => []
  | a :: l' => if p a then drop_while p l' else l
  end.
Definition TrimRightSlash (s : string) : string :=
  String.string_of_list_ascii (reverse (drop_while (λ a, bool_decide (a = "/"%char))
    (reverse (String.list_ascii_of_string s)))).

(** ** [unicode/utf8] *)
Module Utf8.
Definition RuneError : Z := 65533.
Definition RuneSelf : Z := 128.

(** Number of bytes of the sequence a leading byte opens, and the range its
    second byte must lie in; [None] for a byte that opens no sequence. *)
Definition lead (b : Z) : option (nat * Z * Z) :=
  if (194 <=? b) && (b <=? 223) then Some (2%nat, 128, 191)
  else if b =? 224 then Some (3%nat, 160, 191)
  else if b =? 237 then Some (3%nat, 128, 159)
  else if (225 <=? b) && (b <=? 239) then Some (3%nat, 128, 191)
  else if b =? 240 then Some (4%nat, 144, 191)
  else if (241 <=? b) && (b <=? 243) then Some (4%nat, 128, 191)
  else if b =? 244 then Some (4%nat, 128, 143)
  else None.

Definition cont (b : Z) : bool := (128 <=? b) && (b <=? 191).
Definition low6 (b : Z) : Z := Z.land b 63.

(** [utf8.DecodeRune]: the rune and the width; [(RuneError, 1)] on an invalid
    encoding, [(RuneError, 0)] on the empty string. *)
Definition DecodeRune (bs : list Z) : Z * nat :=
  match bs with
  | [] => (RuneError, 0%nat)
  | b0 :: tl =>
      if b0 <? RuneSelf then (b0, 1%nat)
      else match lead b0, tl with
           | Some (2%nat, lo, hi), b1 :: _ =>
               if (lo <=? b1) && (b1 <=? hi)
               then (Z.lor (Z.shiftl (Z.land b0 31) 6) (low6 b1), 2%nat)
               else (RuneError, 1%nat)
           | Some (3%nat, lo, hi), b1 :: b2 :: _ =>
               if (lo <=? b1) && (b1 <=? hi) && cont b2
               then (Z.lor (Z.lor (Z.shiftl (Z.land b0 15) 12) (Z.shiftl (low6 b1) 6)) (low6 b2), 3%nat)
               else (RuneError, 1%nat)
           | Some (4%nat, lo, hi), b1 :: b2 :: b3 :: _ =>
               if (lo <=? b1) && (b1 <=? hi) && cont b2 && cont b3
               then (Z.lor (Z.lor (Z.shiftl (Z.land b0 7) 18) (Z.shiftl (low6 b1) 12))
                           (Z.lor (Z.shiftl (low6 b2) 6) (low6 b3)), 4%nat)
               else (RuneError, 1%nat)
           | _, _ => (RuneError, 1%nat)
           end
  end.

(** The runes of a byte sequence; one step per byte is fuel enough because
    every rune is at least one byte wide. *)
Fixpoint runes_fuel (fuel : nat) (bs : list Z) : list Z :=
  match fuel, bs with
  | S fuel', _ :: _ => let '(r, size) := DecodeRune bs in r :: runes_fuel fuel' (drop size bs)
  | _, _ => []
  end.
Definition runes (bs : list Z) : list Z := runes_fuel (length bs) bs.

Definition RuneCountInString (s : string) : Z := Z.of_nat (length (runes (bytes_of s))).

(** [utf8.ValidString] *)
Fixpoint valid_fuel (fuel : nat) (bs : list Z) : bool :=
  match fuel, bs with
  | S fuel', _ :: _ => let '(r, size) := DecodeRune bs in
                       negb ((r =? RuneError) && (size =? 1)%nat) && valid_fuel fuel' (drop size bs)
  | _, _ => true
  end.
Definition ValidString (s : string) : bool := valid_fuel (String.length s) (bytes_of s).

(** [unicode.IsSpace] *)
Definition IsSpace (r : Z) : bool :=
  bool_decide (r ∈ [9; 10; 11; 12; 13; 32; 133; 160; 5760; 8232; 8233; 8239; 8287; 12288])
  || ((8192 <=? r) && (r <=? 8202)).

(** [strings.TrimSpace]; the suffix of space runes starts at a rune boundary
    because no encoding of a space runs into the bytes before it. *)
Fixpoint trim_left (fuel : nat) (bs : list Z) : list Z :=
  match fuel, bs with
  | S fuel', _ :: _ => let '(r, size) := DecodeRune bs in
                       if IsSpace r then trim_left fuel' (drop size bs) else bs
  | _, _ => bs
  end.
Fixpoint trim_right (fuel : nat) (bs : list Z) : list Z :=
  match fuel with
  | S fuel' => if forallb IsSpace (runes bs) then []
               else let size := snd (DecodeRune bs) in take size bs ++ trim_right fuel' (drop size bs)
  | O => bs
  end.
Definition TrimSpace (s : string) : string :=
  let bs := bytes_of s in
  let l := trim_left (length bs) bs in
  string_of_bytes (trim_right (S (length l)) l).

(** [strings.TrimSpace(s)] is empty. *)
Definition blank (s : string) : bool := forallb IsSpace (runes (bytes_of s)).
End Utf8.

(** ** [strconv.ParseInt(s, 10, 64)] (and [strconv.Atoi])

    The value and whether the parse failed.  As in Go the value is also defined
    on failure: 0 on a syntax error, the nearest bound on a range error. *)
Definition digit (b : Z) : option Z := if (48 <=? b) && (b <=? 57) then Some (b - 48) else None.

Fixpoint digits_value (acc : Z) (bs : list Z) : option Z :=
  match bs with
  | [] => Some acc
  | b :: bs' => match digit b with Some d => digits_value (10 * acc + d) bs' | None => None end
  end.

Definition ParseInt (s : string) : Z * bool :=
  let '(neg, ds) := match bytes_of s with
                    | 43 :: l => (false, l)
                    | 45 :: l => (true, l)
                    | l => (false, l)
                    end in
  match ds with
  | [] => (0, false)
  | _ => match digits_value 0 ds with
         | None => (0, false)
         | Some v =>
             if neg then (if 2 ^ 63 <? v then (min_int64, false) else (- v, true))
             else (if max_int64 <? v then (max_int64, false) else (v, true))
         end
  end.

(** [strconv.ParseBool] *)
Definition ParseBool (s : string) : option bool :=
  if bool_decide (s ∈ ["1"; "t"; "T"; "TRUE"; "true"; "True"]%string) then Some true
  else if bool_decide (s ∈ ["0"; "f"; "F"; "FALSE"; "false"; "False"]%string) then Some false
  else None.

(** [time.ParseDuration] *)
Module DurationText.
Definition is_digit (b : Z) : bool := (48 <=? b) && (b <=? 57).
Definition limit : Z := 2 ^ 63.

(** Consume [[0-9]*]; [None] is overflow. *)
Fixpoint leadingInt (x : Z) (s : list Z) : option (Z * list Z) :=
  match s with
  | b :: s' =>
      if is_digit b
      then if limit / 10 <? x then None
           else let x' := x * 10 + (b - 48) in if limit <? x' then None else leadingInt x' s'
      else Some (x, s)
  | [] => Some (x, s)
  end.

(** Consume the digits of a fraction: their value and scale, ignoring those
    that would overflow. *)
Fixpoint leadingFraction (x scale : Z) (overflow : bool) (s : list Z) : Z * Z * list Z :=
  match s with
  | b :: s' =>
      if is_digit b
      then if overflow || ((limit - 1) / 10 <? x) then leadingFraction x scale true s'
           else let y := x * 10 + (b - 48) in
                if limit <? y then leadingFraction x scale true s' else leadingFraction y (scale * 10) false s'
      else (x, scale, s)
  | [] => (x, scale, s)
  end.

Fixpoint split_unit (s : list Z) : list Z * list Z :=
  match s with
  | b :: s' => if (b =? 46) || is_digit b then ([], s) else let '(u, r) := split_unit s' in (b :: u, r)
  | [] => ([], [])
  end.

Definition unit_of (u : list Z) : option Z :=
  let us := ((λ p, (bytes_of p.1, p.2)) <$>
    [("ns"%string, 1); ("us"%string, 1000); ("ms"%string, 1000000);
     ("s"%string, Second); ("m"%string, Minute); ("h"%string, Hour)])
    ++ [([194; 181; 115], 1000); ([206; 188; 115], 1000)] in   (* the two spellings of microseconds *)
  snd <$> head (filter (λ p, p.1 = u) us).

(** One step per component of the text; its length is fuel enough. *)
Fixpoint components (fuel : nat) (d : Z) (s : list Z) : option Z :=
  match s with
  | [] => Some d
  | b :: _ =>
      match fuel with
      | O => None
      | S fuel' =>
          if negb ((b =? 46) || is_digit b) then None else
          match leadingInt 0 s with
          | None => None
          | Some (v, s1) =>
              let pre := negb (Nat.eqb (length s1) (length s)) in
              let '(f, scale, s2, post) :=
                match s1 with
                | 46 :: s1' => let '(f, scale, s2) := leadingFraction 0 1 false s1' in
                               (f, scale, s2, negb (Nat.eqb (length s2) (length s1')))
                | _ => (0, 1, s1, false)
                end in
              if negb pre && negb post then None else
              let '(u, s3) := split_unit s2 in
              match u, unit_of u with
              | _ :: _, Some unit =>
                  if limit / unit <? v then None else
                  let frac := if 0 <? f
                              then Float64.trunc (Float64.mul (Float64.of_int f)
                                     (Float64.div (Float64.of_int unit) (Float64.of_int scale)))
                              else 0 in
                  let v' := v * unit + frac in
                  if limit <? v' then None
                  else if limit <? d + v' then None
                  else components fuel' (d + v') s3
              | _, _ => None
              end
          end
      end
  end.

Definition ParseDuration (text : string) : option Duration :=
  let '(neg, s) := match bytes_of text with
                   | 45 :: s => (true, s)
                   | 43 :: s => (false, s)
                   | s => (false, s)
                   end in
  if bool_decide (s = [48]) then Some 0
  else match s with
       | [] => None
       | _ => match components (length s) 0 s with
              | None => None
              | Some d => if neg then Some (- d) else if limit - 1 <? d then None else Some d
              end
       end.
End DurationText.

(** [strconv.Itoa] *)
Definition Itoa (n : Z) : string := pretty.pretty n.

(** [fmt.Fprintf("%04x", n)]: at least four lowercase hexadecimal digits. *)
Definition hex_digit (n : Z) : Z := if (n <? 10) then (48 + n) else (87 + n).
Definition hex04 (n : Z) : list Z :=
  [hex_digit (Z.land (Z.shiftr n 12) 15); hex_digit (Z.land (Z.shiftr n 8) 15);
   hex_digit (Z.land (Z.shiftr n 4) 15); hex_digit (Z.land n 15)].
Definition unicode_escape (n : Z) : list Z := 92 :: 117 :: hex04 n.

(** ** JSON documents in decoded form

    Numbers keep their literal, as [encoding/json] does until it knows the type
    of the destination; object members keep their order and duplicates. *)
Inductive json :=
| JNull
| JBool (b : bool)
| JNum (literal : string)
| JStr (s : string)
| JArr (l : list json)
| JObj (members : list (string * json)).

(** Member names match a struct field case-insensitively (ASCII fold; the two
    non-ASCII runes that fold to ASCII letters, U+017F and U+212A, included). *)
Definition fold_byte (b : Z) : Z := if (65 <=? b) && (b <=? 90) then b + 32 else b.
Fixpoint fold_name (bs : list Z) : list Z :=
  match bs with
  | 197 :: 191 :: l => 115 :: fold_name l
  | 226 :: 132 :: 170 :: l => 107 :: fold_name l
  | b :: l => fold_byte b :: fold_name l
  | [] => []
  end.
Definition same_field (a b : string) : bool :=
  bool_decide (fold_name (bytes_of a) = fold_name (bytes_of b)).

(** The members of the document a struct is decoded from: [null] leaves the
    struct alone, anything but an object is a type error. *)
Definition struct_members (j : json) : option (list (string * json)) :=
  match j with
  | JObj ms => Some ms
  | JNull => Some []
  | _ => None
  end.

(** Decode the members named like the field, in document order, into a value
    (a later duplicate wins; [null] leaves a non-pointer alone and sets a
    pointer to nil).  [None] is a decode error. *)
Section fields.
Context {A : Type} (dec : json → option A).

Definition set_value (cur : option A) (j : json) : option A :=
  match j with JNull => cur | _ => dec j end.
Definition set_pointer (cur : option (option A)) (j : json) : option (option A) :=
  match cur with
  | None => None
  | Some _ => match j with JNull => Some None | _ => Some <$> dec j end
  end.

Definition field_members (name : string) (ms : list (string * json)) : list json :=
  snd <$> filter (λ m, same_field m.1 name = true) ms.
Definition value_field (name : string) (zero : A) (ms : list (string * json)) : option A :=
  foldl (λ cur j, match cur with Some _ => set_value cur j | None => None end)
    (Some zero) (field_members name ms).
Definition pointer_field (name : string) (ms : list (string * json)) : option (option A) :=
  foldl set_pointer (Some None) (field_members name ms).
End fields.

Definition json_string (j : json) : option string :=
  match j with JStr s => Some s | _ => None end.
Definition json_int (j : json) : option Z :=
  match j with
  | JNum l => let '(v, ok) := ParseInt l in if ok then Some v else None
  | _ => None
  end.
Definition json_strings (j : json) : option (list string) :=
  match j with
  | JArr l => mapM (λ x, match x with JNull => Some EmptyString | _ => json_string x end) l
  | _ => None
  end.

(** ** UUIDs

    [github.com/google/uuid]: 16 bytes, read as one number, with a text form. *)
Record uuid := Uuid { uuid_N : N; uuid_16_bytes : (uuid_N <? 2 ^ 128)%N = true }.
Lemma uuid_eq u v : uuid_N u = uuid_N v → u = v.
Proof. destruct u as [n p], v as [m q]. simpl. intros <-. f_equal. apply (proof_irrel p q). Qed.
#[export] Instance uuid_eq_dec : EqDecision uuid.
Proof.
  refine (λ u v, match decide (uuid_N u = uuid_N v) with left e => left _ | right n => right _ end).
  - by apply uuid_eq.
  - by intros ->.
Defined.

Definition uuid_of_N (n : N) : option uuid :=
  match bool_dec (n <? 2 ^ 128)%N true with left p => Some (Uuid n p) | right _ => None end.
Lemma uuid_of_uuid_N u : uuid_of_N (uuid_N u) = Some u.
Proof.
  unfold uuid_of_N. destruct (bool_dec _ _) as [p|n]; [|by destruct n; apply uuid_16_bytes].
  f_equal. by apply uuid_eq.
Qed.
#[export] Instance uuid_countable : Countable uuid := inj_countable uuid_N uuid_of_N uuid_of_uuid_N.

Definition uuid_Nil : uuid := Uuid 0 eq_refl.

(** Text form of a UUID: [uuid.Parse], [UUID.String], and the [::uuid] cast
    PostgreSQL applies in [app_tenant_id()]. *)
Class UuidLib := {
  uuid_Parse : string → option uuid;
  uuid_String : uuid → string;
  pg_uuid_cast : string → option uuid;
}.
Class UuidLaws (U : UuidLib) := {
  uuid_parse_string : ∀ u, uuid_Parse (uuid_String u) = Some u;
  uuid_cast_string : ∀ u, pg_uuid_cast (uuid_String u) = Some u;
  uuid_string_nonempty : ∀ u, uuid_String u ≠ EmptyString;
}.

Lemma uuid_string_inj `{!UuidLib} {U : UuidLaws _} u v : uuid_String u = uuid_String v → u = v.
Proof. intros Heq. apply (f_equal uuid_Parse) in Heq. rewrite !uuid_parse_string in Heq. by simplify_eq. Qed.

Definition json_uuid `{UuidLib} (j : json) : option uuid :=
  match j with JStr s => uuid_Parse s | _ => None end.

(** [time.Format(time.RFC3339)] and the parser of the same layout, which is
    also how [time.Time] is encoded in JSON. *)
Class TimeText := {
  format_rfc3339 : Time → string;
  parse_rfc3339 : string → option Time;
}.
Definition json_time `{TimeText} (j : json) : option Time :=
  match j with JStr s => parse_rfc3339 s | _ => None end.

(** ** [json.Compact]

    The byte scanner of encoding/json: a state, the stack of open composites, and
    whether the top-level value is complete. *)
Module JsonScan.
Inductive composite := ObjectKey | ObjectValue | ArrayValue.
Inductive state :=
| BeginValue | BeginValueOrEmpty | BeginStringOrEmpty | BeginString
| EndValue | EndTop
| InString | InStringEsc | InStringEscU (left : nat)
| Neg | Num0 | Num1 | Dot | Dot0 | Exp | ExpSign | Exp0
| Literal (rest : list Z).

Definition maxNestingDepth : nat := 10000.

Definition is_space (c : Z) : bool := bool_decide (c ∈ [32; 9; 13; 10]).
Definition is_digit (c : Z) : bool := (48 <=? c) && (c <=? 57).
Definition is_digit19 (c : Z) : bool := (49 <=? c) && (c <=? 57).
Definition is_hex (c : Z) : bool :=
  is_digit c || ((97 <=? c) && (c <=? 102)) || ((65 <=? c) && (c <=? 70)).

(** The next state and stack, and whether the byte is kept. *)
Definition outcome : Type := option (state * list composite * bool).

Definition push (p : composite) (s : state) (st : list composite) : outcome :=
  if bool_decide (length st < maxNestingDepth)%nat then Some (s, p :: st, true) else None.
Definition pop (st : list composite) : outcome :=
  Some (if bool_decide (st = []) then EndTop else EndValue, st, true).

Definition step_end_value (st : list composite) (c : Z) : outcome :=
  match st with
  | [] => if is_space c then Some (EndTop, [], false) else None
  | p :: st' =>
      if is_space c then Some (EndValue, st, false)
      else match p with
           | ObjectKey => if c =? 58 then Some (BeginValue, ObjectValue :: st', true) else None
           | ObjectValue => if c =? 44 then Some (BeginString, ObjectKey :: st', true)
                            else if c =? 125 then pop st' else None
           | ArrayValue => if c =? 44 then Some (BeginValue, st, true)
                           else if c =? 93 then pop st' else None
           end
  end.

Definition step_begin_value (st : list composite) (c : Z) : outcome :=
  if is_space c then Some (BeginValue, st, false)
  else if c =? 123 then push ObjectKey BeginStringOrEmpty st
  else if c =? 91 then push ArrayValue BeginValueOrEmpty st
  else if c =? 34 then Some (InString, st, true)
  else if c =? 45 then Some (Neg, st, true)
  else if c =? 48 then Some (Num0, st, true)
  else if c =? 116 then Some (Literal [114; 117; 101], st, true)
  else if c =? 102 then Some (Literal [97; 108; 115; 101], st, true)
  else if c =? 110 then Some (Literal [117; 108; 108], st, true)
  else if is_digit19 c then Some (Num1, st, true)
  else None.

Definition step_begin_string (st : list composite) (c : Z) : outcome :=
  if is_space c then Some (BeginString, st, false)
  else if c =? 34 then Some (InString, st, true) else None.

Definition step (s : state) (st : list composite) (c : Z) : outcome :=
  match s with
  | BeginValue => step_begin_value st c
  | BeginValueOrEmpty =>
      if is_space c then Some (BeginValueOrEmpty, st, false)
      else if c =? 93 then step_end_value st c else step_begin_value st c
  | BeginStringOrEmpty =>
      if is_space c then Some (BeginStringOrEmpty, st, false)
      else if c =? 125
      then match st with _ :: st' => step_end_value (ObjectValue :: st') c | [] => None end
      else step_begin_string st c
  | BeginString => step_begin_string st c
  | EndValue => step_end_value st c
  | EndTop => if is_space c then Some (EndTop, st, false) else None
  | InString =>
      if c =? 34 then Some (EndValue, st, true)
      else if c =? 92 then Some (InStringEsc, st, true)
      else if c <? 32 then None else Some (InString, st, true)
  | InStringEsc =>
      if bool_decide (c ∈ [98; 102; 110; 114; 116; 92; 47; 34]) then Some (InString, st, true)
      else if c =? 117 then Some (InStringEscU 3, st, true) else None
  | InStringEscU n =>
      if is_hex c then Some (match n with O => InString | S n' => InStringEscU n' end, st, true) else None
  | Neg => if c =? 48 then Some (Num0, st, true) else if is_digit19 c then Some (Num1, st, true) else None
  | Num1 => if is_digit c then Some (Num1, st, true)
            else if c =? 46 then Some (Dot, st, true)
            else if (c =? 101) || (c =? 69) then Some (Exp, st, true) else step_end_value st c
  | Num0 => if c =? 46 then Some (Dot, st, true)
            else if (c =? 101) || (c =? 69) then Some (Exp, st, true) else step_end_value st c
  | Dot => if is_digit c then Some (Dot0, st, true) else None
  | Dot0 => if is_digit c then Some (Dot0, st, true)
            else if (c =? 101) || (c =? 69) then Some (Exp, st, true) else step_end_value st c
  | Exp => if (c =? 43) || (c =? 45) then Some (ExpSign, st, true)
           else if is_digit c then Some (Exp0, st, true) else None
  | ExpSign => if is_digit c then Some (Exp0, st, true) else None
  | Exp0 => if is_digit c then Some (Exp0, st, true) else step_end_value st c
  | Literal (x :: rest) =>
      if c =? x then Some (match rest with [] => EndValue | _ => Literal rest end, st, true) else None
  | Literal [] => None
  end.

(** At the end of the input a blank completes a trailing number. *)
Definition at_eof (s : state) (st : list composite) : bool :=
  match s with
  | EndTop => true
  | _ => match step s st 32 with Some (EndTop, _, _) => true | _ => false end
  end.

Fixpoint scan (s : state) (st : list composite) (src : list Z) : option (list Z) :=
  match src with
  | [] => if at_eof s st then Some [] else None
  | c :: src' =>
      match step s st c with
      | Some (s', st', keep) =>
          match scan s' st' src' with
          | Some out => Some (if keep : bool then c :: out else out)
          | None => None
          end
      | None => None
      end
  end.
Definition Compact (src : list Z) : option (list Z) := scan BeginValue [] src.
End JsonScan.
