(* ===== verification/Domain.v ===== *)
(** * Package [internal/core/domain] and [pkg/requestctx]

    The entities, the error catalogue, the event payloads and the
    gateway-asserted identity, field by field. *)
From S2P Require Import Prelude GoLib.
Local Open Scope Z_scope.

(** ** delegation.go *)

(** Go string types: any string is a value, the constants are the known ones. *)
Definition DelegationScope := string.
Definition ScopeAll : DelegationScope := "all".
Definition ScopeDepartment : DelegationScope := "department".
Definition ScopeTender : DelegationScope := "tender".

Definition DelegationStatus := string.
Definition DelegationScheduled : DelegationStatus := "scheduled".
Definition DelegationActive : DelegationStatus := "active".
Definition DelegationEnded : DelegationStatus := "ended".
Definition DelegationCancelled : DelegationStatus := "cancelled".

Definition EndReason := string.
Definition EndReasonExpired : EndReason := "expired".
Definition EndReasonCancelled : EndReason := "cancelled".
Definition EndReasonReassigned : EndReason := "reassigned".
Definition EndReasonDelegateRemoved : EndReason := "delegate_removed".
Definition EndReasonReviewExpired : EndReason := "review_expired".
Definition EndReasonDelegateDisabled : EndReason := "delegate_disabled".

Record Delegation := mkDelegation {
  ID : uuid;
  TenantID : uuid;
  DelegatorID : uuid;
  DelegateID : uuid;
  DelegatorMembershipID : uuid;
  DelegateMembershipID : uuid;
  Scope : DelegationScope;
  ScopeID : option uuid;
  Reason : string;
  StartsAt : Time;
  EndsAt : option Time;
  Status : DelegationStatus;
  RecordVersion : Z;
  CreatedAt : Time;
  UpdatedAt : Time;
  DeletedAt : option Time;
  ReviewDueAt : option Time;
  ReviewLastWarnedBucket : option Z;
  ReviewWindowDays : option Z;
}.

#[export] Instance Delegation_eq_dec : EqDecision Delegation.
Proof.
  intros [] [].
  unfold Decision.
  repeat (decide equality; try apply uuid_eq_dec; try apply String.string_dec; try apply Z.eq_dec).
Defined.

(** ** errors.go *)

(** The package-level [errors.New] sentinels: distinct pointers. *)
Inductive Sentinel :=
| ErrValidation
| ErrMissingIdentity
| ErrInsufficientRole
| ErrOptimisticLockConflict
| ErrInvalidDelegationScope
| ErrInvalidDelegationMaxDurationDays
| ErrInvalidDelegationReviewWindow
| ErrDelegationNotFound
| ErrIdempotencyKeyInFlight
| ErrScopeIDRequired
| ErrInvalidScopeID
| ErrSelfDelegation
| ErrInvalidDelegate
| ErrDelegateUnavailable
| ErrReasonTooLong
| ErrDelegationWindowInverted
| ErrDelegationWindowTooLong
| ErrDelegationStartInPast
| ErrDelegationStartTooFarFuture
| ErrNotReviewTracked
| ErrExtendDaysOutOfRange
| ErrOrgMembershipUnavailable
| ErrUserProfileUnavailable
| ErrCatalogAdminUnavailable
| ErrDBUnavailable.

#[export] Instance Sentinel_eq_dec : EqDecision Sentinel.
Proof. solve_decision. Defined.

(** The text of a sentinel, which is the wire code. *)
Definition wire_code (s : Sentinel) : string :=
  match s with
  | ErrValidation => "validation_error"
  | ErrMissingIdentity => "missing_identity_headers"
  | ErrInsufficientRole => "insufficient_role"
  | ErrOptimisticLockConflict => "optimistic_lock_conflict"
  | ErrInvalidDelegationScope => "invalid_delegation_scope"
  | ErrInvalidDelegationMaxDurationDays => "invalid_delegation_max_duration_days"
  | ErrInvalidDelegationReviewWindow => "invalid_delegation_review_window_days"
  | ErrDelegationNotFound => "delegation_not_found"
  | ErrIdempotencyKeyInFlight => "idempotency_key_in_flight"
  | ErrScopeIDRequired => "scope_id_required"
  | ErrInvalidScopeID => "invalid_scope_id"
  | ErrSelfDelegation => "self_delegation"
  | ErrInvalidDelegate => "invalid_delegate"
  | ErrDelegateUnavailable => "delegate_unavailable"
  | ErrReasonTooLong => "reason_too_long"
  | ErrDelegationWindowInverted => "delegation_window_inverted"
  | ErrDelegationWindowTooLong => "delegation_window_too_long"
  | ErrDelegationStartInPast => "delegation_start_in_past"
  | ErrDelegationStartTooFarFuture => "delegation_start_too_far_future"
  | ErrNotReviewTracked => "not_review_tracked"
  | ErrExtendDaysOutOfRange => "extend_days_out_of_range"
  | ErrOrgMembershipUnavailable => "org_membership_unavailable"
  | ErrUserProfileUnavailable => "user_profile_unavailable"
  | ErrCatalogAdminUnavailable => "catalog_admin_unavailable"
  | ErrDBUnavailable => "db_unavailable"
  end.

(** [type Error struct]; [Details] only ever holds integers. *)
Record Error := mkError {
  Code : string;
  Message : string;
  Cause : option Sentinel;
  Details : gmap string Z;
}.

Definition NewErrorValue (sentinel : Sentinel) (message : string) : Error :=
  {| Code := wire_code sentinel; Message := message; Cause := Some sentinel; Details := ∅ |}.

(** A Go [error] value: the dynamic types the service distinguishes. *)
Inductive goerror :=
| EDomain (e : Error)                      (* *domain.Error *)
| EDependencyUnavailable                   (* port.ErrDependencyUnavailable *)
| ESchemaViolation                         (* eventbus.ErrSchemaViolation *)
| EDeadlineExceeded                        (* context.DeadlineExceeded *)
| EPg (sqlstate msg : string)              (* *pgconn.PgError *)
| EClosedPool                              (* puddle.ErrClosedPool *)
| EEOF | EUnexpectedEOF                    (* io.EOF, io.ErrUnexpectedEOF *)
| ENetOp (timeout : bool) (msg : string)   (* *net.OpError *)
| EErrno (name : string)                   (* syscall.Errno *)
| EPlain (msg : string)                    (* errors.New, fmt.Errorf without %w *)
| EWrap (msg : string) (inner : goerror)   (* fmt.Errorf("msg: %w", inner) *)
| EWrap2 (msg : string) (a b : goerror).   (* fmt.Errorf("msg: %w: %w", a, b) *)

Definition NewError (sentinel : Sentinel) (message : string) : goerror :=
  EDomain (NewErrorValue sentinel message).

Definition WithDetails (e : Error) (d : gmap string Z) : Error :=
  {| Code := Code e; Message := Message e; Cause := Cause e; Details := d |}.

(** [err.Error()] *)
Local Open Scope string_scope.
Fixpoint error_text (e : goerror) : string :=
  match e with
  | EDomain d => Code d ++ ": " ++ Message d
  | EDependencyUnavailable => "dependency_unavailable"
  | ESchemaViolation => "inbound payload violates consumed schema"
  | EDeadlineExceeded => "context deadline exceeded"
  | EPg st msg => "ERROR: " ++ msg ++ " (SQLSTATE " ++ st ++ ")"
  | EClosedPool => "closed pool"
  | EEOF => "EOF"
  | EUnexpectedEOF => "unexpected EOF"
  | ENetOp _ msg => msg
  | EErrno name => name
  | EPlain msg => msg
  | EWrap msg inner => msg ++ ": " ++ error_text inner
  | EWrap2 msg a b => msg ++ ": " ++ error_text a ++ ": " ++ error_text b
  end.
Local Close Scope string_scope.

(** [errors.As(err, &de)] for [*domain.Error]: the first one in the chain. *)
Fixpoint as_domain (e : goerror) : option Error :=
  match e with
  | EDomain d => Some d
  | EWrap _ inner => as_domain inner
  | EWrap2 _ a b => match as_domain a with Some d => Some d | None => as_domain b end
  | _ => None
  end.

(** [errors.Is(err, s)] for a sentinel of this package ([Unwrap] gives [Cause]). *)
Fixpoint is_sentinel (s : Sentinel) (e : goerror) : bool :=
  match e with
  | EDomain d => bool_decide (Cause d = Some s)
  | EWrap _ inner => is_sentinel s inner
  | EWrap2 _ a b => is_sentinel s a || is_sentinel s b
  | _ => false
  end.

(** [errors.Is(err, port.ErrDependencyUnavailable)] *)
Fixpoint is_dependency_unavailable (e : goerror) : bool :=
  match e with
  | EDependencyUnavailable => true
  | EWrap _ inner => is_dependency_unavailable inner
  | EWrap2 _ a b => is_dependency_unavailable a || is_dependency_unavailable b
  | _ => false
  end.

(** ** tenant_settings.go *)
Record DelegationTenantSettings := mkSettings {
  ts_TenantID : uuid;
  MaxDurationDays : Z;
  ts_ReviewWindowDays : Z;
  ts_RecordVersion : Z;
  ts_CreatedAt : Time;
  ts_UpdatedAt : Time;
}.
#[export] Instance settings_eq_dec : EqDecision DelegationTenantSettings.
Proof. intros [] []. unfold Decision. repeat (decide equality; try apply uuid_eq_dec; try apply Z.eq_dec). Defined.

Definition DefaultMaxDurationDays : Z := 90.
Definition DefaultReviewWindowDays : Z := 90.
Definition PolicyDaysMin : Z := 1.
Definition PolicyDaysMax : Z := 180.

Definition DefaultDelegationTenantSettings (tenantID : uuid) : DelegationTenantSettings :=
  {| ts_TenantID := tenantID;
     MaxDurationDays := DefaultMaxDurationDays;
     ts_ReviewWindowDays := DefaultReviewWindowDays;
     ts_RecordVersion := 0; ts_CreatedAt := ZeroTime; ts_UpdatedAt := ZeroTime |}.

(** ** event.go, event_payloads.go *)
Definition SystemActorID : uuid := Uuid 2 eq_refl.
Definition EventDelegationStarted : string := "DelegationStarted".
Definition EventDelegationEnded : string := "DelegationEnded".
Definition EventDelegationReviewRequested : string := "DelegationReviewRequested".
Definition EventDelegationEscalationRequested : string := "DelegationEscalationRequested".
Definition EventMembershipRevoked : string := "MembershipRevoked".
Definition EventTenantMembershipsPurged : string := "TenantMembershipsPurged".
Definition EventUserUpdated : string := "UserUpdated".
Definition Source : string := "iam-delegation".

Record DelegationStartedPayload := {
  sp_DelegationID : uuid; sp_TenantID : uuid; sp_DelegatorID : uuid; sp_DelegateID : uuid;
  sp_Scope : DelegationScope; sp_ScopeID : option uuid;
  sp_StartsAt : Time; sp_EndsAt : option Time; sp_ActorID : uuid }.
Record DelegationEndedPayload := {
  ep_DelegationID : uuid; ep_TenantID : uuid; ep_DelegatorID : uuid; ep_DelegateID : uuid;
  ep_Scope : DelegationScope; ep_ScopeID : option uuid;
  ep_EndedReason : EndReason; ep_ActorID : uuid }.
Record DelegationReviewRequestedPayload := {
  rp_DelegationID : uuid; rp_TenantID : uuid; rp_DelegatorID : uuid; rp_DelegateID : uuid;
  rp_Scope : DelegationScope; rp_ScopeID : option uuid;
  rp_DaysRemaining : Z; rp_ActorID : uuid }.
Record DelegationEscalationRequestedPayload := {
  xp_DelegationID : uuid; xp_TenantID : uuid; xp_DelegatorID : uuid; xp_DelegateID : uuid;
  xp_Scope : DelegationScope; xp_ScopeID : option uuid;
  xp_Reason : EndReason; xp_ActorID : uuid }.

(** The [Data any] of a [DomainEvent] holds one of the four payload structs. *)
Inductive EventData :=
| Started (p : DelegationStartedPayload)
| Ended (p : DelegationEndedPayload)
| ReviewRequested (p : DelegationReviewRequestedPayload)
| EscalationRequested (p : DelegationEscalationRequestedPayload).

Record DomainEvent := mkDomainEvent {
  de_Type : string; de_TenantID : uuid; de_Subject : string; de_Actor : string;
  de_OccurredAt : Time; de_Data : EventData;
  de_IPAddress : string; de_UserAgent : string }.

Record MembershipRevokedPayload := { mr_TenantID : uuid; mr_UserID : uuid; mr_ActorID : uuid }.
Record TenantMembershipsPurgedPayload := { tp_TenantID : uuid; tp_ActorID : uuid }.
Record UserUpdatedPayload := {
  uu_UserID : uuid; uu_ChangedFields : list string; uu_Status : option string }.

(** [json.Unmarshal] into the consumed payload structs; [None] is an error. *)
Section consumed.
Context `{UuidLib}.

Definition unmarshal_MembershipRevoked (j : json) : option MembershipRevokedPayload :=
  ms ← struct_members j;
  t ← value_field json_uuid "tenant_id" uuid_Nil ms;
  u ← value_field json_uuid "user_id" uuid_Nil ms;
  a ← value_field json_uuid "actor_id" uuid_Nil ms;
  Some {| mr_TenantID := t; mr_UserID := u; mr_ActorID := a |}.

Definition unmarshal_TenantMembershipsPurged (j : json) : option TenantMembershipsPurgedPayload :=
  ms ← struct_members j;
  t ← value_field json_uuid "tenant_id" uuid_Nil ms;
  a ← value_field json_uuid "actor_id" uuid_Nil ms;
  Some {| tp_TenantID := t; tp_ActorID := a |}.

Definition unmarshal_UserUpdated (j : json) : option UserUpdatedPayload :=
  ms ← struct_members j;
  u ← value_field json_uuid "user_id" uuid_Nil ms;
  c ← value_field json_strings "changed_fields" [] ms;
  s ← pointer_field json_string "status" ms;
  Some {| uu_UserID := u; uu_ChangedFields := c; uu_Status := s |}.
End consumed.

(** ** pkg/requestctx *)
Module requestctx.
Record Context := mkContext {
  UserID : string;
  TenantID : string;
  Roles : list string;
  ClientIP : string;
  UserAgent : string;
}.
Definition HasRole (c : Context) (role : string) : bool := bool_decide (role ∈ Roles c).
Definition IsAdmin (c : Context) : bool := HasRole c "tenant_admin" || HasRole c "tenant_owner".
End requestctx.

(** ** Lemmas *)

(** Two sentinels never share a wire code. *)
Lemma wire_code_inj (s t : Sentinel) : wire_code s = wire_code t → s = t.
Proof. destruct s, t; done. Qed.

Lemma is_sentinel_NewError s t msg : is_sentinel s (NewError t msg) = true ↔ s = t.
Proof. simpl. rewrite bool_decide_eq_true. naive_solver. Qed.
