(* ===== verification/World.v ===== *)
(** * The world the service acts on, and package [internal/core/port]

    [World] is everything a handler can change: the PostgreSQL tables and the
    outbox, the Valkey keyspace, the Prometheus counters, the outbound HTTP
    traffic.  [Env] is everything outside the repository that answers it: clock,
    random UUIDs, database and Valkey outages, HTTP peers, the JSON-Schema
    validator.  An answer may depend on how many interactions came before it
    ([w_step]), so quantifying over [Env] quantifies over every behaviour of
    the outside, failures at any single step included. *)
From S2P Require Import Prelude GoLib Domain.
Local Open Scope Z_scope.

(** ** Outbound HTTP *)
Record HttpRequest := mkHttpRequest {
  hr_Method : string;
  hr_URL : string;
  hr_Headers : list (string * string);
  hr_Body : option json;
}.
(** [client.Do]: a transport error, or a status and a body ([None]: the body is
    not JSON). *)
Inductive HttpOutcome :=
| HttpFailed (e : goerror)
| HttpResponded (status : Z) (body : option json).

(** ** platform-events envelopes *)
Record Envelope (P : Type) := mkEnvelope {
  env_ID : string;
  env_Type : string;
  env_Source : string;
  env_TenantID : string;
  env_Subject : string;
  env_Actor : string;
  env_SchemaVersion : string;
  env_IPAddress : string;
  env_UserAgent : string;
  env_Payload : P;
}.
Arguments mkEnvelope {P}.
Arguments env_ID {P}.
Arguments env_Type {P}.
Arguments env_Source {P}.
Arguments env_TenantID {P}.
Arguments env_Subject {P}.
Arguments env_Actor {P}.
Arguments env_SchemaVersion {P}.
Arguments env_IPAddress {P}.
Arguments env_UserAgent {P}.
Arguments env_Payload {P}.

(** ** Database, key-value store, counters *)
Record Db := mkDb {
  db_delegations : gmap uuid Delegation;
  db_settings : gmap uuid DelegationTenantSettings;
  db_processed : gmap (string * string) Time;   (* (event_id, consumer) -> processed_at *)
  db_outbox : list (Envelope EventData);        (* newest last *)
}.

(** port.IdempotencyRecord *)
Record IdempotencyRecord := mkIdem { ir_DelegationID : uuid; ir_Status : string }.

Inductive kv_value :=
| KVList (l : list Delegation)
| KVIdem (r : IdempotencyRecord)
| KVGarbage.                          (* bytes that decode as neither *)

Record World := mkWorld {
  w_step : nat;
  w_db : Db;
  w_kv : gmap string (kv_value * Time);          (* value and expiry *)
  w_counters : gmap (string * list string) Z;    (* metric name, label values *)
  w_gauge : gmap string Z;
  w_http : list HttpRequest;                     (* requests sent, newest last *)
}.

Definition set_db (d : Db) (w : World) : World :=
  mkWorld (w_step w) d (w_kv w) (w_counters w) (w_gauge w) (w_http w).
Definition set_kv (kv : gmap string (kv_value * Time)) (w : World) : World :=
  mkWorld (w_step w) (w_db w) kv (w_counters w) (w_gauge w) (w_http w).
Definition set_counters (c : gmap (string * list string) Z) (w : World) : World :=
  mkWorld (w_step w) (w_db w) (w_kv w) c (w_gauge w) (w_http w).
Definition set_gauge (g : gmap string Z) (w : World) : World :=
  mkWorld (w_step w) (w_db w) (w_kv w) (w_counters w) g (w_http w).
Definition log_http (r : HttpRequest) (w : World) : World :=
  mkWorld (w_step w) (w_db w) (w_kv w) (w_counters w) (w_gauge w) (w_http w ++ [r]).
Definition next_step (w : World) : World :=
  mkWorld (S (w_step w)) (w_db w) (w_kv w) (w_counters w) (w_gauge w) (w_http w).

Definition M : Type → Type := GoM World goerror.

(** ** The environment *)
Class Env := {
  env_clock : nat → Time;                          (* time.Now *)
  env_uuid : nat → uuid;                           (* uuid.New *)
  env_db_fault : nat → option goerror;             (* BEGIN, a statement, or COMMIT fails *)
  env_others : nat → Db → Db;                      (* what others commit before a BEGIN *)
  env_kv_fault : nat → option goerror;             (* a Valkey command fails *)
  env_http : nat → HttpRequest → HttpOutcome;      (* http.Client.Do *)
  env_url_ok : string → bool;                      (* http.NewRequest accepts the URL *)
  env_schema : string → EventData → option goerror; (* jsonschema, embedded schema of a published type *)
  env_consumed_schema : string → json → option goerror; (* jsonschema, consumed schema *)
  env_metrics_live : bool;                         (* metrics.Live != nil *)
  env_schedule : nat → bool;                       (* which of two goroutines gets ahead *)
}.

Section interact.
Context `{Env}.

Definition tick : M nat := λ w, (Ok (w_step w), next_step w).
Definition time_Now : M Time := n ← tick; mret (env_clock n).
Definition uuid_New : M uuid := n ← tick; mret (env_uuid n).

(** Two goroutines whose results are both awaited: they share no state but the
    counters and the order of the requests, so one overtakes the other. *)
Definition concurrently {A B} (a : M A) (b : M B) : M (result goerror A * result goerror B) :=
  n ← tick;
  if env_schedule n
  then ra ← try a; rb ← try b; mret (ra, rb)
  else rb ← try b; ra ← try a; mret (ra, rb).
End interact.

(** ** Contexts

    The values the service stores in a [context.Context]: the request identity
    (pkg/requestctx), the pgcommon GUC set, the open transaction
    (tx_runner.go) and the transaction's event publisher (event_publisher.go). *)
Inductive Role := AppRole | SysRole.   (* delegation_app (RLS) / delegation_migrator (BYPASSRLS) *)
#[export] Instance Role_eq_dec : EqDecision Role.
Proof. solve_decision. Defined.

Record GUCSet := mkGUC { guc_TenantID : string; guc_UserID : string }.

(** An open transaction: the role of its pool, [app_tenant_id()] as set by
    [SET LOCAL app.tenant_id] at BEGIN, and [now()]. *)
Record Tx := mkTx { tx_role : Role; tx_tenant : option uuid; tx_now : Time }.

(** eventbus.Publisher *)
Record Publisher := mkPublisher { pub_source : string }.

Record Ctx := mkCtx {
  ctx_rc : option requestctx.Context;
  ctx_guc : GUCSet;                     (* the zero set when none is bound *)
  ctx_tx : option Tx;
  ctx_publisher : option Publisher;
}.
Definition background : Ctx := mkCtx None (mkGUC "" "") None None.

Definition WithContext (ctx : Ctx) (rc : requestctx.Context) : Ctx :=
  mkCtx (Some rc) (ctx_guc ctx) (ctx_tx ctx) (ctx_publisher ctx).
Definition FromContext (ctx : Ctx) : option requestctx.Context := ctx_rc ctx.
Definition WithTx (ctx : Ctx) (tx : Tx) : Ctx :=
  mkCtx (ctx_rc ctx) (ctx_guc ctx) (Some tx) (ctx_publisher ctx).
Definition TxFromContext (ctx : Ctx) : option Tx := ctx_tx ctx.
Definition WithEventPublisher (ctx : Ctx) (p : Publisher) : Ctx :=
  mkCtx (ctx_rc ctx) (ctx_guc ctx) (ctx_tx ctx) (Some p).
Definition EventPublisherFromContext (ctx : Ctx) : option Publisher := ctx_publisher ctx.
Definition WithGUCSet (ctx : Ctx) (g : GUCSet) : Ctx :=
  mkCtx (ctx_rc ctx) g (ctx_tx ctx) (ctx_publisher ctx).

(** ** platform-pgcommon

    The errors its predicates single out: connectivity or resource failures
    (SQLSTATE classes 08 and 53), and errors that carry a server error at all;
    and its two transaction runners, the second given the number of attempts
    ([RetryOptions.MaxAttempts]).  The closure of the second assigns captured
    variables: it gets their current values, and its result is what it leaves
    in them.  [Store.PgCommonLaws] says what the runners promise. *)
Class PgCommon := {
  IsConnectionException : goerror → bool;
  IsInsufficientResources : goerror → bool;
  IsPgError : goerror → bool;
  pgcommon_RunInTx : ∀ A : Type, Role → Ctx → (Tx → M A) → M A;
  pgcommon_RunInTxWithRetryOpts : ∀ A : Type, nat → Role → Ctx → A → (Tx → A → M A) → M A;
}.
Arguments pgcommon_RunInTx {_ A}.
Arguments pgcommon_RunInTxWithRetryOpts {_ A}.

(** ** Ports *)

(** delegation_repository.go *)
Record DelegationRepository := {
  repo_List : Ctx → uuid → M (list Delegation);
  repo_ListByDelegator : Ctx → uuid → uuid → M (list Delegation);
  repo_FindByID : Ctx → uuid → uuid → M Delegation;
  repo_Insert : Ctx → Delegation → M Delegation;
  repo_End : Ctx → uuid → uuid → DelegationStatus → Z → M Delegation;
  repo_Activate : Ctx → uuid → uuid → Z → M (option Delegation);
  repo_ExtendReview : Ctx → uuid → uuid → Z → Z → M Delegation;
  repo_ListExpiringBefore : Ctx → Time → Z → M (list Delegation);
  repo_ListScheduledBefore : Ctx → Time → Z → M (list Delegation);
  repo_FindActiveDeptDelegateForUser : Ctx → uuid → uuid → uuid → M (option Delegation);
  repo_FindActiveByDelegator : Ctx → uuid → uuid → M (list Delegation);
  repo_FindDueForDailyWarn : Ctx → Time → Z → M (list Delegation);
  repo_FindDueForAutoEnd : Ctx → Time → Z → M (list Delegation);
  repo_MarkReviewWarned : Ctx → uuid → uuid → Z → Z → M unit;
  repo_EndForUser : Ctx → uuid → uuid → M (list Delegation);
  repo_EndForDisabledDelegate : Ctx → uuid → uuid → M (list Delegation);
  repo_SoftDeleteTenant : Ctx → uuid → M unit;
  repo_HardPurgeSoftDeletedBefore : Ctx → Time → Z → M Z;
}.

(** settings_repository.go *)
Record SettingsRepository := {
  settings_Get : Ctx → uuid → M DelegationTenantSettings;
  settings_Upsert : Ctx → uuid → Z → Z → M DelegationTenantSettings;
  settings_SoftDeleteTenant : Ctx → uuid → M unit;
}.

(** membership_check_client.go, catalog_admin_client.go, tender_scope_client.go *)
Record MembershipCheckClient := { mc_Exists : Ctx → uuid → uuid → M (bool * uuid) }.
Record CatalogAdminClient := { ca_DepartmentActive : Ctx → uuid → M (bool * bool) }.
Record TenderScopeClient := { tc_CheckLive : Ctx → uuid → uuid → M (bool * bool) }.

(** user_profile_client.go *)
Record AvailabilitySnapshot := { av_Status : string; av_OOOUntil : option Time }.
Record SetAvailabilityRequest := mkSetAvailability {
  sa_TenantID : uuid;
  sa_UserID : uuid;
  sa_Status : option string;
  sa_OOOFrom : option Time;
  sa_OOOUntil : option Time;
  sa_DelegateID : option uuid;
  sa_Note : string;
}.
Record UserProfileClient := {
  up_GetAvailability : Ctx → uuid → uuid → M AvailabilitySnapshot;
  up_SetAvailability : Ctx → SetAvailabilityRequest → M unit;
  up_ClearDelegatePointer : Ctx → uuid → uuid → M unit;
}.

(** idempotency_store.go, cache.go *)
Record IdempotencyStore := {
  idem_Get : Ctx → uuid → string → M (option IdempotencyRecord);
  idem_Save : Ctx → uuid → string → IdempotencyRecord → M unit;
  idem_Reserve : Ctx → uuid → string → M bool;
  idem_Release : Ctx → uuid → string → M unit;
}.
Record Cache := {
  cache_GetDelegatorList : Ctx → uuid → uuid → M (option (list Delegation));
  cache_SetDelegatorList : Ctx → uuid → uuid → list Delegation → M unit;
  cache_InvalidateDelegatorList : Ctx → uuid → uuid → M unit;
}.

(** tx_runner.go.  [tx_RunInTx ctx cap fn]: [cap] holds the local variables the
    closure [fn] assigns; [fn] gets their current values and returns the new ones
    (a retried closure sees what an earlier attempt assigned). *)
Record TxRunner := { tx_RunInTx : ∀ A : Type, Ctx → A → (Ctx → A → M A) → M A }.
Arguments tx_RunInTx _ {A}.

(** internal/core/service/metrics.go *)
Record Metrics := {
  m_RecordCreated : string → M unit;
  m_RecordEnded : string → M unit;
  m_RecordIdempotencyHit : M unit;
  m_RecordUPAvailabilityFailure : string → M unit;
}.
