(* ===== verification/MetricsRec.v ===== *)
(** * Package [internal/adapter/outbound/metrics]: instruments, registration, recorders

    The instruments of metrics.go with their names and labels, how [Register]
    puts them on the registerer and which series it creates beforehand, and the
    recorders over the counter and gauge state of the world.  During the
    compatibility period several recorders increment a [platform_*] counter and
    its legacy [iam_delegation_*] twin.  Observations of histograms are not
    modelled; a [*Metrics] that is nil is the [None] of the collaborator that
    holds it. *)
From S2P Require Import Prelude GoLib Domain World.
Local Open Scope string_scope.
Local Open Scope Z_scope.

(** ** Instruments *)
Inductive Kind := Counter | Gauge | Histogram.
(** Name and variable labels, as in [CounterOpts] and its label slice. *)
Record Instrument := mkInstrument { i_Kind : Kind; i_Name : string; i_Labels : list string }.

Definition platformCascadeQueue : string := "delegation-cascade-q".

Module instrument.
Definition platformMessagesReceivedTotal := mkInstrument Counter "platform_messages_received_total" ["queue"].
Definition platformMessagesProcessedTotal := mkInstrument Counter "platform_messages_processed_total" ["queue"].
Definition platformMessagesFailedTotal := mkInstrument Counter "platform_messages_failed_total" ["queue"].
Definition platformDuplicateMessagesTotal := mkInstrument Counter "platform_duplicate_messages_total" ["queue"].
Definition platformDependencyRequestSeconds := mkInstrument Histogram "platform_dependency_request_seconds" ["target_service"; "endpoint"].
Definition platformDependencyErrorsTotal := mkInstrument Counter "platform_dependency_errors_total" ["target_service"; "endpoint"; "outcome"].
Definition createdTotal := mkInstrument Counter "iam_delegation_created_total" ["scope"].
Definition endedTotal := mkInstrument Counter "iam_delegation_ended_total" ["ended_reason"].
Definition activeGauge := mkInstrument Gauge "iam_delegation_active_gauge" ["tenant"].
Definition expiryDeferredTotal := mkInstrument Counter "iam_delegation_expiry_deferred_total" [].
Definition activationDeferredTotal := mkInstrument Counter "iam_delegation_activation_deferred_total" [].
Definition reviewDeferredTotal := mkInstrument Counter "iam_delegation_review_deferred_total" [].
Definition reviewWarnedTotal := mkInstrument Counter "iam_delegation_review_warned_total" ["days_remaining"].
Definition reviewExpiredTotal := mkInstrument Counter "iam_delegation_review_expired_total" [].
Definition membershipCheckDuration := mkInstrument Histogram "iam_delegation_membership_check_duration_seconds" [].
Definition membershipCheckFailuresTotal := mkInstrument Counter "iam_delegation_membership_check_failures_total" [].
Definition upAvailabilityFailuresTotal := mkInstrument Counter "iam_delegation_up_availability_failures_total" ["path"].
Definition idempotencyHitsTotal := mkInstrument Counter "iam_delegation_idempotency_hits_total" [].
Definition dependencyCallDurationSeconds := mkInstrument Histogram "iam_delegation_dependency_call_duration_seconds" ["target_service"; "endpoint"].
Definition dependencyCallFailuresTotal := mkInstrument Counter "iam_delegation_dependency_call_failures_total" ["target_service"; "endpoint"; "outcome"].
Definition cascadeProcessedTotal := mkInstrument Counter "iam_delegation_cascade_processed_total" [].
Definition cascadeDLQTotal := mkInstrument Counter "iam_delegation_cascade_dlq_total" [].
Definition processedEventsDuplicatesTotal := mkInstrument Counter "iam_delegation_processed_events_duplicates_total" ["consumer"].
Definition unknownEventAcknowledgedTotal := mkInstrument Counter "iam_delegation_unknown_event_acknowledged_total" ["consumer"; "event_type"].

(** [platformCollectors] and [svcCollectors], in the order of their registration. *)
Definition platformCollectors : list Instrument :=
  [platformMessagesReceivedTotal; platformMessagesProcessedTotal; platformMessagesFailedTotal;
   platformDuplicateMessagesTotal; platformDependencyRequestSeconds; platformDependencyErrorsTotal].
Definition svcCollectors : list Instrument :=
  [createdTotal; endedTotal; activeGauge; expiryDeferredTotal; activationDeferredTotal; reviewDeferredTotal;
   reviewWarnedTotal; reviewExpiredTotal; membershipCheckDuration; membershipCheckFailuresTotal;
   upAvailabilityFailuresTotal; idempotencyHitsTotal; dependencyCallDurationSeconds; dependencyCallFailuresTotal;
   cascadeProcessedTotal; cascadeDLQTotal; processedEventsDuplicatesTotal; unknownEventAcknowledgedTotal].
End instrument.
Definition instruments : list Instrument := (instrument.platformCollectors ++ instrument.svcCollectors)%list.

(** A series: the name of a metric and its label values. *)
Abbreviation Series := (string * list string)%type.
Definition series (i : Instrument) (labels : list string) : Series := (i_Name i, labels).

(** ** Registration

    The registerer, its wrapper and gincommon's constant labels are parameters. *)
Abbreviation Labels := (gmap string string).
Record Desc := mkDesc { d_instrument : Instrument; d_ConstLabels : Labels }.
Definition d_Name (d : Desc) : string := i_Name (d_instrument d).

Class Registerer := {
  Registry : Type;
  registered : Registry → list Desc;
  reg_Register : Desc → Registry → result goerror Registry;
  reg_RegisterWith : Labels → Desc → Registry → result goerror Registry;   (* WrapRegistererWith *)
  MetricsConstLabels : Labels }.

(** The documented checks of a descriptor: names of metrics and labels, no label
    twice, constant values in UTF-8. *)
Definition is_alpha (a : ascii) : bool :=
  let b := byte_of a in ((65 <=? b) && (b <=? 90)) || ((97 <=? b) && (b <=? 122)) || (b =? 95).
Definition is_digit (a : ascii) : bool := let b := byte_of a in (48 <=? b) && (b <=? 57).
Definition valid_name (s : string) : bool :=
  match String.list_ascii_of_string s with
  | [] => false
  | a :: l => is_alpha a && forallb (λ a, is_alpha a || is_digit a) l
  end.
Definition valid_label (s : string) : bool := valid_name s && negb (HasPrefix s "__").
Definition valid_desc (d : Desc) : bool :=
  valid_name (d_Name d)
  && forallb valid_label (i_Labels (d_instrument d))
  && bool_decide (NoDup (i_Labels (d_instrument d)))
  && bool_decide (map_Forall (λ l v, valid_label l = true ∧ l ∉ i_Labels (d_instrument d) ∧ Utf8.ValidString v = true)
       (d_ConstLabels d)).

(** A valid descriptor whose name is not taken is registered, and only that. *)
Class RegistererLaws (G : Registerer) : Prop := {
  Register_ok d r : valid_desc d = true → d_Name d ∉ d_Name <$> registered r →
    ∃ r', reg_Register d r = Ok r' ∧ registered r' = (registered r ++ [d])%list;
  Register_taken d d' r : d' ∈ registered r → d_Name d' = d_Name d → d_ConstLabels d' = d_ConstLabels d →
    ∃ e, reg_Register d r = Err e;
  Register_wrapped ls i r : reg_RegisterWith ls (mkDesc i ∅) r = reg_Register (mkDesc i ls) r }.

Record RegisterConfig := mkRegisterConfig { rc_Environment : string }.

(** [knownEndpoints] *)
Definition knownEndpoints (targetService : string) : list string :=
  if bool_decide (targetService = "org_membership") then ["i15_member_exists"]
  else if bool_decide (targetService = "user_profile")
  then ["get_availability"; "set_availability"; "clear_delegate_pointer"]
  else if bool_decide (targetService = "catalog_admin") then ["cat7_dept_active"]
  else [].

(** The series [registerOn] creates with value 0, loop by loop. *)
Definition preinitialised : list Series :=
  ((q ← [platformCascadeQueue];
    [series instrument.platformMessagesReceivedTotal [q]; series instrument.platformMessagesProcessedTotal [q];
     series instrument.platformMessagesFailedTotal [q]; series instrument.platformDuplicateMessagesTotal [q]])
   ++ ((λ scope, series instrument.createdTotal [scope]) <$> ["all"; "department"; "tender"])
   ++ ((λ reason, series instrument.endedTotal [reason]) <$>
        ["expired"; "cancelled"; "reassigned"; "delegate_removed"; "review_expired"; "delegate_disabled"])
   ++ ((λ days, series instrument.reviewWarnedTotal [days]) <$> ["3"; "2"; "1"])
   ++ ((λ consumer, series instrument.processedEventsDuplicatesTotal [consumer]) <$>
        ["cascade"; "offboarding"; "delegate_disable"])
   ++ (svc ← ["org_membership"; "user_profile"; "catalog_admin"];
       ep ← knownEndpoints svc;
       [series instrument.platformDependencyRequestSeconds [svc; ep];
        series instrument.dependencyCallDurationSeconds [svc; ep]]
       ++ (outcome ← ["timeout"; "5xx"];
           [series instrument.platformDependencyErrorsTotal [svc; ep; outcome];
            series instrument.dependencyCallFailuresTotal [svc; ep; outcome]])))%list.

Section registration.
Context `{Registerer}.

Definition gincommonLabels : option Labels :=
  if bool_decide (MetricsConstLabels = ∅) then None else Some MetricsConstLabels.
Definition extendedServiceLabels (env : string) : Labels :=
  let out := default ∅ gincommonLabels in
  if bool_decide (env = "") then out else <["environment" := env]> out.
Definition platformLabels (env : string) : Labels :=
  <["domain" := "iam"]> (<["service" := "iam-delegation"]> {["environment" := env]}).

(** Register one after the other; the first failure stops, what is registered stays. *)
Fixpoint register_all (register : Desc → Registry → result goerror Registry) (ds : list Desc) (r : Registry)
    : result goerror unit * Registry :=
  match ds with
  | [] => (Ok tt, r)
  | d :: ds' =>
      match register d r with
      | Ok r' => register_all register ds' r'
      | Err e => (Err e, r)
      end
  end.

Definition registerOn (cfg : RegisterConfig) (r : Registry) : result goerror (list Series) * Registry :=
  let svcLabels := extendedServiceLabels (rc_Environment cfg) in
  match register_all (reg_RegisterWith (platformLabels (rc_Environment cfg)))
          ((λ i, mkDesc i ∅) <$> instrument.platformCollectors) r with
  | (Err e, r1) => (Err e, r1)
  | (Ok _, r1) =>
      match register_all reg_Register ((λ i, mkDesc i svcLabels) <$> instrument.svcCollectors) r1 with
      | (Err e, r2) => (Err e, r2)
      | (Ok _, r2) => (Ok preinitialised, r2)
      end
  end.

(** [Register], once per process: it panics with [registerErr] on this and every
    further call. *)
Record Bootstrap := mkBootstrap {
  registerOnce : bool; registerErr : option goerror; Live : option (list Series); b_registry : Registry }.
Definition Register (cfg : RegisterConfig) (b : Bootstrap) : result goerror (option (list Series)) * Bootstrap :=
  let b' := if registerOnce b then b
            else match registerOn cfg (b_registry b) with
                 | (Ok m, r) => mkBootstrap true None (Some m) r
                 | (Err e, r) => mkBootstrap true (Some e) None r
                 end in
  (match registerErr b' with Some e => Err e | None => Ok (Live b') end, b').
End registration.

(** ** Recorders *)
Section recorders.
Context `{Env}.

(** [counterVec.WithLabelValues(labels...).Inc()] *)
Definition bump (c : gmap (string * list string) Z) (name : string) (labels : list string)
    : gmap (string * list string) Z :=
  <[(name, labels) := default 0 (c !! (name, labels)) + 1]> c.
Definition inc (name : string) (labels : list string) : M unit :=
  modify (λ w, set_counters (bump (w_counters w) name labels) w).
Definition count (w : World) (name : string) (labels : list string) : Z :=
  default 0 (w_counters w !! (name, labels)).

Definition RecordMessageReceived (queue : string) : M unit :=
  inc (i_Name instrument.platformMessagesReceivedTotal) [queue].
Definition RecordCreated (scope : string) : M unit :=
  inc (i_Name instrument.createdTotal) [scope].
Definition RecordEnded (reason : string) : M unit :=
  inc (i_Name instrument.endedTotal) [reason].
(** [Reset] and one [Set] per tenant of the snapshot. *)
Definition ReplaceActiveGauges (counts : gmap string Z) : M unit :=
  modify (λ w, set_gauge counts w).
Definition RecordExpiryDeferred : M unit := inc (i_Name instrument.expiryDeferredTotal) [].
Definition RecordActivationDeferred : M unit := inc (i_Name instrument.activationDeferredTotal) [].
Definition RecordReviewDeferred : M unit := inc (i_Name instrument.reviewDeferredTotal) [].
Definition RecordReviewWarned (daysRemaining : string) : M unit :=
  inc (i_Name instrument.reviewWarnedTotal) [daysRemaining].
Definition RecordReviewExpired : M unit := inc (i_Name instrument.reviewExpiredTotal) [].
Definition RecordMembershipCheckFailure : M unit :=
  inc (i_Name instrument.membershipCheckFailuresTotal) [].
Definition RecordUPAvailabilityFailure (path : string) : M unit :=
  inc (i_Name instrument.upAvailabilityFailuresTotal) [path].
Definition RecordIdempotencyHit : M unit := inc (i_Name instrument.idempotencyHitsTotal) [].
Definition RecordCascadeProcessed : M unit :=
  _ ← inc (i_Name instrument.platformMessagesProcessedTotal) [platformCascadeQueue];
  inc (i_Name instrument.cascadeProcessedTotal) [].
Definition RecordCascadeDLQ : M unit :=
  _ ← inc (i_Name instrument.platformMessagesFailedTotal) [platformCascadeQueue];
  inc (i_Name instrument.cascadeDLQTotal) [].
Definition RecordProcessedEventsDuplicate (consumer : string) : M unit :=
  _ ← inc (i_Name instrument.platformDuplicateMessagesTotal) [platformCascadeQueue];
  inc (i_Name instrument.processedEventsDuplicatesTotal) [consumer].
Definition RecordUnknownEventAcknowledged (consumer eventType : string) : M unit :=
  inc (i_Name instrument.unknownEventAcknowledgedTotal) [consumer; eventType].

Definition Metrics_IncDependencyError (targetService endpoint outcome : string) : M unit :=
  _ ← inc (i_Name instrument.platformDependencyErrorsTotal) [targetService; endpoint; outcome];
  inc (i_Name instrument.dependencyCallFailuresTotal) [targetService; endpoint; outcome].

(** The package-level helper, a no-op until [Live] is set. *)
Definition IncDependencyError (targetService endpoint outcome : string) : M unit :=
  if env_metrics_live then Metrics_IncDependencyError targetService endpoint outcome else mret tt.

(** [errors.As] for [net.Error] finds the first of the chain;
    [context.DeadlineExceeded] is itself a [net.Error] that times out. *)
Fixpoint as_net_error (e : goerror) : option bool :=
  match e with
  | ENetOp timeout _ => Some timeout
  | EDeadlineExceeded => Some true
  | EErrno name => Some (bool_decide (name ∈ ["EAGAIN"; "EWOULDBLOCK"; "ETIMEDOUT"]))
  | EWrap _ inner => as_net_error inner
  | EWrap2 _ a b => match as_net_error a with Some t => Some t | None => as_net_error b end
  | _ => None
  end.
Fixpoint is_deadline (e : goerror) : bool :=
  match e with
  | EDeadlineExceeded => true
  | EWrap _ inner => is_deadline inner
  | EWrap2 _ a b => is_deadline a || is_deadline b
  | _ => false
  end.
Definition DependencyOutcome (e : goerror) : string :=
  if match as_net_error e with Some t => t | None => false end then "timeout"
  else if is_deadline e then "timeout"
  else "5xx".

(** [*metrics.Metrics] as the services' recorder (service/metrics.go). *)
Definition NewMetrics : Metrics :=
  {| m_RecordCreated := RecordCreated;
     m_RecordEnded := RecordEnded;
     m_RecordIdempotencyHit := RecordIdempotencyHit;
     m_RecordUPAvailabilityFailure := RecordUPAvailabilityFailure |}.

End recorders.

(** ** What a program may do to its counters

    Counters never fall, only series of registered counters with the right
    number of labels are touched ([WithLabelValues] would panic on another), and
    a [platform_*] counter moves with its legacy twin. *)
Abbreviation Counters := (gmap Series Z).
Definition count_of (c : Counters) (k : Series) : Z := default 0 (c !! k).
Definition known (k : Series) : bool :=
  existsb (λ i, match i_Kind i with Counter => true | _ => false end && bool_decide (i_Name i = k.1)
                && (length (i_Labels i) =? length k.2)%nat) instruments.
Lemma known_instrument name labels : known (name, labels) = true →
  ∃ i, i ∈ instruments ∧ i_Kind i = Counter ∧ i_Name i = name ∧ length (i_Labels i) = length labels.
Proof.
  unfold known. rewrite existsb_exists. intros (i & Hi & Hk). exists i.
  rewrite <- list_elem_of_In in Hi. destruct (i_Kind i) eqn:?; try done.
  apply andb_true_iff in Hk as [Hn Hl]. apply bool_decide_eq_true in Hn. by apply Nat.eqb_eq in Hl.
Qed.
Definition twin (k : Series) : option Series :=
  let '(name, labels) := k in
  if bool_decide (name = "platform_messages_processed_total") && bool_decide (labels = [platformCascadeQueue])
  then Some ("iam_delegation_cascade_processed_total", [])
  else if bool_decide (name = "platform_messages_failed_total") && bool_decide (labels = [platformCascadeQueue])
  then Some ("iam_delegation_cascade_dlq_total", [])
  else if bool_decide (name = "platform_dependency_errors_total")
  then Some ("iam_delegation_dependency_call_failures_total", labels)
  else None.

Record metered (c c' : Counters) : Prop := {
  met_grows : ∀ k, count_of c k ≤ count_of c' k;
  met_known : ∀ k, c' !! k ≠ c !! k → known k = true;
  met_twins : ∀ k k', twin k = Some k' → count_of c' k - count_of c k = count_of c' k' - count_of c k' }.
#[export] Instance metered_preorder : PreOrder metered.
Proof.
  split; [split; intros; [lia|done|lia]|].
  intros c1 c2 c3 [G1 K1 T1] [G2 K2 T2]. split.
  - intros k. specialize (G1 k). specialize (G2 k). lia.
  - intros k Hk. destruct (decide (c2 !! k = c1 !! k)) as [He|He]; [apply K2; congruence|by apply K1].
  - intros k k' Hk. specialize (T1 k k' Hk). specialize (T2 k k' Hk). lia.
Qed.

(** The names that have a twin, on either side. *)
Definition twinned : list string :=
  ["platform_messages_processed_total"; "platform_messages_failed_total"; "platform_dependency_errors_total";
   "iam_delegation_cascade_processed_total"; "iam_delegation_cascade_dlq_total";
   "iam_delegation_dependency_call_failures_total"].
Lemma twin_names k k' : twin k = Some k' → k.1 ∈ take 3 twinned ∧ k'.1 ∈ drop 3 twinned.
Proof.
  destruct k as [n ls]. simpl. intros H. repeat case_match; simplify_eq; destruct_and?;
    repeat match goal with H : bool_decide _ = true |- _ => apply bool_decide_eq_true in H; subst
           | H : bool_decide _ && bool_decide _ = true |- _ => apply andb_true_iff in H as [? ?] end; simpl; set_solver.
Qed.
Lemma twin_inj k1 k2 k : twin k1 = Some k → twin k2 = Some k → k1 = k2.
Proof.
  destruct k1 as [n1 l1], k2 as [n2 l2], k as [n l]. simpl. intros H1 H2. repeat case_match; simplify_eq;
    repeat match goal with H : bool_decide _ = true |- _ => apply bool_decide_eq_true in H; subst
           | H : bool_decide _ && bool_decide _ = true |- _ => apply andb_true_iff in H as [? ?] end; congruence.
Qed.
Lemma sides n : n ∈ take 3 twinned → n ∉ drop 3 twinned.
Proof. revert n. apply Forall_forall. apply (bool_decide_unpack _). vm_compute. done. Qed.
Lemma side_twinned n : n ∈ take 3 twinned ∨ n ∈ drop 3 twinned → n ∈ twinned.
Proof. rewrite <- elem_of_app, take_drop. done. Qed.

Lemma count_bump_same c k : count_of (bump c k.1 k.2) k = count_of c k + 1.
Proof. destruct k. unfold count_of, bump. simpl. by rewrite lookup_insert_eq. Qed.
Lemma count_bump_other c k k' : k ≠ k' → count_of (bump c k.1 k.2) k' = count_of c k'.
Proof. destruct k. intros. unfold count_of, bump. simpl. by rewrite lookup_insert_ne. Qed.
Lemma count_bump c k k' : count_of (bump c k.1 k.2) k' = count_of c k' + (if decide (k = k') then 1 else 0).
Proof. case_decide as Hk; [subst; apply count_bump_same|rewrite count_bump_other by done; lia]. Qed.
Lemma bump_touches c k k' : bump c k.1 k.2 !! k' ≠ c !! k' → k' = k.
Proof. destruct k as [n ls]. unfold bump. simpl. intros H. destruct (decide ((n, ls) = k')) as [|Hne]; [done|]. by rewrite lookup_insert_ne in H. Qed.

Lemma metered_bump c k : known k = true → k.1 ∉ twinned → metered c (bump c k.1 k.2).
Proof.
  intros Hk Hn. split.
  - intros k'. rewrite count_bump. case_decide; lia.
  - intros k' H. by apply bump_touches in H as ->.
  - intros k1 k2 H. apply twin_names in H as [H1 H2].
    rewrite !count_bump, !decide_False; [lia| |]; intros ->; apply Hn, side_twinned; auto.
Qed.
Lemma metered_twins c k k' : twin k = Some k' → known k = true → known k' = true →
  metered c (bump (bump c k.1 k.2) k'.1 k'.2).
Proof.
  intros Ht Hk Hk'. pose proof (twin_names _ _ Ht) as [N1 N2]. split.
  - intros k0. rewrite !count_bump. repeat case_decide; lia.
  - intros k0 H. destruct (decide (k0 = k')) as [->|Hne]; [done|]. destruct (decide (k0 = k)) as [->|Hne']; [done|].
    destruct H. unfold bump. rewrite !lookup_insert_ne; [done|..]; destruct k, k', k0; simpl; congruence.
  - intros k1 k2 H. pose proof (twin_names _ _ H) as [M1 M2]. rewrite !count_bump.
    assert (k' ≠ k1 ∧ k ≠ k2) as [? ?] by (split; intros <-; [exact (sides _ M1 N2)|exact (sides _ N1 M2)]).
    rewrite (decide_False (P:=k' = k1)), (decide_False (P:=k = k2)) by done.
    destruct (decide (k = k1)) as [<-|Hne]; [rewrite H in Ht; injection Ht as ->; rewrite decide_True by done; lia|].
    rewrite decide_False; [lia|]. intros <-. by apply Hne, (twin_inj k k1 k').
Qed.

(** *** The recorders *)
Section recorder_facts.
Context `{Env}.

Lemma count_inc_same w name labels :
  count (inc name labels w).2 name labels = count w name labels + 1.
Proof. unfold count, inc, bump. simpl. by rewrite lookup_insert_eq. Qed.
Lemma count_inc_other w name labels name' labels' :
  (name, labels) ≠ (name', labels') →
  count (inc name labels w).2 name' labels' = count w name' labels'.
Proof. intros. unfold count, inc, bump. simpl. by rewrite lookup_insert_ne. Qed.

(** Recorders only ever touch the counters, lawfully, and never fail. *)
Definition counters_only (w w' : World) : Prop :=
  w_db w' = w_db w ∧ w_kv w' = w_kv w ∧ w_http w' = w_http w ∧ w_step w' = w_step w
  ∧ metered (w_counters w) (w_counters w').
#[global] Instance counters_only_preorder : PreOrder counters_only.
Proof.
  split; unfold counters_only; [done|]. intros w1 w2 w3 (?&?&?&?&Hm1) (?&?&?&?&Hm2).
  split_and!; [congruence..|by transitivity (w_counters w2)].
Qed.

Class Recorder (m : M unit) : Prop := recorded : ∀ w, ∃ w', m w = (Ok tt, w') ∧ counters_only w w'.

#[export] Instance recorder_ret : Recorder (mret tt).
Proof. intros w. by exists w. Qed.
#[export] Instance recorder_bind m1 m2 : Recorder m1 → Recorder m2 → Recorder (_ ← m1; m2).
Proof.
  intros H1 H2 w. destruct (H1 w) as (w1 & Hw1 & Hc1). destruct (H2 w1) as (w2 & Hw2 & Hc2).
  exists w2. unfold mbind, gom_bind. rewrite Hw1. split; [done|by transitivity w1].
Qed.
(** One counter, or a counter and its twin; known names and arities compute. *)
Lemma recorder_inc name labels :
  known (name, labels) = true → name ∉ twinned → Recorder (inc name labels).
Proof.
  intros Hk Hn w. eexists. split; [done|]. split_and!; [done..|]. by apply (metered_bump _ (name, labels)).
Qed.
Lemma recorder_twins n ls n' ls' :
  twin (n, ls) = Some (n', ls') → known (n, ls) = true → known (n', ls') = true →
  Recorder (_ ← inc n ls; inc n' ls').
Proof.
  intros Ht Hk Hk' w. eexists. split; [done|]. split_and!; [done..|]. by apply (metered_twins _ (n, ls) (n', ls')).
Qed.

Ltac recorder := first [apply recorder_inc; [reflexivity|apply (bool_decide_unpack _); reflexivity] | apply recorder_twins; reflexivity].

#[export] Typeclasses Opaque RecordMessageReceived RecordCreated RecordEnded RecordExpiryDeferred
  RecordActivationDeferred RecordReviewDeferred RecordReviewWarned RecordReviewExpired RecordMembershipCheckFailure
  RecordUPAvailabilityFailure RecordIdempotencyHit RecordCascadeProcessed RecordCascadeDLQ
  RecordProcessedEventsDuplicate RecordUnknownEventAcknowledged Metrics_IncDependencyError IncDependencyError.
#[export] Instance recorder_RecordMessageReceived q : Recorder (RecordMessageReceived q).
Proof. recorder. Qed.
#[export] Instance recorder_RecordCreated s : Recorder (RecordCreated s).
Proof. recorder. Qed.
#[export] Instance recorder_RecordEnded s : Recorder (RecordEnded s).
Proof. recorder. Qed.
#[export] Instance recorder_RecordExpiryDeferred : Recorder RecordExpiryDeferred.
Proof. recorder. Qed.
#[export] Instance recorder_RecordActivationDeferred : Recorder RecordActivationDeferred.
Proof. recorder. Qed.
#[export] Instance recorder_RecordReviewDeferred : Recorder RecordReviewDeferred.
Proof. recorder. Qed.
#[export] Instance recorder_RecordReviewWarned d : Recorder (RecordReviewWarned d).
Proof. recorder. Qed.
#[export] Instance recorder_RecordReviewExpired : Recorder RecordReviewExpired.
Proof. recorder. Qed.
#[export] Instance recorder_RecordMembershipCheckFailure : Recorder RecordMembershipCheckFailure.
Proof. recorder. Qed.
#[export] Instance recorder_RecordUPAvailabilityFailure p : Recorder (RecordUPAvailabilityFailure p).
Proof. recorder. Qed.
#[export] Instance recorder_RecordIdempotencyHit : Recorder RecordIdempotencyHit.
Proof. recorder. Qed.
#[export] Instance recorder_RecordCascadeProcessed : Recorder RecordCascadeProcessed.
Proof. recorder. Qed.
#[export] Instance recorder_RecordCascadeDLQ : Recorder RecordCascadeDLQ.
Proof. recorder. Qed.
#[export] Instance recorder_RecordProcessedEventsDuplicate c : Recorder (RecordProcessedEventsDuplicate c).
Proof. unfold RecordProcessedEventsDuplicate. apply recorder_bind; recorder. Qed.
#[export] Instance recorder_RecordUnknownEventAcknowledged c t : Recorder (RecordUnknownEventAcknowledged c t).
Proof. recorder. Qed.
#[export] Instance recorder_Metrics_IncDependencyError s e o : Recorder (Metrics_IncDependencyError s e o).
Proof. recorder. Qed.
#[export] Instance recorder_IncDependencyError s e o : Recorder (IncDependencyError s e o).
Proof. unfold IncDependencyError. destruct env_metrics_live; apply _. Qed.
End recorder_facts.
