(* ===== verification/Store.v ===== *)
(** * The PostgreSQL schema and the transactions over it

    The meaning of the SQL the repositories issue, from
    migrations/000001_schema.up.sql: the CHECK constraints and keys, the
    [touch_row] trigger, row-level security ([app_tenant_id], [rls_check_tenant]
    and the policies), and from db.go the transaction runner, the ambient-
    transaction join and the error classification.

    Timestamps are exact instants; [now()] is the start of the transaction.  A
    text [reason] of NULL is the empty string, as [scanDelegation] reads it. *)
From S2P Require Import Prelude GoLib Domain World.
Local Open Scope Z_scope.

(** ** Rows *)

(** The column assignments the UPDATE statements make. *)
Definition set_Status (s : DelegationStatus) (d : Delegation) : Delegation :=
  mkDelegation (ID d) (TenantID d) (DelegatorID d) (DelegateID d) (DelegatorMembershipID d)
    (DelegateMembershipID d) (Scope d) (ScopeID d) (Reason d) (StartsAt d) (EndsAt d) s
    (RecordVersion d) (CreatedAt d) (UpdatedAt d) (DeletedAt d) (ReviewDueAt d)
    (ReviewLastWarnedBucket d) (ReviewWindowDays d).
Definition set_DeletedAt (t : option Time) (d : Delegation) : Delegation :=
  mkDelegation (ID d) (TenantID d) (DelegatorID d) (DelegateID d) (DelegatorMembershipID d)
    (DelegateMembershipID d) (Scope d) (ScopeID d) (Reason d) (StartsAt d) (EndsAt d) (Status d)
    (RecordVersion d) (CreatedAt d) (UpdatedAt d) t (ReviewDueAt d)
    (ReviewLastWarnedBucket d) (ReviewWindowDays d).
Definition set_Review (due : option Time) (bucket window : option Z) (d : Delegation) : Delegation :=
  mkDelegation (ID d) (TenantID d) (DelegatorID d) (DelegateID d) (DelegatorMembershipID d)
    (DelegateMembershipID d) (Scope d) (ScopeID d) (Reason d) (StartsAt d) (EndsAt d) (Status d)
    (RecordVersion d) (CreatedAt d) (UpdatedAt d) (DeletedAt d) due bucket window.
Definition set_Touched (version : Z) (updated : Time) (d : Delegation) : Delegation :=
  mkDelegation (ID d) (TenantID d) (DelegatorID d) (DelegateID d) (DelegatorMembershipID d)
    (DelegateMembershipID d) (Scope d) (ScopeID d) (Reason d) (StartsAt d) (EndsAt d) (Status d)
    version (CreatedAt d) updated (DeletedAt d) (ReviewDueAt d)
    (ReviewLastWarnedBucket d) (ReviewWindowDays d).

Definition is_live (d : Delegation) : bool := bool_decide (DeletedAt d = None).
Definition open_status (s : DelegationStatus) : bool :=
  bool_decide (s = DelegationActive) || bool_decide (s = DelegationScheduled).

(** The CHECK constraints of [delegations] (and its enum column types). *)
Definition between (lo hi : Z) (x : option Z) : bool :=
  match x with None => true | Some v => (lo <=? v) && (v <=? hi) end.
Definition row_ok (d : Delegation) : bool :=
  bool_decide (Scope d ∈ [ScopeAll; ScopeDepartment; ScopeTender])
  && bool_decide (Status d ∈ [DelegationScheduled; DelegationActive; DelegationEnded; DelegationCancelled])
  && (0 <? RecordVersion d)
  && between 1 3 (ReviewLastWarnedBucket d)
  && between 1 180 (ReviewWindowDays d)
  && (if bool_decide (Scope d = ScopeAll) then bool_decide (ScopeID d = None) else bool_decide (is_Some (ScopeID d)))
  && bool_decide (DelegatorID d ≠ DelegateID d)
  && match EndsAt d with None => true | Some e => StartsAt d <? e end.

(** The CHECK constraints of [delegation_tenant_settings]. *)
Definition settings_ok (s : DelegationTenantSettings) : bool :=
  (1 <=? MaxDurationDays s) && (MaxDurationDays s <=? 180)
  && (1 <=? ts_ReviewWindowDays s) && (ts_ReviewWindowDays s <=? 180)
  && (0 <? ts_RecordVersion s).

(** [touch_row()], run by the trigger only when the row really changes. *)
Definition touch_row (now : Time) (old new : Delegation) : Delegation :=
  if decide (old = new) then new else set_Touched (RecordVersion old + 1) now new.

(** ** Row-level security *)
Definition app_tenant_id `{UuidLib} (setting : string) : option uuid :=
  if bool_decide (setting = EmptyString) then None else pg_uuid_cast setting.

(** [rls_check_tenant] as the USING clause; a BYPASSRLS role sees every row. *)
Definition rls_check_tenant (tx : Tx) (row_tenant : uuid) : bool :=
  match tx_role tx with
  | SysRole => true
  | AppRole => bool_decide (tx_tenant tx = Some row_tenant)
  end.

(** ** Statements on [delegations] *)
Definition check_violation (constraint : string) : goerror := EPg "23514" constraint.
Definition unique_violation (constraint : string) : goerror := EPg "23505" constraint.
Definition rls_violation (table : string) : goerror := EPg "42501" table.

Definition selected (tx : Tx) (P : Delegation → bool) (d : Delegation) : bool :=
  rls_check_tenant tx (TenantID d) && P d.

Definition matching (tx : Tx) (P : Delegation → bool) (m : gmap uuid Delegation) : gmap uuid Delegation :=
  filter (λ kd, selected tx P kd.2 = true) m.

(** SELECT ... WHERE P, in table order. *)
Definition sql_select (tx : Tx) (P : Delegation → bool) (db : Db) : list Delegation :=
  (map_to_list (matching tx P (db_delegations db))).*2.

(** ORDER BY key [DESC] and LIMIT *)
Definition asc_by (key : Delegation → Time) : relation Delegation := λ a b, Z.le (key a) (key b).
Definition desc_by (key : Delegation → Time) : relation Delegation := λ a b, Z.le (key b) (key a).
#[export] Instance asc_by_dec key : RelDecision (asc_by key) := λ a b, Z_le_dec (key a) (key b).
#[export] Instance desc_by_dec key : RelDecision (desc_by key) := λ a b, Z_le_dec (key b) (key a).
Definition order_by_asc (key : Delegation → Time) : list Delegation → list Delegation :=
  merge_sort (asc_by key).
Definition order_by_desc (key : Delegation → Time) : list Delegation → list Delegation :=
  merge_sort (desc_by key).
Definition sql_limit {A} (limit : Z) (l : list A) : list A := take (Z.to_nat limit) l.

(** UPDATE ... SET f WHERE P RETURNING *: the new rows.  A row that would break a
    constraint fails the statement. *)
Definition updated_row (tx : Tx) (f : Delegation → Delegation) (d : Delegation) : Delegation :=
  touch_row (tx_now tx) d (f d).
Definition sql_update (tx : Tx) (P : Delegation → bool) (f : Delegation → Delegation) (db : Db)
    : result goerror (list Delegation * Db) :=
  let new := updated_row tx f <$> sql_select tx P db in
  if forallb row_ok new
  then Ok (new, mkDb ((λ d, if selected tx P d then updated_row tx f d else d) <$> db_delegations db)
                     (db_settings db) (db_processed db) (db_outbox db))
  else Err (check_violation "delegations").

(** INSERT ... RETURNING *: column defaults, WITH CHECK, CHECK and PRIMARY KEY. *)
Definition inserted_row (tx : Tx) (d : Delegation) : Delegation :=
  mkDelegation (ID d) (TenantID d) (DelegatorID d) (DelegateID d) (DelegatorMembershipID d)
    (DelegateMembershipID d) (Scope d) (ScopeID d) (Reason d) (StartsAt d) (EndsAt d) (Status d)
    1 (tx_now tx) (tx_now tx) None (ReviewDueAt d) None (ReviewWindowDays d).
Definition sql_insert (tx : Tx) (d : Delegation) (db : Db) : result goerror (Delegation * Db) :=
  let row := inserted_row tx d in
  if negb (rls_check_tenant tx (TenantID row)) then Err (rls_violation "delegations")
  else if negb (row_ok row) then Err (check_violation "delegations")
  else match db_delegations db !! ID row with
       | Some _ => Err (unique_violation "delegations_pkey")
       | None => Ok (row, mkDb (<[ID row := row]> (db_delegations db))
                               (db_settings db) (db_processed db) (db_outbox db))
       end.

(** DELETE FROM delegations WHERE id IN (keys): the number of rows deleted. *)
Definition sql_delete (keys : list uuid) (db : Db) : nat * Db :=
  let m' := foldr delete (db_delegations db) keys in
  ((size (db_delegations db) - size m')%nat, mkDb m' (db_settings db) (db_processed db) (db_outbox db)).

(** ** Transactions *)
Section tx.
Context `{Env} `{PgCommon} `{UuidLib}.

(** One exchange with the server that can fail on its own. *)
Definition db_step : M unit := λ w,
  match env_db_fault (w_step w) with
  | Some e => (Err e, next_step w)
  | None => (Ok tt, next_step w)
  end.

(** A statement: a reading or an update of the tables as they are now. *)
Definition stmt {A} (f : Db → result goerror (A * Db)) : M A := λ w,
  match db_step w with
  | (Err e, w1) => (Err e, w1)
  | (Ok _, w1) =>
      match f (w_db w1) with
      | Ok (a, d) => (Ok a, set_db d w1)
      | Err e => (Err e, w1)
      end
  end.
Definition query {A} (f : Db → A) : M A := stmt (λ d, Ok (f d, d)).

(** BEGIN on a connection of the pool, with the GUC set of the context as
    [SET LOCAL app.tenant_id] (the system pool has no GUC provider). *)
Definition begin_tx (pool : Role) (ctx : Ctx) : M Tx :=
  db_step ≫= λ _, time_Now ≫= λ now,
  mret {| tx_role := pool;
          tx_tenant := match pool with
                       | AppRole => app_tenant_id (guc_TenantID (ctx_guc ctx))
                       | SysRole => None
                       end;
          tx_now := now |}.

Inductive tx_outcome (A : Type) :=
| Committed (a : A)
| BodyFailed (e : goerror)
| CommitFailed (a : A) (e : goerror).
Arguments Committed {A}.
Arguments BodyFailed {A}.
Arguments CommitFailed {A}.

(** Transactions take effect one after the other: before ours begins, those of
    other requests, deliveries and jobs may have committed.  [Statements] also lets
    them commit between our statements. *)
Definition others_commit (w : World) : World := set_db (env_others (w_step w) (w_db w)) w.

(** BEGIN; body; COMMIT, or ROLLBACK when the body or the commit fails.
    Rolling back restores the tables and the outbox, nothing else. *)
Definition isolated_attempt {A} (pool : Role) (ctx : Ctx) (body : Tx → M A) : World → tx_outcome A * World := λ w,
  match (begin_tx pool ctx ≫= body) w with
  | (Err e, w1) => (BodyFailed e, set_db (w_db w) w1)
  | (Ok a, w1) =>
      match db_step w1 with
      | (Ok _, w2) => (Committed a, w2)
      | (Err e, w2) => (CommitFailed a e, set_db (w_db w) w2)
      end
  end.
Definition tx_attempt {A} (pool : Role) (ctx : Ctx) (body : Tx → M A) : World → tx_outcome A * World := λ w,
  isolated_attempt pool ctx body (others_commit w).

(** What a runner returns for an attempt it does not repeat. *)
Definition settled {A} (o : tx_outcome A * World) : result goerror A * World :=
  match o with
  | (Committed a, w') => (Ok a, w')
  | (BodyFailed e, w') | (CommitFailed _ e, w') => (Err e, w')
  end.

(** A run of at most [n] attempts, the last of which settles it; what an attempt
    leaves in the captured variables outlives it when only its commit failed. *)
Inductive tx_run {A} (pool : Role) (ctx : Ctx) (body : Tx → A → M A)
    : nat → A → World → result goerror A * World → Prop :=
| run_settled n cap w :
    tx_run pool ctx body (S n) cap w (settled (tx_attempt pool ctx (λ tx, body tx cap) w))
| run_again_body n cap w e w1 r :
    tx_attempt pool ctx (λ tx, body tx cap) w = (BodyFailed e, w1) →
    tx_run pool ctx body n cap w1 r → tx_run pool ctx body (S n) cap w r
| run_again_commit n cap w a e w1 r :
    tx_attempt pool ctx (λ tx, body tx cap) w = (CommitFailed a e, w1) →
    tx_run pool ctx body n a w1 r → tx_run pool ctx body (S n) cap w r.

(** *** wrapConnErr (db.go) *)
Definition isOperatorOrSystemErrorSQLState (e : goerror) : bool :=
  if negb (IsPgError e) then false
  else Contains (error_text e) "SQLSTATE 57" || Contains (error_text e) "SQLSTATE 58".

(** [errors.Is] for the two io sentinels, [errors.As] for the two types. *)
Fixpoint chain_any (p : goerror → bool) (e : goerror) : bool :=
  p e || match e with
         | EWrap _ inner => chain_any p inner
         | EWrap2 _ a b => chain_any p a || chain_any p b
         | _ => false
         end.
Definition is_eof (e : goerror) : bool :=
  match e with EEOF | EUnexpectedEOF => true | _ => false end.
Definition is_net_op (e : goerror) : bool :=
  match e with ENetOp _ _ => true | _ => false end.
(** The first [syscall.Errno] of the chain ([errors.As]). *)
Fixpoint as_errno (e : goerror) : option string :=
  match e with
  | EErrno n => Some n
  | EWrap _ inner => as_errno inner
  | EWrap2 _ a b => match as_errno a with Some n => Some n | None => as_errno b end
  | _ => None
  end.
Definition transient_errno (n : string) : bool :=
  bool_decide (n ∈ ["ECONNRESET"; "ECONNREFUSED"; "EPIPE"; "ETIMEDOUT"]).
Definition is_closed_pool (e : goerror) : bool :=
  match e with EClosedPool => true | _ => false end.

Definition isNetworkError (e : goerror) : bool :=
  if chain_any is_eof e then true
  else if chain_any is_net_op e then true
  else if match as_errno e with Some n => transient_errno n | None => false end then true
  else Contains (error_text e) "connection refused"
       || Contains (error_text e) "connection reset"
       || Contains (error_text e) "broken pipe"
       || Contains (error_text e) "EOF".

Definition wrapConnErr (e : goerror) : goerror :=
  match as_domain e with
  | Some _ => e
  | None =>
      if IsConnectionException e || IsInsufficientResources e
         || isOperatorOrSystemErrorSQLState e || chain_any is_closed_pool e
      then NewError ErrDBUnavailable "database unavailable"
      else if isNetworkError e then NewError ErrDBUnavailable "database unavailable"
      else e
  end.

Definition wrap_conn {A} (m : M A) : M A := λ w,
  match m w with
  | (Ok a, w') => (Ok a, w')
  | (Err e, w') => (Err (wrapConnErr e), w')
  end.

(** *** withPool and TxRunner.RunInTx (db.go) *)
Definition withPool {A} (ctx : Ctx) (pool : Role) (fn : Tx → M A) : M A :=
  match TxFromContext ctx with
  | Some tx => wrap_conn (fn tx)
  | None => wrap_conn (pgcommon_RunInTx pool ctx fn)
  end.

(** [writeRetryOpts.MaxAttempts] *)
Definition writeRetryOpts_MaxAttempts : nat := 3.

Definition RunInTx (pool : Role) (events : option Publisher) {A}
    (ctx : Ctx) (cap : A) (fn : Ctx → A → M A) : M A :=
  match TxFromContext ctx with
  | Some _ =>
      let txCtx := match events with
                   | Some p => match EventPublisherFromContext ctx with
                               | None => WithEventPublisher ctx p
                               | Some _ => ctx
                               end
                   | None => ctx
                   end in
      wrap_conn (fn txCtx cap)
  | None =>
      wrap_conn (pgcommon_RunInTxWithRetryOpts writeRetryOpts_MaxAttempts pool ctx cap
        (λ tx cap, let txCtx := WithTx ctx tx in
           let txCtx := match events with Some p => WithEventPublisher txCtx p | None => txCtx end in
           fn txCtx cap))
  end.

Definition NewTxRunner (pool : Role) (events : option Publisher) : TxRunner :=
  {| tx_RunInTx := @RunInTx pool events |}.

(** [WithTenantGUC] (db.go) *)
Definition WithTenantGUC (ctx : Ctx) (tenantID : uuid) (userID : string) : Ctx :=
  WithGUCSet ctx
    {| guc_TenantID := uuid_String tenantID;
       guc_UserID := if bool_decide (userID = EmptyString) then guc_UserID (ctx_guc ctx) else userID |}.
End tx.
Arguments Committed {A}.
Arguments BodyFailed {A}.
Arguments CommitFailed {A}.

(** What the service relies on from pgcommon's runners: one transaction, and at
    most [n] of which only the last can have committed.  Which errors are worth
    another attempt is pgcommon's affair. *)
Class PgCommonLaws (E : Env) (P : PgCommon) (U : UuidLib) : Prop := {
  RunInTx_runs A pool ctx (body : Tx → M A) w :
    pgcommon_RunInTx pool ctx body w = settled (tx_attempt pool ctx body w);
  RunInTxWithRetryOpts_runs A n pool ctx (cap : A) body w :
    tx_run pool ctx body (S n) cap w (pgcommon_RunInTxWithRetryOpts (S n) pool ctx cap body w);
}.
