(* ===== verification/StoreFacts.v ===== *)
(** * Lemmas on the schema and on transactions

    The invariant of the tables, the effect of the statements on it, and the
    proof rules for statements, transactions, retries and the ambient-transaction
    join, which every repository and service proof goes through. *)
From S2P Require Import Prelude GoLib Domain World MetricsRec Store.
Local Open Scope Z_scope.

(** ** Outages

    Errors that come from the database being unavailable rather than from the
    data.  They are never domain errors before [wrapConnErr] classifies them. *)
Class EnvLaws (E : Env) := {
  db_fault_not_domain : ∀ n e, env_db_fault n = Some e → as_domain e = None;
}.

Definition no_db_faults (E : Env) : Prop := ∀ n, env_db_fault n = None.

Section outage.
Context `{E : Env} `{PgCommon}.

Definition outage (e : goerror) : Prop :=
  ∃ n e0, env_db_fault n = Some e0 ∧ (e = e0 ∨ e = wrapConnErr e0).

Lemma wrapConnErr_domain e d : as_domain e = Some d → wrapConnErr e = e.
Proof. unfold wrapConnErr. by intros ->. Qed.

Lemma wrapConnErr_cases e :
  wrapConnErr e = e ∨ (as_domain e = None ∧ wrapConnErr e = NewError ErrDBUnavailable "database unavailable").
Proof. unfold wrapConnErr. repeat case_match; auto. Qed.

Lemma wrapConnErr_idem e : wrapConnErr (wrapConnErr e) = wrapConnErr e.
Proof.
  destruct (wrapConnErr_cases e) as [Heq|[_ Heq]]; rewrite Heq; [done|].
  by eapply wrapConnErr_domain.
Qed.

Lemma outage_wrap e : outage e → outage (wrapConnErr e).
Proof.
  intros (n & e0 & Hf & [->| ->]); exists n, e0; split; auto.
  rewrite wrapConnErr_idem. auto.
Qed.

Lemma as_domain_sentinel_none s e : as_domain e = None → is_sentinel s e = false.
Proof.
  induction e; simpl; intros; try done.
  - by apply IHe.
  - repeat case_match; simplify_eq. rewrite IHe1, IHe2; done.
Qed.

Lemma outage_sentinel `{!EnvLaws E} s e :
  outage e → s ≠ ErrDBUnavailable → is_sentinel s e = false.
Proof.
  intros (n & e0 & Hf & Hor) Hs. apply db_fault_not_domain in Hf.
  destruct Hor as [->| ->]; [by apply as_domain_sentinel_none|].
  destruct (wrapConnErr_cases e0) as [->|[_ ->]]; [by apply as_domain_sentinel_none|].
  simpl. by apply bool_decide_eq_false; naive_solver.
Qed.

Lemma no_faults_no_outage e : no_db_faults E → ¬ outage e.
Proof. intros Hn (n & e0 & Hf & _). by rewrite Hn in Hf. Qed.
End outage.

(** ** The invariant of the tables *)
Record db_inv (db : Db) : Prop := {
  inv_row : ∀ k d, db_delegations db !! k = Some d → ID d = k ∧ row_ok d = true;
  inv_settings : ∀ k s, db_settings db !! k = Some s → ts_TenantID s = k ∧ settings_ok s = true;
}.

(** ** How a row may change

    The grant itself never changes, the version grows with every change, the
    status only moves forward and a soft-deleted row is frozen. *)
Definition status_reaches (s s' : DelegationStatus) : Prop :=
  s = s'
  ∨ (s = DelegationScheduled ∧ s' ∈ [DelegationActive; DelegationEnded; DelegationCancelled])
  ∨ (s = DelegationActive ∧ s' ∈ [DelegationEnded; DelegationCancelled]).
#[export] Instance status_reaches_preorder : PreOrder status_reaches.
Proof.
  split; [by left|]. intros s1 s2 s3. unfold status_reaches.
  intros [->|[[-> H2]|[-> H2]]] [->|[[-> H3]|[-> H3]]];
    repeat match goal with H : _ ∈ _ :: _ |- _ => apply elem_of_cons in H as [?|H]
                         | H : _ ∈ [] |- _ => by apply elem_of_nil in H end;
    subst; try discriminate; set_solver.
Qed.

Record row_step (a b : Delegation) : Prop := {
  rs_grant : ID b = ID a ∧ TenantID b = TenantID a ∧ DelegatorID b = DelegatorID a
             ∧ DelegateID b = DelegateID a ∧ DelegatorMembershipID b = DelegatorMembershipID a
             ∧ DelegateMembershipID b = DelegateMembershipID a ∧ Scope b = Scope a
             ∧ ScopeID b = ScopeID a ∧ Reason b = Reason a ∧ StartsAt b = StartsAt a
             ∧ EndsAt b = EndsAt a ∧ CreatedAt b = CreatedAt a;
  rs_version : b = a ∨ RecordVersion a < RecordVersion b;
  rs_status : status_reaches (Status a) (Status b);
  rs_frozen : DeletedAt a ≠ None → b = a;
}.
#[export] Instance row_step_preorder : PreOrder row_step.
Proof.
  split.
  - intros a. split; [by repeat split|by left|reflexivity|done].
  - intros a b c [Hg1 Hv1 Hs1 Hf1] [Hg2 Hv2 Hs2 Hf2]. split.
    + naive_solver congruence.
    + destruct Hv1 as [->|?], Hv2 as [->|?]; auto. right; lia.
    + by etransitivity.
    + intros Hd. pose proof (Hf1 Hd) as ->. auto.
Qed.

(** A row of [d] is in [d'] one or more such changes later, or was soft-deleted
    in between and purged. *)
Definition evolves (d d' : Db) : Prop :=
  ∀ k a, db_delegations d !! k = Some a →
    (∃ b, db_delegations d' !! k = Some b ∧ row_step a b) ∨ (∃ c, row_step a c ∧ DeletedAt c ≠ None).
#[export] Instance evolves_preorder : PreOrder evolves.
Proof.
  split.
  - intros d k a Ha. left. exists a. split; [done|reflexivity].
  - intros d1 d2 d3 H12 H23 k a Ha.
    destruct (H12 k a Ha) as [(b & Hb & Hab)|?]; [|by right].
    destruct (H23 k b Hb) as [(c & Hc & Hbc)|(c & Hbc & ?)].
    + left. exists c. split; [done|by etransitivity].
    + right. exists c. split; [by etransitivity|done].
Qed.

(** From tables that satisfy the invariant, to tables that satisfy it, by [R]. *)
Definition under_inv (R : relation Db) : relation Db := λ d d', db_inv d → db_inv d' ∧ R d d'.
#[export] Instance under_inv_preorder R : PreOrder R → PreOrder (under_inv R).
Proof.
  intros HR. split.
  - intros d Hd. split; [done|reflexivity].
  - intros d1 d2 d3 H12 H23 Hd1. destruct (H12 Hd1) as [Hd2 ?]. destruct (H23 Hd2) as [? ?].
    split; [done|by etransitivity].
Qed.

(** Rows of tenant [t] are neither changed, created nor removed, nor its policy. *)
Record untouched (t : uuid) (d d' : Db) : Prop := {
  untouched_rows : ∀ k a, TenantID a = t → db_delegations d !! k = Some a ↔ db_delegations d' !! k = Some a;
  untouched_settings : db_settings d' !! t = db_settings d !! t;
}.
#[export] Instance untouched_preorder t : PreOrder (untouched t).
Proof.
  split.
  - intros d. split; done.
  - intros d1 d2 d3 [Hr1 Hs1] [Hr2 Hs2]. split; [|by rewrite Hs2, Hs1].
    intros k a Ht. by rewrite (Hr1 k a Ht), (Hr2 k a Ht).
Qed.

(** Everything a statement of transaction [tx] may do to the tables: rows evolve,
    the invariant is kept, the tenants that row-level security hides are untouched,
    the outbox is left alone. *)
Definition hidden (tx : Tx) (t : uuid) : Prop := rls_check_tenant tx t = false.
Record lawful_change (tx : Tx) (d d' : Db) : Prop := {
  lawful_evolves : evolves d d';
  lawful_hidden : ∀ t, hidden tx t → untouched t d d';
  lawful_outbox : db_outbox d' = db_outbox d;
}.
Definition lawful (tx : Tx) : relation Db := under_inv (lawful_change tx).
#[export] Instance lawful_change_preorder tx : PreOrder (lawful_change tx).
Proof.
  split.
  - intros d. split; [reflexivity|intros; reflexivity|done].
  - intros d1 d2 d3 [He1 Hh1 Ho1] [He2 Hh2 Ho2]. split; [by etransitivity| |congruence].
    intros t Ht. etransitivity; [by apply Hh1|by apply Hh2].
Qed.
#[export] Instance lawful_preorder tx : PreOrder (lawful tx).
Proof. unfold lawful. apply _. Qed.

(** What any run of the program may do, and what a run confined to other tenants
    may do to tenant [t]. *)
Definition grows : relation Db := under_inv evolves.
Definition spares (t : uuid) : relation Db := under_inv (untouched t).

Lemma lawful_grows tx d d' : lawful tx d d' → grows d d'.
Proof. intros Hl Hd. by destruct (Hl Hd) as [? []]. Qed.
Lemma lawful_spares tx t d d' : rls_check_tenant tx t = false → lawful tx d d' → spares t d d'.
Proof. intros Ht Hl Hd. destruct (Hl Hd) as [? []]. auto. Qed.

(** ** Statements are lawful *)

(** What a SET clause may assign to the rows its WHERE clause selects. *)
Record sets (P : Delegation → bool) (f : Delegation → Delegation) : Prop := {
  sets_live : ∀ d, P d = true → DeletedAt d = None;
  sets_step : ∀ d, P d = true →
    ID (f d) = ID d ∧ TenantID (f d) = TenantID d ∧ DelegatorID (f d) = DelegatorID d
    ∧ DelegateID (f d) = DelegateID d ∧ DelegatorMembershipID (f d) = DelegatorMembershipID d
    ∧ DelegateMembershipID (f d) = DelegateMembershipID d ∧ Scope (f d) = Scope d
    ∧ ScopeID (f d) = ScopeID d ∧ Reason (f d) = Reason d ∧ StartsAt (f d) = StartsAt d
    ∧ EndsAt (f d) = EndsAt d ∧ CreatedAt (f d) = CreatedAt d;
  sets_status : ∀ d, P d = true → status_reaches (Status d) (Status (f d));
}.

Lemma updated_row_id tx f d : ID (f d) = ID d → ID (updated_row tx f d) = ID d.
Proof. unfold updated_row, touch_row. by case_decide. Qed.

Lemma updated_row_step tx P f d : sets P f → P d = true → row_step d (updated_row tx f d).
Proof.
  intros [Hl Hg Hs] HP. specialize (Hg d HP). specialize (Hs d HP). specialize (Hl d HP).
  unfold updated_row, touch_row. case_decide as Heq.
  - rewrite <- Heq. reflexivity.
  - split; simpl; [tauto|right; lia|done|congruence].
Qed.

Lemma selected_hidden tx P d : hidden tx (TenantID d) → selected tx P d = false.
Proof. unfold hidden, selected. by intros ->. Qed.

Lemma sql_update_lawful tx P f db rows db' :
  sets P f → sql_update tx P f db = Ok (rows, db') → lawful tx db db'.
Proof.
  intros Hsets. unfold sql_update.
  destruct (forallb row_ok _) eqn:Hok; [|done]. intros [= <- <-].
  assert (∀ k d, db_delegations db !! k = Some d → selected tx P d = true →
    row_ok (updated_row tx f d) = true) as Hrow.
  { intros k d Hk Hs. rewrite forallb_forall in Hok. apply Hok.
    apply list_elem_of_In, list_elem_of_fmap. exists d. split; [done|].
    unfold sql_select, matching. apply list_elem_of_fmap. exists (k, d). split; [done|].
    apply elem_of_map_to_list, map_lookup_filter_Some. auto. }
  assert (∀ d, selected tx P d = true → P d = true) as HP.
  { intros d. unfold selected. by intros [_ ?]%andb_true_iff. }
  intros [Hr Hset]. split; [split; simpl; [|done]|split; [|intros t Hh; split; simpl; [|done]|done]].
  - intros k d. rewrite lookup_fmap.
    destruct (db_delegations db !! k) as [a|] eqn:Ha; simpl; [|done]. intros [= <-].
    destruct (Hr k a Ha) as [Hid Hrok]. destruct (selected tx P a) eqn:Hs; [|done].
    split; [|by eapply Hrow]. rewrite updated_row_id; [done|]. by apply Hsets, HP.
  - intros k a Ha. left. simpl. rewrite lookup_fmap, Ha. simpl. eexists. split; [done|].
    destruct (selected tx P a) eqn:Hs; [|reflexivity]. by eapply updated_row_step; eauto.
  - intros k a <-. rewrite lookup_fmap.
    destruct (db_delegations db !! k) as [b|] eqn:Hb; simpl; [|done].
    destruct (selected tx P b) eqn:Hs; [|done].
    assert (hidden tx (TenantID b) → False) as Hvis
      by (intros Hh'; rewrite selected_hidden in Hs; done).
    pose proof (updated_row_step tx P f b Hsets (HP b Hs)) as [Hg _ _ _].
    split; intros [= Heq]; exfalso; apply Hvis; [congruence|].
    destruct Hg as (_ & Ht & _). rewrite <- Heq in Hh. congruence.
Qed.

Lemma sql_insert_lawful tx d db row db' : sql_insert tx d db = Ok (row, db') → lawful tx db db'.
Proof.
  unfold sql_insert. destruct (rls_check_tenant tx _) eqn:Hrls; [|done].
  destruct (row_ok _) eqn:Hok; [|done].
  destruct (db_delegations db !! ID (inserted_row tx d)) eqn:Hk; [done|]. intros [= <- <-] [Hr Hset].
  split; [split; simpl; [|done]|split; [|intros t Hh; split; simpl; [|done]|done]].
  - intros k a. rewrite lookup_insert_Some. intros [[<- <-]|[_ Ha]]; [done|by apply Hr].
  - intros k a Ha. left. exists a. split; [|reflexivity]. simpl in *. rewrite lookup_insert_ne; [done|]. congruence.
  - intros k a <-. rewrite lookup_insert_Some. split.
    + intros Ha. right. split; [|done]. intros <-. simpl in Hk. congruence.
    + intros [[<- <-]|[_ Ha]]; [|done]. unfold hidden in Hh. simpl in *. congruence.
Qed.

Lemma foldr_delete_lookup {A} (keys : list uuid) (m : gmap uuid A) k :
  foldr delete m keys !! k = if bool_decide (k ∈ keys) then None else m !! k.
Proof.
  induction keys as [|x keys IH]; simpl; [done|].
  destruct (decide (k = x)) as [->|Hne].
  - rewrite lookup_delete_eq. by rewrite bool_decide_true by set_solver.
  - rewrite lookup_delete_ne, IH by done.
    by rewrite (bool_decide_ext (k ∈ x :: keys) (k ∈ keys)) by set_solver.
Qed.

Lemma sql_delete_lawful tx keys db :
  (db_inv db → ∀ k, k ∈ keys →
     ∃ d, db_delegations db !! k = Some d ∧ DeletedAt d ≠ None ∧ ¬ hidden tx (TenantID d)) →
  lawful tx db (sql_delete keys db).2.
Proof.
  intros Hkeys Hinv. specialize (Hkeys Hinv). destruct Hinv as [Hr Hset].
  split; [split; simpl; [|done]|split; [|intros t Hh; split; simpl; [|done]|done]].
  - intros k d. rewrite foldr_delete_lookup. case_bool_decide; [done|]. apply Hr.
  - intros k a Ha. simpl. rewrite foldr_delete_lookup. case_bool_decide as Hin.
    + right. destruct (Hkeys k Hin) as (d & Hd & Hdel & _). exists a. split; [reflexivity|congruence].
    + left. exists a. split; [done|reflexivity].
  - intros k a <-. rewrite foldr_delete_lookup. case_bool_decide as Hin; [|done].
    split; [|done]. destruct (Hkeys k Hin) as (d & Hd & _ & Hnh). congruence.
Qed.

(** Statements on the other tables. *)
Lemma lawful_other tx db db' :
  db_delegations db' = db_delegations db → db_outbox db' = db_outbox db →
  (∀ t, db_settings db' !! t = db_settings db !! t ∨
        ¬ hidden tx t ∧ (∀ s, db_settings db' !! t = Some s → ts_TenantID s = t ∧ settings_ok s = true)) →
  lawful tx db db'.
Proof.
  intros Hd Ho Hs [Hr Hset]. split; [split; rewrite ?Hd|split; [|intros t Hh; split|done]].
  - done.
  - intros t s Ht. destruct (Hs t) as [Heq|[_ Hok]]; [rewrite Heq in Ht; by apply Hset|by apply Hok].
  - intros k a Ha. left. exists a. rewrite Hd. split; [done|reflexivity].
  - by rewrite Hd.
  - by destruct (Hs t) as [?|[? _]].
Qed.

(** ** Selections *)
Section select.
Implicit Types (tx : Tx) (P : Delegation → bool) (m : gmap uuid Delegation).

Lemma elem_of_sql_select tx P db d :
  d ∈ sql_select tx P db ↔ ∃ k, db_delegations db !! k = Some d ∧ selected tx P d = true.
Proof.
  unfold sql_select, matching. rewrite list_elem_of_fmap. split.
  - intros ([k d'] & -> & Hin). apply elem_of_map_to_list in Hin.
    apply map_lookup_filter_Some in Hin. eauto.
  - intros (k & Hk & Hs). exists (k, d). split; [done|].
    apply elem_of_map_to_list, map_lookup_filter_Some. auto.
Qed.

(** A predicate that pins the primary key selects at most one row. *)
Lemma sql_select_key tx P db id :
  db_inv db → (∀ d, P d = true → ID d = id) →
  sql_select tx P db =
    match db_delegations db !! id with
    | Some d => if selected tx P d then [d] else []
    | None => []
    end.
Proof.
  intros Hinv HP. unfold sql_select.
  assert (matching tx P (db_delegations db) =
    match db_delegations db !! id with
    | Some d => if selected tx P d then {[id := d]} else ∅
    | None => ∅ end) as ->.
  { apply map_eq. intros k. apply option_eq. intros d. unfold matching.
    rewrite map_lookup_filter_Some. simpl. split.
    - intros [Hk Hs]. assert (k = id) as ->.
      { unfold selected in Hs. apply andb_true_iff in Hs as [_ Hs]. apply HP in Hs.
        apply (inv_row db Hinv) in Hk. naive_solver. }
      rewrite Hk, Hs. by rewrite lookup_singleton_eq.
    - destruct (db_delegations db !! id) as [d'|] eqn:Hid; [|done].
      destruct (selected tx P d') eqn:Hs; [|done].
      intros [<- <-]%lookup_singleton_Some. auto. }
  destruct (db_delegations db !! id) as [d|]; [|by rewrite map_to_list_empty].
  destruct (selected tx P d); [by rewrite map_to_list_singleton|by rewrite map_to_list_empty].
Qed.

Lemma sql_select_nil_update tx P (f : Delegation → Delegation) db :
  sql_select tx P db = [] → sql_update tx P f db = Ok ([], db).
Proof.
  intros Hnil. unfold sql_update. rewrite Hnil. simpl. f_equal. f_equal.
  destruct db as [m s p o]. simpl. f_equal. apply map_eq. intros k.
  rewrite lookup_fmap. destruct (m !! k) as [d|] eqn:Hk; [|done]. simpl.
  destruct (selected tx P d) eqn:Hs; [|done].
  assert (d ∈ sql_select tx P (mkDb m s p o)) as Hin by (apply elem_of_sql_select; eauto).
  rewrite Hnil in Hin. by apply elem_of_nil in Hin.
Qed.

Lemma sql_update_key tx P (f : Delegation → Delegation) db id d :
  db_inv db → (∀ d, P d = true → ID d = id) →
  db_delegations db !! id = Some d → selected tx P d = true →
  row_ok (updated_row tx f d) = true →
  sql_update tx P f db =
    Ok ([updated_row tx f d],
        mkDb (<[id := updated_row tx f d]> (db_delegations db)) (db_settings db) (db_processed db) (db_outbox db)).
Proof.
  intros Hinv HP Hid Hs Hok. unfold sql_update.
  rewrite (sql_select_key tx P db id Hinv HP), Hid, Hs. simpl. rewrite Hok. simpl.
  do 3 f_equal. apply map_eq. intros k. rewrite lookup_fmap.
  destruct (decide (k = id)) as [->|Hne].
  - rewrite lookup_insert_eq, Hid. simpl. by rewrite Hs.
  - rewrite lookup_insert_ne by done.
    destruct (db_delegations db !! k) as [d'|] eqn:Hk; [|done]. simpl.
    destruct (selected tx P d') eqn:Hs'; [|done]. exfalso. apply Hne.
    unfold selected in Hs'. apply andb_true_iff in Hs' as [_ Hs']. apply HP in Hs'.
    apply (inv_row db Hinv) in Hk. naive_solver.
Qed.
End select.

(** ** Rules for statements and transactions *)

(** The transaction a statement of a component with pool [pool] runs in: the one
    bound on the context, or a fresh one of the pool. *)
Definition tx_for `{UuidLib} (pool : Role) (ctx : Ctx) (tx : Tx) : Prop :=
  tx_role tx = pool ∧
  tx_tenant tx = match pool with
                 | AppRole => app_tenant_id (guc_TenantID (ctx_guc ctx))
                 | SysRole => None
                 end.
Definition eff_tx `{UuidLib} (pool : Role) (ctx : Ctx) (tx : Tx) : Prop :=
  match ctx_tx ctx with Some t => tx = t | None => tx_for pool ctx tx end.

(** Relations on the tables, as relations on the world; the counters move
    lawfully all the while. *)
Definition DbRel (R : relation Db) : relation World := λ w w',
  R (w_db w) (w_db w') ∧ metered (w_counters w) (w_counters w').
#[export] Instance DbRel_refl R : Reflexive R → Reflexive (DbRel R).
Proof. intros HR w. split; reflexivity. Qed.
#[export] Instance DbRel_trans R : Transitive R → Transitive (DbRel R).
Proof. intros HR w1 w2 w3 [] []. split; by etransitivity. Qed.
Lemma DbRel_db (R : relation Db) w w' : DbRel R w w' → R (w_db w) (w_db w').
Proof. by intros []. Qed.
#[export] Typeclasses Opaque DbRel.
(** What leaves the counters alone only has to be looked at in the tables. *)
Lemma DbRel_uncounted (R : relation Db) w w' :
  w_counters w' = w_counters w → R (w_db w) (w_db w') → DbRel R w w'.
Proof. intros Hc HR. split; [done|]. by rewrite Hc. Qed.
(** Recorders are within every reflexive relation on the tables. *)
#[export] Instance within_recorder `{E : Env} (R : relation Db) (m : M unit) :
  Reflexive R → Recorder m → Within (DbRel R) m.
Proof. intros HR Hm w. destruct (Hm w) as (w1 & -> & Hd & _ & _ & _ & Hc). split; simpl; [by rewrite Hd|done]. Qed.

(** What an operation leaves alone when it only talks to the database. *)
Definition same_outside (w w' : World) : Prop :=
  w_kv w' = w_kv w ∧ w_counters w' = w_counters w ∧ w_gauge w' = w_gauge w ∧ w_http w' = w_http w.
#[export] Instance same_outside_preorder : PreOrder same_outside.
Proof. split; unfold same_outside; [done|]. intros w1 w2 w3. naive_solver congruence. Qed.

(** ** The others

    What transactions of others have made of the tables since. *)
Definition meanwhile `{Env} : relation Db := rtc (λ d d', ∃ n, d' = env_others n d).
#[export] Instance meanwhile_preorder `{Env} : PreOrder meanwhile.
Proof. unfold meanwhile. apply _. Qed.
Lemma meanwhile_once `{Env} w : meanwhile (w_db w) (w_db (others_commit w)).
Proof. apply rtc_once. by exists (w_step w). Qed.
(** Whatever relation each of them is within, all of them are. *)
Class OthersWithin (E : Env) (R : relation Db) : Prop := others_within : ∀ n d, R d (env_others n d).
Lemma meanwhile_within `{E : Env} (R : relation Db) : PreOrder R → OthersWithin E R → ∀ d d', meanwhile d d' → R d d'.
Proof. intros HR Ho d d' Hm. induction Hm as [d|d1 d2 d3 [n ->] _ IH]; [reflexivity|]. etransitivity; [apply Ho|done]. Qed.

#[export] Instance others_meanwhile `{E : Env} : OthersWithin E meanwhile.
Proof. intros n d. apply rtc_once. by exists n. Qed.

(** The others are runs of this program, or there are none. *)
Abbreviation LawfulOthers E := (OthersWithin E grows).
Class Alone (E : Env) : Prop := others_none : ∀ n d, env_others n d = d.
#[export] Instance alone_within E R : Alone E → Reflexive R → OthersWithin E R.
Proof. intros Ha HR n d. by rewrite Ha. Qed.
Lemma alone_meanwhile `{E : Env} `{!Alone E} d d' : meanwhile d d' → d' = d.
Proof. induction 1 as [|d1 d2 d3 [n ->] _ IH]; [done|]. by rewrite IH, others_none. Qed.
Lemma meanwhile_inv `{E : Env} `{!LawfulOthers E} d d' : meanwhile d d' → db_inv d → db_inv d' ∧ evolves d d'.
Proof. intros Hm. apply (meanwhile_within grows); [unfold grows; apply _|apply _|done]. Qed.

(** Tables that hold no row the first ones do not, and the same delegations. *)
Definition kept : relation Db := λ d d', ∀ k b, db_delegations d' !! k = Some b →
  ∃ a, db_delegations d !! k = Some a ∧ row_step a b.
(** A stretch in which others commit and this process changes rows. *)
Definition history `{Env} : relation Db := rtc (λ d d', (∃ n, d' = env_others n d) ∨ kept d d').
#[export] Instance history_preorder `{Env} : PreOrder history.
Proof. unfold history. apply _. Qed.
Lemma history_meanwhile `{Env} d d' : meanwhile d d' → history d d'.
Proof. induction 1 as [|d1 d2 d3 Hs _ IH]; [reflexivity|]. eapply rtc_l; [by left|done]. Qed.
Lemma history_kept `{Env} d d' : kept d d' → history d d'.
Proof. intros Hk. apply rtc_once. by right. Qed.

(** No id is given to a second row: what is found under an id later is the same
    delegation, further on. *)
Class UniqueIds (E : Env) : Prop := same_delegation : ∀ d d' k a b, history d d' →
  db_delegations d !! k = Some a → db_delegations d' !! k = Some b → row_step a b.
(** Others that insert no row give out no id. *)
Lemma kept_unique `{E : Env} : (∀ n d, kept d (env_others n d)) → UniqueIds E.
Proof.
  intros Hk d d' k a b Hh Ha Hb. enough (kept d d') as Hd by (destruct (Hd _ _ Hb) as (? & ? & ?); by simplify_eq).
  clear -Hk Hh. induction Hh as [d|d1 d2 d3 Hs _ IH]; [intros k b ?; by exists b|].
  assert (kept d1 d2) as H12 by (destruct Hs as [[n ->]|?]; [apply Hk|done]).
  intros k c Hc. destruct (IH k c Hc) as (b & Hb & Hbc). destruct (H12 k b Hb) as (a & Ha & Hab).
  exists a. split; [done|]. by etransitivity.
Qed.
#[export] Instance alone_unique E : Alone E → UniqueIds E.
Proof. intros Ha. apply kept_unique. intros n d k b. rewrite Ha. by exists b. Qed.
(** A row found again with the version it was read with is the row that was read. *)
Lemma same_version `{E : Env} `{!UniqueIds E} d d' k a b : history d d' →
  db_delegations d !! k = Some a → db_delegations d' !! k = Some b → RecordVersion b = RecordVersion a → b = a.
Proof. intros Hh Ha Hb Hv. destruct (rs_version _ _ (same_delegation _ _ _ _ _ Hh Ha Hb)) as [?|?]; [done|lia]. Qed.

(** The tables a transaction of the context begins on: those of the transaction
    it joins, or what the others have made of them. *)
Definition begins_on `{Env} (ctx : Ctx) (d d1 : Db) : Prop :=
  match ctx_tx ctx with Some _ => d1 = d | None => meanwhile d d1 end.
Lemma begins_on_meanwhile `{Env} ctx d d1 : begins_on ctx d d1 → meanwhile d d1.
Proof. unfold begins_on. destruct (ctx_tx ctx); [by intros ->|done]. Qed.
Lemma begins_on_refl `{Env} ctx d : begins_on ctx d d.
Proof. unfold begins_on. by destruct (ctx_tx ctx). Qed.
Lemma begins_on_inv `{E : Env} `{!LawfulOthers E} ctx d d1 : begins_on ctx d d1 → db_inv d → db_inv d1.
Proof. intros Hb%begins_on_meanwhile Hd. by destruct (meanwhile_inv _ _ Hb Hd). Qed.
Lemma begins_on_inside `{Env} ctx tx d d1 : ctx_tx ctx = Some tx → begins_on ctx d d1 → d1 = d.
Proof. unfold begins_on. by intros ->. Qed.
Lemma begins_on_alone `{E : Env} `{!Alone E} ctx d d1 : begins_on ctx d d1 → d1 = d.
Proof. intros Hb%begins_on_meanwhile. by apply alone_meanwhile. Qed.

Section rules.
Context `{E : Env} `{P : PgCommon} `{U : UuidLib} `{PL : !PgCommonLaws E P U}.

Lemma wp_db_step Q w :
  (∀ e, env_db_fault (w_step w) = Some e → Q (Err e) (next_step w)) →
  (env_db_fault (w_step w) = None → Q (Ok tt) (next_step w)) →
  wp db_step Q w.
Proof. unfold wp, db_step. intros. destruct (env_db_fault (w_step w)) eqn:?; simpl; auto. Qed.

Lemma wp_stmt {A} (f : Db → result goerror (A * Db)) Q w :
  (∀ e, env_db_fault (w_step w) = Some e → Q (Err e) (next_step w)) →
  (∀ e, f (w_db w) = Err e → Q (Err e) (next_step w)) →
  (∀ a d, f (w_db w) = Ok (a, d) → Q (Ok a) (set_db d (next_step w))) →
  wp (stmt f) Q w.
Proof.
  unfold wp, stmt, db_step. intros H1 H2 H3.
  destruct (env_db_fault (w_step w)) eqn:?; simpl; [by apply H1|].
  destruct (f (w_db w)) as [[a d]|e] eqn:Hf; simpl; auto.
Qed.

Lemma wp_query {A} (f : Db → A) Q w :
  (∀ e, env_db_fault (w_step w) = Some e → Q (Err e) (next_step w)) →
  Q (Ok (f (w_db w))) (next_step w) →
  wp (query f) Q w.
Proof.
  intros H1 H2. apply wp_stmt; [done|done|]. intros a d [= <- <-]. by destruct w.
Qed.

Lemma wp_begin_tx pool ctx Q w :
  (∀ e, env_db_fault (w_step w) = Some e → Q (Err e) (next_step w)) →
  (∀ tx w', tx_for pool ctx tx → w' = next_step (next_step w) → Q (Ok tx) w') →
  wp (begin_tx pool ctx) Q w.
Proof.
  intros H1 H2. unfold begin_tx. apply wp_bind, wp_db_step; [auto|intros _].
  apply wp_bind. unfold time_Now. apply wp_bind. apply wp_intro. simpl.
  apply wp_ret, wp_ret. apply H2; done.
Qed.

(** *** Database effects *)
Lemma within_stmt {A} (R : relation Db) (f : Db → result goerror (A * Db)) :
  Reflexive R → (∀ d a d', f d = Ok (a, d') → R d d') → Within (DbRel R) (stmt f).
Proof.
  intros HR Hf w. change (wp (stmt f) (λ _ w', DbRel R w w') w).
  apply wp_stmt; intros; apply DbRel_uncounted; simpl; try done. by eapply Hf.
Qed.
Lemma within_query {A} (R : relation Db) (f : Db → A) :
  Reflexive R → Within (DbRel R) (query f).
Proof. intros HR. apply within_stmt; [done|]. intros d a d' [= <- <-]. apply HR. Qed.
Lemma within_db_step (R : relation Db) : Reflexive R → Within (DbRel R) db_step.
Proof. intros HR w. unfold db_step. by destruct (env_db_fault (w_step w)); apply DbRel_uncounted. Qed.

#[export] Instance within_tick (R : relation Db) : Reflexive R → Within (DbRel R) tick.
Proof. intros HR w. by apply DbRel_uncounted. Qed.
#[export] Instance within_time_Now (R : relation Db) : Reflexive R → Within (DbRel R) time_Now.
Proof. intros HR w. by apply DbRel_uncounted. Qed.
#[export] Instance within_uuid_New (R : relation Db) : Reflexive R → Within (DbRel R) uuid_New.
Proof. intros HR w. by apply DbRel_uncounted. Qed.

Lemma within_attempt {A} (R : relation Db) pool ctx (body : Tx → M A) w :
  PreOrder R → OthersWithin E R → (∀ tx, tx_for pool ctx tx → Within (DbRel R) (body tx)) →
  DbRel R w (tx_attempt pool ctx body w).2.
Proof.
  intros HR Ho Hbody. apply (transitivity (y := others_commit w)); [by apply DbRel_uncounted; simpl|].
  unfold tx_attempt. generalize (others_commit w). clear w. intros w. unfold isolated_attempt.
  assert (wp (begin_tx pool ctx ≫= body) (λ _ w', DbRel R w w') w) as Hwp.
  { apply wp_bind. apply wp_begin_tx; [intros; by apply DbRel_uncounted|]. intros tx w1 Htx ->.
    destruct (Hbody tx Htx (next_step (next_step w))) as [Hdb Hc]. by split. }
  unfold wp in Hwp. destruct ((begin_tx pool ctx ≫= body) w) as [[a|e] w1], Hwp as [Hdb Hc]; simpl in *; [|by split].
  unfold db_step. by destruct (env_db_fault (w_step w1)); split.
Qed.

Lemma within_settled {A} (R : relation Db) w (o : tx_outcome A * World) : DbRel R w o.2 → DbRel R w (settled o).2.
Proof. by destruct o as [[] ?]. Qed.

Lemma within_RunInTx_once {A} (R : relation Db) pool ctx (body : Tx → M A) :
  PreOrder R → OthersWithin E R → (∀ tx, tx_for pool ctx tx → Within (DbRel R) (body tx)) →
  Within (DbRel R) (pgcommon_RunInTx pool ctx body).
Proof. intros HR Ho Hbody w. rewrite RunInTx_runs. by apply within_settled, within_attempt. Qed.

Lemma within_RunInTx_retry {A} (R : relation Db) n pool ctx (cap : A) body :
  PreOrder R → OthersWithin E R → (∀ tx cap, tx_for pool ctx tx → Within (DbRel R) (body tx cap)) →
  Within (DbRel R) (pgcommon_RunInTxWithRetryOpts (S n) pool ctx cap body).
Proof.
  intros HR Ho Hbody w. pose proof (RunInTxWithRetryOpts_runs A n pool ctx cap body w) as Hrun.
  set (r := pgcommon_RunInTxWithRetryOpts _ _ _ _ _ w) in *. clearbody r.
  induction Hrun as [m cap w|m cap w e w1 r Ha _ IH|m cap w a e w1 r Ha _ IH].
  1: by apply within_settled, within_attempt; auto.
  all: pose proof (within_attempt R pool ctx (λ tx, body tx cap) w HR Ho (λ tx, Hbody tx cap)) as Hw;
    rewrite Ha in Hw; etransitivity; [exact Hw|exact IH].
Qed.

#[export] Instance within_wrap_conn {A} (R : relation World) (m : M A) :
  Within R m → Within R (wrap_conn m).
Proof. intros Hm w. specialize (Hm w). unfold wrap_conn. by destruct (m w) as [[] ?]. Qed.

Lemma within_withPool {A} (R : relation Db) ctx pool (fn : Tx → M A) :
  PreOrder R → OthersWithin E R → (∀ tx, eff_tx pool ctx tx → Within (DbRel R) (fn tx)) →
  Within (DbRel R) (withPool ctx pool fn).
Proof.
  intros HR Ho Hfn. unfold withPool, eff_tx, TxFromContext in *. destruct (ctx_tx ctx).
  - apply within_wrap_conn; auto.
  - apply within_wrap_conn, within_RunInTx_once; auto.
Qed.

Lemma within_RunInTx {A} (R : relation Db) pool events ctx (cap : A) (fn : Ctx → A → M A) :
  PreOrder R → OthersWithin E R →
  (∀ ctx' cap, (∃ tx, eff_tx pool ctx tx ∧ ctx_tx ctx' = Some tx) → Within (DbRel R) (fn ctx' cap)) →
  Within (DbRel R) (RunInTx pool events ctx cap fn).
Proof.
  intros HR Ho Hfn. unfold RunInTx, eff_tx, TxFromContext in *. destruct (ctx_tx ctx) as [tx|] eqn:Htx.
  - apply within_wrap_conn, Hfn. exists tx. split; [done|].
    destruct events; [|done]. by destruct (EventPublisherFromContext ctx).
  - apply within_wrap_conn, within_RunInTx_retry; [done|done|]. intros tx cap' Hfor.
    apply Hfn. exists tx. split; [done|]. by destruct events.
Qed.

(** *** Outcomes *)

(** A transaction either commits what its body made of the tables it began on, or
    leaves those; the error it fails with is the body's or an outage. *)
Lemma attempt_spec {A} pool ctx (body : Tx → M A) (S : A → World → Prop) (X : goerror → Prop) w :
  (∀ e, outage e → X e) →
  (∀ a w1, S a w1 → S a (next_step w1)) →
  (∀ tx w1, tx_for pool ctx tx → w1 = next_step (next_step w) →
     wp (body tx) (λ r w2, match r with Ok a => S a w2 | Err e => X e end) w1) →
  match isolated_attempt pool ctx body w with
  | (Committed a, w') => S a w'
  | (BodyFailed e, w') => w_db w' = w_db w ∧ X e
  | (CommitFailed a e, w') => w_db w' = w_db w ∧ X e ∧ ∃ w1, S a w1
  end.
Proof.
  intros HX Hstep Hbody. unfold isolated_attempt.
  assert (wp (begin_tx pool ctx ≫= body)
    (λ r w2, match r with Ok a => S a w2 | Err e => X e end) w) as Hwp.
  { apply wp_bind. apply wp_begin_tx.
    - intros e He. apply HX. exists (w_step w), e. auto.
    - intros tx w1 Htx ->. by apply Hbody. }
  unfold wp in Hwp. destruct ((begin_tx pool ctx ≫= body) w) as [[a|e] w1]; simpl in *; [|done].
  unfold db_step. destruct (env_db_fault (w_step w1)) as [e|] eqn:He; simpl.
  - split; [done|]. split; [|eauto]. apply HX. exists (w_step w1), e. auto.
  - by apply Hstep.
Qed.

(** [S d a d']: an attempt that began on [d] committed [a] and left [d']. *)
Definition concluded {A} (S : Db → A → Db → Prop) (X : Db → goerror → Prop) (d0 : Db)
    (r : result goerror A) (w' : World) : Prop :=
  ∃ d, meanwhile d0 d ∧ match r with Ok a => S d a (w_db w') | Err e => w_db w' = d ∧ X d e end.

Lemma attempt_concluded {A} pool ctx (body : Tx → M A) (C : A → Prop) (S : Db → A → Db → Prop)
    (X : Db → goerror → Prop) d0 w :
  (∀ d e, outage e → X d e) → meanwhile d0 (w_db w) →
  (∀ tx w1, tx_for pool ctx tx → meanwhile d0 (w_db w1) →
     wp (body tx) (λ r w2, match r with Ok a => S (w_db w1) a (w_db w2) ∧ C a | Err e => X (w_db w1) e end) w1) →
  let o := tx_attempt pool ctx body w in
  concluded S X d0 (settled o).1 o.2
  ∧ match o with
    | (Committed _, _) => True
    | (BodyFailed e, w') => meanwhile d0 (w_db w')
    | (CommitFailed a e, w') => meanwhile d0 (w_db w') ∧ C a
    end.
Proof.
  intros HX Hw Hbody. assert (meanwhile d0 (w_db (others_commit w))) as Hm by (etransitivity; [exact Hw|apply meanwhile_once]).
  unfold tx_attempt. set (w0 := others_commit w) in *. clearbody w0.
  pose proof (attempt_spec pool ctx body (λ a w', S (w_db w0) a (w_db w') ∧ C a) (X (w_db w0)) w0 (HX _) (λ a w1 HS, HS)) as Ha.
  specialize (Ha ltac:(intros tx w1 Htx ->; by apply (Hbody tx (next_step (next_step w0))))). simpl.
  destruct (isolated_attempt pool ctx body w0) as [[a|e|a e] w']; simpl; unfold concluded.
  - destruct Ha. split; [by exists (w_db w0)|done].
  - destruct Ha as [-> ?]. split; [by exists (w_db w0)|done].
  - destruct Ha as (-> & ? & _ & _ & ?). split; [by exists (w_db w0)|done].
Qed.

Lemma wp_RunInTx_once {A} pool ctx (body : Tx → M A) (S : Db → A → Db → Prop) (X : Db → goerror → Prop) w :
  (∀ d e, outage e → X d e) →
  (∀ tx w1, tx_for pool ctx tx → meanwhile (w_db w) (w_db w1) →
     wp (body tx) (λ r w2, match r with Ok a => S (w_db w1) a (w_db w2) | Err e => X (w_db w1) e end) w1) →
  wp (pgcommon_RunInTx pool ctx body) (concluded S X (w_db w)) w.
Proof.
  intros HX Hbody. destruct (attempt_concluded pool ctx body (λ _, True) S X (w_db w) w) as [Hc _]; [done..| |].
  { intros tx w1 Htx Hm. eapply wp_mono; [by apply Hbody|]. by intros [a|e] w2. }
  unfold wp. rewrite RunInTx_runs. by destruct (tx_attempt pool ctx body w) as [[] w'].
Qed.

(** The retry rule: [C] is what the captured variables satisfy at the start of
    every attempt. *)
Lemma wp_RunInTx_retry {A} n pool ctx (cap : A) (body : Tx → A → M A)
    (C : A → Prop) (S : Db → A → Db → Prop) (X : Db → goerror → Prop) w :
  C cap →
  (∀ d e, outage e → X d e) →
  (∀ tx cap w1, tx_for pool ctx tx → meanwhile (w_db w) (w_db w1) → C cap →
     wp (body tx cap) (λ r w2, match r with Ok a => S (w_db w1) a (w_db w2) ∧ C a | Err e => X (w_db w1) e end) w1) →
  wp (pgcommon_RunInTxWithRetryOpts (Datatypes.S n) pool ctx cap body) (concluded S X (w_db w)) w.
Proof.
  intros HC HX Hbody. unfold wp. pose proof (RunInTxWithRetryOpts_runs A n pool ctx cap body w) as Hrun.
  set (r := pgcommon_RunInTxWithRetryOpts _ _ _ _ _ w) in *. clearbody r.
  set (d0 := w_db w) in Hbody |- *. assert (meanwhile d0 (w_db w)) as Hw by done. clearbody d0.
  induction Hrun as [m cap w|m cap w e w1 r Ha _ IH|m cap w a e w1 r Ha _ IH];
    destruct (attempt_concluded pool ctx (λ tx, body tx cap) C S X d0 w HX Hw) as [Hc Hnext]; auto.
  - by destruct (tx_attempt pool ctx (λ tx, body tx cap) w) as [[] w'].
  - rewrite Ha in Hnext. by apply IH.
  - rewrite Ha in Hnext. destruct Hnext. by apply IH.
Qed.

Lemma wp_wrap_conn {A} (m : M A) Q w :
  wp m (λ r w', match r with Ok a => Q (Ok a) w' | Err e => Q (Err (wrapConnErr e)) w' end) w →
  wp (wrap_conn m) Q w.
Proof. unfold wp, wrap_conn. by destruct (m w) as [[] ?]. Qed.

(** Errors the data calls for, as opposed to outages. *)
Definition fails_with (X : goerror → Prop) (e : goerror) : Prop :=
  outage e ∨ ∃ e0, X e0 ∧ (e = e0 ∨ e = wrapConnErr e0).

Lemma fails_outage X e : outage e → fails_with X e.
Proof. by left. Qed.
Lemma fails_here (X : goerror → Prop) e : X e → fails_with X e.
Proof. right. eauto. Qed.
Lemma fails_wrap X e : fails_with X e → fails_with X (wrapConnErr e).
Proof.
  intros [Ho|(e0 & HX & [->| ->])]; [left; by apply outage_wrap| |];
    right; exists e0; rewrite ?wrapConnErr_idem; auto.
Qed.
Lemma fails_mono (X Y : goerror → Prop) e : (∀ e, X e → Y e) → fails_with X e → fails_with Y e.
Proof. intros HXY [Ho|(e0 & HX & He)]; [by left|right; eauto]. Qed.
Lemma fault_fails X n e : env_db_fault n = Some e → fails_with X e.
Proof. intros He. left. exists n, e. auto. Qed.

(** [wrapConnErr] leaves the errors of the domain as they are. *)
Lemma fails_domain (X : goerror → Prop) e : (∀ x, X x → as_domain x ≠ None) → fails_with X e → outage e ∨ X e.
Proof.
  intros Hdom [Ho|(x & HX & [->| ->])]; [by left|by right|]. right.
  destruct (as_domain x) eqn:Hx; [by erewrite wrapConnErr_domain|by apply Hdom in HX].
Qed.

(** While the database answers, only the data make an operation fail. *)
Definition healthy_db : Prop := ∀ n, env_db_fault n = None.
Lemma healthy_fails X e : healthy_db → fails_with X e → ∃ e0, X e0 ∧ (e = e0 ∨ e = wrapConnErr e0).
Proof. intros Hh [(n & e0 & Hf & _)|He]; [by rewrite Hh in Hf|done]. Qed.
Lemma healthy_no_outage e : healthy_db → ¬ fails_with (λ _, False) e.
Proof. intros Hh He. by destruct (healthy_fails _ _ Hh He) as (? & [] & _). Qed.

(** A repository method: its body runs in the effective transaction, and a
    failing body must not have changed the tables. *)
Definition concludes {A} (ctx : Ctx) (S : Db → A → Db → Prop) (X : Db → goerror → Prop) (w : World)
    (r : result goerror A) (w' : World) : Prop :=
  ∃ d, begins_on ctx (w_db w) d ∧
    match r with Ok a => S d a (w_db w') | Err e => w_db w' = d ∧ fails_with (X d) e end.
Lemma wp_from {A} ctx (m : M A) S X w w1 :
  w_db w1 = w_db w → wp m (concludes ctx S X w1) w1 → wp m (concludes ctx S X w) w1.
Proof. unfold concludes. by intros <-. Qed.
Lemma wp_withPool {A} ctx pool (fn : Tx → M A) (S : Db → A → Db → Prop) (X : Db → goerror → Prop) w :
  (∀ tx w1, eff_tx pool ctx tx → begins_on ctx (w_db w) (w_db w1) →
     wp (fn tx) (λ r w2, match r with
                         | Ok a => S (w_db w1) a (w_db w2)
                         | Err e => w_db w2 = w_db w1 ∧ fails_with (X (w_db w1)) e end) w1) →
  wp (withPool ctx pool fn) (concludes ctx S X w) w.
Proof.
  intros Hfn. unfold withPool, eff_tx, concludes, begins_on, TxFromContext in *.
  destruct (ctx_tx ctx) as [tx|]; apply wp_wrap_conn.
  - eapply wp_mono; [by apply Hfn|]. intros [a|e] w2; [by exists (w_db w)|]. intros [? ?]. exists (w_db w). split; [done|].
    split; [done|]. by apply fails_wrap.
  - eapply wp_mono.
    + apply (wp_RunInTx_once pool ctx fn S (λ d e, fails_with (X d) e)).
      * intros d. apply fails_outage.
      * intros tx w1 Htx Hm. eapply wp_mono; [by apply Hfn|]. intros [a|e] w2; naive_solver.
    + intros [a|e] w2 (d & Hm & H); exists d; [done|]. destruct H. split; [done|]. split; [done|]. by apply fails_wrap.
Qed.

(** The same, naming a world [w0] with the tables it begins on. *)
Lemma wp_method {A} ctx pool (fn : Tx → M A) (S : Db → A → Db → Prop) (X : Db → goerror → Prop) w :
  (∀ w0, begins_on ctx (w_db w) (w_db w0) → ∀ tx w1, eff_tx pool ctx tx → w_db w1 = w_db w0 →
     wp (fn tx) (λ r w2, match r with
                         | Ok a => S (w_db w0) a (w_db w2)
                         | Err e => w_db w2 = w_db w0 ∧ fails_with (X (w_db w0)) e end) w1) →
  wp (withPool ctx pool fn) (concludes ctx S X w) w.
Proof. intros Hfn. apply wp_withPool. intros tx w1 Htx Hb. by apply Hfn. Qed.
Lemma wp_method_inv `{!LawfulOthers E} {A} ctx pool (fn : Tx → M A) (S : Db → A → Db → Prop) (X : Db → goerror → Prop) w :
  db_inv (w_db w) →
  (∀ w0, db_inv (w_db w0) → ∀ tx w1, eff_tx pool ctx tx → w_db w1 = w_db w0 →
     wp (fn tx) (λ r w2, match r with
                         | Ok a => S (w_db w0) a (w_db w2)
                         | Err e => w_db w2 = w_db w0 ∧ fails_with (X (w_db w0)) e end) w1) →
  wp (withPool ctx pool fn) (concludes ctx S X w) w.
Proof. intros Hinv Hfn. apply wp_method. intros w0 Hb. by apply Hfn, (begins_on_inv ctx _ _ Hb). Qed.

Lemma wp_RunInTx {A} pool events ctx (cap : A) (fn : Ctx → A → M A)
    (C : A → Prop) (S : Db → A → Db → Prop) (X : Db → goerror → Prop) w :
  ctx_tx ctx = None → C cap →
  (∀ tx cap w1, tx_for pool ctx tx → meanwhile (w_db w) (w_db w1) → C cap →
     wp (fn (match events with Some p => WithEventPublisher (WithTx ctx tx) p | None => WithTx ctx tx end) cap)
       (λ r w2, match r with Ok a => S (w_db w1) a (w_db w2) ∧ C a | Err e => fails_with (X (w_db w1)) e end) w1) →
  wp (RunInTx pool events ctx cap fn) (concludes ctx S X w) w.
Proof.
  intros Hctx HC Hfn. unfold RunInTx, TxFromContext, concludes, begins_on. rewrite Hctx. apply wp_wrap_conn.
  eapply wp_mono.
  - apply (wp_RunInTx_retry _ pool ctx cap _ C S (λ d, fails_with (X d))); [done|intros d; apply fails_outage|].
    intros tx cap' w1 Htx Hdb HC'. by apply Hfn.
  - intros [a|e] w2 (d & Hm & H); exists d; [done|]. destruct H. split; [done|]. split; [done|]. by apply fails_wrap.
Qed.
End rules.
