(* ===== verification/Statements.v ===== *)
(** * Transactions statement by statement

    Under READ COMMITTED the transactions of others also commit between two
    statements of ours: a statement sees what is committed when it starts and our
    own writes, and a row we wrote stays locked until we end.  [Store] runs a
    transaction without such interruptions.  Here the body of a transaction is
    taken apart into its statements ([prog], found by [Staged]), run with the
    others in between ([irun], [rc_attempt]), and related to the uninterrupted
    run: a transaction whose statements are stable under what the others may do to
    unlocked rows might as well have begun after all of them. *)
From S2P Require Import Prelude GoLib Domain World Store StoreFacts.
Local Open Scope Z_scope.

(** ** Locks *)
Record Locks := mkLocks {
  l_delegations : gset uuid; l_settings : gset uuid; l_processed : gset (string * string) }.
Definition no_locks : Locks := mkLocks ∅ ∅ ∅.
Definition lock_more (L L' : Locks) : Locks :=
  mkLocks (l_delegations L ∪ l_delegations L') (l_settings L ∪ l_settings L') (l_processed L ∪ l_processed L').

Section maps.
Context {K V : Type} `{Countable K} `{EqDecision V}.
Implicit Types (L : gset K) (m c v : gmap K V).

(** The keys whose rows differ. *)
Definition changed m m' : gset K := filter (λ k, m !! k ≠ m' !! k) (dom m ∪ dom m').
(** The rows of [v] under the keys of [L], those of [c] under all others. *)
Definition overlay L v c : gmap K V := filter (λ kx, kx.1 ∈ L) v ∪ filter (λ kx, kx.1 ∉ L) c.
Definition agree_on L m m' : Prop := set_Forall (λ k, m !! k = m' !! k) L.
#[export] Instance agree_on_dec L m m' : Decision (agree_on L m m').
Proof. unfold agree_on. apply _. Defined.

Lemma lookup_overlay L v c k : overlay L v c !! k = if decide (k ∈ L) then v !! k else c !! k.
Proof.
  unfold overlay. destruct (filter (λ kx, kx.1 ∈ L) v !! k) as [x|] eqn:Hv.
  - erewrite lookup_union_Some_l by exact Hv. apply map_lookup_filter_Some in Hv as [Hx Hk]. simpl in Hk.
    by rewrite decide_True.
  - rewrite lookup_union_r by exact Hv. case_decide as Hk.
    + destruct (v !! k) as [x|] eqn:Hx.
      * rewrite map_lookup_filter_None in Hv. by destruct Hv as [Hv|Hv]; [congruence|destruct (Hv x Hx)].
      * apply map_lookup_filter_None. right. intros y _ Hn. by apply Hn.
    + destruct (c !! k) as [x|] eqn:Hx; [by apply map_lookup_filter_Some|]. apply map_lookup_filter_None. by left.
Qed.
Lemma overlay_overlay L v c c' : overlay L (overlay L v c) c' = overlay L v c'.
Proof. apply map_eq. intros k. rewrite !lookup_overlay. by case_decide. Qed.
Lemma overlay_empty v c : overlay ∅ v c = c.
Proof. apply map_eq. intros k. rewrite lookup_overlay. case_decide; [set_solver|done]. Qed.
Lemma overlay_agree L m m' : agree_on L m m' → overlay L m m' = m'.
Proof. intros Ha. apply map_eq. intros k. rewrite lookup_overlay. case_decide as Hk; [by apply Ha|done]. Qed.
Lemma agree_on_trans L m1 m2 m3 : agree_on L m1 m2 → agree_on L m2 m3 → agree_on L m1 m3.
Proof. intros H12 H23 k Hk. by rewrite (H12 k Hk), (H23 k Hk). Qed.
Lemma agree_on_mono L L' m m' : L ⊆ L' → agree_on L' m m' → agree_on L m m'.
Proof. intros HL Ha k Hk. by apply Ha, HL. Qed.
Lemma agree_on_refl L m : agree_on L m m.
Proof. by intros k _. Qed.
Lemma not_changed m m' k : k ∉ changed m m' → m !! k = m' !! k.
Proof.
  intros Hk. destruct (decide (m !! k = m' !! k)) as [|Hne]; [done|]. destruct Hk. apply elem_of_filter. split; [done|].
  apply elem_of_union. rewrite !elem_of_dom. destruct (m !! k), (m' !! k); naive_solver.
Qed.
Lemma changed_self m : changed m m = ∅.
Proof. apply set_eq. intros k. unfold changed. rewrite elem_of_filter. set_solver. Qed.
End maps.

(** Commits of others that leave the locked rows alone. *)
Record agrees (L : Locks) (c c' : Db) : Prop := {
  agrees_delegations : agree_on (l_delegations L) (db_delegations c) (db_delegations c');
  agrees_settings : agree_on (l_settings L) (db_settings c) (db_settings c');
  agrees_processed : agree_on (l_processed L) (db_processed c) (db_processed c');
}.
#[export] Instance agrees_dec L c c' : Decision (agrees L c c').
Proof.
  refine (cast_if_and3 (decide (agree_on (l_delegations L) (db_delegations c) (db_delegations c')))
                       (decide (agree_on (l_settings L) (db_settings c) (db_settings c')))
                       (decide (agree_on (l_processed L) (db_processed c) (db_processed c'))));
    abstract (by first [split|intros []]).
Defined.
#[export] Instance agrees_preorder L : PreOrder (agrees L).
Proof.
  split; [intros c; split; apply agree_on_refl|].
  intros c1 c2 c3 [H1 H2 H3] [H4 H5 H6]. split; by eapply agree_on_trans.
Qed.
Lemma agrees_more L L' c c' : agrees (lock_more L L') c c' → agrees L c c'.
Proof. intros [H1 H2 H3]. split; (eapply agree_on_mono; [|eassumption]); simpl; apply union_subseteq_l. Qed.

(** The view of a transaction that has locked [L] and written [v] over [c], once
    others have made [c'] of [c]: its rows, theirs, and its events last. *)
Definition rebase (L : Locks) (c c' v : Db) : Db :=
  mkDb (overlay (l_delegations L) (db_delegations v) (db_delegations c'))
       (overlay (l_settings L) (db_settings v) (db_settings c'))
       (overlay (l_processed L) (db_processed v) (db_processed c'))
       (db_outbox c' ++ drop (length (db_outbox c)) (db_outbox v)).
Lemma rebase_rebase L c c' c'' v : rebase L c' c'' (rebase L c c' v) = rebase L c c'' v.
Proof. unfold rebase. simpl. by rewrite !overlay_overlay, drop_app_length. Qed.
Lemma rebase_start c c' : rebase no_locks c c' c = c'.
Proof. unfold rebase. simpl. rewrite !overlay_empty, drop_all, app_nil_r. by destruct c'. Qed.
Lemma rebase_unwritten L c c' : agrees L c c' → rebase L c c' c = c'.
Proof. intros [H1 H2 H3]. unfold rebase. rewrite !overlay_agree by done. rewrite drop_all, app_nil_r. by destruct c'. Qed.

(** ** Programs *)
Definition blind {X} (m : M X) : Prop := ∀ w d, m (set_db d w) = ((m w).1, set_db d (m w).2).

(** What a transaction does: steps that leave the tables alone, and statements,
    each with the rows it locks. *)
Inductive prog (A : Type) : Type :=
| Done (r : result goerror A)
| Local {X} (m : M X) (Hm : blind m) (k : result goerror X → prog A)
| Statement {X} (locks : Db → Locks) (f : Db → result goerror (X * Db)) (k : result goerror X → prog A).
Arguments Done {A}.
Arguments Local {A X}.
Arguments Statement {A X}.

Fixpoint cont {A B} (p : prog A) (k : result goerror A → prog B) : prog B :=
  match p with
  | Done r => k r
  | Local m Hm k' => Local m Hm (λ x, cont (k' x) k)
  | Statement ls f k' => Statement ls f (λ x, cont (k' x) k)
  end.

Section run.
Context `{Env} `{PgCommon} `{UuidLib}.

(** Without interruptions. *)
Fixpoint run {A} (p : prog A) (w : World) : result goerror A * World :=
  match p with
  | Done r => (r, w)
  | Local m _ k => run (k (m w).1) (m w).2
  | Statement _ f k => run (k (stmt f w).1) (stmt f w).2
  end.
Lemma run_cont {A B} (p : prog A) (k : result goerror A → prog B) w : run (cont p k) w = run (k (run p w).1) (run p w).2.
Proof. revert w. induction p as [r|X m Hm k' IH|X ls f k' IH]; intros w; simpl; [done|apply IH|apply IH]. Qed.

(** The others commit what [env_others] says, unless that waits for one of our rows. *)
Definition intrude (L : Locks) (n : nat) (c v : Db) : Db * Db :=
  let c' := env_others n c in
  if decide (agrees L c c') then (c', rebase L c c' v) else (c, v).

(** With the others before every statement; [c] is what is committed, the tables of
    the world are what the transaction sees. *)
Fixpoint irun {A} (p : prog A) (L : Locks) (c : Db) (w : World) : result goerror A * (Db * World) :=
  match p with
  | Done r => (r, (c, w))
  | Local m _ k => irun (k (m w).1) L c (m w).2
  | Statement ls f k =>
      let '(c', v) := intrude L (w_step w) c (w_db w) in
      let x := stmt f (set_db v w) in
      irun (k x.1) (match x.1 with Ok _ => lock_more L (ls v) | Err _ => L end) c' x.2
  end.

(** An attempt of a runner: what others commit before BEGIN, BEGIN, the body,
    COMMIT; a rollback leaves what is committed. *)
Definition rc_attempt {A} (pool : Role) (ctx : Ctx) (body : Tx → prog A) : World → tx_outcome A * World := λ w,
  match begin_tx pool ctx (others_commit w) with
  | (Err e, w1) => (BodyFailed e, w1)
  | (Ok tx, w1) =>
      match irun (body tx) no_locks (w_db w1) w1 with
      | (Err e, (c, w2)) => (BodyFailed e, set_db c w2)
      | (Ok a, (c, w2)) =>
          match db_step w2 with
          | (Ok _, w3) => (Committed a, w3)
          | (Err e, w3) => (CommitFailed a e, set_db c w3)
          end
      end
  end.
End run.

(** ** Taking a body apart

    [Staged m]: the statements of [m], found by following its definition. *)
Class Staged `{Env} `{PgCommon} `{UuidLib} {A} (m : M A) := { stages : prog A; run_stages : ∀ w, run stages w = m w }.
Arguments stages {_ _ _ _} m {_}.
Arguments run_stages {_ _ _ _} m {_}.

Section staged.
Context `{Env} `{PgCommon} `{UuidLib}.

Definition and_then {A B} (p : prog A) (k : A → prog B) : prog B :=
  cont p (λ r, match r with Ok a => k a | Err e => Done (Err e) end).
Definition inspected {A} (p : prog A) : prog (result goerror A) := cont p (λ r, Done (Ok r)).
Definition classified {A} (p : prog A) : prog A :=
  cont p (λ r, Done (match r with Ok a => Ok a | Err e => Err (wrapConnErr e) end)).

#[export] Instance staged_ret {A} (a : A) : Staged (mret a : M A) := {| stages := Done (Ok a); run_stages w := eq_refl |}.
#[export] Instance staged_throw {A} e : Staged (throw e : M A) := {| stages := Done (Err e); run_stages w := eq_refl |}.
#[export] Instance staged_of_result {A} r : Staged (of_result r : M A) := {| stages := Done r; run_stages w := eq_refl |}.
#[export] Instance staged_bind {A B} (m : M A) (k : A → M B) `{!Staged m} `{Hk : !∀ a, Staged (k a)} : Staged (m ≫= k).
Proof.
  refine {| stages := and_then (stages m) (λ a, stages (k a)) |}.
  abstract (intros w; unfold and_then, mbind, gom_bind; rewrite run_cont, run_stages;
    destruct (m w) as [[a|e] w']; [apply run_stages|done]).
Defined.
#[export] Instance staged_try {A} (m : M A) `{!Staged m} : Staged (try m).
Proof. refine {| stages := inspected (stages m) |}. abstract (intros w; unfold inspected, try; by rewrite run_cont, run_stages). Defined.
#[export] Instance staged_wrap_conn {A} (m : M A) `{!Staged m} : Staged (wrap_conn m).
Proof.
  refine {| stages := classified (stages m) |}.
  abstract (intros w; unfold classified, wrap_conn; rewrite run_cont, run_stages; by destruct (m w) as [[a|e] w']).
Defined.
Fixpoint each_of {A} (l : list A) (body : A → prog unit) : prog unit :=
  match l with [] => Done (Ok tt) | x :: l' => and_then (body x) (λ _, each_of l' body) end.
#[export] Instance staged_for_each {A} (l : list A) (body : A → M unit) `{Hb : !∀ a, Staged (body a)} : Staged (for_each l body).
Proof.
  refine {| stages := each_of l (λ a, stages (body a)) |}.
  abstract (induction l as [|x l IH]; intros w; simpl; [done|];
    unfold and_then, mbind, gom_bind; rewrite run_cont, run_stages; destruct (body x w) as [[a|e] w']; [apply IH|done]).
Defined.

(** A statement locks the rows it changes; an UPDATE, those it selects. *)
Definition changes {X} (f : Db → result goerror (X * Db)) (d : Db) : Locks :=
  match f d with
  | Ok (_, d') => mkLocks (changed (db_delegations d) (db_delegations d')) (changed (db_settings d) (db_settings d'))
                          (changed (db_processed d) (db_processed d'))
  | Err _ => no_locks
  end.
Definition selects (tx : Tx) (P : Delegation → bool) (d : Db) : Locks :=
  mkLocks (dom (matching tx P (db_delegations d))) ∅ ∅.
Lemma run_statement {X} ls (f : Db → result goerror (X * Db)) w : run (Statement ls f Done) w = stmt f w.
Proof. simpl. by destruct (stmt f w). Qed.
#[export] Instance staged_stmt {X} (f : Db → result goerror (X * Db)) : Staged (stmt f) | 10 :=
  {| stages := Statement (changes f) f Done; run_stages := run_statement _ f |}.
#[export] Instance staged_update tx P f : Staged (stmt (sql_update tx P f)) :=
  {| stages := Statement (selects tx P) (sql_update tx P f) Done; run_stages := run_statement _ _ |}.
#[export] Instance staged_query {X} (f : Db → X) : Staged (query f) := staged_stmt _.

(** Everything that is not a statement. *)
Lemma run_local {X} (m : M X) (Hm : blind m) w : run (Local m Hm Done) w = m w.
Proof. simpl. by destruct (m w). Qed.
Definition staged_local {X} (m : M X) (Hm : blind m) : Staged m := {| stages := Local m Hm Done; run_stages := run_local m Hm |}.
Lemma blind_tick : blind tick.
Proof. done. Qed.
#[export] Instance staged_tick : Staged tick := staged_local tick blind_tick.
#[export] Instance staged_time_Now : Staged time_Now.
Proof. unfold time_Now. apply _. Defined.
#[export] Instance staged_uuid_New : Staged uuid_New.
Proof. unfold uuid_New. apply _. Defined.
End staged.

(** A branch of the code is one of the program. *)
#[export] Hint Extern 5 (Staged (match ?x with _ => _ end)) => destruct x : typeclass_instances.

(** ** Stability *)
Section stability.
Context `{E : Env} `{P : PgCommon} `{U : UuidLib}.

(** A statement run after the commits of others finds what it found before them,
    and leaves what they make of its result. *)
Definition stable {X} (L : Locks) (c v : Db) (ls : Db → Locks) (f : Db → result goerror (X * Db)) : Prop :=
  ∀ c', meanwhile c c' → agrees (lock_more L (ls v)) c c' →
    match f v with
    | Ok (x, v1) => f (rebase L c c' v) = Ok (x, rebase (lock_more L (ls v)) c c' v1)
    | Err _ => True
    end.

(** No statement is left. *)
Fixpoint silent {A} (p : prog A) : Prop :=
  match p with
  | Done _ => True
  | Local _ _ k => ∀ r, silent (k r)
  | Statement _ _ _ => False
  end.
(** Every statement that another one follows is stable, whatever comes in between. *)
Definition intrudes (L : Locks) (c v c' v' : Db) : Prop :=
  c' = c ∧ v' = v ∨ meanwhile c c' ∧ agrees L c c' ∧ v' = rebase L c c' v.
Fixpoint steady {A} (p : prog A) (L : Locks) (c : Db) (w : World) : Prop :=
  match p with
  | Done _ => True
  | Local m _ k => steady (k (m w).1) L c (m w).2
  | Statement ls f k => ∀ c' v, intrudes L c (w_db w) c' v →
      (∀ e, silent (k (Err e))) ∧
      match f v with
      | Ok (x, v1) =>
          silent (k (Ok x)) ∨ stable L c' v ls f ∧ steady (k (Ok x)) (lock_more L (ls v)) c' (set_db v1 (next_step w))
      | Err _ => True
      end
  end.

Lemma intrude_intrudes L n c v : intrudes L c v (intrude L n c v).1 (intrude L n c v).2.
Proof.
  unfold intrude. case_decide as Ha; [|by left]. right. split; [|done]. apply rtc_once. by exists n.
Qed.
Lemma intrudes_meanwhile L c v c' v' : intrudes L c v c' v' → meanwhile c c'.
Proof. by intros [[-> _]|[? _]]. Qed.
Lemma set_db_db w : set_db (w_db w) w = w.
Proof. by destruct w. Qed.
Lemma blind_db {X} (m : M X) w : blind m → w_db (m w).2 = w_db w.
Proof. intros Hm. pose proof (Hm w (w_db w)) as Hw. rewrite set_db_db in Hw. by rewrite Hw. Qed.
Lemma silent_irun {A} (p : prog A) L c w : silent p → irun p L c w = ((run p w).1, (c, (run p w).2)).
Proof. revert w. induction p as [r|X m Hm k IH|]; intros w Hs; simpl in *; [done|by apply IH|done]. Qed.
Lemma stmt_set {X} (f : Db → result goerror (X * Db)) v w :
  stmt f (set_db v w) =
    match env_db_fault (w_step w) with
    | Some e => (Err e, set_db v (next_step w))
    | None => match f v with Ok (x, v1) => (Ok x, set_db v1 (next_step w)) | Err e => (Err e, set_db v (next_step w)) end
    end.
Proof.
  unfold stmt, db_step. simpl. destruct (env_db_fault (w_step w)); [done|].
  change (w_db (next_step (set_db v w))) with v. by destruct (f v) as [[x d]|e].
Qed.

(** A steady program ends as if it had begun on what the others have made of the
    tables by then.  [p] is what is left of [p0], begun at [w0]: up to here it is
    as if [p0] had begun on [c], or on whatever the others may yet make of it. *)
Lemma irun_steady {A} (p0 p : prog A) L c w0 w :
  run p0 (set_db c w0) = run p w →
  (∀ c', meanwhile c c' → agrees L c c' → run p0 (set_db c' w0) = run p (set_db (rebase L c c' (w_db w)) w)) →
  steady p L c w →
  let x := irun p L c w in meanwhile c x.2.1 ∧ run p0 (set_db x.2.1 w0) = (x.1, x.2.2).
Proof.
  revert L c w. induction p as [r|X m Hm k IH|X ls f k IH]; intros L c w HI HH Hst; [by split| |].
  - simpl. apply IH; [exact HI| |exact Hst]. intros c' Hc Ha. rewrite (HH c' Hc Ha). simpl.
    rewrite Hm, (blind_db m w Hm). done.
  - cbn [irun]. destruct (intrude L (w_step w) c (w_db w)) as [c' v] eqn:Hin.
    pose proof (intrude_intrudes L (w_step w) c (w_db w)) as Hit. rewrite Hin in Hit. simpl in Hit.
    pose proof (intrudes_meanwhile _ _ _ _ _ Hit) as Hcc'.
    assert (run p0 (set_db c' w0) = run (Statement ls f k) (set_db v w)) as HI'.
    { destruct Hit as [[-> ->]|(Hc & Ha & ->)]; [|by apply HH]. by rewrite set_db_db. }
    assert (∀ c'', meanwhile c' c'' → agrees L c' c'' →
      run p0 (set_db c'' w0) = run (Statement ls f k) (set_db (rebase L c' c'' v) w)) as HH'.
    { intros c'' Hc2 Ha2. destruct Hit as [[-> ->]|(Hc & Ha & ->)]; [by apply HH|].
      rewrite rebase_rebase. apply HH; by etransitivity. }
    destruct (Hst c' v Hit) as [Herr Hok]. clear HI HH Hst Hin Hit. simpl in HI', HH'.
    cut (let x := irun (k (stmt f (set_db v w)).1)
           (match (stmt f (set_db v w)).1 with Ok _ => lock_more L (ls v) | Err _ => L end) c' (stmt f (set_db v w)).2 in
         meanwhile c' x.2.1 ∧ run p0 (set_db x.2.1 w0) = (x.1, x.2.2)).
    { intros [? ?]. split; [by etransitivity|done]. }
    assert (∀ r L w1, (r, w1) = stmt f (set_db v w) → silent (k r) →
      let x := irun (k r) L c' w1 in meanwhile c' x.2.1 ∧ run p0 (set_db x.2.1 w0) = (x.1, x.2.2)) as Hlast.
    { intros r L1 w1 Hr Hs. rewrite silent_irun by done. simpl. split; [reflexivity|]. rewrite HI', <- Hr. simpl.
      by destruct (run (k r) w1). }
    destruct (stmt f (set_db v w)) as [r w1] eqn:Hr. simpl. destruct r as [x|e]; [|by apply Hlast].
    rewrite stmt_set in Hr. destruct (env_db_fault (w_step w)) eqn:Hfault; [done|].
    destruct (f v) as [[y v1]|] eqn:Hf; [|done]. injection Hr as -> <-.
    destruct Hok as [Hs|[Hs Hst]]; [by apply Hlast|].
    apply IH; [exact HI'| |exact Hst]. intros c'' Hc2 Ha2. rewrite (HH' c'' Hc2 (agrees_more _ _ _ _ Ha2)).
    specialize (Hs c'' Hc2 Ha2). rewrite Hf in Hs. rewrite stmt_set, Hfault, Hs. done.
Qed.

(** *** Programs that only add events, before a last statement *)
Definition appends {X} (ls : Db → Locks) (f : Db → result goerror (X * Db)) : Prop :=
  (∀ d, ls d = no_locks) ∧
  ∃ x l, ∀ d, f d = Ok (x, mkDb (db_delegations d) (db_settings d) (db_processed d) (db_outbox d ++ l)).
Fixpoint winding_down {A} (p : prog A) : Prop :=
  match p with
  | Done _ => True
  | Local _ _ k => ∀ r, winding_down (k r)
  | Statement ls f k => (∀ e, silent (k (Err e))) ∧ (appends ls f ∧ (∀ x, winding_down (k (Ok x))) ∨ ∀ r, silent (k r))
  end.

(** The events of a transaction come after what was in the outbox when it began. *)
Definition ahead (c v : Db) : Prop := (length (db_outbox c) ≤ length (db_outbox v))%nat.
Lemma intrudes_ahead L c v c' v' : intrudes L c v c' v' → ahead c v → ahead c' v'.
Proof. intros [[-> ->]|(_ & _ & ->)]; [done|]. intros _. unfold ahead. simpl. rewrite length_app. lia. Qed.
Lemma appends_stable {X} L c v ls (f : Db → result goerror (X * Db)) : appends ls f → ahead c v → stable L c v ls f.
Proof.
  intros [Hls (x & l & Hf)] Ha c' _ _. rewrite !Hf, Hls. unfold rebase. simpl. do 3 f_equal.
  1-3: by rewrite union_empty_r_L. rewrite drop_app_le by exact Ha. by rewrite app_assoc.
Qed.
Lemma winding_down_steady {A} (p : prog A) L c w : winding_down p → ahead c (w_db w) → steady p L c w.
Proof.
  revert L c w. induction p as [r|X m Hm k IH|X ls f k IH]; intros L c w Hp Ha; simpl in *; [done| |].
  - apply IH; [apply Hp|]. by rewrite blind_db.
  - intros c' v Hv. apply intrudes_ahead in Hv; [|done]. destruct Hp as [Herr Hp]. split; [done|].
    destruct (f v) as [[x v1]|e] eqn:Hf; [|done]. destruct Hp as [[Hap Hp]|Hp]; [right|by left].
    split; [by apply appends_stable|]. apply IH; [apply Hp|]. destruct Hap as [_ (y & l & Hl)]. rewrite Hl in Hf.
    injection Hf as _ <-. unfold ahead in *. simpl. rewrite length_app. lia.
Qed.

(** *** Programs that only read *)
Definition reads {X} (f : Db → result goerror (X * Db)) : Prop := ∀ d, ∃ x, f d = Ok (x, d).
Fixpoint reading {A} (Q : result goerror A → Prop) (p : prog A) : Prop :=
  match p with
  | Done r => Q r
  | Local _ _ k => ∀ r, reading Q (k r)
  | Statement _ f k => reads f ∧ (∀ x, reading Q (k (Ok x))) ∧ ∀ n e, env_db_fault n = Some e → reading Q (k (Err e))
  end.
Lemma irun_reading {A} Q (p : prog A) L c w :
  reading Q p → w_db w = c →
  let x := irun p L c w in meanwhile c x.2.1 ∧ w_db x.2.2 = x.2.1 ∧ Q x.1.
Proof.
  revert L c w. induction p as [r|X m Hm k IH|X ls f k IH]; intros L c w Hp <-; simpl in *; [done| |].
  - rewrite <- (blind_db m w Hm). by apply IH.
  - destruct (intrude L (w_step w) (w_db w) (w_db w)) as [c' v] eqn:Hin.
    pose proof (intrude_intrudes L (w_step w) (w_db w) (w_db w)) as Hit. rewrite Hin in Hit. simpl in Hit. clear Hin.
    pose proof (intrudes_meanwhile _ _ _ _ _ Hit) as Hm.
    assert (v = c') as -> by (destruct Hit as [[-> ->]|(_ & Ha & ->)]; [done|by apply rebase_unwritten]).
    destruct Hp as (Hf & Hok & Herr). destruct (Hf c') as [y Hy]. rewrite stmt_set, Hy.
    destruct (env_db_fault (w_step w)) as [e|] eqn:Hfault; simpl.
    + destruct (IH (Err e) L c' (set_db c' (next_step w)) (Herr _ _ Hfault) eq_refl) as (? & ? & ?).
      split; [by etransitivity|done].
    + destruct (IH (Ok y) (lock_more L (ls c')) c' (set_db c' (next_step w)) (Hok y) eq_refl) as (? & ? & ?).
      split; [by etransitivity|done].
Qed.

(** ** Transactions that might as well run one after the other

    Either the run is one on what the others have made of the tables by its end,
    or it changes nothing and its result is as [Q] says. *)
Definition serialisable {A} (Q : result goerror A → Prop) (p : prog A) : Prop := ∀ w,
  db_inv (w_db w) →
  let x := irun p no_locks (w_db w) w in
  meanwhile (w_db w) x.2.1 ∧ (run p (set_db x.2.1 w) = (x.1, x.2.2) ∨ w_db x.2.2 = x.2.1 ∧ Q x.1).

Lemma serialisable_local {A X} Q (m : M X) Hm (k : result goerror X → prog A) :
  (∀ r, serialisable Q (k r)) → serialisable Q (Local m Hm k).
Proof.
  intros Hk w Hw. simpl. rewrite Hm. specialize (Hk (m w).1 (m w).2). rewrite (blind_db m w Hm) in Hk. by apply Hk.
Qed.
Lemma serialisable_done {A} Q (r : result goerror A) : serialisable Q (Done r).
Proof. intros w Hw. simpl. split; [reflexivity|]. left. by rewrite set_db_db. Qed.
Lemma serialisable_steady `{!LawfulOthers E} {A X} Q ls (f : Db → result goerror (X * Db)) (k : result goerror X → prog A) :
  (∀ e, silent (k (Err e))) →
  (∀ c, db_inv c →
     match f c with
     | Ok (x, v1) =>
         silent (k (Ok x)) ∨
         stable no_locks c c ls f ∧ (∀ w, w_db w = v1 → steady (k (Ok x)) (lock_more no_locks (ls c)) c w) ∨
         v1 = c ∧ ls c = no_locks ∧ reading Q (k (Ok x))
     | Err _ => True
     end) →
  serialisable Q (Statement ls f k).
Proof.
  intros Herr Hok w Hw. cbn [irun]. destruct (intrude no_locks (w_step w) (w_db w) (w_db w)) as [c v] eqn:Hin.
  pose proof (intrude_intrudes no_locks (w_step w) (w_db w) (w_db w)) as Hit. rewrite Hin in Hit. simpl in Hit.
  pose proof (intrudes_meanwhile _ _ _ _ _ Hit) as Hm.
  assert (v = c) as -> by (destruct Hit as [[-> ->]|(_ & _ & ->)]; [done|apply rebase_start]). clear Hin Hit.
  destruct (meanwhile_inv _ _ Hm Hw) as [Hc _].
  assert (∀ r w1 L, stmt f (set_db c w) = (r, w1) → silent (k r) →
    let x := irun (k r) L c w1 in
    meanwhile (w_db w) x.2.1 ∧ (run (Statement ls f k) (set_db x.2.1 w) = (x.1, x.2.2) ∨ w_db x.2.2 = x.2.1 ∧ Q x.1)) as Hlast.
  { intros r w1 L Hr Hs. rewrite silent_irun by done. simpl. split; [done|]. left. rewrite Hr. simpl. by destruct (run (k r) w1). }
  specialize (Hok c Hc). destruct (stmt f (set_db c w)) as [r w1] eqn:Hr. simpl.
  destruct r as [x|e]; [|by apply Hlast]. pose proof Hr as Hr'. rewrite stmt_set in Hr'.
  destruct (env_db_fault (w_step w)) eqn:Hfault; [done|]. destruct (f c) as [[y v1]|] eqn:Hf; [|done].
  injection Hr' as -> <-. destruct Hok as [Hs|[[Hs Hk]|(-> & Hl & Hk)]]; [by apply Hlast| |].
  - destruct (irun_steady (Statement ls f k) (k (Ok x)) (lock_more no_locks (ls c)) c w (set_db v1 (next_step w))) as [Hm1 Hrun].
    + simpl. by rewrite Hr.
    + intros c' Hcc' Hagr. specialize (Hs c' Hcc' Hagr). rewrite Hf, rebase_start in Hs.
      simpl. by rewrite stmt_set, Hfault, Hs.
    + by apply Hk.
    + split; [by etransitivity|by left].
  - rewrite Hl. destruct (irun_reading Q (k (Ok x)) (lock_more no_locks no_locks) c (set_db c (next_step w)) Hk eq_refl) as (Hm1 & Hd & HQ).
    split; [by etransitivity|by right].
Qed.

Lemma serialisable_first `{!LawfulOthers E} {A X} Q ls (f : Db → result goerror (X * Db)) (k : result goerror X → prog A) :
  (∀ e, silent (k (Err e))) →
  (∀ c, db_inv c →
     match f c with
     | Ok (x, v1) =>
         silent (k (Ok x)) ∨
         stable no_locks c c ls f ∧ winding_down (k (Ok x)) ∧ ahead c v1 ∨
         v1 = c ∧ ls c = no_locks ∧ reading Q (k (Ok x))
     | Err _ => True
     end) →
  serialisable Q (Statement ls f k).
Proof.
  intros He Hok. apply serialisable_steady; [exact He|]. intros c Hc. specialize (Hok c Hc).
  destruct (f c) as [[x v1]|e]; [|done]. destruct Hok as [Hs|[(Hs & Hk & Ha)|Hr]]; [by left| |by right; right].
  right. left. split; [done|]. intros w <-. by apply winding_down_steady.
Qed.

(** An attempt of a runner, interrupted or not. *)
Lemma db_step_blind : blind db_step.
Proof. intros w d. unfold db_step. simpl. by destruct (env_db_fault (w_step w)). Qed.
Lemma begin_tx_blind pool ctx : blind (begin_tx pool ctx).
Proof.
  intros w d. unfold begin_tx, mbind, gom_bind. rewrite db_step_blind. by destruct (db_step w) as [[]w1].
Qed.

Definition settles_as {A} (Q : result goerror A → Prop) (o : tx_outcome A) : Prop :=
  match o with Committed a | CommitFailed a _ => Q (Ok a) | BodyFailed e => Q (Err e) end.

Lemma isolated_attempt_at {A} pool ctx (body : Tx → M A) d w :
  isolated_attempt pool ctx body (set_db d w) =
    match begin_tx pool ctx w with
    | (Err e, w1) => (BodyFailed e, set_db d w1)
    | (Ok tx, w1) =>
        match body tx (set_db d w1) with
        | (Err e, w2) => (BodyFailed e, set_db d w2)
        | (Ok a, w2) =>
            match db_step w2 with
            | (Ok _, w3) => (Committed a, w3)
            | (Err e, w3) => (CommitFailed a e, set_db d w3)
            end
        end
    end.
Proof.
  unfold isolated_attempt, mbind, gom_bind. rewrite begin_tx_blind. destruct (begin_tx pool ctx w) as [[tx|e] w1]; done.
Qed.

Lemma rc_attempt_serialisable `{!LawfulOthers E} {A} Q pool ctx (body : Tx → M A) (p : Tx → prog A) w :
  (∀ tx w, run (p tx) w = body tx w) →
  (∀ tx, tx_for pool ctx tx → serialisable Q (p tx)) →
  db_inv (w_db w) →
  ∃ d, meanwhile (w_db w) d ∧
    (rc_attempt pool ctx p w = isolated_attempt pool ctx body (set_db d w) ∨
     w_db (rc_attempt pool ctx p w).2 = d ∧ settles_as Q (rc_attempt pool ctx p w).1).
Proof.
  intros Hp Hser Hw. pose proof (meanwhile_once w) as Hm0. destruct (meanwhile_inv _ _ Hm0 Hw) as [Hd0 _].
  set (d0 := env_others (w_step w) (w_db w)) in *. unfold rc_attempt, others_commit in *. fold d0 in Hm0, Hd0 |- *.
  change (w_db (set_db d0 w)) with d0 in *. rewrite begin_tx_blind.
  assert (∀ tx w1, begin_tx pool ctx w = (Ok tx, w1) → tx_for pool ctx tx) as Htx.
  { intros tx w1 Hb. assert (wp (begin_tx pool ctx) (λ r _, ∀ tx, r = Ok tx → tx_for pool ctx tx) w) as Hwp
      by (apply wp_begin_tx; [done|]; intros tx' w' ? _ tx'' [= <-]; done).
    unfold wp in Hwp. rewrite Hb in Hwp. by apply Hwp. }
  destruct (begin_tx pool ctx w) as [[tx|e] w1] eqn:Hb; simpl.
  - destruct (Hser tx (Htx tx w1 eq_refl) (set_db d0 w1) Hd0) as [Hm Hrun]. simpl in Hm, Hrun.
    destruct (irun (p tx) no_locks d0 (set_db d0 w1)) as [r [c w2]]. simpl in Hm, Hrun.
    exists c. split; [by etransitivity|]. rewrite isolated_attempt_at, Hb, <- Hp. change (set_db c (set_db d0 w1)) with (set_db c w1) in Hrun.
    destruct Hrun as [Hrun|[Hc HQ]]; [left; by rewrite Hrun; destruct r|right].
    destruct r as [a|e]; simpl; [|done]. pose proof (blind_db _ w2 db_step_blind) as Hs.
    destruct (db_step w2) as [[]w3]; simpl in *; [|done]. by rewrite Hs.
  - exists d0. split; [done|]. left. by rewrite isolated_attempt_at, Hb.
Qed.

End stability.
