(* ===== verification/Valkey.v ===== *)
(** * Package [internal/adapter/outbound/valkey]

    The advisory list cache and the create-idempotency store over one Valkey
    keyspace.  A command sees the keyspace without the entries that expired; it
    fails as a whole when the environment says so, and then has no effect. *)
From S2P Require Import Prelude GoLib Domain World.
Local Open Scope Z_scope.
Local Open Scope string_scope.

Definition listTTL : Duration := 60 * Second.
Definition idempotencyTTL : Duration := 24 * Hour.

(** ** client.go: the settings of the one client, of which the code touches these;
    [ParseURL] is go-redis's *)
Module Client.
Record Options := mkOptions { Addr : string; DialTimeout : Duration; ReadTimeout : Duration; WriteTimeout : Duration }.
Definition or_default (timeout dflt : Duration) : Duration := if (timeout =? 0)%Z then dflt else timeout.
Definition NewClient (ParseURL : string → option Options) (addr : string) : Options :=
  let opts := match ParseURL addr with Some opts => opts | None => mkOptions addr 0 0 0 end in
  mkOptions (Addr opts) (or_default (DialTimeout opts) (100 * Millisecond))
    (or_default (ReadTimeout opts) (50 * Millisecond)) (or_default (WriteTimeout opts) (50 * Millisecond)).
End Client.

Section commands.
Context `{Env}.

Definition KV := gmap string (kv_value * Time).

Definition kv_cmd {A} (f : Time → KV → A * KV) : M A := λ w,
  match env_kv_fault (w_step w) with
  | Some e => (Err e, next_step w)
  | None => let r := f (env_clock (w_step w)) (w_kv w) in (Ok r.1, set_kv r.2 (next_step w))
  end.

(** The value of a key that has not expired. *)
Definition kv_live (now : Time) (kv : KV) (k : string) : option kv_value :=
  match kv !! k with
  | Some (v, expiry) => if (now <? expiry)%Z then Some v else None
  | None => None
  end.

(** GET, SET ... EX, SET NX ... EX, DEL *)
Definition GET (k : string) : M (option kv_value) := kv_cmd (λ now kv, (kv_live now kv k, kv)).
Definition SET (k : string) (v : kv_value) (ttl : Duration) : M unit :=
  kv_cmd (λ now kv, (tt, <[k := (v, (now + ttl)%Z)]> kv)).
Definition SetNX (k : string) (v : kv_value) (ttl : Duration) : M bool :=
  kv_cmd (λ now kv, match kv_live now kv k with
                    | Some _ => (false, kv)
                    | None => (true, <[k := (v, (now + ttl)%Z)]> kv)
                    end).
Definition DEL (k : string) : M unit := kv_cmd (λ _ kv, (tt, delete k kv)).
End commands.

(** ** cache.go *)
Module ListCache.
Section cache.
Context `{Env} `{UuidLib}.

Definition delegatorListKey (tenantID delegatorID : uuid) : string :=
  "del:list:" ++ uuid_String tenantID ++ ":" ++ uuid_String delegatorID.

(** Any error, a miss and a value that is not a list are all a miss. *)
Definition GetDelegatorList (ctx : Ctx) (tenantID delegatorID : uuid) : M (option (list Delegation)) :=
  r ← try (GET (delegatorListKey tenantID delegatorID));
  match r with
  | Err _ => mret None
  | Ok (Some (KVList l)) => mret (Some l)
  | Ok _ => mret None
  end.

Definition SetDelegatorList (ctx : Ctx) (tenantID delegatorID : uuid) (list : list Delegation) : M unit :=
  _ ← try (SET (delegatorListKey tenantID delegatorID) (KVList list) listTTL);
  mret tt.

Definition InvalidateDelegatorList (ctx : Ctx) (tenantID delegatorID : uuid) : M unit :=
  _ ← try (DEL (delegatorListKey tenantID delegatorID));
  mret tt.

Definition NewCache : Cache :=
  {| cache_GetDelegatorList := GetDelegatorList;
     cache_SetDelegatorList := SetDelegatorList;
     cache_InvalidateDelegatorList := InvalidateDelegatorList |}.
End cache.
End ListCache.

(** ** idempotency.go *)
Module Idempotency.
Section store.
Context `{Env} `{UuidLib}.

Definition idempotencyKey (tenantID : uuid) (key : string) : string :=
  "del:idem:" ++ uuid_String tenantID ++ ":" ++ key.

Definition decode_error : goerror := EPlain "json: cannot unmarshal".

Definition Get (ctx : Ctx) (tenantID : uuid) (key : string) : M (option IdempotencyRecord) :=
  v ← GET (idempotencyKey tenantID key);
  match v with
  | None => mret None
  | Some (KVIdem rec) => mret (Some rec)
  | Some _ => throw decode_error
  end.

Definition Save (ctx : Ctx) (tenantID : uuid) (key : string) (rec : IdempotencyRecord) : M unit :=
  SET (idempotencyKey tenantID key) (KVIdem rec) idempotencyTTL.

Definition pending : IdempotencyRecord := mkIdem uuid_Nil "pending".

Definition Reserve (ctx : Ctx) (tenantID : uuid) (key : string) : M bool :=
  SetNX (idempotencyKey tenantID key) (KVIdem pending) idempotencyTTL.

Definition Release (ctx : Ctx) (tenantID : uuid) (key : string) : M unit :=
  DEL (idempotencyKey tenantID key).

Definition NewIdempotencyStore : IdempotencyStore :=
  {| idem_Get := Get; idem_Save := Save; idem_Reserve := Reserve; idem_Release := Release |}.
End store.
End Idempotency.
