(* ===== verification/EventBus.v ===== *)
(** * Packages [internal/adapter/outbound/eventbus] and [internal/eventschema]

    Publishing: a payload is marshalled, validated against the embedded schema of
    its type and written to the outbox in the transaction of the context.
    Consuming: a payload is validated against the consumed schema of its type.
    The JSON-Schema validator and the AWS Glue API are not part of the
    repository: [env_schema], [env_consumed_schema] and [GlueClient] stand for
    them. *)
From S2P Require Import Prelude GoLib Domain World Store.
Local Open Scope Z_scope.
Local Open Scope string_scope.

(** ** schemas.go: the event types that have an embedded schema *)
Definition ByEventType : list string :=
  ["DelegationStarted"; "DelegationEnded"; "DelegationReviewRequested"; "DelegationEscalationRequested"].
Definition Consumed : list string := ["MembershipRevoked"; "TenantMembershipsPurged"; "UserUpdated"].

(** ** json.Marshal of a payload

    Payload structs hold UUIDs, strings, integers and times; only a time whose
    year has no four-digit form cannot be marshalled. *)
Definition year_representable (t : Time) : bool :=
  (-62167219200 * Second <=? t)%Z && (t <? 253402300800 * Second)%Z.
Definition marshalable (d : EventData) : bool :=
  match d with
  | Started p => year_representable (sp_StartsAt p)
                 && match sp_EndsAt p with Some t => year_representable t | None => true end
  | _ => true
  end.

(** ** validating_codec.go: validate, then delegate to the no-op codec *)
Definition ValidatingCodec_Encode `{Env} (eventType : string) (payload : EventData) : result goerror unit :=
  if bool_decide (eventType ∈ ByEventType)
  then match env_schema eventType payload with
       | Some e => Err (EWrap ("validate " ++ eventType) e)
       | None => Ok tt
       end
  else Ok tt.

(** ** validator.go: the fail-closed form *)
Definition SchemaValidator_Validate `{Env} (schemas : list string) (eventType : string) (payload : EventData)
    : result goerror unit :=
  if bool_decide (eventType ∈ schemas)
  then match env_schema eventType payload with
       | Some e => Err (EWrap ("event payload violates schema " ++ eventType) e)
       | None => Ok tt
       end
  else Err (EPlain ("no schema registered for event type " ++ eventType)).

(** ** consumed_validator.go *)
Definition ConsumedValidator_Validate `{Env} (eventType : string) (payload : json) : result goerror unit :=
  if bool_decide (eventType ∈ Consumed)
  then match env_consumed_schema eventType payload with
       | Some e => Err (EWrap2 "" ESchemaViolation (EWrap eventType e))
       | None => Ok tt
       end
  else Ok tt.

(** ** publisher.go *)
Section publisher.
Context `{Env} `{UuidLib}.

(** [events.NewEnvelope(type, source, raw, opts...)], with a fresh id. *)
Definition NewEnvelope (p : Publisher) (evt : DomainEvent) (id : uuid) : Envelope EventData :=
  mkEnvelope (uuid_String id) (de_Type evt) (pub_source p) (uuid_String (de_TenantID evt))
    (de_Subject evt) (de_Actor evt) "1" (de_IPAddress evt) (de_UserAgent evt) (de_Data evt).

Definition outbox_append (env : Envelope EventData) (db : Db) : Db :=
  mkDb (db_delegations db) (db_settings db) (db_processed db) (db_outbox db ++ [env]).

Definition EnqueueCtx (p : Publisher) (ctx : Ctx) (evt : DomainEvent) : M unit :=
  _ ← (if marshalable (de_Data evt) then mret tt
       else throw (EWrap "marshal event payload" (EPlain "year outside of range [0,9999]")));
  _ ← match ValidatingCodec_Encode (de_Type evt) (de_Data evt) with
      | Err e => throw (EWrap ("validate event " ++ de_Type evt) e)
      | Ok _ => mret tt
      end;
  id ← uuid_New;
  let env := NewEnvelope p evt id in
  match TxFromContext ctx with
  | None => throw (EPlain "event enqueue requires an open RunInTx transaction")
  | Some _ => stmt (λ db, Ok (tt, outbox_append env db))
  end.

(** service.enqueue (delegation_service.go), the one caller of the publisher. *)
Definition enqueue (ctx : Ctx) (eventType : string) (tenantID : uuid) (subject actor : string)
    (data : EventData) : M unit :=
  match EventPublisherFromContext ctx with
  | None => mret tt
  | Some pub =>
      now ← time_Now;
      let '(ip, ua) := match FromContext ctx with
                       | Some rc => (requestctx.ClientIP rc, requestctx.UserAgent rc)
                       | None => ("", "")
                       end in
      EnqueueCtx pub ctx (mkDomainEvent eventType tenantID subject actor now data ip ua)
  end.
End publisher.

(** ** codec.go: the Glue Schema Registry wire format *)
Module Glue.
Definition glueHeaderVersion : Z := 3.
Definition glueNoCompression : Z := 0.
Definition glueHeaderSize : nat := 18.
Definition GlueRegistryName : string := "iam-delegation-events".

(** The 16 bytes of a UUID, big-endian. *)
Fixpoint be_bytes (n : nat) (v : Z) : list Z :=
  match n with
  | O => []
  | S n' => be_bytes n' (v / 256)%Z ++ [(v mod 256)%Z]
  end.
Definition uuid_bytes (u : uuid) : list Z := be_bytes 16 (Z.of_N (uuid_N u)).

Definition prependGlueHeader `{UuidLib} (schemaVersionID : string) (payload : list Z) : result goerror (list Z) :=
  match uuid_Parse schemaVersionID with
  | None => Err (EPlain ("parse schema version UUID " ++ schemaVersionID))
  | Some id => Ok (glueHeaderVersion :: glueNoCompression :: uuid_bytes id ++ payload)
  end.

Definition stripGlueHeader (encoded : list Z) : result goerror (list Z) :=
  if bool_decide (length encoded < glueHeaderSize)%nat
  then Err (EPlain "glue codec: encoded payload is shorter than the Glue header")
  else match encoded with
       | b :: _ => if bool_decide (b = glueHeaderVersion) then Ok (drop glueHeaderSize encoded)
                   else Err (EPlain "glue codec: unexpected header version byte")
       | [] => Err (EPlain "glue codec: unexpected header version byte")
       end.

Definition escape_rune (r : Z) : list Z :=
  if (r <? Utf8.RuneSelf)%Z then [r]
  else if (65535 <? r)%Z
  then unicode_escape (55296 + Z.shiftr (r - 65536) 10)%Z ++ unicode_escape (56320 + Z.land (r - 65536) 1023)%Z
  else unicode_escape r.
Definition asciiEscape (b : list Z) : list Z := concat (escape_rune <$> Utf8.runes b).

(** [GetSchemaByDefinition]: an error, or the version id (may be nil) and the
    status of the registered version. *)
Class GlueClient := {
  GetSchemaByDefinition : string → string → list Z → result goerror (option string * string);
}.

Record GlueCodec := mkGlueCodec {
  registryName : string;
  definitions : gmap string (list Z);
  versionCache : gmap string string }.

Section codec.
Context `{GlueClient} `{UuidLib}.

Definition registeredDefinition (raw : list Z) : result goerror (list Z) :=
  match JsonScan.Compact raw with
  | None => Err (EWrap "compact schema" (EPlain "invalid character"))
  | Some c => Ok (asciiEscape c)
  end.

Definition fetchVersionID (g : GlueCodec) (eventType : string) : result goerror string :=
  match definitions g !! eventType with
  | None => Err (EPlain ("no embedded schema for " ++ eventType))
  | Some raw =>
      match registeredDefinition raw with
      | Err e => Err (EWrap ("schema " ++ eventType) e)
      | Ok definition =>
          match GetSchemaByDefinition (registryName g) eventType definition with
          | Err e => Err e
          | Ok (None, _) => Err (EPlain ("nil SchemaVersionId for schema " ++ eventType))
          | Ok (Some id, status) =>
              if bool_decide (status = "AVAILABLE") then Ok id
              else Err (EPlain ("schema " ++ eventType ++ " version " ++ id ++ " is " ++ status ++ ", not AVAILABLE"))
          end
      end
  end.

(** Fails fast on the first event type whose version cannot be resolved. *)
Fixpoint resolve_all (g : GlueCodec) (schemaNames : list string) : result goerror GlueCodec :=
  match schemaNames with
  | [] => Ok g
  | name :: rest =>
      match fetchVersionID g name with
      | Err e => Err (EWrap ("resolve glue schema " ++ name) e)
      | Ok id => resolve_all (mkGlueCodec (registryName g) (definitions g) (<[name := id]> (versionCache g))) rest
      end
  end.
Definition NewGlueCodec (registry : string) (defs : gmap string (list Z)) (schemaNames : list string)
    : result goerror GlueCodec :=
  resolve_all (mkGlueCodec registry defs ∅) schemaNames.

(** The version id and the codec with the id cached. *)
Definition versionID (g : GlueCodec) (eventType : string) : result goerror (string * GlueCodec) :=
  match versionCache g !! eventType with
  | Some id => Ok (id, g)
  | None =>
      match fetchVersionID g eventType with
      | Err e => Err e
      | Ok id => Ok (id, mkGlueCodec (registryName g) (definitions g) (<[eventType := id]> (versionCache g)))
      end
  end.

Definition Encode (g : GlueCodec) (eventType : string) (payload : list Z)
    : result goerror (list Z * string * GlueCodec) :=
  match versionID g eventType with
  | Err e => Err (EWrap ("get glue schema version " ++ eventType) e)
  | Ok (id, g') =>
      match prependGlueHeader id payload with
      | Err e => Err e
      | Ok out => Ok (out, id, g')
      end
  end.

Definition Decode (encoded : list Z) : result goerror (list Z) := stripGlueHeader encoded.

(** GlueDecodeCodec *)
Definition DecodeCodec_Encode (eventType : string) : result goerror (list Z * string) :=
  Err (EPlain ("glue decode codec: Encode is not supported (decode-only, event type " ++ eventType ++ ")")).
Definition DecodeCodec_Decode (encoded : list Z) : result goerror (list Z) := stripGlueHeader encoded.
End codec.
End Glue.
