(* ===== verification/EventSchema.v ===== *)
(** * Package [internal/eventschema]: the JSON Schemas of the event payloads

    The embedded documents as data, the JSON encoding of the payload structs
    (the tags of event_payloads.go), and what conforming to a schema means for
    the draft-07 keywords the documents use.  The validator itself is a library:
    [SchemaLaws] says that it decides conformance, and which texts the [uuid]
    and [date-time] formats contain at least. *)
From S2P Require Import Prelude GoLib Domain World EventBus.
Local Open Scope Z_scope.
Local Open Scope string_scope.

(** ** Schemas *)
Inductive scalar := SStr (s : string) | SInt (n : Z).

Inductive Schema := mkSchema {
  sc_type : string;
  sc_format : option string;
  sc_enum : list scalar;                 (* empty: no [enum] keyword *)
  sc_minItems : nat;
  sc_items : option Schema;
  sc_required : list string;
  sc_properties : list (string * Schema);
}.

Definition text : Schema := mkSchema "string" None [] 0 None [] [].
Definition formatted (f : string) : Schema := mkSchema "string" (Some f) [] 0 None [] [].
Definition one_of (l : list string) : Schema := mkSchema "string" None (SStr <$> l) 0 None [] [].
Definition int_of (l : list Z) : Schema := mkSchema "integer" None (SInt <$> l) 0 None [] [].
Definition array_of (min : nat) (s : Schema) : Schema := mkSchema "array" None [] min (Some s) [] [].
Definition object (required : list string) (properties : list (string * Schema)) : Schema :=
  mkSchema "object" None [] 0 None required properties.

Definition scopes : list string := ["all"; "department"; "tender"].
Definition end_reasons : list string :=
  ["expired"; "cancelled"; "reassigned"; "delegate_removed"; "review_expired"; "delegate_disabled"].

Module document.
(** delegation_started.json and the other three published schemas *)
Definition DelegationStarted : Schema :=
  object ["delegation_id"; "delegator_id"; "delegate_id"; "scope"; "starts_at"]
    [("delegation_id", formatted "uuid"); ("tenant_id", formatted "uuid"); ("delegator_id", formatted "uuid");
     ("delegate_id", formatted "uuid"); ("scope", one_of scopes); ("scope_id", formatted "uuid");
     ("starts_at", formatted "date-time"); ("ends_at", formatted "date-time"); ("actor_id", formatted "uuid")].
Definition DelegationEnded : Schema :=
  object ["delegation_id"; "delegator_id"; "delegate_id"; "ended_reason"]
    [("delegation_id", formatted "uuid"); ("tenant_id", formatted "uuid"); ("delegator_id", formatted "uuid");
     ("delegate_id", formatted "uuid"); ("scope", one_of scopes); ("scope_id", formatted "uuid");
     ("ended_reason", one_of end_reasons); ("actor_id", formatted "uuid")].
Definition DelegationReviewRequested : Schema :=
  object ["delegation_id"; "delegator_id"; "delegate_id"; "days_remaining"]
    [("delegation_id", formatted "uuid"); ("tenant_id", formatted "uuid"); ("delegator_id", formatted "uuid");
     ("delegate_id", formatted "uuid"); ("scope", one_of scopes); ("scope_id", formatted "uuid");
     ("days_remaining", int_of [3; 2; 1]); ("actor_id", formatted "uuid")].
Definition DelegationEscalationRequested : Schema :=
  object ["delegation_id"; "delegator_id"; "delegate_id"; "reason"]
    [("delegation_id", formatted "uuid"); ("tenant_id", formatted "uuid"); ("delegator_id", formatted "uuid");
     ("delegate_id", formatted "uuid"); ("scope", one_of scopes); ("scope_id", formatted "uuid");
     ("reason", one_of ["delegate_disabled"]); ("actor_id", formatted "uuid")].

(** The three consumed schemas *)
Definition MembershipRevoked : Schema :=
  object ["tenant_id"; "user_id"]
    [("tenant_id", formatted "uuid"); ("user_id", formatted "uuid"); ("actor_id", formatted "uuid")].
Definition TenantMembershipsPurged : Schema :=
  object ["tenant_id"] [("tenant_id", formatted "uuid"); ("actor_id", formatted "uuid")].
Definition UserUpdated : Schema :=
  object ["user_id"; "changed_fields"]
    [("user_id", formatted "uuid"); ("changed_fields", array_of 1 text);
     ("status", one_of ["active"; "disabled"; "deleted"])].
End document.

(** schemas.go *)
Definition schema_ByEventType : list (string * Schema) :=
  [("DelegationStarted", document.DelegationStarted); ("DelegationEnded", document.DelegationEnded);
   ("DelegationReviewRequested", document.DelegationReviewRequested);
   ("DelegationEscalationRequested", document.DelegationEscalationRequested)].
Definition schema_Consumed : list (string * Schema) :=
  [("MembershipRevoked", document.MembershipRevoked); ("TenantMembershipsPurged", document.TenantMembershipsPurged);
   ("UserUpdated", document.UserUpdated)].

Fixpoint entry {A} (name : string) (l : list (string * A)) : option A :=
  match l with
  | [] => None
  | (n, a) :: l' => if bool_decide (n = name) then Some a else entry name l'
  end.

(** ** Conformance

    The instance is the document decoded into [any]: of members with the same
    name the last one counts.  Integers are compared by their plain decimal
    literal, which is what the payloads hold. *)
Definition member (ms : list (string * json)) (name : string) : option json := entry name (reverse ms).

Definition has_type (t : string) (j : json) : bool :=
  match j with
  | JNull => bool_decide (t = "null")
  | JBool _ => bool_decide (t = "boolean")
  | JNum l => bool_decide (t = "number") || (bool_decide (t = "integer") && snd (ParseInt l))
  | JStr _ => bool_decide (t = "string")
  | JArr _ => bool_decide (t = "array")
  | JObj _ => bool_decide (t = "object")
  end.
Definition is_scalar (j : json) (s : scalar) : bool :=
  match j, s with
  | JStr a, SStr b => bool_decide (a = b)
  | JNum l, SInt n => bool_decide (ParseInt l = (n, true))
  | _, _ => false
  end.

(** The formats: which texts a format contains, and [time.Time.MarshalJSON]. *)
Class Formats := {
  in_format : string → string → bool;
  rfc3339nano : Time → string;
}.

Section conformance.
Context `{Formats}.

Definition format_ok (f : option string) (j : json) : bool :=
  match f, j with Some f, JStr s => in_format f s | _, _ => true end.

Fixpoint conforms (s : Schema) (j : json) : bool :=
  match s with
  | mkSchema ty fmt enum min items required properties =>
      has_type ty j && format_ok fmt j
      && match enum with [] => true | _ => existsb (is_scalar j) enum end
      && match j with
         | JArr l => (min <=? length l)%nat && match items with Some i => forallb (conforms i) l | None => true end
         | JObj ms =>
             forallb (λ name, match member ms name with Some _ => true | None => false end) required
             && forallb (λ p, match p with (name, ps) =>
                    match member ms name with Some v => conforms ps v | None => true end end) properties
         | _ => true
         end
  end.
End conformance.

(** ** json.Marshal of the payload structs *)
Section marshal.
Context `{UuidLib} `{Formats}.

Definition juuid (u : uuid) : json := JStr (uuid_String u).
Definition jtime (t : Time) : json := JStr (rfc3339nano t).
Definition omitempty {A} (name : string) (f : A → json) (o : option A) : list (string * json) :=
  match o with Some a => [(name, f a)] | None => [] end.

Definition payload_members (d : EventData) : list (string * json) :=
  match d with
  | Started p =>
      [("delegation_id", juuid (sp_DelegationID p)); ("tenant_id", juuid (sp_TenantID p));
       ("delegator_id", juuid (sp_DelegatorID p)); ("delegate_id", juuid (sp_DelegateID p));
       ("scope", JStr (sp_Scope p))] ++ omitempty "scope_id" juuid (sp_ScopeID p)
      ++ [("starts_at", jtime (sp_StartsAt p))] ++ omitempty "ends_at" jtime (sp_EndsAt p)
      ++ [("actor_id", juuid (sp_ActorID p))]
  | Ended p =>
      [("delegation_id", juuid (ep_DelegationID p)); ("tenant_id", juuid (ep_TenantID p));
       ("delegator_id", juuid (ep_DelegatorID p)); ("delegate_id", juuid (ep_DelegateID p));
       ("scope", JStr (ep_Scope p))] ++ omitempty "scope_id" juuid (ep_ScopeID p)
      ++ [("ended_reason", JStr (ep_EndedReason p)); ("actor_id", juuid (ep_ActorID p))]
  | ReviewRequested p =>
      [("delegation_id", juuid (rp_DelegationID p)); ("tenant_id", juuid (rp_TenantID p));
       ("delegator_id", juuid (rp_DelegatorID p)); ("delegate_id", juuid (rp_DelegateID p));
       ("scope", JStr (rp_Scope p))] ++ omitempty "scope_id" juuid (rp_ScopeID p)
      ++ [("days_remaining", JNum (Itoa (rp_DaysRemaining p))); ("actor_id", juuid (rp_ActorID p))]
  | EscalationRequested p =>
      [("delegation_id", juuid (xp_DelegationID p)); ("tenant_id", juuid (xp_TenantID p));
       ("delegator_id", juuid (xp_DelegatorID p)); ("delegate_id", juuid (xp_DelegateID p));
       ("scope", JStr (xp_Scope p))] ++ omitempty "scope_id" juuid (xp_ScopeID p)
      ++ [("reason", JStr (xp_Reason p)); ("actor_id", juuid (xp_ActorID p))]
  end%list.
Definition payload_json (d : EventData) : json := JObj (payload_members d).

(** The event type a payload struct is published under. *)
Definition type_of (d : EventData) : string :=
  match d with
  | Started _ => EventDelegationStarted
  | Ended _ => EventDelegationEnded
  | ReviewRequested _ => EventDelegationReviewRequested
  | EscalationRequested _ => EventDelegationEscalationRequested
  end.
End marshal.

(** The tenant and the delegation a payload is about. *)
Definition payload_tenant (d : EventData) : uuid :=
  match d with
  | Started p => sp_TenantID p | Ended p => ep_TenantID p
  | ReviewRequested p => rp_TenantID p | EscalationRequested p => xp_TenantID p
  end.
Definition payload_delegation (d : EventData) : uuid :=
  match d with
  | Started p => sp_DelegationID p | Ended p => ep_DelegationID p
  | ReviewRequested p => rp_DelegationID p | EscalationRequested p => xp_DelegationID p
  end.

(** An event as it must be in the outbox: envelope and payload agree on type,
    tenant and subject, and the codec accepted the payload. *)
Record event_ok `{Env} `{UuidLib} (e : Envelope EventData) : Prop := {
  ev_type : env_Type e = type_of (env_Payload e);
  ev_tenant : env_TenantID e = uuid_String (payload_tenant (env_Payload e));
  ev_subject : env_Subject e = uuid_String (payload_delegation (env_Payload e));
  ev_valid : ValidatingCodec_Encode (env_Type e) (env_Payload e) = Ok tt;
}.
(** What the codec does not encode. *)
Definition refused `{Env} (ty : string) (d : EventData) : Prop :=
  marshalable d = false ∨ ∃ e, ValidatingCodec_Encode ty d = Err e.
(** The arguments of [enqueue] that make such an event. *)
Definition describes `{UuidLib} (ty : string) (t : uuid) (subject : string) (d : EventData) : Prop :=
  ty = type_of d ∧ t = payload_tenant d ∧ subject = uuid_String (payload_delegation d).

(** What the service relies on from the JSON-Schema library and its formats. *)
Class SchemaLaws (E : Env) (U : UuidLib) (F : Formats) : Prop := {
  published_decided ty s d : entry ty schema_ByEventType = Some s →
    env_schema ty d = None ↔ conforms s (payload_json d) = true;
  consumed_decided ty s j : entry ty schema_Consumed = Some s →
    env_consumed_schema ty j = None ↔ conforms s j = true;
  uuid_format u : in_format "uuid" (uuid_String u) = true;
  uuid_format_parses s : in_format "uuid" s = true → uuid_Parse s ≠ None;
  time_format t : year_representable t = true → in_format "date-time" (rfc3339nano t) = true;
}.
