(* ===== verification/Samples.v ===== *)
(** * Concrete instances

    The interfaces of the third-party code instantiated by executable functions,
    and small worlds: what the theorems' witnesses are evaluated on. *)
From S2P Require Import Prelude GoLib Domain World MetricsRec Store StoreFacts EventBus EventSchema.
Local Open Scope Z_scope.

(** ** UUID text: 8-4-4-4-12 hexadecimal digits *)
Module UuidText.
Definition nibble (n : N) : ascii := Ascii.ascii_of_N (if (n <? 10)%N then 48 + n else 87 + n).
Definition unnibble (a : ascii) : option N :=
  let c := Ascii.N_of_ascii a in
  if (48 <=? c)%N && (c <=? 57)%N then Some (c - 48)%N
  else if (97 <=? c)%N && (c <=? 102)%N then Some (c - 87)%N
  else if (65 <=? c)%N && (c <=? 70)%N then Some (c - 55)%N
  else None.

Fixpoint digits (k : nat) (n : N) : list ascii :=
  match k with O => [] | S k' => digits k' (n / 16) ++ [nibble (n mod 16)] end.
Fixpoint undigits (acc : N) (l : list ascii) : option N :=
  match l with
  | [] => Some acc
  | a :: l' => match unnibble a with Some d => undigits (16 * acc + d) l' | None => None end
  end.

Definition dash : ascii := "-"%char.
Definition dashed (l : list ascii) : list ascii :=
  take 8 l ++ dash :: take 4 (drop 8 l) ++ dash :: take 4 (drop 12 l) ++ dash :: take 4 (drop 16 l) ++ dash :: drop 20 l.
Definition undashed (l : list ascii) : option (list ascii) :=
  if bool_decide (length l = 36%nat) && forallb (λ i, bool_decide (l !! i = Some dash)) [8; 13; 18; 23]%nat
  then Some (take 8 l ++ take 4 (drop 9 l) ++ take 4 (drop 14 l) ++ take 4 (drop 19 l) ++ drop 24 l)
  else None.

Definition to_text (u : uuid) : string := String.string_of_list_ascii (dashed (digits 32 (uuid_N u))).
Definition of_text (s : string) : option uuid :=
  l ← undashed (String.list_ascii_of_string s); n ← undigits 0 l; uuid_of_N n.

Lemma unnibble_nibble n : (n < 16)%N → unnibble (nibble n) = Some n.
Proof.
  intros Hn. assert (n = 0 ∨ n = 1 ∨ n = 2 ∨ n = 3 ∨ n = 4 ∨ n = 5 ∨ n = 6 ∨ n = 7 ∨ n = 8 ∨ n = 9 ∨ n = 10
    ∨ n = 11 ∨ n = 12 ∨ n = 13 ∨ n = 14 ∨ n = 15)%N as Hc by lia.
  repeat (destruct Hc as [->|Hc]; [done|]). by subst.
Qed.
Lemma undigits_app acc l1 l2 : undigits acc (l1 ++ l2) = n ← undigits acc l1; undigits n l2.
Proof. revert acc. induction l1 as [|a l1 IH]; intros acc; simpl; [done|]. destruct (unnibble a); [apply IH|done]. Qed.
Lemma undigits_digits k n : (n < 16 ^ N.of_nat k)%N → undigits 0 (digits k n) = Some n.
Proof.
  revert n. induction k as [|k IH]; intros n Hn; simpl; [f_equal; simpl in Hn; lia|].
  rewrite undigits_app, IH; simpl.
  - rewrite unnibble_nibble by (apply N.mod_lt; done). f_equal. pose proof (N.div_mod n 16). lia.
  - apply N.Div0.div_lt_upper_bound. rewrite Nat2N.inj_succ, N.pow_succ_r' in Hn. done.
Qed.
Lemma length_digits k n : length (digits k n) = k.
Proof. revert n. induction k as [|k IH]; intros n; simpl; [done|]. rewrite length_app, IH. simpl. lia. Qed.

Lemma undashed_dashed l : length l = 32%nat → undashed (dashed l) = Some l.
Proof. intros Hl. do 32 (destruct l as [|? l]; [done|]). by destruct l. Qed.

Lemma some_bind {A B} (a : A) (f : A → option B) : Some a ≫= f = f a.
Proof. done. Qed.
Lemma of_to_text u : of_text (to_text u) = Some u.
Proof.
  unfold of_text, to_text. rewrite String.list_ascii_of_string_of_list_ascii.
  rewrite undashed_dashed by apply length_digits.
  rewrite some_bind.
  assert (undigits 0 (digits 32 (uuid_N u)) = Some (uuid_N u)) as ->; [|rewrite some_bind; apply uuid_of_uuid_N].
  apply undigits_digits. assert (16 ^ N.of_nat 32 = 2 ^ 128)%N as -> by (vm_compute; reflexivity).
  apply N.ltb_lt, uuid_16_bytes.
Qed.
Lemma to_text_nonempty u : to_text u ≠ EmptyString.
Proof.
  intros Heq. apply (f_equal of_text) in Heq. rewrite of_to_text in Heq. done.
Qed.
End UuidText.

#[export] Instance sample_uuid : UuidLib :=
  {| uuid_Parse := UuidText.of_text; uuid_String := UuidText.to_text; pg_uuid_cast := UuidText.of_text |}.
#[export] Instance sample_uuid_laws : UuidLaws sample_uuid.
Proof. split; [apply UuidText.of_to_text|apply UuidText.of_to_text|apply UuidText.to_text_nonempty]. Qed.

(** Times as their decimal number of nanoseconds. *)
#[export] Instance sample_time : TimeText :=
  {| format_rfc3339 := Itoa; parse_rfc3339 := λ s, let '(v, ok) := ParseInt s in if ok then Some v else None |}.

(** Formats: a [uuid] is what parses as one, a [date-time] any text but the empty one. *)
#[export] Instance sample_formats : Formats :=
  {| in_format f s := if bool_decide (f = "uuid"%string) then bool_decide (is_Some (UuidText.of_text s))
                      else negb (bool_decide (s = ""%string));
     rfc3339nano t := (Itoa t ++ "Z")%string |}.
(** The validator of a family of schemas. *)
Definition validator {A} (schemas : list (string * Schema)) (doc : A → json) (ty : string) (a : A) : option goerror :=
  match entry ty schemas with
  | Some s => if conforms s (doc a) then None else Some (EPlain "schema")
  | None => Some (EPlain "no schema")
  end.
Lemma validator_decides {A} schemas doc ty s (a : A) :
  entry ty schemas = Some s → validator schemas doc ty a = None ↔ conforms s (doc a) = true.
Proof. unfold validator. intros ->. by destruct (conforms s (doc a)). Qed.

(** Connection failures are told by their SQLSTATE class; deadlocks and
    serialization failures are tried again. *)
Section sample_pg.
Context {E : Env}.

Definition worth_retrying (e : goerror) : bool :=
  match e with EPg st _ => bool_decide (st ∈ ["40001"; "40P01"]) | _ => false end.
Fixpoint run_attempts {A} (n : nat) (pool : Role) (ctx : Ctx) (cap : A) (body : Tx → A → M A) : M A := λ w,
  match n, tx_attempt pool ctx (λ tx, body tx cap) w with
  | S m, (BodyFailed e, w') => if worth_retrying e then run_attempts m pool ctx cap body w' else (Err e, w')
  | S m, (CommitFailed a e, w') => if worth_retrying e then run_attempts m pool ctx a body w' else (Err e, w')
  | _, o => settled o
  end.

Definition sample_pg : PgCommon := {|
  IsConnectionException e := match e with EPg st _ => HasPrefix st "08" | _ => false end;
  IsInsufficientResources e := match e with EPg st _ => HasPrefix st "53" | _ => false end;
  IsPgError e := match e with EPg _ _ => true | _ => false end;
  pgcommon_RunInTx A pool ctx body w := settled (tx_attempt pool ctx body w);
  pgcommon_RunInTxWithRetryOpts A n := run_attempts (pred n) |}.

Lemma run_attempts_runs {A} n pool ctx (cap : A) body w :
  tx_run pool ctx body (S n) cap w (run_attempts n pool ctx cap body w).
Proof.
  revert cap w. induction n as [|n IH]; intros cap w; [apply run_settled|]. simpl.
  pose proof (run_settled pool ctx body (S n) cap w) as Hs.
  destruct (tx_attempt pool ctx (λ tx, body tx cap) w) as [[a|e|a e] w1] eqn:Ha; [done|destruct (worth_retrying e)..];
    by eauto using run_again_body, run_again_commit.
Qed.
Lemma sample_pg_lawful : PgCommonLaws E sample_pg sample_uuid.
Proof. split; [done|]. intros. apply run_attempts_runs. Qed.
End sample_pg.
#[export] Existing Instances sample_pg sample_pg_lawful.

(** ** A registerer: the list of what was registered *)
Definition sample_registerer : Registerer := {|
  Registry := list Desc;
  registered r := r;
  reg_Register d r :=
    if valid_desc d && bool_decide (d_Name d ∉ d_Name <$> r) then Ok (r ++ [d])%list
    else Err (EPlain "duplicate metrics collector registration attempted");
  reg_RegisterWith ls d r :=
    let d := mkDesc (d_instrument d) (ls ∪ d_ConstLabels d) in
    if valid_desc d && bool_decide (d_Name d ∉ d_Name <$> r) then Ok (r ++ [d])%list
    else Err (EPlain "duplicate metrics collector registration attempted");
  MetricsConstLabels := <["service" := "iam-delegation"]> {["version" := "dev"]} |}.
#[export] Instance sample_registerer_lawful : RegistererLaws sample_registerer.
Proof.
  split; simpl.
  - intros d r Hv Hn. rewrite Hv, bool_decide_true by done. eauto.
  - intros d d' r Hin Hn _. rewrite (bool_decide_false (d_Name d ∉ d_Name <$> r)); [rewrite andb_false_r; eauto|].
    intros Hni. apply Hni. rewrite <- Hn. by apply list_elem_of_fmap_2.
  - intros ls i r. by rewrite map_union_empty.
Qed.

(** ** Environments *)
Definition id (n : N) : uuid := default uuid_Nil (uuid_of_N n).

(** Peers that answer every call favourably: members are active, nobody is out of
    office, departments are live. *)
Definition friendly (r : HttpRequest) : HttpOutcome :=
  HttpResponded 200 (Some (JObj [("status", JStr "available"); ("active", JBool true);
                                 ("tenant_membership_id", JStr (UuidText.to_text (id 77)));
                                 ("exists", JBool true); ("live", JBool true); ("is_active", JBool true)])).
Definition unreachable_peer (r : HttpRequest) : HttpOutcome := HttpFailed (ENetOp false "connect: connection refused").

(** A clock that advances a second per interaction, from [start], [others] being
    what commits before a transaction begins. *)
Definition env_among (others : nat → Db → Db) (start : Time) (http : HttpRequest → HttpOutcome)
    (db kv : nat → option goerror) : Env := {|
  env_clock n := start + Z.of_nat n * Second;
  env_uuid n := id (1000 + N.of_nat n);
  env_db_fault := db;
  env_others := others;
  env_kv_fault := kv;
  env_http _ := http;
  env_url_ok _ := true;
  env_schema := validator schema_ByEventType payload_json;
  env_consumed_schema := validator schema_Consumed (λ j, j);
  env_metrics_live := true;
  env_schedule _ := true |}.
#[export] Instance sample_schemas others start http db kv :
  SchemaLaws (env_among others start http db kv) sample_uuid sample_formats.
Proof.
  split.
  - intros ty s d. apply (validator_decides schema_ByEventType).
  - intros ty s j. apply (validator_decides schema_Consumed (λ j, j)).
  - intros u. unfold in_format, uuid_String. unfold sample_formats, sample_uuid. rewrite UuidText.of_to_text. done.
  - intros s. unfold in_format, uuid_Parse, sample_formats, sample_uuid.
    rewrite bool_decide_true, bool_decide_eq_true by done. by intros [u ->].
  - intros t _. unfold in_format, rfc3339nano, sample_formats. by destruct (Itoa t).
Qed.
Definition env_with : Time → (HttpRequest → HttpOutcome) → (nat → option goerror) → (nat → option goerror) → Env :=
  env_among (λ _ d, d).
#[export] Instance sample_alone start http db kv : Alone (env_with start http db kv).
Proof. done. Qed.
Definition healthy (n : nat) : option goerror := None.

Definition noon : Time := 20000 * Day.
Definition sample_env : Env := env_with noon friendly healthy healthy.

(** ** Worlds *)
Definition acme : uuid := id 10.
Definition other : uuid := id 11.
Definition alice : uuid := id 20.
Definition bob : uuid := id 21.
Definition carol : uuid := id 22.

(** An active, open-ended delegation of everything from Alice to Bob. *)
Definition grant (i : uuid) (t u d : uuid) (ends : option Time) (due : option Time) : Delegation :=
  mkDelegation i t u d (id 70) (id 71) ScopeAll None "leave" (noon - Day) ends DelegationActive
    1 (noon - Day) (noon - Day) None due None (Some 90).
Definition world_of (rows : list Delegation) : World :=
  mkWorld 0 (mkDb (list_to_map ((λ d, (ID d, d)) <$> rows)) ∅ ∅ []) ∅ ∅ ∅ [].

(** A decidable form of the invariant of the tables. *)
Definition db_inv_b (db : Db) : bool :=
  forallb (λ kd, bool_decide (ID kd.2 = kd.1) && row_ok kd.2) (map_to_list (db_delegations db))
  && forallb (λ ks, bool_decide (ts_TenantID ks.2 = ks.1) && settings_ok ks.2) (map_to_list (db_settings db)).
Lemma db_inv_check db : db_inv_b db = true → db_inv db.
Proof.
  unfold db_inv_b. rewrite andb_true_iff, !forallb_forall. intros [Hd Hs]. split; intros k x Hk.
  - specialize (Hd (k, x)). rewrite andb_true_iff, bool_decide_eq_true in Hd. apply Hd.
    by apply list_elem_of_In, elem_of_map_to_list.
  - specialize (Hs (k, x)). rewrite andb_true_iff, bool_decide_eq_true in Hs. apply Hs.
    by apply list_elem_of_In, elem_of_map_to_list.
Qed.
