(* ===== verification/HttpClients.v ===== *)
(** * The outbound HTTP clients

    Packages userprofile, orgmembership, catalogadmin and tender under
    [internal/adapter/outbound].  Each operation builds one request, sends it and
    classifies the answer; the instrumented wrapper counts the failures.  Trace
    propagation headers and the per-request timeout are left to the transport:
    a timeout is one of the ways [env_http] may fail. *)
From S2P Require Import Prelude GoLib Domain World MetricsRec.
Local Open Scope Z_scope.
Local Open Scope string_scope.

(** [http.NewRequestWithContext] followed by [client.Do]. *)
Definition Do `{Env} (pkg : string) (req : HttpRequest) : M (Z * option json) :=
  if negb (env_url_ok (hr_URL req)) then throw (EWrap (pkg ++ ": build request") (EPlain "parse url"))
  else λ w,
    match env_http (w_step w) req with
    | HttpFailed e => (Err (EWrap2 (pkg ++ ": request failed") e EDependencyUnavailable),
                       next_step (log_http req w))
    | HttpResponded status body => (Ok (status, body), next_step (log_http req w))
    end.

Definition unexpected_status (pkg : string) (status : Z) : string :=
  pkg ++ ": unexpected status " ++ Itoa status.
Definition unexpected (pkg : string) (status : Z) : goerror := EPlain (unexpected_status pkg status).
Definition unexpected_unavailable (pkg : string) (status : Z) : goerror :=
  EWrap (unexpected_status pkg status) EDependencyUnavailable.

(** [json.NewDecoder(resp.Body).Decode(&v)] *)
Definition decode_body {A} (f : list (string * json) → option A) (body : option json) : option A :=
  j ← body; ms ← struct_members j; f ms.

Definition json_bool (j : json) : option bool := match j with JBool b => Some b | _ => None end.

(** The constructors: an empty base URL is an error, a trailing slash is dropped. *)
Definition new_client (pkg : string) (baseURL : string) : result goerror string :=
  let baseURL := Utf8.TrimSpace baseURL in
  if bool_decide (baseURL = "") then Err (EPlain (pkg ++ ": baseURL is required"))
  else Ok (TrimRightSlash baseURL).

(** Count the error of an instrumented call, then return it. *)
Definition instrumented `{Env} {A} (service endpoint : string) (m : M A) : M A :=
  r ← try m;
  _ ← match r with
      | Err e => IncDependencyError service endpoint (DependencyOutcome e)
      | Ok _ => mret tt
      end;
  of_result r.

(** ** userprofile/http_client.go *)
Module UserProfile.
Section client.
Context `{Env} `{UuidLib} `{TimeText}.
Context (baseURL : string).

Definition NewHTTPClient (url : string) : result goerror string := new_client "userprofile" url.

Definition setInternalHeaders (tenantID : uuid) : list (string * string) :=
  [("x-user-id", "iam-system"); ("x-tenant-id", uuid_String tenantID); ("x-tenant-roles", "iam-system")].

(** The members of the JSON object, which [json.Marshal] sorts by name. *)
Definition buildBody (req : SetAvailabilityRequest) : list (string * json) :=
  let opt {A} (name : string) (f : A → string) (x : option A) :=
    match x with Some v => [(name, JStr (f v))] | None => [] end in
  opt "delegate_id" uuid_String (sa_DelegateID req)
  ++ (if bool_decide (sa_Note req = "") then [] else [("note", JStr (sa_Note req))])
  ++ opt "ooo_from" format_rfc3339 (sa_OOOFrom req)
  ++ opt "ooo_until" format_rfc3339 (sa_OOOUntil req)
  ++ opt "status" id (sa_Status req).

Definition availability_body (ms : list (string * json)) : option (string * option string) :=
  s ← value_field json_string "status" "" ms;
  u ← pointer_field json_string "ooo_until" ms;
  Some (s, u).

Definition getAvailability (tenantID userID : uuid) : M AvailabilitySnapshot :=
  resp ← Do "userprofile"
    (mkHttpRequest "GET" (baseURL ++ "/api/v1/users/" ++ uuid_String userID ++ "/availability")
       (setInternalHeaders tenantID) None);
  let '(status, body) := resp in
  if (status =? 404)%Z then mret {| av_Status := "available"; av_OOOUntil := None |}
  else if (500 <=? status)%Z then throw (unexpected_unavailable "userprofile" status)
  else if (status <? 200)%Z || (300 <=? status)%Z then throw (unexpected "userprofile" status)
  else match decode_body availability_body body with
       | None => throw (EPlain "userprofile: decode response")
       | Some (s, None) => mret {| av_Status := s; av_OOOUntil := None |}
       | Some (s, Some u) =>
           match parse_rfc3339 u with
           | None => throw (EPlain "userprofile: parse ooo_until")
           | Some t => mret {| av_Status := s; av_OOOUntil := Some t |}
           end
       end.

Definition GetAvailability (ctx : Ctx) (tenantID userID : uuid) : M AvailabilitySnapshot :=
  instrumented "user_profile" "get_availability" (getAvailability tenantID userID).

(** The answer to a command: 2xx, 5xx, or a business rejection whose code is
    taken from the [error] field of the body. *)
Definition error_body (body : option json) : option string :=
  match decode_body (value_field json_string "error" "") body with
  | Some e => if bool_decide (e = "") then None else Some e
  | None => None
  end.
Definition command_answer (resp : Z * option json) : M unit :=
  let '(status, body) := resp in
  if (200 <=? status)%Z && (status <? 300)%Z then mret tt
  else if (500 <=? status)%Z then throw (unexpected_unavailable "userprofile" status)
  else match error_body body with
       | Some e => throw (EPlain ("userprofile: " ++ e))
       | None => throw (unexpected "userprofile" status)
       end.

Definition clearDelegatePointer (tenantID userID : uuid) : M unit :=
  resp ← Do "userprofile"
    (mkHttpRequest "DELETE"
       (baseURL ++ "/api/v1/internal/users/" ++ uuid_String userID ++ "/availability/delegate")
       (setInternalHeaders tenantID) None);
  command_answer resp.

Definition ClearDelegatePointer (ctx : Ctx) (tenantID userID : uuid) : M unit :=
  instrumented "user_profile" "clear_delegate_pointer" (clearDelegatePointer tenantID userID).

Definition setAvailability (req : SetAvailabilityRequest) : M unit :=
  resp ← Do "userprofile"
    (mkHttpRequest "PUT" (baseURL ++ "/api/v1/internal/users/" ++ uuid_String (sa_UserID req) ++ "/availability")
       (("Content-Type", "application/json") :: setInternalHeaders (sa_TenantID req))
       (Some (JObj (buildBody req))));
  command_answer resp.

Definition SetAvailability (ctx : Ctx) (req : SetAvailabilityRequest) : M unit :=
  instrumented "user_profile" "set_availability" (setAvailability req).

Definition client : UserProfileClient :=
  {| up_GetAvailability := GetAvailability;
     up_SetAvailability := SetAvailability;
     up_ClearDelegatePointer := ClearDelegatePointer |}.
End client.
End UserProfile.

(** ** orgmembership/http_client.go *)
Module OrgMembership.
Section client.
Context `{Env} `{UuidLib}.
Context (baseURL : string).

Definition NewHTTPChecker (url : string) : result goerror string := new_client "orgmembership" url.

Definition setInternalHeaders (tenantID : uuid) : list (string * string) :=
  [("x-user-id", "iam-system"); ("x-tenant-id", uuid_String tenantID);
   ("x-tenant-roles", "iam-system"); ("x-caller-service", "iam-delegation")].

Definition existsResponse (ms : list (string * json)) : option (bool * option uuid) :=
  a ← value_field json_bool "active" false ms;
  i ← pointer_field json_uuid "tenant_membership_id" ms;
  Some (a, i).

Definition exists_ (tenantID userID : uuid) : M (bool * uuid) :=
  resp ← Do "orgmembership"
    (mkHttpRequest "GET"
       (baseURL ++ "/api/v1/internal/tenants/" ++ uuid_String tenantID ++ "/members/" ++ uuid_String userID ++ "/exists")
       (setInternalHeaders tenantID) None);
  let '(status, body) := resp in
  if negb (status =? 200)%Z
  then if (500 <=? status)%Z then throw (unexpected_unavailable "orgmembership" status)
       else throw (unexpected "orgmembership" status)
  else match decode_body existsResponse body with
       | None => throw (EPlain "orgmembership: decode response")
       | Some (false, _) => mret (false, uuid_Nil)
       | Some (true, i) => mret (true, default uuid_Nil i)
       end.

Definition Exists (ctx : Ctx) (tenantID userID : uuid) : M (bool * uuid) :=
  r ← try (exists_ tenantID userID);
  _ ← match r with
      | Err e =>
          if env_metrics_live
          then _ ← RecordMembershipCheckFailure;
               Metrics_IncDependencyError "org_membership" "i15_member_exists" (DependencyOutcome e)
          else mret tt
      | Ok _ => mret tt
      end;
  of_result r.

Definition client : MembershipCheckClient := {| mc_Exists := Exists |}.
End client.
End OrgMembership.

(** ** catalogadmin/http_client.go *)
Module CatalogAdmin.
Section client.
Context `{Env} `{UuidLib}.
Context (baseURL : string).

Definition NewHTTPClient (url : string) : result goerror string := new_client "catalogadmin" url.

Definition setInternalHeaders : list (string * string) :=
  [("x-user-id", "iam-system"); ("x-tenant-id", uuid_String uuid_Nil);
   ("x-tenant-roles", "iam-system"); ("x-caller-service", "iam-delegation")].

Definition departmentResponse (ms : list (string * json)) : option bool :=
  _ ← value_field json_uuid "id" uuid_Nil ms;
  value_field json_bool "is_active" false ms.

Definition departmentActive (departmentID : uuid) : M (bool * bool) :=
  resp ← Do "catalogadmin"
    (mkHttpRequest "GET" (baseURL ++ "/api/v1/departments/" ++ uuid_String departmentID)
       setInternalHeaders None);
  let '(status, body) := resp in
  if (status =? 404)%Z then mret (false, false)
  else if negb (status =? 200)%Z then throw (unexpected_unavailable "catalogadmin" status)
  else match decode_body departmentResponse body with
       | None => throw (EWrap2 "catalogadmin: decode response" (EPlain "json") EDependencyUnavailable)
       | Some a => mret (true, a)
       end.

Definition DepartmentActive (ctx : Ctx) (departmentID : uuid) : M (bool * bool) :=
  instrumented "catalog_admin" "cat7_dept_active" (departmentActive departmentID).

Definition client : CatalogAdminClient := {| ca_DepartmentActive := DepartmentActive |}.
End client.
End CatalogAdmin.

(** ** tender/http_client.go *)
Module Tender.
Section client.
Context `{Env} `{UuidLib}.
Context (baseURL : string).

Definition NewHTTPClient (url : string) : result goerror string := new_client "tender" url.

Definition setInternalHeaders (tenantID : uuid) : list (string * string) :=
  [("x-user-id", "iam-system"); ("x-tenant-id", uuid_String tenantID); ("x-tenant-roles", "iam-system")].

Definition existsResponse (ms : list (string * json)) : option (bool * bool) :=
  e ← value_field json_bool "exists" false ms;
  l ← value_field json_bool "live" false ms;
  Some (e, l).

Definition checkLive (tenantID scopeID : uuid) : M (bool * bool) :=
  resp ← Do "tender"
    (mkHttpRequest "GET"
       (baseURL ++ "/api/v1/internal/tenants/" ++ uuid_String tenantID ++ "/tenders/" ++ uuid_String scopeID ++ "/exists")
       (setInternalHeaders tenantID) None);
  let '(status, body) := resp in
  if (status =? 404)%Z then mret (false, false)
  else if negb (status =? 200)%Z
  then if (500 <=? status)%Z then throw (unexpected_unavailable "tender" status)
       else throw (unexpected "tender" status)
  else match decode_body existsResponse body with
       | None => throw (EPlain "tender: decode response")
       | Some el => mret el
       end.

Definition CheckLive (ctx : Ctx) (tenantID scopeID : uuid) : M (bool * bool) := checkLive tenantID scopeID.

Definition client : TenderScopeClient := {| tc_CheckLive := CheckLive |}.
End client.
End Tender.
