(* ===== verification/Postgres.v ===== *)
(** * The PostgreSQL repositories (internal/adapter/outbound/postgres)

    One definition per repository method: the SQL of the method over the tables
    of [Store], followed by the Go that reads its result. *)
From S2P Require Import Prelude GoLib Domain World Store.
Local Open Scope Z_scope.

Definition defaultFindLimit : Z := 100.
Definition limitOrDefault (limit : Z) : Z := if limit <=? 0 then defaultFindLimit else limit.

(** WHERE clauses *)
Definition has_status (s : DelegationStatus) (d : Delegation) : bool := bool_decide (Status d = s).
Definition in_tenant (t : uuid) (d : Delegation) : bool := bool_decide (TenantID d = t).
Definition has_id (i : uuid) (d : Delegation) : bool := bool_decide (ID d = i).
Definition has_version (v : Z) (d : Delegation) : bool := RecordVersion d =? v.
Definition open_ended (d : Delegation) : bool := bool_decide (EndsAt d = None).
Definition due (d : Delegation) : Time := default 0 (ReviewDueAt d).
Definition ends (d : Delegation) : Time := default 0 (EndsAt d).
Definition deleted (d : Delegation) : Time := default 0 (DeletedAt d).

Definition where_end (tenantID id : uuid) (version : Z) (d : Delegation) : bool :=
  in_tenant tenantID d && has_id id d && has_version version d && is_live d && open_status (Status d).
Definition where_activate (tenantID id : uuid) (version : Z) (d : Delegation) : bool :=
  in_tenant tenantID d && has_id id d && has_version version d && is_live d && has_status DelegationScheduled d.
Definition where_extend (tenantID id : uuid) (version : Z) (d : Delegation) : bool :=
  in_tenant tenantID d && has_id id d && has_version version d && is_live d
  && has_status DelegationActive d && open_ended d.
Definition where_warn (tenantID id : uuid) (version : Z) (d : Delegation) : bool :=
  in_tenant tenantID d && has_id id d && has_version version d && is_live d && has_status DelegationActive d.
Definition where_live_id (tenantID id : uuid) (d : Delegation) : bool :=
  in_tenant tenantID d && has_id id d && is_live d.
Definition where_active_of (tenantID delegatorID : uuid) (d : Delegation) : bool :=
  in_tenant tenantID d && bool_decide (DelegatorID d = delegatorID) && has_status DelegationActive d && is_live d.
Definition where_dept_delegate (tenantID userID deptID : uuid) (d : Delegation) : bool :=
  in_tenant tenantID d && bool_decide (DelegateID d = userID) && bool_decide (Scope d = ScopeDepartment)
  && bool_decide (ScopeID d = Some deptID) && has_status DelegationActive d && is_live d.
Definition where_expiring (before : Time) (d : Delegation) : bool :=
  match EndsAt d with Some e => e <? before | None => false end && has_status DelegationActive d && is_live d.
Definition where_scheduled_before (before : Time) (d : Delegation) : bool :=
  has_status DelegationScheduled d && (StartsAt d <=? before) && is_live d.
Definition where_daily_warn (now : Time) (d : Delegation) : bool :=
  open_ended d && has_status DelegationActive d && is_live d
  && match ReviewDueAt d with Some r => (now <? r) && (r <=? now + 3 * Day) | None => false end.
Definition where_auto_end (now : Time) (d : Delegation) : bool :=
  open_ended d && has_status DelegationActive d && is_live d
  && match ReviewDueAt d with Some r => r <=? now | None => false end.
Definition where_user (tenantID userID : uuid) (d : Delegation) : bool :=
  in_tenant tenantID d && (bool_decide (DelegatorID d = userID) || bool_decide (DelegateID d = userID))
  && open_status (Status d) && is_live d.
Definition where_delegate (tenantID delegateID : uuid) (d : Delegation) : bool :=
  in_tenant tenantID d && bool_decide (DelegateID d = delegateID) && open_status (Status d) && is_live d.
Definition where_tenant_live (tenantID : uuid) (d : Delegation) : bool := in_tenant tenantID d && is_live d.
Definition where_purgeable (before : Time) (d : Delegation) : bool :=
  match DeletedAt d with Some t => t <? before | None => false end.

(** SET clauses *)
Definition set_extend (windowDays : Z) (d : Delegation) : Delegation :=
  set_Review ((λ r, r + windowDays * Day) <$> ReviewDueAt d) None (Some windowDays) d.
Definition set_bucket (bucket : Z) (d : Delegation) : Delegation :=
  set_Review (ReviewDueAt d) (Some bucket) (ReviewWindowDays d) d.
Definition set_ended_deleted (now : Time) (d : Delegation) : Delegation :=
  set_DeletedAt (Some now) (set_Status DelegationEnded d).

(** ** delegation_repository.go *)
Module Repo.
Section repository.
Context `{Env} `{PgCommon} `{UuidLib}.
Context (pool : Role).

Definition not_found : goerror := NewError ErrDelegationNotFound "delegation not found".
Definition version_conflict (v : Z) : goerror :=
  EDomain (WithDetails (NewErrorValue ErrOptimisticLockConflict "record version conflict") {["record_version" := v]}).

Definition listWhere (ctx : Ctx) (P : Delegation → bool) (finish : list Delegation → list Delegation)
    : M (list Delegation) :=
  withPool ctx pool (λ tx, query (λ db, finish (sql_select tx P db))).

Definition List (ctx : Ctx) (tenantID : uuid) : M (list Delegation) :=
  listWhere ctx (where_tenant_live tenantID) (order_by_desc StartsAt).

Definition ListByDelegator (ctx : Ctx) (tenantID delegatorID : uuid) : M (list Delegation) :=
  listWhere ctx (where_active_of tenantID delegatorID) (order_by_desc StartsAt).

Definition FindActiveByDelegator (ctx : Ctx) (tenantID delegatorID : uuid) : M (list Delegation) :=
  listWhere ctx (where_active_of tenantID delegatorID) (order_by_desc StartsAt).

Definition FindByID (ctx : Ctx) (tenantID id : uuid) : M Delegation :=
  withPool ctx pool (λ tx,
    rows ← query (sql_select tx (where_live_id tenantID id));
    match rows with
    | d :: _ => mret d
    | [] => throw not_found
    end).

Definition FindActiveDeptDelegateForUser (ctx : Ctx) (tenantID userID deptID : uuid)
    : M (option Delegation) :=
  withPool ctx pool (λ tx,
    rows ← query (λ db, sql_limit 1 (sql_select tx (where_dept_delegate tenantID userID deptID) db));
    mret (head rows)).

(** Defaults filled in on the struct before the statement. *)
Definition insert_defaults (d : Delegation) : M Delegation :=
  id ← (if bool_decide (ID d = uuid_Nil) then uuid_New else mret (ID d));
  starts ← (if IsZero (StartsAt d) then time_Now else mret (StartsAt d));
  let status := if bool_decide (Status d = EmptyString) then DelegationActive else Status d in
  mret (mkDelegation id (TenantID d) (DelegatorID d) (DelegateID d) (DelegatorMembershipID d)
    (DelegateMembershipID d) (Scope d) (ScopeID d) (Reason d) starts (EndsAt d) status
    (RecordVersion d) (CreatedAt d) (UpdatedAt d) (DeletedAt d) (ReviewDueAt d)
    (ReviewLastWarnedBucket d) (ReviewWindowDays d)).

Definition Insert (ctx : Ctx) (d : Delegation) : M Delegation :=
  d' ← insert_defaults d;
  withPool ctx pool (λ tx, stmt (sql_insert tx d')).

Definition probeVersionConflict {A} (tx : Tx) (tenantID id : uuid) : M A :=
  rows ← query (sql_select tx (where_live_id tenantID id));
  match rows with
  | [] => throw not_found
  | d :: _ =>
      if negb (bool_decide (Status d = DelegationActive)) && negb (bool_decide (Status d = DelegationScheduled))
      then throw not_found
      else throw (version_conflict (RecordVersion d))
  end.

Definition End_ (ctx : Ctx) (tenantID id : uuid) (status : DelegationStatus) (expectedVersion : Z)
    : M Delegation :=
  withPool ctx pool (λ tx,
    rows ← stmt (sql_update tx (where_end tenantID id expectedVersion) (set_Status status));
    match rows with
    | d :: _ => mret d
    | [] => probeVersionConflict tx tenantID id
    end).

Definition Activate (ctx : Ctx) (tenantID id : uuid) (expectedVersion : Z) : M (option Delegation) :=
  withPool ctx pool (λ tx,
    rows ← stmt (sql_update tx (where_activate tenantID id expectedVersion) (set_Status DelegationActive));
    mret (head rows)).

Definition ExtendReview (ctx : Ctx) (tenantID id : uuid) (windowDays expectedVersion : Z) : M Delegation :=
  withPool ctx pool (λ tx,
    rows ← stmt (sql_update tx (where_extend tenantID id expectedVersion) (set_extend windowDays));
    match rows with
    | d :: _ => mret d
    | [] =>
        probe ← query (sql_select tx (where_live_id tenantID id));
        match probe with
        | [] => throw not_found
        | d :: _ =>
            if bool_decide (EndsAt d ≠ None)
            then throw (NewError ErrNotReviewTracked "extend only applies to open-ended delegations (ends_at IS NULL)")
            else if bool_decide (Status d ≠ DelegationActive) then throw not_found
            else throw (version_conflict (RecordVersion d))
        end
    end).

Definition ListExpiringBefore (ctx : Ctx) (before : Time) (limit : Z) : M (list Delegation) :=
  listWhere ctx (where_expiring before) (λ l, sql_limit (limitOrDefault limit) (order_by_asc ends l)).

Definition ListScheduledBefore (ctx : Ctx) (before : Time) (limit : Z) : M (list Delegation) :=
  listWhere ctx (where_scheduled_before before) (λ l, sql_limit (limitOrDefault limit) (order_by_asc StartsAt l)).

Definition FindDueForDailyWarn (ctx : Ctx) (now : Time) (limit : Z) : M (list Delegation) :=
  listWhere ctx (where_daily_warn now) (λ l, sql_limit (limitOrDefault limit) (order_by_asc due l)).

Definition FindDueForAutoEnd (ctx : Ctx) (now : Time) (limit : Z) : M (list Delegation) :=
  listWhere ctx (where_auto_end now) (λ l, sql_limit (limitOrDefault limit) (order_by_asc due l)).

Definition MarkReviewWarned (ctx : Ctx) (tenantID id : uuid) (bucket expectedVersion : Z) : M unit :=
  withPool ctx pool (λ tx,
    rows ← stmt (sql_update tx (where_warn tenantID id expectedVersion) (set_bucket bucket));
    match rows with
    | [] => probeVersionConflict tx tenantID id
    | _ :: _ => mret tt
    end).

Definition EndForUser (ctx : Ctx) (tenantID userID : uuid) : M (list Delegation) :=
  withPool ctx pool (λ tx,
    stmt (sql_update tx (where_user tenantID userID) (set_ended_deleted (tx_now tx)))).

Definition EndForDisabledDelegate (ctx : Ctx) (tenantID delegateID : uuid) : M (list Delegation) :=
  withPool ctx pool (λ tx,
    stmt (sql_update tx (where_delegate tenantID delegateID) (set_Status DelegationEnded))).

Definition SoftDeleteTenant (ctx : Ctx) (tenantID : uuid) : M unit :=
  withPool ctx pool (λ tx,
    _ ← stmt (sql_update tx (where_tenant_live tenantID) (set_DeletedAt (Some (tx_now tx))));
    mret tt).

Definition purge_keys (tx : Tx) (before : Time) (limit : Z) (db : Db) : list uuid :=
  ID <$> sql_limit (limitOrDefault limit) (order_by_asc deleted (sql_select tx (where_purgeable before) db)).

Definition HardPurgeSoftDeletedBefore (ctx : Ctx) (before : Time) (limit : Z) : M Z :=
  withPool ctx pool (λ tx,
    n ← stmt (λ db, Ok (sql_delete (purge_keys tx before limit db) db));
    mret (Z.of_nat n)).

Definition NewDelegationRepository : DelegationRepository :=
  {| repo_List := List;
     repo_ListByDelegator := ListByDelegator;
     repo_FindByID := FindByID;
     repo_Insert := Insert;
     repo_End := End_;
     repo_Activate := Activate;
     repo_ExtendReview := ExtendReview;
     repo_ListExpiringBefore := ListExpiringBefore;
     repo_ListScheduledBefore := ListScheduledBefore;
     repo_FindActiveDeptDelegateForUser := FindActiveDeptDelegateForUser;
     repo_FindActiveByDelegator := FindActiveByDelegator;
     repo_FindDueForDailyWarn := FindDueForDailyWarn;
     repo_FindDueForAutoEnd := FindDueForAutoEnd;
     repo_MarkReviewWarned := MarkReviewWarned;
     repo_EndForUser := EndForUser;
     repo_EndForDisabledDelegate := EndForDisabledDelegate;
     repo_SoftDeleteTenant := SoftDeleteTenant;
     repo_HardPurgeSoftDeletedBefore := HardPurgeSoftDeletedBefore |}.
End repository.
End Repo.

(** ** settings_repository.go *)
Module SettingsRepo.
Definition with_settings (m : gmap uuid DelegationTenantSettings) (db : Db) : Db :=
  mkDb (db_delegations db) m (db_processed db) (db_outbox db).

(** INSERT ... ON CONFLICT (tenant_id) DO UPDATE SET max_duration_days = $2,
    review_window_days = $3 RETURNING *, with the touch trigger on the update. *)
Definition sql_upsert (tx : Tx) (tenantID : uuid) (maxDays reviewDays : Z) (db : Db)
    : result goerror (DelegationTenantSettings * Db) :=
  if negb (rls_check_tenant tx tenantID) then Err (rls_violation "delegation_tenant_settings")
  else
    let row :=
      match db_settings db !! tenantID with
      | None => mkSettings tenantID maxDays reviewDays 1 (tx_now tx) (tx_now tx)
      | Some old =>
          let new := mkSettings tenantID maxDays reviewDays (ts_RecordVersion old) (ts_CreatedAt old) (ts_UpdatedAt old) in
          if decide (old = new) then new
          else mkSettings tenantID maxDays reviewDays (ts_RecordVersion old + 1) (ts_CreatedAt old) (tx_now tx)
      end in
    if negb (settings_ok row) then Err (check_violation "delegation_tenant_settings")
    else Ok (row, with_settings (<[tenantID := row]> (db_settings db)) db).

Section repository.
Context `{Env} `{PgCommon} `{UuidLib}.
Context (pool : Role).

Definition Get (ctx : Ctx) (tenantID : uuid) : M DelegationTenantSettings :=
  withPool ctx pool (λ tx,
    row ← query (λ db, if rls_check_tenant tx tenantID then db_settings db !! tenantID else None);
    match row with
    | Some s => mret s
    | None => mret (DefaultDelegationTenantSettings tenantID)
    end).

Definition Upsert (ctx : Ctx) (tenantID : uuid) (maxDurationDays reviewWindowDays : Z)
    : M DelegationTenantSettings :=
  withPool ctx pool (λ tx, stmt (sql_upsert tx tenantID maxDurationDays reviewWindowDays)).

Definition SoftDeleteTenant (ctx : Ctx) (tenantID : uuid) : M unit :=
  withPool ctx pool (λ tx,
    stmt (λ db, Ok (tt, if rls_check_tenant tx tenantID
                        then with_settings (delete tenantID (db_settings db)) db else db))).

Definition NewSettingsRepository : SettingsRepository :=
  {| settings_Get := Get; settings_Upsert := Upsert; settings_SoftDeleteTenant := SoftDeleteTenant |}.
End repository.
End SettingsRepo.

(** ** processed_events.go: the dedup ledger, exempt from row-level security *)
Module ProcessedEvents.
Definition with_processed (m : gmap (string * string) Time) (db : Db) : Db :=
  mkDb (db_delegations db) (db_settings db) m (db_outbox db).

Section repository.
Context `{Env} `{PgCommon} `{UuidLib}.
Context (pool : Role).

Definition IsProcessed (ctx : Ctx) (consumer eventID : string) : M bool :=
  withPool ctx pool (λ tx, query (λ db, bool_decide (is_Some (db_processed db !! (eventID, consumer))))).

(** ON CONFLICT (event_id, consumer) DO NOTHING *)
Definition MarkProcessed (ctx : Ctx) (consumer eventID : string) : M unit :=
  withPool ctx pool (λ tx, stmt (λ db, Ok (tt,
    match db_processed db !! (eventID, consumer) with
    | Some _ => db
    | None => with_processed (<[(eventID, consumer) := tx_now tx]> (db_processed db)) db
    end))).

Definition CleanupExpired (ctx : Ctx) (olderThan : Duration) : M unit :=
  withPool ctx pool (λ tx, stmt (λ db, Ok (tt,
    with_processed (filter (λ kt, ¬ (kt.2 < tx_now tx - olderThan)) (db_processed db)) db))).

Definition prunable (tx : Tx) (ttlDays limit : Z) (db : Db) : list (string * string) :=
  sql_limit limit (map_to_list (filter (λ kt, kt.2 < tx_now tx - ttlDays * Day) (db_processed db))).*1.

Definition Prune (ctx : Ctx) (ttlDays limit : Z) : M Z :=
  withPool ctx pool (λ tx, stmt (λ db,
    let m' := foldr delete (db_processed db) (prunable tx ttlDays limit db) in
    Ok (Z.of_nat (size (db_processed db) - size m')%nat, with_processed m' db))).
End repository.
End ProcessedEvents.

(** ** gauge_repository.go *)
Module Gauge.
Section repository.
Context `{Env} `{PgCommon} `{UuidLib}.
Context (pool : Role).

Definition counted (d : Delegation) : bool := has_status DelegationActive d && is_live d.

(** SELECT tenant_id::text, count( * ) ... GROUP BY tenant_id *)
Definition count_by_tenant (rows : list Delegation) : gmap string Z :=
  foldr (λ d m, <[uuid_String (TenantID d) := default 0 (m !! uuid_String (TenantID d)) + 1]> m) ∅ rows.

(** A snapshot on a bare connection, outside any transaction. *)
Definition CountActiveByTenant (ctx : Ctx) : M (gmap string Z) :=
  wrap_conn (_ ← db_step;
    query (λ db, count_by_tenant
      (sql_select (mkTx pool (match pool with AppRole => app_tenant_id (guc_TenantID (ctx_guc ctx)) | SysRole => None end) 0)
         counted db))).
End repository.
End Gauge.
