(* ===== verification/Contracts.v ===== *)
(** * What the components promise each other

    The laws of the ports, as type classes the services are verified against.
    The first group bounds the effects of an operation on the tables by a
    relation [R] (rows only evolve; other tenants are spared) under a condition
    [K] on the context it is called with; the implementations discharge them in
    [PostgresFacts] and [ClientFacts]. *)
From S2P Require Import Prelude GoLib Domain World Store StoreFacts EventBus EventSchema.
Local Open Scope Z_scope.

(** ** Bounded effects on the tables *)
Section laws.
Context `{E : Env} `{P : PgCommon} `{U : UuidLib} `{PL : !PgCommonLaws E P U}.

(** [K] is a condition on contexts that transactions of pool [pool] respect and
    [R] contains everything such a transaction may do, and the publishing of a
    proper event. *)
Class Confined (pool : Role) (K : Ctx → Prop) (R : relation Db) : Prop := {
  conf_pre : PreOrder R;
  conf_others : OthersWithin E R;
  conf_other : ∀ d d', db_delegations d' = db_delegations d → db_settings d' = db_settings d →
    db_outbox d' = db_outbox d → R d d';
  conf_append : ∀ e d, event_ok e → R d (outbox_append e d);
  conf_lawful : ∀ ctx tx d d', K ctx → eff_tx pool ctx tx → lawful tx d d' → R d d';
  conf_bind : ∀ ctx ctx' tx, K ctx → eff_tx pool ctx tx → ctx_tx ctx' = Some tx → K ctx';
}.

Context (K : Ctx → Prop) (R : relation Db).

Class LawfulRepo (r : DelegationRepository) : Prop := {
  law_ListByDelegator : ∀ ctx t u, K ctx → Within (DbRel R) (repo_ListByDelegator r ctx t u);
  law_FindByID : ∀ ctx t i, K ctx → Within (DbRel R) (repo_FindByID r ctx t i);
  law_Insert : ∀ ctx d, K ctx → Within (DbRel R) (repo_Insert r ctx d);
  law_End : ∀ ctx t i s v, K ctx → s = DelegationEnded ∨ s = DelegationCancelled →
    Within (DbRel R) (repo_End r ctx t i s v);
  law_Activate : ∀ ctx t i v, K ctx → Within (DbRel R) (repo_Activate r ctx t i v);
  law_ExtendReview : ∀ ctx t i d v, K ctx → Within (DbRel R) (repo_ExtendReview r ctx t i d v);
  law_ListExpiringBefore : ∀ ctx b l, K ctx → Within (DbRel R) (repo_ListExpiringBefore r ctx b l);
  law_ListScheduledBefore : ∀ ctx b l, K ctx → Within (DbRel R) (repo_ListScheduledBefore r ctx b l);
  law_FindActiveDeptDelegateForUser : ∀ ctx t u d, K ctx →
    Within (DbRel R) (repo_FindActiveDeptDelegateForUser r ctx t u d);
  law_FindActiveByDelegator : ∀ ctx t u, K ctx → Within (DbRel R) (repo_FindActiveByDelegator r ctx t u);
  law_FindDueForDailyWarn : ∀ ctx b l, K ctx → Within (DbRel R) (repo_FindDueForDailyWarn r ctx b l);
  law_FindDueForAutoEnd : ∀ ctx b l, K ctx → Within (DbRel R) (repo_FindDueForAutoEnd r ctx b l);
  law_MarkReviewWarned : ∀ ctx t i b v, K ctx → Within (DbRel R) (repo_MarkReviewWarned r ctx t i b v);
  law_EndForUser : ∀ ctx t u, K ctx → Within (DbRel R) (repo_EndForUser r ctx t u);
  law_EndForDisabledDelegate : ∀ ctx t u, K ctx → Within (DbRel R) (repo_EndForDisabledDelegate r ctx t u);
  law_SoftDeleteTenant : ∀ ctx t, K ctx → Within (DbRel R) (repo_SoftDeleteTenant r ctx t);
  law_HardPurge : ∀ ctx b l, K ctx → Within (DbRel R) (repo_HardPurgeSoftDeletedBefore r ctx b l);
}.

Class LawfulSettings (r : SettingsRepository) : Prop := {
  law_settings_Get : ∀ ctx t, K ctx → Within (DbRel R) (settings_Get r ctx t);
  law_settings_Upsert : ∀ ctx t m v, K ctx → Within (DbRel R) (settings_Upsert r ctx t m v);
  law_settings_SoftDelete : ∀ ctx t, K ctx → Within (DbRel R) (settings_SoftDeleteTenant r ctx t);
}.

Class LawfulRunner (r : TxRunner) : Prop :=
  law_RunInTx : ∀ A ctx (cap : A) fn, K ctx →
    (∀ ctx' cap, K ctx' → Within (DbRel R) (fn ctx' cap)) → Within (DbRel R) (tx_RunInTx r ctx cap fn).
End laws.

(** ** Ports that never touch the tables *)
Abbreviation QuietDb m := (Within (DbRel eq) m) (only parsing).

Class QuietUserProfile (up : UserProfileClient) : Prop := {
  quiet_GetAvailability : ∀ ctx t u, QuietDb (up_GetAvailability up ctx t u);
  quiet_SetAvailability : ∀ ctx r, QuietDb (up_SetAvailability up ctx r);
  quiet_ClearDelegatePointer : ∀ ctx t u, QuietDb (up_ClearDelegatePointer up ctx t u);
}.
Class QuietMembership (mc : MembershipCheckClient) : Prop :=
  quiet_Exists : ∀ ctx t u, QuietDb (mc_Exists mc ctx t u).
Class QuietCatalog (ca : CatalogAdminClient) : Prop :=
  quiet_DepartmentActive : ∀ ctx d, QuietDb (ca_DepartmentActive ca ctx d).
Class QuietIdempotency (s : IdempotencyStore) : Prop := {
  quiet_idem_Get : ∀ ctx t k, QuietDb (idem_Get s ctx t k);
  quiet_idem_Save : ∀ ctx t k r, QuietDb (idem_Save s ctx t k r);
  quiet_idem_Reserve : ∀ ctx t k, QuietDb (idem_Reserve s ctx t k);
  quiet_idem_Release : ∀ ctx t k, QuietDb (idem_Release s ctx t k);
}.
Class QuietCache (c : Cache) : Prop := {
  quiet_cache_Get : ∀ ctx t u, QuietDb (cache_GetDelegatorList c ctx t u);
  quiet_cache_Set : ∀ ctx t u l, QuietDb (cache_SetDelegatorList c ctx t u l);
  quiet_cache_Invalidate : ∀ ctx t u, QuietDb (cache_InvalidateDelegatorList c ctx t u);
}.
Class QuietMetrics (m : Metrics) : Prop := {
  quiet_RecordCreated : ∀ s, QuietDb (m_RecordCreated m s);
  quiet_RecordEnded : ∀ s, QuietDb (m_RecordEnded m s);
  quiet_RecordIdempotencyHit : QuietDb (m_RecordIdempotencyHit m);
  quiet_RecordUPAvailabilityFailure : ∀ s, QuietDb (m_RecordUPAvailabilityFailure m s);
}.

(** A quiet operation is within every reflexive relation on the tables. *)
Lemma quiet_within {A} (R : relation Db) (m : M A) : Reflexive R → QuietDb m → Within (DbRel R) m.
Proof. intros HR Hm w. destruct (Hm w) as [Hd Hc]. split; [by rewrite <- Hd|done]. Qed.

(** ** Automation

    [lawful] collects the laws; [solve_lawful] follows the structure of an
    operation down to the ports it calls. *)
Create HintDb lawful discriminated.
#[export] Hint Resolve law_ListByDelegator law_FindByID law_Insert law_End law_Activate law_ExtendReview
  law_ListExpiringBefore law_ListScheduledBefore law_FindActiveDeptDelegateForUser law_FindActiveByDelegator
  law_FindDueForDailyWarn law_FindDueForAutoEnd law_MarkReviewWarned law_EndForUser
  law_EndForDisabledDelegate law_SoftDeleteTenant law_HardPurge
  law_settings_Get law_settings_Upsert law_settings_SoftDelete : lawful.
#[export] Hint Resolve quiet_GetAvailability quiet_SetAvailability quiet_ClearDelegatePointer quiet_Exists
  quiet_DepartmentActive quiet_idem_Get quiet_idem_Save quiet_idem_Reserve quiet_idem_Release
  quiet_cache_Get quiet_cache_Set quiet_cache_Invalidate quiet_RecordCreated quiet_RecordEnded
  quiet_RecordIdempotencyHit quiet_RecordUPAvailabilityFailure : lawful.
#[export] Hint Extern 3 (Within (DbRel ?R) _) =>
  (unify R (@eq Db); fail 1) || (apply quiet_within; [typeclasses eauto|]) : lawful.

Ltac lawful_step :=
  lazymatch goal with
  | |- Within _ (tx_RunInTx _ _ _ _) => eapply law_RunInTx; [typeclasses eauto|eassumption|intros ? ? ?]
  | |- Within _ _ => first [within_rule | solve [eauto with lawful typeclass_instances] | apply _]
  end.
Ltac solve_lawful := repeat (lawful_step; cbv beta).
