(* ===== verification/PostgresFacts.v ===== *)
(** * The PostgreSQL adapter keeps its promises

    Every repository method is a lawful change of the tables, in whichever
    transaction it runs, and the adapter satisfies the contracts of its ports. *)
From S2P Require Import Prelude GoLib Domain World Store StoreFacts Postgres Contracts.
Local Open Scope Z_scope.

(** ** WHERE and SET clauses *)
Ltac where_unfold :=
  unfold where_end, where_activate, where_extend, where_warn, where_live_id, where_user, where_delegate,
    where_tenant_live, where_purgeable, in_tenant, has_id, has_version, has_status, open_ended, is_live,
    open_status in *.
Ltac where_destruct :=
  where_unfold;
  repeat match goal with
         | H : _ && _ = true |- _ => apply andb_true_iff in H as [? ?]
         | H : _ || _ = true |- _ => apply orb_true_iff in H as [?|?]
         | H : bool_decide _ = true |- _ => apply bool_decide_eq_true in H
         | H : (_ =? _) = true |- _ => apply Z.eqb_eq in H
         end.

Lemma reaches_final s s' :
  open_status s = true → s' = DelegationEnded ∨ s' = DelegationCancelled → status_reaches s s'.
Proof.
  unfold open_status, status_reaches. intros Hs Hor.
  apply orb_true_iff in Hs as [Hs%bool_decide_eq_true|Hs%bool_decide_eq_true];
    destruct Hor as [->| ->]; set_solver.
Qed.

Ltac solve_sets :=
  split; intros; where_destruct; simpl in *; try tauto; try reflexivity; try done.

Lemma sets_end t i v s :
  s = DelegationEnded ∨ s = DelegationCancelled → sets (where_end t i v) (set_Status s).
Proof.
  intros Hs. solve_sets; apply reaches_final; [|done| |done];
    unfold open_status; apply orb_true_iff; rewrite !bool_decide_eq_true; tauto.
Qed.
Lemma sets_activate t i v : sets (where_activate t i v) (set_Status DelegationActive).
Proof. solve_sets. right; left. split; [done|set_solver]. Qed.
Lemma sets_extend t i v n : sets (where_extend t i v) (set_extend n).
Proof. solve_sets. Qed.
Lemma sets_warn t i v b : sets (where_warn t i v) (set_bucket b).
Proof. solve_sets. Qed.
Lemma sets_user t u now : sets (where_user t u) (set_ended_deleted now).
Proof.
  solve_sets; apply reaches_final; try (by left);
    unfold open_status; apply orb_true_iff; rewrite !bool_decide_eq_true; tauto.
Qed.
Lemma sets_delegate t u : sets (where_delegate t u) (set_Status DelegationEnded).
Proof.
  solve_sets; apply reaches_final; try (by left);
    unfold open_status; apply orb_true_iff; rewrite !bool_decide_eq_true; tauto.
Qed.
Lemma sets_delete t now : sets (where_tenant_live t) (set_DeletedAt now).
Proof. solve_sets. Qed.
#[export] Hint Resolve sets_end sets_activate sets_extend sets_warn sets_user sets_delegate sets_delete : lawful.

(** ** The statements that are not updates of [delegations] *)
Lemma purge_keys_deleted tx before limit db k :
  db_inv db → k ∈ Repo.purge_keys tx before limit db →
  ∃ d, db_delegations db !! k = Some d ∧ selected tx (where_purgeable before) d = true.
Proof.
  intros Hinv. unfold Repo.purge_keys, sql_limit. rewrite list_elem_of_fmap.
  intros (d & -> & Hd%elem_of_take). destruct Hd as (n & Hd & _).
  apply list_elem_of_lookup_2 in Hd. unfold order_by_asc in Hd.
  rewrite merge_sort_Permutation in Hd. apply elem_of_sql_select in Hd as (k & Hk & Hs).
  apply (inv_row db Hinv) in Hk as Hrow. destruct Hrow as [<- _]. eauto.
Qed.

Lemma sql_purge_lawful tx before limit db :
  lawful tx db (sql_delete (Repo.purge_keys tx before limit db) db).2.
Proof.
  apply sql_delete_lawful. intros Hinv k Hk.
  destruct (purge_keys_deleted _ _ _ _ _ Hinv Hk) as (d & Hd & Hs).
  exists d. split; [done|]. unfold selected in Hs. apply andb_true_iff in Hs as [Hv Hp]. split.
  - unfold where_purgeable in Hp. by destruct (DeletedAt d).
  - unfold hidden. congruence.
Qed.

Lemma sql_upsert_lawful tx t m v db s db' :
  SettingsRepo.sql_upsert tx t m v db = Ok (s, db') → lawful tx db db'.
Proof.
  unfold SettingsRepo.sql_upsert. destruct (rls_check_tenant tx t) eqn:Hrls; [|done].
  destruct (settings_ok _) eqn:Hok; [|done]. simpl. intros [= <- <-].
  apply lawful_other; [done|done|]. intros t'. simpl.
  destruct (decide (t' = t)) as [->|Hne]; [|left; by rewrite lookup_insert_ne].
  right. split; [unfold hidden; congruence|]. intros s. rewrite lookup_insert_eq. intros [= <-].
  split; [|done]. destruct (db_settings db !! t); [by case_decide|done].
Qed.

Lemma settings_delete_lawful tx t db :
  lawful tx db (if rls_check_tenant tx t
                then SettingsRepo.with_settings (delete t (db_settings db)) db else db).
Proof.
  destruct (rls_check_tenant tx t) eqn:Hrls; [|reflexivity].
  apply lawful_other; [done|done|]. intros t'. simpl.
  destruct (decide (t' = t)) as [->|Hne]; [|left; by rewrite lookup_delete_ne].
  right. split; [unfold hidden; congruence|]. intros s. by rewrite lookup_delete_eq.
Qed.

(** ** Methods *)
Section methods.
Context `{E : Env} `{P : PgCommon} `{U : UuidLib} `{PL : !PgCommonLaws E P U}.
Context (pool : Role) (K : Ctx → Prop) (R : relation Db) `{Hc : !Confined pool K R}.

#[local] Instance conf_preorder : PreOrder R := conf_pre (pool:=pool) (K:=K).
#[local] Instance conf_interleaved : OthersWithin E R := conf_others (pool:=pool) (K:=K).

Lemma within_pool {A} ctx (fn : Tx → M A) :
  K ctx → (∀ tx, eff_tx pool ctx tx → Within (DbRel R) (fn tx)) → Within (DbRel R) (withPool ctx pool fn).
Proof. intros HK Hfn. apply within_withPool; [apply _..|done]. Qed.

Lemma within_stmt_lawful {A} ctx tx (f : Db → result goerror (A * Db)) :
  K ctx → eff_tx pool ctx tx → (∀ d a d', f d = Ok (a, d') → lawful tx d d') → Within (DbRel R) (stmt f).
Proof.
  intros HK Htx Hf. apply within_stmt; [apply _|]. intros d a d' Heq.
  eapply (conf_lawful (pool:=pool) (K:=K)); eauto.
Qed.

Lemma within_update ctx tx Pw f :
  K ctx → eff_tx pool ctx tx → sets Pw f → Within (DbRel R) (stmt (sql_update tx Pw f)).
Proof. intros HK Htx Hs. eapply within_stmt_lawful; eauto using sql_update_lawful. Qed.

Lemma within_listWhere ctx Pw finish : K ctx → Within (DbRel R) (Repo.listWhere pool ctx Pw finish).
Proof. intros HK. apply within_pool; [done|]. intros tx _. apply within_query; apply _. Qed.

Lemma within_probe {A} tx t i : Within (DbRel R) (Repo.probeVersionConflict (A:=A) tx t i).
Proof.
  unfold Repo.probeVersionConflict. within_rule; [apply within_query; apply _|]. repeat within_rule.
Qed.

Ltac method_step :=
  lazymatch goal with
  | |- Within _ (Repo.probeVersionConflict _ _ _) => apply within_probe
  | |- Within _ (stmt (sql_update _ _ _)) => by eapply within_update; eauto with lawful
  | |- Within _ (query _) => apply within_query; apply _
  | |- Within _ _ => first [within_rule | apply _]
  end.
Ltac method := intros; apply within_pool; [done|]; intros tx Htx; repeat method_step.

#[export] Instance repo_lawful : LawfulRepo K R (Repo.NewDelegationRepository pool).
Proof.
  split; simpl.
  - intros; by apply within_listWhere.
  - unfold Repo.FindByID. method.
  - intros ctx d HK. unfold Repo.Insert. within_rule.
    + unfold Repo.insert_defaults. repeat method_step.
    + apply within_pool; [done|]. intros tx Htx.
      eapply within_stmt_lawful; eauto using sql_insert_lawful.
  - unfold Repo.End_. method.
  - unfold Repo.Activate. method.
  - unfold Repo.ExtendReview. method.
  - intros; by apply within_listWhere.
  - intros; by apply within_listWhere.
  - unfold Repo.FindActiveDeptDelegateForUser. method.
  - intros; by apply within_listWhere.
  - intros; by apply within_listWhere.
  - intros; by apply within_listWhere.
  - unfold Repo.MarkReviewWarned. method.
  - unfold Repo.EndForUser. method.
  - unfold Repo.EndForDisabledDelegate. method.
  - unfold Repo.SoftDeleteTenant. method.
  - intros. unfold Repo.HardPurgeSoftDeletedBefore. apply within_pool; [done|]. intros tx Htx.
    within_rule; [|apply _].
    eapply within_stmt_lawful; [done..|]. intros d n d' [= <- <-]. by apply sql_purge_lawful.
Qed.

#[export] Instance runner_lawful events : LawfulRunner K R (NewTxRunner pool events).
Proof.
  intros A ctx cap fn HK Hfn. apply within_RunInTx; [apply _..|].
  intros ctx' cap' (tx & Htx & Hbound). apply Hfn.
  by eapply (conf_bind (pool:=pool) (R:=R)).
Qed.

#[export] Instance settings_lawful : LawfulSettings K R (SettingsRepo.NewSettingsRepository pool).
Proof.
  split; simpl; intros.
  - unfold SettingsRepo.Get. method.
  - unfold SettingsRepo.Upsert. apply within_pool; [done|]. intros tx Htx.
    eapply within_stmt_lawful; [done..|]. intros d s d'. apply sql_upsert_lawful.
  - unfold SettingsRepo.SoftDeleteTenant. apply within_pool; [done|]. intros tx Htx.
    eapply within_stmt_lawful; [done..|]. intros d [] d' [= <-]. apply settings_delete_lawful.
Qed.
End methods.
