(* ===== verification/StoreSpec.v ===== *)
(** * The store the services are written against

    What the repositories, the transaction runner and the event publisher promise
    in terms of rows and of the outbox, without SQL: the functional contract of
    the database ports.  [PostgresSpec] shows the adapter fulfils it; the service
    theorems use only this file. *)
From S2P Require Import Prelude GoLib Domain World Store StoreFacts EventBus Contracts.
Local Open Scope Z_scope.

(** ** Rows *)

(** A row that has not been soft-deleted, in its tenant. *)
Definition live_row (db : Db) (t i : uuid) (d : Delegation) : Prop :=
  db_delegations db !! i = Some d ∧ TenantID d = t ∧ DeletedAt d = None.

Definition put_row (d : Delegation) (db : Db) : Db :=
  mkDb (<[ID d := d]> (db_delegations db)) (db_settings db) (db_processed db) (db_outbox db).

(** Some rows replaced, everything else as it was. *)
Definition map_rows (f : Delegation → Delegation) (db : Db) : Db :=
  mkDb (f <$> db_delegations db) (db_settings db) (db_processed db) (db_outbox db).
Definition append_events (es : list (Envelope EventData)) (db : Db) : Db :=
  mkDb (db_delegations db) (db_settings db) (db_processed db) (db_outbox db ++ es).

(** An event of the outbox: its type, tenant, subject, actor and payload. *)
Definition announces `{UuidLib} (p : Publisher) (ty : string) (t : uuid) (subject actor : string)
    (data : EventData) (e : Envelope EventData) : Prop :=
  env_Type e = ty ∧ env_Source e = pub_source p ∧ env_TenantID e = uuid_String t
  ∧ env_Subject e = subject ∧ env_Actor e = actor ∧ env_Payload e = data.

(** The transaction of the context sees the rows of tenant [t]. *)
Definition sees `{UuidLib} (pool : Role) (ctx : Ctx) (t : uuid) : Prop :=
  ∀ tx, eff_tx pool ctx tx → rls_check_tenant tx t = true.

(** Inside its transaction a context sees what it saw before. *)
Lemma sees_inside `{UuidLib} pool pool' ctx ctx' tx t :
  eff_tx pool ctx tx → ctx_tx ctx' = Some tx → sees pool ctx t → sees pool' ctx' t.
Proof. intros Heff Htx Hst tx' Heff'. unfold eff_tx in Heff'. rewrite Htx in Heff'. subst. by apply Hst. Qed.

Definition not_found_error : goerror := NewError ErrDelegationNotFound "delegation not found".
Definition conflict_error (v : Z) : goerror :=
  EDomain (WithDetails (NewErrorValue ErrOptimisticLockConflict "record version conflict") {["record_version"%string := v]}).

(** The outcome of a conditional write on one row: the new row is the old one
    changed by [f] and stamped by the trigger. *)
Definition row_written `{UuidLib} (pool : Role) (ctx : Ctx) (t i : uuid) (P : Delegation → Prop)
    (f : Delegation → Delegation) (db : Db) (d' : Delegation) (db' : Db) : Prop :=
  ∃ tx d, eff_tx pool ctx tx ∧ live_row db t i d ∧ P d
          ∧ d' = updated_row tx f d ∧ db' = put_row d' db.

(** What INSERT stores for [d]: its columns, with defaults for the id, the start
    and the status when they are unset. *)
Record filled_in (d d0 : Delegation) : Prop := {
  fi_id : ID d ≠ uuid_Nil → ID d0 = ID d;
  fi_starts : IsZero (StartsAt d) = false → StartsAt d0 = StartsAt d;
  fi_status : Status d ≠ EmptyString → Status d0 = Status d;
  fi_columns : TenantID d0 = TenantID d ∧ DelegatorID d0 = DelegatorID d ∧ DelegateID d0 = DelegateID d
    ∧ DelegatorMembershipID d0 = DelegatorMembershipID d ∧ DelegateMembershipID d0 = DelegateMembershipID d
    ∧ Scope d0 = Scope d ∧ ScopeID d0 = ScopeID d ∧ Reason d0 = Reason d ∧ EndsAt d0 = EndsAt d
    ∧ ReviewDueAt d0 = ReviewDueAt d ∧ ReviewWindowDays d0 = ReviewWindowDays d;
}.

(** ** The contract

    A method takes effect on the tables its transaction begins on ([concludes]):
    what they then are is a matter of the others, unless it joins a transaction. *)
Section contract.
Context `{E : Env} `{P : PgCommon} `{U : UuidLib} `{PL : !PgCommonLaws E P U}.
Context (pool : Role).

Class ReadContract (r : DelegationRepository) : Prop := {
  rc_FindByID : ∀ ctx t i w, db_inv (w_db w) →
    wp (repo_FindByID r ctx t i) (concludes ctx
      (λ db d db', db' = db ∧ live_row db t i d)
      (λ db e, e = not_found_error ∧ (sees pool ctx t → ∀ d, ¬ live_row db t i d)) w) w;
}.

Class WriteContract (r : DelegationRepository) : Prop := {
  rc_Insert : ∀ ctx d w,
    wp (repo_Insert r ctx d) (concludes ctx
      (λ db out db', ∃ tx d0, eff_tx pool ctx tx
          ∧ filled_in d d0 ∧ out = inserted_row tx d0 ∧ row_ok out = true
          ∧ db_delegations db !! ID out = None ∧ db' = put_row out db)
      (λ _ _, True) w) w;
  rc_End : ∀ ctx t i s v w, db_inv (w_db w) → s = DelegationEnded ∨ s = DelegationCancelled →
    wp (repo_End r ctx t i s v) (concludes ctx
      (row_written pool ctx t i (λ d, RecordVersion d = v ∧ open_status (Status d) = true) (set_Status s))
      (λ db e,
          (e = not_found_error ∧ (sees pool ctx t → ∀ d, live_row db t i d → open_status (Status d) = false))
          ∨ (∃ d, e = conflict_error (RecordVersion d) ∧ live_row db t i d ∧ open_status (Status d) = true
                  ∧ RecordVersion d ≠ v)) w) w;
  rc_Activate : ∀ ctx t i v w, db_inv (w_db w) →
    wp (repo_Activate r ctx t i v) (concludes ctx
      (λ db res db', match res with
        | Some d' => row_written pool ctx t i (λ d, RecordVersion d = v ∧ Status d = DelegationScheduled)
                       (set_Status DelegationActive) db d' db'
        | None => db' = db ∧
            (sees pool ctx t → ∀ d, live_row db t i d → ¬ (RecordVersion d = v ∧ Status d = DelegationScheduled))
        end)
      (λ _ _, False) w) w;
  rc_ExtendReview : ∀ ctx t i n v w, db_inv (w_db w) → 1 ≤ n ≤ 180 →
    wp (repo_ExtendReview r ctx t i n v) (concludes ctx
      (row_written pool ctx t i
         (λ d, RecordVersion d = v ∧ Status d = DelegationActive ∧ EndsAt d = None)
         (λ d, set_Review ((λ r, r + n * Day) <$> ReviewDueAt d) None (Some n) d))
      (λ db e, as_domain e ≠ None ∧ (sees pool ctx t → ∀ d, live_row db t i d →
            ¬ (RecordVersion d = v ∧ Status d = DelegationActive ∧ EndsAt d = None))) w) w;
  rc_MarkReviewWarned : ∀ ctx t i b v w, db_inv (w_db w) → 1 ≤ b ≤ 3 →
    wp (repo_MarkReviewWarned r ctx t i b v) (concludes ctx
      (λ db _ db', ∃ d', row_written pool ctx t i (λ d, RecordVersion d = v ∧ Status d = DelegationActive)
                   (λ d, set_Review (ReviewDueAt d) (Some b) (ReviewWindowDays d) d) db d' db')
      (λ db e, as_domain e ≠ None ∧ (sees pool ctx t → ∀ d, live_row db t i d →
            ¬ (RecordVersion d = v ∧ Status d = DelegationActive))) w) w;
}.

(** A sweep over several rows: those selected by [P] among the visible ones are
    changed by [f], and returned changed. *)
Definition swept (tx : Tx) (P : Delegation → bool) (f : Delegation → Delegation) (d : Delegation) : Delegation :=
  if selected tx P d then updated_row tx f d else d.
Definition rows_swept (tx : Tx) (P : Delegation → bool) (f : Delegation → Delegation)
    (db : Db) (rows : list Delegation) (db' : Db) : Prop :=
  rows = updated_row tx f <$> sql_select tx P db ∧ db' = map_rows (swept tx P f) db.

Definition involves (t u : uuid) (d : Delegation) : bool :=
  bool_decide (TenantID d = t ∧ (DelegatorID d = u ∨ DelegateID d = u) ∧ open_status (Status d) = true
               ∧ DeletedAt d = None).
Definition delegated_to (t u : uuid) (d : Delegation) : bool :=
  bool_decide (TenantID d = t ∧ DelegateID d = u ∧ open_status (Status d) = true ∧ DeletedAt d = None).
Definition live_in (t : uuid) (d : Delegation) : bool :=
  bool_decide (TenantID d = t ∧ DeletedAt d = None).

Class SweepContract (r : DelegationRepository) : Prop := {
  rc_EndForUser : ∀ ctx t u w, db_inv (w_db w) →
    wp (repo_EndForUser r ctx t u) (concludes ctx
      (λ db rows db', ∃ tx, eff_tx pool ctx tx ∧ rows_swept tx (involves t u)
                     (λ d, set_DeletedAt (Some (tx_now tx)) (set_Status DelegationEnded d)) db rows db')
      (λ _ _, False) w) w;
  rc_EndForDisabledDelegate : ∀ ctx t u w, db_inv (w_db w) →
    wp (repo_EndForDisabledDelegate r ctx t u) (concludes ctx
      (λ db rows db', ∃ tx, eff_tx pool ctx tx ∧ rows_swept tx (delegated_to t u) (set_Status DelegationEnded) db rows db')
      (λ _ _, False) w) w;
  rc_SoftDeleteTenant : ∀ ctx t w, db_inv (w_db w) →
    wp (repo_SoftDeleteTenant r ctx t) (concludes ctx
      (λ db _ db', ∃ tx rows, eff_tx pool ctx tx ∧ rows_swept tx (live_in t) (set_DeletedAt (Some (tx_now tx))) db rows db')
      (λ _ _, False) w) w;
}.

(** A batch a finder returns: rows of the tables that satisfy [P] and that the
    transaction sees, at most [limit], ordered by [key], none skipped over. *)
Record batch (tx : Tx) (P : Delegation → bool) (key : Delegation → Time) (limit : nat) (db : Db)
    (l : list Delegation) : Prop := {
  b_rows : ∀ d, d ∈ l → db_delegations db !! ID d = Some d ∧ selected tx P d = true;
  b_limit : (length l ≤ limit)%nat;
  b_sorted : Sorted (asc_by key) l;
  b_nodup : NoDup (ID <$> l);
  b_first : ∀ k d, db_delegations db !! k = Some d → selected tx P d = true →
    d ∈ l ∨ (length l = limit ∧ ∀ x, x ∈ l → key x ≤ key d);
}.
Definition batched (ctx : Ctx) (P : Delegation → bool) (key : Delegation → Time) (limit : Z)
    (w : World) : result goerror (list Delegation) → World → Prop :=
  concludes ctx
    (λ db l db', db' = db ∧ ∃ tx, eff_tx pool ctx tx ∧ batch tx P key (Z.to_nat (if limit <=? 0 then 100 else limit)) db l)
    (λ _ _, False) w.

Definition expired_at (now : Time) (d : Delegation) : bool :=
  match EndsAt d with Some e => bool_decide (e < now) | None => false end && bool_decide (Status d = DelegationActive ∧ DeletedAt d = None).
Definition startable_at (now : Time) (d : Delegation) : bool :=
  bool_decide (StartsAt d ≤ now) && bool_decide (Status d = DelegationScheduled ∧ DeletedAt d = None).
(** Open-ended, active, and the review deadline in the next three days, or past. *)
Definition warnable_at (now : Time) (d : Delegation) : bool :=
  bool_decide (EndsAt d = None ∧ Status d = DelegationActive ∧ DeletedAt d = None)
  && match ReviewDueAt d with Some r => bool_decide (now < r ≤ now + 3 * Day) | None => false end.
Definition overdue_at (now : Time) (d : Delegation) : bool :=
  bool_decide (EndsAt d = None ∧ Status d = DelegationActive ∧ DeletedAt d = None)
  && match ReviewDueAt d with Some r => bool_decide (r ≤ now) | None => false end.

Class FinderContract (r : DelegationRepository) : Prop := {
  rc_ListExpiringBefore : ∀ ctx t l w, db_inv (w_db w) → wp (repo_ListExpiringBefore r ctx t l)
    (batched ctx (expired_at t) (λ d, default 0 (EndsAt d)) l w) w;
  rc_ListScheduledBefore : ∀ ctx t l w, db_inv (w_db w) → wp (repo_ListScheduledBefore r ctx t l)
    (batched ctx (startable_at t) StartsAt l w) w;
  rc_FindDueForDailyWarn : ∀ ctx t l w, db_inv (w_db w) → wp (repo_FindDueForDailyWarn r ctx t l)
    (batched ctx (warnable_at t) (λ d, default 0 (ReviewDueAt d)) l w) w;
  rc_FindDueForAutoEnd : ∀ ctx t l w, db_inv (w_db w) → wp (repo_FindDueForAutoEnd r ctx t l)
    (batched ctx (overdue_at t) (λ d, default 0 (ReviewDueAt d)) l w) w;
}.

(** Rows soft-deleted before a moment, and the removal of rows. *)
Definition purgeable_at (before : Time) (d : Delegation) : bool :=
  match DeletedAt d with Some t => bool_decide (t < before) | None => false end.
Definition remove_rows (keys : list uuid) (db : Db) : Db :=
  mkDb (foldr delete (db_delegations db) keys) (db_settings db) (db_processed db) (db_outbox db).

Class PurgeContract (r : DelegationRepository) : Prop :=
  rc_HardPurge : ∀ ctx before l w, db_inv (w_db w) →
    wp (repo_HardPurgeSoftDeletedBefore r ctx before l) (concludes ctx
      (λ db n db', ∃ tx rows, eff_tx pool ctx tx
          ∧ batch tx (purgeable_at before) (λ d, default 0 (DeletedAt d)) (Z.to_nat (if l <=? 0 then 100 else l)) db rows
          ∧ n = Z.of_nat (length rows) ∧ db' = remove_rows (ID <$> rows) db)
      (λ _ _, False) w) w.

Definition with_settings_of (t : uuid) (s : option DelegationTenantSettings) (db : Db) : Db :=
  mkDb (db_delegations db) (partial_alter (λ _, s) t (db_settings db)) (db_processed db) (db_outbox db).

Class SettingsContract (r : SettingsRepository) : Prop := {
  rc_settings_Get : ∀ ctx t w, db_inv (w_db w) →
    wp (settings_Get r ctx t) (concludes ctx
      (λ db s db', db' = db ∧
        ((db_settings db !! t = Some s ∧ settings_ok s = true)
         ∨ (s = DefaultDelegationTenantSettings t ∧ (sees pool ctx t → db_settings db !! t = None))))
      (λ _ _, False) w) w;
  rc_settings_Upsert : ∀ ctx t m v w, db_inv (w_db w) → sees pool ctx t → 1 ≤ m ≤ 180 → 1 ≤ v ≤ 180 →
    wp (settings_Upsert r ctx t m v) (concludes ctx
      (λ db s db', ts_TenantID s = t ∧ MaxDurationDays s = m ∧ ts_ReviewWindowDays s = v
                ∧ db' = with_settings_of t (Some s) db
                ∧ match db_settings db !! t with
                  | None => ts_RecordVersion s = 1
                  | Some old => s = old ∨ ts_RecordVersion s = ts_RecordVersion old + 1
                  end)
      (λ _ _, False) w) w;
  rc_settings_SoftDelete : ∀ ctx t w, sees pool ctx t →
    wp (settings_SoftDeleteTenant r ctx t) (concludes ctx
      (λ db _ db', db' = with_settings_of t None db) (λ _ _, False) w) w;
}.

Class RunnerContract (p : Publisher) (r : TxRunner) : Prop :=
  rc_RunInTx : ∀ A ctx (cap : A) fn (C : A → Prop) (S : Db → A → Db → Prop) (X : Db → goerror → Prop) w,
    ctx_publisher ctx = None ∨ ctx_publisher ctx = Some p → C cap →
    (∀ tx ctx' cap w1, eff_tx pool ctx tx → ctx_tx ctx' = Some tx → ctx_publisher ctx' = Some p →
       ctx_rc ctx' = ctx_rc ctx → ctx_guc ctx' = ctx_guc ctx → begins_on ctx (w_db w) (w_db w1) → C cap →
       wp (fn ctx' cap) (λ r w2, match r with
                                 | Ok a => S (w_db w1) a (w_db w2) ∧ C a
                                 | Err e => fails_with (X (w_db w1)) e end) w1) →
    wp (tx_RunInTx r ctx cap fn) (λ r w', ∃ db, begins_on ctx (w_db w) db ∧
      match r with
      | Ok a => S db a (w_db w')
      | Err e => (ctx_tx ctx = None → w_db w' = db) ∧ fails_with (X db) e
      end) w.
End contract.

(** ** When the tables are known *)

(** Inside a transaction, and when nobody else is at work, a method begins on the
    tables as they are. *)
Definition concludes_here `{E : Env} `{P : PgCommon} {A} (S : Db → A → Db → Prop) (X : Db → goerror → Prop)
    (w : World) (r : result goerror A) (w' : World) : Prop :=
  match r with Ok a => S (w_db w) a (w_db w') | Err e => w_db w' = w_db w ∧ fails_with (X (w_db w)) e end.
Section known.
Context `{E : Env} `{P : PgCommon}.
Lemma wp_inside {A} ctx tx (m : M A) S X w :
  ctx_tx ctx = Some tx → wp m (concludes ctx S X w) w → wp m (concludes_here S X w) w.
Proof.
  intros Htx Hm. eapply wp_mono; [exact Hm|]. intros r w' (db & Hb & H). by rewrite (begins_on_inside _ _ _ _ Htx Hb) in H.
Qed.
Lemma wp_alone `{!Alone E} {A} ctx (m : M A) S X w :
  wp m (concludes ctx S X w) w → wp m (concludes_here S X w) w.
Proof. intros Hm. eapply wp_mono; [exact Hm|]. intros r w' (db & ->%begins_on_alone & H). exact H. Qed.

Lemma rc_RunInTx_alone `{U : UuidLib} `{!PgCommonLaws E P U} `{!Alone E} pool p r `{!RunnerContract pool p r}
    A ctx (cap : A) fn (C : A → Prop) (S : A → Db → Prop) (X : goerror → Prop) w :
  ctx_publisher ctx = None ∨ ctx_publisher ctx = Some p → C cap →
  (∀ tx ctx' cap w1, eff_tx pool ctx tx → ctx_tx ctx' = Some tx → ctx_publisher ctx' = Some p →
     ctx_rc ctx' = ctx_rc ctx → ctx_guc ctx' = ctx_guc ctx → w_db w1 = w_db w → C cap →
     wp (fn ctx' cap) (λ r w2, match r with Ok a => S a (w_db w2) ∧ C a | Err e => fails_with X e end) w1) →
  wp (tx_RunInTx r ctx cap fn) (λ r w',
    match r with
    | Ok a => S a (w_db w')
    | Err e => (ctx_tx ctx = None → w_db w' = w_db w) ∧ fails_with X e
    end) w.
Proof.
  intros Hp HC Hfn. eapply wp_mono.
  - apply (rc_RunInTx pool A ctx cap fn C (λ _, S) (λ _, X) w Hp HC).
    intros tx ctx' cap' w1 H1 H2 H3 H4 H5 H6%begins_on_alone. by apply (Hfn tx).
  - intros res w' (db & ->%begins_on_alone & H). exact H.
Qed.
End known.
