(* ===== verification/PostgresSpec.v ===== *)
(** * The PostgreSQL adapter fulfils the store contract *)
From S2P Require Import Prelude GoLib Domain World Store StoreFacts EventBus Postgres Contracts PostgresFacts StoreSpec.
Local Open Scope Z_scope.

(** ** Changed rows satisfy the CHECK constraints *)
Lemma row_ok_touched v now d : row_ok d = true → 0 < v → row_ok (set_Touched v now d) = true.
Proof.
  unfold row_ok. simpl. rewrite !andb_true_iff. intros (((((((? & ?) & ?) & ?) & ?) & ?) & ?) & ?) Hv.
  repeat split; try done. by apply Z.ltb_lt.
Qed.
Lemma row_ok_version d : row_ok d = true → 0 < RecordVersion d.
Proof. unfold row_ok. rewrite !andb_true_iff. rewrite <- Z.ltb_lt. tauto. Qed.
Lemma row_ok_updated tx f d :
  row_ok d = true → row_ok (f d) = true → row_ok (updated_row tx f d) = true.
Proof.
  intros Hd Hf. unfold updated_row, touch_row. case_decide; [done|].
  apply row_ok_touched; [done|]. apply row_ok_version in Hd. lia.
Qed.
Lemma row_ok_status s d :
  s ∈ [DelegationScheduled; DelegationActive; DelegationEnded; DelegationCancelled] →
  row_ok d = true → row_ok (set_Status s d) = true.
Proof.
  unfold row_ok. simpl. rewrite !andb_true_iff. intros Hs (((((((? & ?) & ?) & ?) & ?) & ?) & ?) & ?).
  repeat split; try done. by apply bool_decide_eq_true.
Qed.
Lemma row_ok_review due b n d :
  between 1 3 b = true → between 1 180 n = true → row_ok d = true → row_ok (set_Review due b n d) = true.
Proof.
  unfold row_ok. simpl. rewrite !andb_true_iff. intros Hb Hn (((((((? & ?) & ?) & ?) & ?) & ?) & ?) & ?).
  repeat split; done.
Qed.
Lemma row_ok_window d : row_ok d = true → between 1 180 (ReviewWindowDays d) = true.
Proof. unfold row_ok. rewrite !andb_true_iff. tauto. Qed.
Lemma row_ok_deleted t d : row_ok d = true → row_ok (set_DeletedAt t d) = true.
Proof. done. Qed.

Lemma between_Some lo hi v : lo ≤ v ≤ hi → between lo hi (Some v) = true.
Proof. intros. simpl. apply andb_true_iff. rewrite !Z.leb_le. lia. Qed.

(** ** One row *)
Section key.
Context (t i : uuid).

(** The selection by tenant and id, narrowed by [P]. *)
Definition keyed (P Q : Delegation → bool) : Prop :=
  ∀ d, P d = in_tenant t d && has_id i d && is_live d && Q d.

Lemma keyed_id P Q d : keyed P Q → P d = true → ID d = i.
Proof. intros ->. unfold has_id. rewrite !andb_true_iff, !bool_decide_eq_true. tauto. Qed.

Lemma keyed_selected tx P Q db d :
  keyed P Q → db_inv db → db_delegations db !! i = Some d → selected tx P d = true →
  live_row db t i d ∧ Q d = true.
Proof.
  intros HP Hinv Hi. unfold selected. rewrite HP. unfold in_tenant, is_live.
  rewrite !andb_true_iff, !bool_decide_eq_true. unfold live_row. tauto.
Qed.
Lemma keyed_live tx P Q db d :
  keyed P Q → db_inv db → rls_check_tenant tx t = true → live_row db t i d → Q d = true → selected tx P d = true.
Proof.
  intros HP Hinv Hrls (Hi & Ht & Hl) HQ. unfold selected. rewrite HP. unfold in_tenant, is_live, has_id.
  rewrite Ht, Hrls, HQ, !andb_true_iff, !bool_decide_eq_true.
  apply (inv_row db Hinv) in Hi as [? _]. repeat split; try done; congruence.
Qed.

(** UPDATE on a key: either the row is live and satisfies the rest of the WHERE
    clause and is changed, or no visible row does and nothing happens. *)
Lemma update_keyed tx P Q f db :
  keyed P Q → db_inv db → sets P f →
  (∀ d, live_row db t i d → Q d = true → row_ok (f d) = true) →
  (∃ d, live_row db t i d ∧ Q d = true ∧
     sql_update tx P f db = Ok ([updated_row tx f d], put_row (updated_row tx f d) db))
  ∨ (sql_update tx P f db = Ok ([], db) ∧
     (rls_check_tenant tx t = true → ∀ d, live_row db t i d → Q d = false)).
Proof.
  intros HP Hinv Hsets Hok.
  pose proof (sql_select_key tx P db i Hinv (λ d, keyed_id P Q d HP)) as Hsel.
  destruct (db_delegations db !! i) as [d|] eqn:Hi.
  - destruct (selected tx P d) eqn:Hs.
    + left. destruct (keyed_selected tx P Q db d HP Hinv Hi Hs) as [Hl HQ]. exists d.
      split; [done|]. split; [done|].
      assert (P d = true) as HPd by (unfold selected in Hs; apply andb_true_iff in Hs; tauto).
      destruct (inv_row db Hinv i d Hi) as [Hid Hrow].
      rewrite (sql_update_key tx P f db i d Hinv (λ d, keyed_id P Q d HP) Hi Hs).
      * unfold put_row. rewrite updated_row_id; [by rewrite Hid|]. by apply Hsets.
      * apply row_ok_updated; auto.
    + right. split; [by apply sql_select_nil_update|]. intros Hrls d' Hl.
      assert (d' = d) as -> by (destruct Hl; congruence).
      destruct (Q d) eqn:HQ; [|done]. by rewrite (keyed_live tx P Q db d HP Hinv Hrls Hl HQ) in Hs.
  - right. split; [by apply sql_select_nil_update|]. intros _ d' (Hd' & _). congruence.
Qed.

Lemma select_live tx db :
  db_inv db →
  (∃ d, live_row db t i d ∧ rls_check_tenant tx t = true ∧ sql_select tx (where_live_id t i) db = [d])
  ∨ (sql_select tx (where_live_id t i) db = [] ∧ (rls_check_tenant tx t = true → ∀ d, ¬ live_row db t i d)).
Proof.
  intros Hinv. assert (keyed (where_live_id t i) (λ _, true)) as HP.
  { intros d. unfold where_live_id. by rewrite andb_true_r. }
  rewrite (sql_select_key tx _ db i Hinv (λ d, keyed_id _ _ d HP)).
  destruct (db_delegations db !! i) as [d|] eqn:Hi.
  - destruct (selected tx (where_live_id t i) d) eqn:Hs.
    + left. destruct (keyed_selected tx _ _ db d HP Hinv Hi Hs) as [Hl _]. exists d. split; [done|].
      split; [|done]. unfold selected in Hs. apply andb_true_iff in Hs as [Hrls _].
      destruct Hl as (_ & <- & _). done.
    + right. split; [done|]. intros Hrls d' Hl. assert (d' = d) as -> by (destruct Hl; congruence).
      by rewrite (keyed_live tx _ _ db d HP Hinv Hrls Hl) in Hs.
  - right. split; [done|]. intros _ d' (Hd' & _). congruence.
Qed.
End key.

Section methods.
Context `{E : Env} `{P : PgCommon} `{U : UuidLib} `{PL : !PgCommonLaws E P U} `{LO : !LawfulOthers E}.
Context (pool : Role).

Lemma wp_stmt_known {A} (f : Db → result goerror (A * Db)) a d Q w :
  f (w_db w) = Ok (a, d) →
  (∀ e, env_db_fault (w_step w) = Some e → Q (Err e) (next_step w)) →
  Q (Ok a) (set_db d (next_step w)) → wp (stmt f) Q w.
Proof. intros Hf H1 H2. apply wp_stmt; [done|congruence|]. intros a' d' Hf'.
  rewrite Hf in Hf'. by injection Hf' as <- <-.
Qed.

(** A failing exchange inside a method changes nothing and is an outage. *)
Lemma fault_unchanged X (w w0 : World) e :
  w_db w = w_db w0 → env_db_fault (w_step w) = Some e → w_db (next_step w) = w_db w0 ∧ fails_with X e.
Proof. intros Hdb He. split; [done|by eapply fault_fails]. Qed.

Lemma wp_probe {A} tx t i (X : goerror → Prop) w0 w :
  db_inv (w_db w0) → w_db w = w_db w0 →
  ((rls_check_tenant tx t = true → ∀ d, live_row (w_db w0) t i d → open_status (Status d) = false) →
     X not_found_error) →
  (∀ d, rls_check_tenant tx t = true → live_row (w_db w0) t i d → open_status (Status d) = true →
     X (conflict_error (RecordVersion d))) →
  wp (Repo.probeVersionConflict (A:=A) tx t i)
    (λ r w', match r with Ok _ => False | Err e => w_db w' = w_db w0 ∧ fails_with X e end) w.
Proof.
  intros Hinv Hdb Hnf Hconf. unfold Repo.probeVersionConflict.
  apply wp_bind, wp_query; [intros e He; by apply fault_unchanged|].
  rewrite Hdb. destruct (select_live t i tx (w_db w0) Hinv) as [(d & Hl & Hrls & ->)|[-> Hno]].
  - assert (negb (bool_decide (Status d = DelegationActive)) && negb (bool_decide (Status d = DelegationScheduled))
      = negb (open_status (Status d))) as -> by (unfold open_status; by rewrite negb_orb).
    destruct (open_status (Status d)) eqn:Ho; apply wp_throw; (split; [done|]); apply fails_here.
    + by apply Hconf.
    + apply Hnf. intros _ d' Hl'. assert (d' = d) as -> by (destruct Hl, Hl'; congruence). done.
  - apply wp_throw. split; [done|]. apply fails_here, Hnf. intros Hrls d Hl. by apply Hno in Hl.
Qed.

Lemma keyed_end t i v : keyed t i (where_end t i v) (λ d, has_version v d && open_status (Status d)).
Proof. intros d. unfold where_end. destruct (in_tenant t d), (has_id i d), (has_version v d), (is_live d); done. Qed.
Lemma keyed_activate t i v :
  keyed t i (where_activate t i v) (λ d, has_version v d && has_status DelegationScheduled d).
Proof. intros d. unfold where_activate. destruct (in_tenant t d), (has_id i d), (has_version v d), (is_live d); done. Qed.
Lemma keyed_extend t i v :
  keyed t i (where_extend t i v) (λ d, has_version v d && has_status DelegationActive d && open_ended d).
Proof.
  intros d. unfold where_extend.
  destruct (in_tenant t d), (has_id i d), (has_version v d), (is_live d), (has_status _ d); done.
Qed.
Lemma keyed_warn t i v :
  keyed t i (where_warn t i v) (λ d, has_version v d && has_status DelegationActive d).
Proof. intros d. unfold where_warn. destruct (in_tenant t d), (has_id i d), (has_version v d), (is_live d); done. Qed.

Ltac where_true :=
  repeat match goal with
  | H : _ && _ = true |- _ => apply andb_true_iff in H as [? ?]
  | H : has_version _ _ = true |- _ => apply Z.eqb_eq in H
  | H : has_status _ _ = true |- _ => apply bool_decide_eq_true in H
  | H : open_ended _ = true |- _ => apply bool_decide_eq_true in H
  end.

Lemma live_row_ok db t i d : db_inv db → live_row db t i d → row_ok d = true.
Proof. intros Hinv (Hi & _). by apply (inv_row db Hinv) in Hi as [_ ?]. Qed.

#[export] Instance postgres_read : ReadContract pool (Repo.NewDelegationRepository pool).
Proof.
  split. intros ctx t i w Hinv. simpl. unfold Repo.FindByID.
  apply wp_method_inv; [done|]. clear w Hinv. intros w Hinv tx w1 Htx Hdb.
  apply wp_bind, wp_query; [intros e He; by apply fault_unchanged|].
  rewrite Hdb. destruct (select_live t i tx (w_db w) Hinv) as [(d & Hl & Hrls & ->)|[-> Hno]].
  - apply wp_ret. split; [exact Hdb|exact Hl].
  - apply wp_throw. split; [done|]. apply fails_here. split; [done|]. auto.
Qed.

(** UPDATE of one row, then [k] on what it returned. *)
Lemma wp_conditional {A} ctx t i Pw Qw f (k : Tx → list Delegation → M A)
    (S : Db → A → Db → Prop) (X : Db → goerror → Prop) w :
  db_inv (w_db w) → keyed t i Pw Qw → sets Pw f →
  (∀ d, TenantID d = t → Qw d = true → row_ok d = true → row_ok (f d) = true) →
  (∀ w tx, db_inv (w_db w) → eff_tx pool ctx tx →
     let Post := λ r w', match r with Ok a => S (w_db w) a (w_db w') | Err e => w_db w' = w_db w ∧ fails_with (X (w_db w)) e end in
     (∀ d w1, live_row (w_db w) t i d → Qw d = true →
        w_db w1 = put_row (updated_row tx f d) (w_db w) → wp (k tx [updated_row tx f d]) Post w1)
     ∧ (∀ w1, w_db w1 = w_db w →
        (rls_check_tenant tx t = true → ∀ d, live_row (w_db w) t i d → Qw d = false) → wp (k tx []) Post w1)) →
  wp (withPool ctx pool (λ tx, rows ← stmt (sql_update tx Pw f); k tx rows)) (concludes ctx S X w) w.
Proof.
  intros Hinv HP Hsets Hok Hk. apply wp_method_inv; [done|]. clear w Hinv. intros w Hinv tx w1 Htx Hdb.
  destruct (Hk w tx Hinv Htx) as [Hsome Hnone]. apply wp_bind.
  assert (∀ d, live_row (w_db w) t i d → Qw d = true → row_ok (f d) = true) as Hok'
    by (intros d Hl HQ; apply Hok; [by destruct Hl as (_ & ? & _)|done|by eapply live_row_ok]).
  destruct (update_keyed t i tx Pw Qw f (w_db w) HP Hinv Hsets Hok') as [(d & Hl & HQ & Hupd)|[Hupd Hno]];
    rewrite <- Hdb in Hupd; (eapply wp_stmt_known; [exact Hupd|intros e He; by apply fault_unchanged|]).
  - apply Hsome; try done. simpl. by rewrite Hdb.
  - apply Hnone; [simpl; done|done].
Qed.

Lemma end_contract ctx t i s v w :
  db_inv (w_db w) → s = DelegationEnded ∨ s = DelegationCancelled →
  wp (Repo.End_ pool ctx t i s v) (concludes ctx
    (row_written pool ctx t i (λ d, RecordVersion d = v ∧ open_status (Status d) = true) (set_Status s))
    (λ db e,
        (e = not_found_error ∧ (sees pool ctx t → ∀ d, live_row db t i d → open_status (Status d) = false))
        ∨ (∃ d, e = conflict_error (RecordVersion d) ∧ live_row db t i d ∧ open_status (Status d) = true
                ∧ RecordVersion d ≠ v)) w) w.
Proof.
  intros Hinv Hs. unfold Repo.End_, row_written.
  eapply wp_conditional; [done|apply keyed_end|by apply sets_end| |].
  - intros d _ _ Hd. apply row_ok_status; [destruct Hs as [->| ->]; set_solver|done].
  - clear w Hinv. intros w tx Hinv Htx. split.
    + intros d w1 Hl HQ Hdb. apply wp_ret. where_true. eauto 10.
    + intros w1 Hdb Hno. set (X := λ e, _ ∨ _).
      eapply wp_mono; [apply (wp_probe tx t i X w); [done|done|..]|by intros [?|e] w'].
      * intros Hnf. left. split; [done|]. auto.
      * intros d Hrls Hl Ho. right. exists d. split; [done|]. split; [done|]. split; [done|].
        intros <-. specialize (Hno Hrls d Hl). unfold has_version in Hno. by rewrite Z.eqb_refl, Ho in Hno.
Qed.

Lemma activate_contract ctx t i v w :
  db_inv (w_db w) →
  wp (Repo.Activate pool ctx t i v) (concludes ctx
    (λ db res db', match res with
      | Some d' => row_written pool ctx t i (λ d, RecordVersion d = v ∧ Status d = DelegationScheduled)
                     (set_Status DelegationActive) db d' db'
      | None => db' = db ∧
          (sees pool ctx t → ∀ d, live_row db t i d → ¬ (RecordVersion d = v ∧ Status d = DelegationScheduled))
      end)
    (λ _ _, False) w) w.
Proof.
  intros Hinv. unfold Repo.Activate, row_written.
  eapply wp_conditional; [done|apply keyed_activate|apply sets_activate| |].
  - intros d _ _ Hd. apply row_ok_status; [set_solver|done].
  - clear w Hinv. intros w tx Hinv Htx. split.
    + intros d w1 Hl HQ Hdb. apply wp_ret. simpl. where_true. eauto 10.
    + intros w1 Hdb Hno. apply wp_ret. simpl. split; [done|]. intros Hsees d Hl [Hv Hst].
      specialize (Hno (Hsees tx Htx) d Hl). unfold has_version, has_status in Hno.
      by rewrite Hv, Z.eqb_refl, bool_decide_true in Hno.
Qed.

Lemma extend_contract ctx t i n v w :
  db_inv (w_db w) → 1 ≤ n ≤ 180 →
  wp (Repo.ExtendReview pool ctx t i n v) (concludes ctx
    (row_written pool ctx t i
       (λ d, RecordVersion d = v ∧ Status d = DelegationActive ∧ EndsAt d = None)
       (λ d, set_Review ((λ r, r + n * Day) <$> ReviewDueAt d) None (Some n) d))
    (λ db e, as_domain e ≠ None ∧ (sees pool ctx t → ∀ d, live_row db t i d →
        ¬ (RecordVersion d = v ∧ Status d = DelegationActive ∧ EndsAt d = None))) w) w.
Proof.
  intros Hinv Hn. unfold Repo.ExtendReview, row_written.
  eapply wp_conditional; [done|apply keyed_extend|apply sets_extend| |].
  - intros d _ _ Hd. apply row_ok_review; [done|by apply between_Some|done].
  - clear w Hinv. intros w tx Hinv Htx. split.
    + intros d w1 Hl HQ Hdb. apply wp_ret. where_true. eauto 12.
    + intros w1 Hdb Hno.
      assert (sees pool ctx t → ∀ d, live_row (w_db w) t i d →
        ¬ (RecordVersion d = v ∧ Status d = DelegationActive ∧ EndsAt d = None)) as Hnone.
      { intros Hsees d Hl (Hv & Hst & He). specialize (Hno (Hsees tx Htx) d Hl).
        unfold has_version, has_status, open_ended in Hno. by rewrite Hv, Hst, He, Z.eqb_refl in Hno. }
      apply wp_bind, wp_query; [intros e He; by apply fault_unchanged|]. rewrite Hdb.
      assert (∀ e : goerror, as_domain e ≠ None → w_db (next_step w1) = w_db w ∧ fails_with (λ e0,
        as_domain e0 ≠ None ∧ (sees pool ctx t → ∀ d, live_row (w_db w) t i d →
          ¬ (RecordVersion d = v ∧ Status d = DelegationActive ∧ EndsAt d = None))) e) as Hfail.
      { intros e He. split; [done|]. by apply fails_here. }
      destruct (sql_select tx (where_live_id t i) (w_db w)) as [|d l]; [by apply wp_throw, Hfail|].
      repeat case_bool_decide; by apply wp_throw, Hfail.
Qed.

Lemma warn_contract ctx t i b v w :
  db_inv (w_db w) → 1 ≤ b ≤ 3 →
  wp (Repo.MarkReviewWarned pool ctx t i b v) (concludes ctx
    (λ db _ db', ∃ d', row_written pool ctx t i (λ d, RecordVersion d = v ∧ Status d = DelegationActive)
                 (λ d, set_Review (ReviewDueAt d) (Some b) (ReviewWindowDays d) d) db d' db')
    (λ db e, as_domain e ≠ None ∧ (sees pool ctx t → ∀ d, live_row db t i d →
          ¬ (RecordVersion d = v ∧ Status d = DelegationActive))) w) w.
Proof.
  intros Hinv Hb. unfold Repo.MarkReviewWarned, row_written.
  eapply wp_conditional; [done|apply keyed_warn|apply sets_warn| |].
  - intros d _ _ Hd. apply row_ok_review; [by apply between_Some|by apply row_ok_window|done].
  - clear w Hinv. intros w tx Hinv Htx. split.
    + intros d w1 Hl HQ Hdb. apply wp_ret. where_true. eauto 12.
    + intros w1 Hdb Hno.
      assert (sees pool ctx t → ∀ d, live_row (w_db w) t i d → ¬ (RecordVersion d = v ∧ Status d = DelegationActive)) as Hnone.
      { intros Hsees d Hl [Hv Hst]. specialize (Hno (Hsees tx Htx) d Hl).
        unfold has_version, has_status in Hno. by rewrite Hv, Hst, Z.eqb_refl in Hno. }
      set (X := λ e, _ ∧ (_ → ∀ d, _)).
      eapply wp_mono; [by apply (wp_probe tx t i X w)|by intros [?|e] w'].
Qed.

Lemma wp_insert_defaults d w :
  wp (Repo.insert_defaults d) (λ r w', w_db w' = w_db w ∧ ∃ d0, r = Ok d0 ∧ filled_in d d0) w.
Proof.
  unfold Repo.insert_defaults. apply wp_bind.
  eapply (wp_mono _ (λ r w', w_db w' = w_db w ∧ ∃ i, r = Ok i ∧ (ID d ≠ uuid_Nil → i = ID d))).
  { case_bool_decide; [apply wp_intro; simpl; eauto; by split; [|eexists]|apply wp_ret; eauto]. }
  intros ? w1 (Hdb1 & i & -> & Hi). apply wp_bind.
  eapply (wp_mono _ (λ r w', w_db w' = w_db w ∧ ∃ s, r = Ok s ∧ (IsZero (StartsAt d) = false → s = StartsAt d))).
  { destruct (IsZero (StartsAt d)) eqn:Hz; [apply wp_intro; simpl; by split; [|eexists]|apply wp_ret; eauto]. }
  intros ? w2 (Hdb2 & st & -> & Hst). apply wp_ret. split; [done|]. eexists. split; [done|].
  split; simpl; [done|done|intros Hs; by rewrite bool_decide_false|by repeat split].
Qed.

Lemma insert_contract ctx d w :
  wp (Repo.Insert pool ctx d) (concludes ctx
    (λ db out db', ∃ tx d0, eff_tx pool ctx tx ∧ filled_in d d0 ∧ out = inserted_row tx d0 ∧ row_ok out = true
        ∧ db_delegations db !! ID out = None ∧ db' = put_row out db)
    (λ _ _, True) w) w.
Proof.
  unfold Repo.Insert. apply wp_bind. eapply wp_mono; [apply wp_insert_defaults|].
  intros ? w1 (Hdb1 & d0 & -> & Hd0). apply wp_from; [done|]. apply wp_method.
  clear w Hdb1. intros w _ tx w2 Htx Hdb2. apply wp_stmt.
  - intros e He. split; [simpl; congruence|]. by eapply fault_fails.
  - intros e He. split; [simpl; congruence|]. by apply fails_here.
  - intros out db. unfold sql_insert. destruct (rls_check_tenant _ _); [|done]. cbn [negb].
    destruct (row_ok _) eqn:Hok; [|done]. cbn [negb].
    destruct (db_delegations _ !! _) eqn:Hfresh; [done|]. intros [= <- <-]. rewrite Hdb2 in *.
    exists tx, d0. do 5 (split; [done|]). done.
Qed.

#[export] Instance postgres_write : WriteContract pool (Repo.NewDelegationRepository pool).
Proof.
  split; simpl; intros.
  - apply insert_contract.
  - by apply end_contract.
  - by apply activate_contract.
  - by apply extend_contract.
  - by apply warn_contract.
Qed.

(** *** Sweeps *)
Lemma sql_select_ext tx Pw Pw' db : (∀ d, Pw d = Pw' d) → sql_select tx Pw db = sql_select tx Pw' db.
Proof.
  intros Heq. unfold sql_select, matching. do 2 f_equal. apply map_filter_ext. intros k d _. simpl.
  unfold selected. by rewrite Heq.
Qed.

Lemma sql_update_swept tx Pw Pw' f db :
  db_inv db → (∀ d, Pw d = Pw' d) → (∀ d, row_ok d = true → row_ok (f d) = true) →
  sql_update tx Pw f db = Ok (updated_row tx f <$> sql_select tx Pw' db, map_rows (swept tx Pw' f) db).
Proof.
  intros Hinv Heq Hok. unfold sql_update. rewrite (sql_select_ext tx Pw Pw' _ Heq).
  rewrite (proj2 (forallb_forall _ _)).
  - unfold map_rows. do 3 f_equal. apply map_fmap_ext. intros k d _. unfold swept, selected. by rewrite Heq.
  - intros d' Hd'%list_elem_of_In. apply list_elem_of_fmap in Hd' as (d & -> & Hd).
    apply elem_of_sql_select in Hd as (k & Hk & _). apply (inv_row _ Hinv) in Hk as [_ Hrow].
    by apply row_ok_updated; auto.
Qed.

(** A sweep in a method, then [k] on the rows. *)
Lemma wp_sweep {A} ctx Pw Pw' (f : Tx → Delegation → Delegation) (body : Tx → M A) (k : list Delegation → A) w :
  db_inv (w_db w) → (∀ d, Pw d = Pw' d) → (∀ tx d, row_ok d = true → row_ok (f tx d) = true) →
  (∀ tx w1, body tx w1 = (rows ← stmt (sql_update tx Pw (f tx)); mret (k rows)) w1) →
  wp (withPool ctx pool body) (concludes ctx
    (λ db a db', ∃ tx rows, a = k rows ∧ eff_tx pool ctx tx ∧ rows_swept tx Pw' (f tx) db rows db')
    (λ _ _, False) w) w.
Proof.
  intros Hinv Heq Hok Hbody. unfold rows_swept.
  apply wp_method_inv; [done|]. clear w Hinv. intros w Hinv tx w1 Htx Hdb. eapply wp_eq; [apply Hbody|]. apply wp_bind.
  eapply wp_stmt_known; [rewrite Hdb; apply sql_update_swept; auto|intros e He; by apply fault_unchanged|].
  apply wp_ret. eauto 10.
Qed.

Lemma bind_ret {A} (m : M A) w : (x ← m; mret (id x)) w = m w.
Proof. unfold mbind, gom_bind. by destruct (m w) as [[]]. Qed.

Ltac sweep_result := intros r w' (db & Hb & Hpost); exists db; (split; [done|]);
  destruct r as [?|e]; [|done]; destruct Hpost as (tx & rows & -> & Htx & Hrows); eauto.

#[export] Instance postgres_sweep : SweepContract pool (Repo.NewDelegationRepository pool).
Proof.
  split; simpl; intros.
  - unfold Repo.EndForUser. eapply wp_mono; [apply (wp_sweep ctx (where_user t u) (involves t u)
      (λ tx, set_ended_deleted (tx_now tx)) _ id)|]; [done|..|sweep_result].
    + intros d. apply eq_bool_prop_intro. unfold involves. rewrite bool_decide_spec.
      unfold where_user, in_tenant, is_live. rewrite !andb_True, orb_True, !bool_decide_spec, Is_true_true. tauto.
    + intros tx d Hd. by apply row_ok_deleted, row_ok_status; [set_solver|].
    + intros tx w1. by rewrite bind_ret.
  - unfold Repo.EndForDisabledDelegate. eapply wp_mono; [apply (wp_sweep ctx (where_delegate t u) (delegated_to t u)
      (λ _, set_Status DelegationEnded) _ id)|]; [done|..|sweep_result].
    + intros d. apply eq_bool_prop_intro. unfold delegated_to. rewrite bool_decide_spec.
      unfold where_delegate, in_tenant, is_live. rewrite !andb_True, !bool_decide_spec, Is_true_true. tauto.
    + intros tx d Hd. by apply row_ok_status; [set_solver|].
    + intros tx w1. by rewrite bind_ret.
  - unfold Repo.SoftDeleteTenant.
    eapply wp_mono; [apply (wp_sweep ctx (where_tenant_live t) (live_in t) (λ tx, set_DeletedAt (Some (tx_now tx))) _ (λ _, tt))|];
      [done|..|sweep_result].
    + intros d. apply eq_bool_prop_intro. unfold live_in. rewrite bool_decide_spec.
      unfold where_tenant_live, in_tenant, is_live. rewrite !andb_True, !bool_decide_spec. tauto.
    + intros tx d Hd. by apply row_ok_deleted.
    + done.
Qed.

(** *** Finders *)
Lemma batch_select tx Pw Pw' key limit db :
  db_inv db → (∀ d, Pw d = Pw' d) →
  batch tx Pw' key (Z.to_nat limit) db (sql_limit limit (order_by_asc key (sql_select tx Pw db))).
Proof.
  intros Hinv Heq. rewrite (sql_select_ext tx Pw Pw' db Heq). unfold sql_limit, order_by_asc.
  set (l := sql_select tx Pw' db). set (n := Z.to_nat limit).
  assert (merge_sort (asc_by key) l ≡ₚ l) as Hperm by apply merge_sort_Permutation.
  assert (StronglySorted (asc_by key) (merge_sort (asc_by key) l)) as Hsorted.
  { apply Sorted_StronglySorted; [intros x y z; unfold asc_by; lia|].
    apply Sorted_merge_sort. intros x y. unfold asc_by. lia. }
  assert (∀ k d, db_delegations db !! k = Some d → selected tx Pw' d = true → d ∈ merge_sort (asc_by key) l) as Hall.
  { intros k d Hk Hs. rewrite Hperm. apply elem_of_sql_select. eauto. }
  rewrite <- (take_drop n (merge_sort (asc_by key) l)) in Hsorted, Hall. split.
  - intros d Hd. assert (d ∈ l) as Hl by (rewrite <- Hperm, <- (take_drop n); apply elem_of_app; by left).
    apply elem_of_sql_select in Hl as (k & Hk & Hs). destruct (inv_row db Hinv k d Hk) as [-> _]. done.
  - rewrite length_take. lia.
  - apply StronglySorted_Sorted. by eapply StronglySorted_app_1_l.
  - apply (sublist_NoDup _ (ID <$> merge_sort (asc_by key) l)); [|apply fmap_sublist, sublist_take].
    rewrite Hperm. unfold l, sql_select. rewrite <- list_fmap_compose.
    assert (ID ∘ snd <$> map_to_list (matching tx Pw' (db_delegations db))
      = (map_to_list (matching tx Pw' (db_delegations db))).*1) as ->; [|apply NoDup_fst_map_to_list].
    apply list_fmap_ext. intros i [k d] Hi%list_elem_of_lookup_2. simpl.
    apply elem_of_map_to_list, map_lookup_filter_Some in Hi as [Hk _]. by apply (inv_row db Hinv) in Hk as [-> _].
  - intros k d Hk Hs. specialize (Hall k d Hk Hs). apply elem_of_app in Hall as [|Hdrop]; [by left|]. right. split.
    + rewrite length_take. apply list_elem_of_lookup in Hdrop as [i Hi%lookup_lt_Some].
      rewrite length_drop in Hi. lia.
    + intros x Hx. by apply (StronglySorted_app_1_elem_of _ _ _ x d Hsorted).
Qed.

Lemma wp_finder ctx Pw Pw' key limit w :
  db_inv (w_db w) → (∀ d, Pw d = Pw' d) →
  wp (Repo.listWhere pool ctx Pw (λ l, sql_limit (limitOrDefault limit) (order_by_asc key l)))
    (batched pool ctx Pw' key limit w) w.
Proof.
  intros Hinv Heq. unfold Repo.listWhere, batched.
  apply wp_method_inv; [done|]. clear w Hinv. intros w Hinv tx w1 Htx Hdb. apply wp_query; [intros e He; by apply fault_unchanged|].
  split; [exact Hdb|]. exists tx. split; [done|]. rewrite Hdb. by apply batch_select.
Qed.

Lemma bool_match {A} (o : option A) (f g : A → bool) :
  (∀ a, f a = g a) → match o with Some a => f a | None => false end = match o with Some a => g a | None => false end.
Proof. intros Hfg. destruct o; auto. Qed.

#[export] Instance postgres_finder : FinderContract pool (Repo.NewDelegationRepository pool).
Proof.
  split; intros ctx t l w Hinv; simpl; apply wp_finder; try done; intros d;
    unfold where_expiring, expired_at, where_scheduled_before, startable_at, where_daily_warn, warnable_at,
      where_auto_end, overdue_at, has_status, is_live, open_ended.
  - rewrite bool_decide_and, andb_assoc. do 2 f_equal. apply bool_match. intros e.
    apply eq_bool_prop_intro. rewrite bool_decide_spec, Is_true_true. apply Z.ltb_lt.
  - rewrite bool_decide_and, andb_assoc, (andb_comm (bool_decide (Status d = DelegationScheduled))). do 2 f_equal.
    apply eq_bool_prop_intro. rewrite bool_decide_spec, Is_true_true. apply Z.leb_le.
  - rewrite !bool_decide_and, !andb_assoc. f_equal. apply bool_match. intros r.
    apply eq_bool_prop_intro. rewrite bool_decide_spec, Is_true_true, andb_true_iff, Z.ltb_lt, Z.leb_le. done.
  - rewrite !bool_decide_and, !andb_assoc. f_equal. apply bool_match. intros r.
    apply eq_bool_prop_intro. rewrite bool_decide_spec, Is_true_true. apply Z.leb_le.
Qed.

(** *** Purging *)
Lemma size_foldr_delete {A} (keys : list uuid) (m : gmap uuid A) :
  NoDup keys → (∀ k, k ∈ keys → is_Some (m !! k)) → (size (foldr delete m keys) + length keys)%nat = size m.
Proof.
  induction 1 as [|k keys Hk _ IH]; intros Hin; simpl; [lia|].
  rewrite <- IH by (intros k' Hk'; apply Hin; by right).
  destruct (Hin k ltac:(left)) as [a Ha].
  assert (foldr delete m keys !! k = Some a) as Hlook by (rewrite foldr_delete_lookup; by rewrite bool_decide_false).
  rewrite map_size_delete, Hlook. assert (size (foldr delete m keys) ≠ 0%nat); [|lia].
  intros Hz%map_size_empty_inv. rewrite Hz in Hlook. done.
Qed.

#[export] Instance postgres_purge : PurgeContract pool (Repo.NewDelegationRepository pool).
Proof.
  intros ctx before l w Hinv. simpl. unfold Repo.HardPurgeSoftDeletedBefore.
  apply wp_method_inv; [done|]. clear w Hinv. intros w Hinv tx w1 Htx Hdb. apply wp_bind.
  set (rows := sql_limit (limitOrDefault l) (order_by_asc deleted (sql_select tx (where_purgeable before) (w_db w)))).
  assert (batch tx (purgeable_at before) deleted (Z.to_nat (limitOrDefault l)) (w_db w) rows) as Hb.
  { apply batch_select; [done|]. intros d. unfold where_purgeable, purgeable_at. apply bool_match. intros x.
    apply eq_bool_prop_intro. rewrite bool_decide_spec, Is_true_true. apply Z.ltb_lt. }
  apply (wp_stmt_known _ _ _ _ w1 eq_refl); [intros e He; by apply fault_unchanged|].
  apply wp_ret. exists tx, rows. split; [done|]. split; [done|]. simpl. rewrite Hdb. split; [|done].
  f_equal. fold rows. change (Repo.purge_keys tx before l (w_db w)) with (ID <$> rows).
  pose proof (size_foldr_delete (ID <$> rows) (db_delegations (w_db w)) (b_nodup _ _ _ _ _ _ Hb)) as Hsize.
  rewrite length_fmap in Hsize. rewrite <- Hsize; [lia|].
  intros k (d & -> & Hd)%list_elem_of_fmap. apply (b_rows _ _ _ _ _ _ Hb) in Hd as [-> _]. eauto.
Qed.

(** *** Policy rows *)
Lemma upsert_known tx t m v db :
  db_inv db → rls_check_tenant tx t = true → 1 ≤ m ≤ 180 → 1 ≤ v ≤ 180 →
  ∃ s, SettingsRepo.sql_upsert tx t m v db = Ok (s, with_settings_of t (Some s) db)
       ∧ ts_TenantID s = t ∧ MaxDurationDays s = m ∧ ts_ReviewWindowDays s = v
       ∧ match db_settings db !! t with
         | None => ts_RecordVersion s = 1
         | Some old => s = old ∨ ts_RecordVersion s = ts_RecordVersion old + 1
         end.
Proof.
  intros Hinv Hrls Hm Hv. unfold SettingsRepo.sql_upsert. rewrite Hrls. cbn [negb].
  assert (∀ ver c u', 0 < ver → settings_ok (mkSettings t m v ver c u') = true) as Hok.
  { intros. unfold settings_ok. simpl. rewrite !andb_true_iff, !Z.leb_le, Z.ltb_lt. lia. }
  destruct (db_settings db !! t) as [old|] eqn:Hold.
  - destruct (inv_settings _ Hinv t old Hold) as [Hid Hokold].
    assert (0 < ts_RecordVersion old) as Hver.
    { unfold settings_ok in Hokold. rewrite !andb_true_iff, Z.ltb_lt in Hokold. tauto. }
    case_decide as Hsame.
    + rewrite Hok by done. eexists. split; [done|]. simpl. rewrite <- Hsame. auto.
    + rewrite Hok by lia. eexists. split; [done|]. simpl. auto.
  - rewrite Hok by lia. eexists. split; [done|]. simpl. auto.
Qed.

#[export] Instance postgres_settings : SettingsContract pool (SettingsRepo.NewSettingsRepository pool).
Proof.
  split; simpl.
  - intros ctx t w Hinv. unfold SettingsRepo.Get.
    apply wp_method_inv; [done|]. clear w Hinv. intros w Hinv tx w1 Htx Hdb.
    apply wp_bind, wp_query; [intros e He; by apply fault_unchanged|]. rewrite Hdb.
    destruct (rls_check_tenant tx t) eqn:Hrls.
    + destruct (db_settings (w_db w) !! t) as [s|] eqn:Hs; apply wp_ret; (split; [exact Hdb|]); [left|by right].
      split; [done|]. by apply (inv_settings _ Hinv t s Hs).
    + apply wp_ret. split; [exact Hdb|]. right. split; [done|]. intros Hsees. by rewrite (Hsees tx Htx) in Hrls.
  - intros ctx t m v w Hinv Hsees Hm Hv. unfold SettingsRepo.Upsert.
    apply wp_method_inv; [done|]. clear w Hinv. intros w Hinv tx w1 Htx Hdb.
    destruct (upsert_known tx t m v (w_db w) Hinv (Hsees tx Htx) Hm Hv) as (s & Hup & Hs).
    rewrite <- Hdb in Hup. eapply wp_stmt_known; [exact Hup|intros e He; by apply fault_unchanged|].
    simpl. rewrite Hdb. tauto.
  - intros ctx t w Hsees. unfold SettingsRepo.SoftDeleteTenant. apply wp_method. intros w0 _ tx w1 Htx Hdb.
    eapply wp_stmt_known; [done|intros e He; by apply fault_unchanged|].
    simpl. by rewrite Hdb, (Hsees tx Htx).
Qed.

(** *** Transactions *)
#[export] Instance postgres_runner p : RunnerContract pool p (NewTxRunner pool (Some p)).
Proof.
  intros A ctx cap fn C S X w Hpub HC Hfn. simpl.
  destruct (ctx_tx ctx) as [tx|] eqn:Htx.
  - unfold RunInTx, TxFromContext. rewrite Htx. apply wp_wrap_conn.
    eapply wp_mono; [apply (Hfn tx _ cap w)|].
    + by unfold eff_tx; rewrite Htx.
    + unfold EventPublisherFromContext. destruct Hpub as [->| ->]; done.
    + unfold EventPublisherFromContext. by destruct Hpub as [->|Hp]; [|rewrite Hp].
    + unfold EventPublisherFromContext. by destruct Hpub as [->| ->].
    + unfold EventPublisherFromContext. by destruct Hpub as [->| ->].
    + unfold begins_on. by rewrite Htx.
    + done.
    + assert (begins_on ctx (w_db w) (w_db w)) as Hb by (unfold begins_on; by rewrite Htx).
      intros [a|e] w' HS; exists (w_db w); (split; [exact Hb|]); [by destruct HS|]. split; [done|]. by apply fails_wrap.
  - eapply wp_mono; [apply (wp_RunInTx pool (Some p) ctx cap fn C S X w Htx HC)|].
    + intros tx cap' w1 Hfor Hdb HC'. apply (Hfn tx); try done.
      * by unfold eff_tx; rewrite Htx.
      * unfold begins_on. by rewrite Htx.
    + intros r w' (db & Hb & H). exists db. split; [done|]. destruct r as [a|e]; [done|]. destruct H. auto.
Qed.
End methods.
