(* ===== verification/ClientFacts.v ===== *)
(** * The other adapters keep their promises

    Metrics, Valkey and the HTTP clients never touch the tables; publishing and
    the dedup ledger touch only their own.  The two confinements the services are
    used with: any run makes the tables grow, and a run for one tenant spares
    the others. *)
From S2P Require Import Prelude GoLib Domain World Store StoreFacts MetricsRec Valkey EventBus EventSchema HttpClients Postgres Contracts PostgresFacts.
Local Open Scope Z_scope.

Section quiet.
Context `{E : Env} `{P : PgCommon} `{U : UuidLib} `{PL : !PgCommonLaws E P U} `{T : TimeText}.

#[export] Instance NewMetrics_quiet : QuietMetrics NewMetrics.
Proof. split; intros; simpl; apply _. Qed.

Lemma quiet_kv_cmd {A} (f : Time → KV → A * KV) : QuietDb (kv_cmd f).
Proof. intros w. unfold kv_cmd. by destruct (env_kv_fault (w_step w)); apply DbRel_uncounted. Qed.
#[export] Instance quiet_GET k : QuietDb (GET k).
Proof. apply quiet_kv_cmd. Qed.
#[export] Instance quiet_SET k v ttl : QuietDb (SET k v ttl).
Proof. apply quiet_kv_cmd. Qed.
#[export] Instance quiet_SetNX k v ttl : QuietDb (SetNX k v ttl).
Proof. apply quiet_kv_cmd. Qed.
#[export] Instance quiet_DEL k : QuietDb (DEL k).
Proof. apply quiet_kv_cmd. Qed.

#[export] Instance NewCache_quiet : QuietCache ListCache.NewCache.
Proof.
  split; intros; simpl; unfold ListCache.GetDelegatorList, ListCache.SetDelegatorList,
    ListCache.InvalidateDelegatorList; solve_lawful.
Qed.
#[export] Instance NewIdempotencyStore_quiet : QuietIdempotency Idempotency.NewIdempotencyStore.
Proof.
  split; intros; simpl; unfold Idempotency.Get, Idempotency.Save, Idempotency.Reserve, Idempotency.Release;
    solve_lawful.
Qed.

#[export] Instance quiet_Do pkg req : QuietDb (Do pkg req).
Proof. intros w. unfold Do. destruct (env_url_ok _); simpl; [|done]. by destruct (env_http _ _); apply DbRel_uncounted. Qed.
#[export] Instance quiet_command_answer resp : QuietDb (UserProfile.command_answer resp).
Proof. unfold UserProfile.command_answer. solve_lawful. Qed.
Lemma quiet_instrumented {A} s e (m : M A) : QuietDb m → QuietDb (instrumented s e m).
Proof. intros. unfold instrumented. solve_lawful. Qed.

#[export] Instance userprofile_quiet url : QuietUserProfile (UserProfile.client url).
Proof.
  split; intros; simpl; unfold UserProfile.GetAvailability, UserProfile.SetAvailability,
    UserProfile.ClearDelegatePointer; apply quiet_instrumented;
    unfold UserProfile.getAvailability, UserProfile.setAvailability, UserProfile.clearDelegatePointer;
    solve_lawful.
Qed.
#[export] Instance orgmembership_quiet url : QuietMembership (OrgMembership.client url).
Proof.
  intros ctx t u. simpl. unfold OrgMembership.Exists, OrgMembership.exists_. solve_lawful.
Qed.
#[export] Instance catalogadmin_quiet url : QuietCatalog (CatalogAdmin.client url).
Proof.
  intros ctx d. simpl. unfold CatalogAdmin.DepartmentActive. apply quiet_instrumented.
  unfold CatalogAdmin.departmentActive. solve_lawful.
Qed.
End quiet.

(** ** Publishing and the dedup ledger *)
Section other_tables.
Context `{E : Env} `{P : PgCommon} `{U : UuidLib} `{PL : !PgCommonLaws E P U}.
Context (pool : Role) (K : Ctx → Prop) (R : relation Db) `{Hc : !Confined pool K R}.
#[local] Instance other_preorder : PreOrder R := conf_pre (pool:=pool) (K:=K).
#[local] Instance other_interleaved : OthersWithin E R := conf_others (pool:=pool) (K:=K).

Lemma within_stmt_other {A} (f : Db → result goerror (A * Db)) :
  (∀ d a d', f d = Ok (a, d') → db_delegations d' = db_delegations d ∧ db_settings d' = db_settings d
     ∧ db_outbox d' = db_outbox d) →
  Within (DbRel R) (stmt f).
Proof.
  intros Hf. apply within_stmt; [apply _|]. intros d a d' Heq. apply Hf in Heq as (? & ? & ?).
  by apply (conf_other (pool:=pool) (K:=K)).
Qed.

Lemma within_EnqueueCtx p ctx evt :
  describes (de_Type evt) (de_TenantID evt) (de_Subject evt) (de_Data evt) →
  Within (DbRel R) (EnqueueCtx p ctx evt).
Proof.
  intros (Hty & Ht & Hs). unfold EnqueueCtx. within_rule; [destruct (marshalable _); apply _|].
  destruct (ValidatingCodec_Encode _ _) as [[]|e] eqn:Hv; [|intros w; by apply DbRel_uncounted].
  within_rule; [apply _|]. within_rule; [apply _|]. destruct (TxFromContext ctx); [|apply _].
  apply within_stmt; [apply _|]. intros d [] d' [= <-].
  apply (conf_append (pool:=pool) (K:=K)). split; simpl; congruence.
Qed.
Lemma within_enqueue ctx ty t s a d : describes ty t s d → Within (DbRel R) (enqueue ctx ty t s a d).
Proof.
  intros Hd. unfold enqueue. repeat first [within_rule | by apply within_EnqueueCtx | apply _].
Qed.

Lemma within_withPool_other {A} pool' ctx (fn : Tx → M A) :
  (∀ tx, Within (DbRel R) (fn tx)) → Within (DbRel R) (withPool ctx pool' fn).
Proof. intros Hfn. apply within_withPool; [apply _..|auto]. Qed.

Lemma within_IsProcessed pool' ctx c i : Within (DbRel R) (ProcessedEvents.IsProcessed pool' ctx c i).
Proof. apply within_withPool_other. intros tx. apply within_query. apply _. Qed.
Lemma within_MarkProcessed pool' ctx c i : Within (DbRel R) (ProcessedEvents.MarkProcessed pool' ctx c i).
Proof.
  apply within_withPool_other. intros tx. apply within_stmt_other. intros d [] d' [= <-].
  by destruct (db_processed d !! (i, c)).
Qed.
Lemma within_Prune pool' ctx ttl l : Within (DbRel R) (ProcessedEvents.Prune pool' ctx ttl l).
Proof. apply within_withPool_other. intros tx. apply within_stmt_other. by intros d n d' [= <- <-]. Qed.
Lemma within_CountActive pool' ctx : Within (DbRel R) (Gauge.CountActiveByTenant pool' ctx).
Proof.
  apply within_wrap_conn. within_rule; [apply within_db_step; apply _|]. apply within_query. apply _.
Qed.
End other_tables.

(** ** The two confinements *)

(** Whatever the context, the tables grow. *)
Definition any_ctx (ctx : Ctx) : Prop := True.
#[export] Instance confined_grows `{E : Env} `{U : UuidLib} `{!LawfulOthers E} pool : Confined pool any_ctx grows.
Proof.
  split.
  - unfold grows. apply _.
  - apply _.
  - intros d d' Hd Hs _ [Hr Hset]. split; [split; by rewrite ?Hd, ?Hs|].
    intros k a Ha. left. exists a. rewrite Hd. split; [done|reflexivity].
  - intros e d _ [Hr Hset]. split; [by split|]. intros k a Ha. left. exists a. split; [done|reflexivity].
  - intros ctx tx d d' _ _. apply lawful_grows.
  - done.
Qed.

(** Whatever the context, the outbox only gains events, and proper ones. *)
Definition announced `{E : Env} `{U : UuidLib} (d d' : Db) : Prop :=
  ∃ es, db_outbox d' = (db_outbox d ++ es)%list ∧ Forall event_ok es.
Definition announcing `{E : Env} `{U : UuidLib} : relation Db := under_inv announced.
#[export] Instance announced_preorder `{E : Env} `{U : UuidLib} : PreOrder announced.
Proof.
  split.
  - intros d. exists []. split; [by rewrite app_nil_r|constructor].
  - intros d1 d2 d3 (es1 & H1 & Hok1) (es2 & H2 & Hok2). exists (es1 ++ es2)%list.
    split; [by rewrite H2, H1, <- app_assoc|by apply Forall_app].
Qed.
#[export] Instance confined_announcing `{E : Env} `{U : UuidLib} `{!OthersWithin E announcing} pool : Confined pool any_ctx announcing.
Proof.
  split.
  - unfold announcing. apply _.
  - apply _.
  - intros d d' Hd Hs Ho [Hr Hset]. split; [split; by rewrite ?Hd, ?Hs|].
    exists []. by rewrite app_nil_r.
  - intros e d He [Hr Hset]. split; [by split|]. exists [e]. split; [done|by apply Forall_singleton].
  - intros ctx tx d d' _ _ Hl Hd. destruct (Hl Hd) as [? [_ _ Ho]]. split; [done|].
    exists []. by rewrite app_nil_r.
  - done.
Qed.

(** The context acts for tenant [o], or for none: what its transaction, or the
    transaction it would open, has as [app_tenant_id()]. *)
Definition acts_for `{UuidLib} (o : option uuid) (ctx : Ctx) : Prop :=
  match ctx_tx ctx with
  | Some tx => tx_role tx = AppRole ∧ tx_tenant tx = o
  | None => app_tenant_id (guc_TenantID (ctx_guc ctx)) = o
  end.
Lemma acts_for_tx `{UuidLib} o ctx tx :
  acts_for o ctx → eff_tx AppRole ctx tx → tx_role tx = AppRole ∧ tx_tenant tx = o.
Proof.
  unfold acts_for, eff_tx, tx_for. destruct (ctx_tx ctx); [by intros ? ->|]. by intros -> [? ?].
Qed.

Lemma confined_spares `{E : Env} `{U : UuidLib} o t `{!OthersWithin E (spares t)} : o ≠ Some t → Confined AppRole (acts_for o) (spares t).
Proof.
  intros Hne. split.
  - unfold spares. apply _.
  - apply _.
  - intros d d' Hd Hs _ [Hr Hset]. split; [split; by rewrite ?Hd, ?Hs|].
    split; [by rewrite Hd|by rewrite Hs].
  - intros e d _ [Hr Hset]. split; [by split|]. by split.
  - intros ctx tx d d' HK Htx. apply lawful_spares.
    destruct (acts_for_tx o ctx tx HK Htx) as [Hr Ht]. unfold rls_check_tenant. rewrite Hr, Ht.
    by apply bool_decide_eq_false.
  - intros ctx ctx' tx HK Htx Hb. unfold acts_for. rewrite Hb. by eapply acts_for_tx.
Qed.

(** Binding a tenant makes a context act for it; a fresh context acts for none. *)
Lemma acts_for_bound `{U : UuidLib} `{!UuidLaws U} ctx t user :
  ctx_tx ctx = None → acts_for (Some t) (WithTenantGUC ctx t user).
Proof.
  intros Htx. unfold acts_for. simpl. rewrite Htx. unfold app_tenant_id.
  rewrite bool_decide_false; [|apply uuid_string_nonempty]. apply uuid_cast_string.
Qed.
Lemma acts_for_background `{U : UuidLib} : acts_for None background.
Proof. done. Qed.
