(* ===== verification/DelegationService.v ===== *)
(** * delegation_service.go: create, list, cancel, extend, reassign

    The use cases over the ports.  A collaborator the code allows to be nil is
    an [option].  [Create] is split where its phases are: claiming the
    idempotency key, the checks, the availability call, the transaction, and
    what follows the commit; the deferred [Release] wraps everything after the
    claim. *)
From S2P Require Import Prelude GoLib Domain World Store EventBus.
Local Open Scope Z_scope.

Definition skewTolerance : Duration := 5 * Second.
Definition maxFutureStart : Duration := 365 * 24 * Hour.

Record DelegationService := mkDelegationService {
  delegations : DelegationRepository;
  settings : SettingsRepository;
  membershipCheck : MembershipCheckClient;
  userProfile : UserProfileClient;
  catalogAdmin : option CatalogAdminClient;
  idempotency : option IdempotencyStore;
  cache : option Cache;
  txRunner : TxRunner;
  metrics : option Metrics;
}.

Record CreateInput := mkCreateInput {
  ci_DelegateID : uuid;
  ci_Scope : string;
  ci_ScopeID : option uuid;
  ci_Reason : string;
  ci_StartsAt : option Time;
  ci_EndsAt : option Time;
}.

Record ReassignInput := mkReassignInput {
  ri_NewDelegateID : option uuid;
  ri_Scope : option string;
  ri_ScopeID : option uuid;
  ri_ScopeIDSet : bool;
  ri_EndsAt : option Time;
  ri_EndsAtProvided : bool;
  ri_Reason : option string;
}.

(** A dereference of a nil pointer panics; the theorems show it is not reached. *)
Definition nil_dereference : goerror :=
  EPlain "runtime error: invalid memory address or nil pointer dereference".

Definition validateCreateInput (delegatorID : uuid) (req : CreateInput) : result goerror unit :=
  let scope : DelegationScope := ci_Scope req in
  if bool_decide (delegatorID = ci_DelegateID req)
  then Err (NewError ErrSelfDelegation "cannot delegate to yourself")
  else if bool_decide (scope ≠ ScopeAll) && bool_decide (scope ≠ ScopeDepartment) && bool_decide (scope ≠ ScopeTender)
  then Err (NewError ErrInvalidDelegationScope "invalid scope")
  else if bool_decide (scope ≠ ScopeAll) && bool_decide (ci_ScopeID req = None)
  then Err (NewError ErrScopeIDRequired "scope_id is required for department/tender scope")
  else if bool_decide (scope = ScopeAll) && bool_decide (ci_ScopeID req ≠ None)
  then Err (NewError ErrInvalidScopeID "scope_id must be omitted when scope is all")
  else if 500 <? Utf8.RuneCountInString (ci_Reason req)
  then Err (NewError ErrReasonTooLong "reason must not exceed 500 characters")
  else Ok tt.

Section service.
Context `{Env} `{UuidLib}.
Context (s : DelegationService).

Definition List (ctx : Ctx) (tenantID delegatorID : uuid) : M (list Delegation) :=
  cached ← match cache s with
           | Some c => cache_GetDelegatorList c ctx tenantID delegatorID
           | None => mret None
           end;
  match cached with
  | Some l => mret l
  | None =>
      list ← repo_ListByDelegator (delegations s) ctx tenantID delegatorID;
      _ ← when_some (cache s) (λ c, cache_SetDelegatorList c ctx tenantID delegatorID list);
      mret list
  end.

(** *** Create: the idempotency key *)
Inductive claim :=
| Replayed (existing : Delegation)
| Proceed (reserved : bool).

Definition in_flight : goerror :=
  NewError ErrIdempotencyKeyInFlight "a request with this idempotency key is already in progress".

Definition claimIdempotencyKey (ctx : Ctx) (tenantID : uuid) (idempotencyKey : string) : M claim :=
  match (if bool_decide (idempotencyKey = EmptyString) then None else idempotency s) with
  | None => mret (Proceed false)
  | Some store =>
      let reserve : M claim :=
        reserved ← try (idem_Reserve store ctx tenantID idempotencyKey);
        match reserved with
        | Ok true => mret (Proceed true)
        | Ok false => throw in_flight
        | Err _ => mret (Proceed false)
        end in
      found ← try (idem_Get store ctx tenantID idempotencyKey);
      match found with
      | Ok (Some rec) =>
          if bool_decide (ir_Status rec = "created"%string)
          then existing ← try (repo_FindByID (delegations s) ctx tenantID (ir_DelegationID rec));
               match existing with
               | Ok d => _ ← when_some (metrics s) m_RecordIdempotencyHit; mret (Replayed d)
               | Err _ => reserve
               end
          else throw in_flight
      | _ => reserve
      end
  end.

(** *** Create: the checks *)
Definition checkDepartment (ctx : Ctx) (req : CreateInput) : M unit :=
  match ci_ScopeID req, catalogAdmin s with
  | Some scopeID, Some ca =>
      if bool_decide (ci_Scope req = ScopeDepartment)
      then r ← try (ca_DepartmentActive ca ctx scopeID);
           match r with
           | Err _ => throw (NewError ErrCatalogAdminUnavailable "catalog admin service is unavailable")
           | Ok (exists_, active) =>
               if negb exists_ || negb active
               then throw (NewError ErrInvalidScopeID "scope_id does not reference an active department in the catalog")
               else mret tt
           end
      else mret tt
  | _, _ => mret tt
  end.

Definition startOf (now : Time) (req : CreateInput) : Time := default now (ci_StartsAt req).

Definition checkWindow (now : Time) (req : CreateInput) : result goerror unit :=
  let starts := startOf now req in
  if bool_decide (ci_StartsAt req ≠ None) && Before starts (Add now (- skewTolerance))
  then Err (NewError ErrDelegationStartInPast "starts_at must not be in the past")
  else if bool_decide (ci_StartsAt req ≠ None) && After starts (Add now maxFutureStart)
  then Err (NewError ErrDelegationStartTooFarFuture "starts_at must be within 1 year from now")
  else match ci_EndsAt req with
       | Some e => if negb (After e starts)
                   then Err (NewError ErrDelegationWindowInverted "ends_at must be after starts_at")
                   else Ok tt
       | None => Ok tt
       end.

Definition checkSpan (starts : Time) (maxDurationDays : Z) (req : CreateInput) : result goerror unit :=
  match ci_EndsAt req with
  | Some e =>
      if Days maxDurationDays <? Sub e starts
      then Err (EDomain (WithDetails
             (NewErrorValue ErrDelegationWindowTooLong "delegation span exceeds the tenant's max_duration_days")
             {["max_duration_days"%string := maxDurationDays]}))
      else Ok tt
  | None => Ok tt
  end.

Definition checkBothMemberships (ctx : Ctx) (tenantID delegatorID delegateID : uuid) : M (uuid * uuid) :=
  rs ← concurrently (mc_Exists (membershipCheck s) ctx tenantID delegatorID)
                    (mc_Exists (membershipCheck s) ctx tenantID delegateID);
  match rs with
  | (Ok (active1, id1), Ok (active2, id2)) =>
      if negb active1 || negb active2
      then throw (NewError ErrInvalidDelegate "delegator or delegate is not an active member")
      else mret (id1, id2)
  | _ => throw (NewError ErrOrgMembershipUnavailable "membership check unavailable")
  end.

(** [starts.After(now)]: deferred to the activation job. *)
Definition isScheduled (now starts : Time) : bool := After starts now.

Definition checkDelegateAvailable (ctx : Ctx) (tenantID delegateID : uuid) (now starts : Time) : M unit :=
  r ← try (up_GetAvailability (userProfile s) ctx tenantID delegateID);
  match r with
  | Err _ =>
      _ ← when_some (metrics s) (λ m, m_RecordUPAvailabilityFailure m "create");
      throw (NewError ErrUserProfileUnavailable "user profile unavailable")
  | Ok snap =>
      if bool_decide (av_Status snap = "ooo"%string)
         && (negb (isScheduled now starts)
             || match av_OOOUntil snap with Some u => After u starts | None => false end)
      then throw (NewError ErrDelegateUnavailable "delegate is currently unavailable (OOO)")
      else mret tt
  end.

Definition reviewDueAt (starts : Time) (reviewWindowDays : Z) (req : CreateInput) : option Time :=
  match ci_EndsAt req with
  | None => Some (Add starts (Days reviewWindowDays))
  | Some _ => None
  end.

(** *** Create: availability first *)
Definition setOutOfOffice (ctx : Ctx) (tenantID delegatorID : uuid) (now starts : Time)
    (review : option Time) (req : CreateInput) : M unit :=
  let oooFrom := if Before starts now then now else starts in
  let oooUntil := match ci_EndsAt req with Some e => Some e | None => review end in
  r ← try (up_SetAvailability (userProfile s) ctx
        (mkSetAvailability tenantID delegatorID (Some "ooo"%string) (Some oooFrom) oooUntil
           (Some (ci_DelegateID req)) (ci_Reason req)));
  match r with
  | Ok _ => mret tt
  | Err e =>
      _ ← when_some (metrics s) (λ m, m_RecordUPAvailabilityFailure m "create");
      if is_dependency_unavailable e
      then throw (NewError ErrUserProfileUnavailable "user profile unavailable")
      else throw (NewError ErrInvalidDelegate "delegate validation failed via user profile")
  end.

(** *** Create: the transaction *)
Definition newDelegation (tenantID delegatorID : uuid) (req : CreateInput) (memberships : uuid * uuid)
    (starts : Time) (scheduled : bool) (review : option Time) (reviewWindowDays : Z) : Delegation :=
  mkDelegation uuid_Nil tenantID delegatorID (ci_DelegateID req) (fst memberships) (snd memberships)
    (ci_Scope req) (ci_ScopeID req) (ci_Reason req) starts (ci_EndsAt req)
    (if scheduled then DelegationScheduled else DelegationActive)
    0 ZeroTime ZeroTime None review None (Some reviewWindowDays).

Definition startedPayload (tenantID delegatorID id : uuid) (req : CreateInput) (starts : Time) : EventData :=
  Started {| sp_DelegationID := id; sp_TenantID := tenantID; sp_DelegatorID := delegatorID;
             sp_DelegateID := ci_DelegateID req; sp_Scope := ci_Scope req; sp_ScopeID := ci_ScopeID req;
             sp_StartsAt := starts; sp_EndsAt := ci_EndsAt req; sp_ActorID := delegatorID |}.

Definition insertAndAnnounce (tenantID delegatorID : uuid) (req : CreateInput) (starts : Time)
    (scheduled : bool) (row : Delegation) (txCtx : Ctx) (created : option Delegation)
    : M (option Delegation) :=
  out ← repo_Insert (delegations s) txCtx row;
  if scheduled : bool then mret (Some out)
  else _ ← enqueue txCtx EventDelegationStarted tenantID (uuid_String (ID out)) (uuid_String delegatorID)
             (startedPayload tenantID delegatorID (ID out) req starts);
       mret (Some out).

(** *** Create: after the commit *)
Definition afterCreate (ctx : Ctx) (tenantID delegatorID : uuid) (idempotencyKey : string)
    (created : Delegation) : M Delegation :=
  _ ← (if bool_decide (idempotencyKey = EmptyString) then mret tt
       else when_some (idempotency s) (λ store,
         _ ← try (idem_Save store ctx tenantID idempotencyKey (mkIdem (ID created) "created")); mret tt));
  _ ← when_some (cache s) (λ c, cache_InvalidateDelegatorList c ctx tenantID delegatorID);
  _ ← when_some (metrics s) (λ m, m_RecordCreated m (Scope created));
  mret created.

Definition persist (ctx : Ctx) (tenantID delegatorID : uuid) (idempotencyKey : string) (req : CreateInput)
    (starts : Time) (scheduled : bool) (row : Delegation) : M Delegation :=
  r ← try (tx_RunInTx (txRunner s) ctx None
             (insertAndAnnounce tenantID delegatorID req starts scheduled row));
  match r with
  | Err e =>
      _ ← (if scheduled : bool then mret tt
           else _ ← try (up_ClearDelegatePointer (userProfile s) ctx tenantID delegatorID); mret tt);
      throw e
  | Ok None => throw nil_dereference
  | Ok (Some created) => afterCreate ctx tenantID delegatorID idempotencyKey created
  end.

Definition createClaimed (ctx : Ctx) (tenantID delegatorID : uuid) (idempotencyKey : string)
    (req : CreateInput) : M Delegation :=
  _ ← of_result (validateCreateInput delegatorID req);
  _ ← checkDepartment ctx req;
  now ← time_Now;
  let starts := startOf now req in
  _ ← of_result (checkWindow now req);
  policy ← settings_Get (settings s) ctx tenantID;
  _ ← of_result (checkSpan starts (MaxDurationDays policy) req);
  memberships ← checkBothMemberships ctx tenantID delegatorID (ci_DelegateID req);
  let scheduled := isScheduled now starts in
  _ ← checkDelegateAvailable ctx tenantID (ci_DelegateID req) now starts;
  let review := reviewDueAt starts (ts_ReviewWindowDays policy) req in
  _ ← (if scheduled then mret tt else setOutOfOffice ctx tenantID delegatorID now starts review req);
  persist ctx tenantID delegatorID idempotencyKey req starts scheduled
    (newDelegation tenantID delegatorID req memberships starts scheduled review (ts_ReviewWindowDays policy)).

Definition Create (ctx : Ctx) (tenantID delegatorID : uuid) (idempotencyKey : string)
    (req : CreateInput) : M Delegation :=
  c ← claimIdempotencyKey ctx tenantID idempotencyKey;
  match c with
  | Replayed existing => mret existing
  | Proceed reserved =>
      r ← try (createClaimed ctx tenantID delegatorID idempotencyKey req);
      _ ← match r, reserved, idempotency s with
          | Err _, true, Some store => _ ← try (idem_Release store ctx tenantID idempotencyKey); mret tt
          | _, _, _ => mret tt
          end;
      of_result r
  end.

(** *** Cancel, Extend, Reassign *)
Definition endedPayload (tenantID id : uuid) (d : Delegation) (reason : EndReason) (actorID : uuid) : EventData :=
  Ended {| ep_DelegationID := id; ep_TenantID := tenantID; ep_DelegatorID := DelegatorID d;
           ep_DelegateID := DelegateID d; ep_Scope := Scope d; ep_ScopeID := ScopeID d;
           ep_EndedReason := reason; ep_ActorID := actorID |}.

(** The actor of a cancellation: the caller when its id is a UUID. *)
Definition cancelActor (ctx : Ctx) (d : Delegation) : uuid :=
  match FromContext ctx with
  | Some rc => default (DelegatorID d) (uuid_Parse (requestctx.UserID rc))
  | None => DelegatorID d
  end.

Definition endAndAnnounce (tenantID id : uuid) (d : Delegation) (expectedVersion : Z) (endReason : EndReason)
    (actorID : uuid) (txCtx : Ctx) (ended : option Delegation) : M (option Delegation) :=
  out ← repo_End (delegations s) txCtx tenantID id DelegationCancelled expectedVersion;
  _ ← enqueue txCtx EventDelegationEnded tenantID (uuid_String id) (uuid_String (DelegatorID d))
        (endedPayload tenantID id d endReason actorID);
  mret (Some out).

(** A failed best-effort call to User Profile only shows in the metrics. *)
Definition best_effort (path : string) (m : M unit) : M unit :=
  r ← try m;
  match r with
  | Err _ => when_some (metrics s) (λ mt, m_RecordUPAvailabilityFailure mt path)
  | Ok _ => mret tt
  end.

Definition cancelInternal (ctx : Ctx) (tenantID id : uuid) (expectedVersion : Z) (endReason : EndReason)
    : M Delegation :=
  d ← repo_FindByID (delegations s) ctx tenantID id;
  _ ← best_effort "cancel" (up_ClearDelegatePointer (userProfile s) ctx tenantID (DelegatorID d));
  let actorID := cancelActor ctx d in
  r ← tx_RunInTx (txRunner s) ctx None (endAndAnnounce tenantID id d expectedVersion endReason actorID);
  _ ← when_some (cache s) (λ c, cache_InvalidateDelegatorList c ctx tenantID (DelegatorID d));
  _ ← when_some (metrics s) (λ m, m_RecordEnded m EndReasonCancelled);
  match r with
  | Some ended => mret ended
  | None => throw nil_dereference
  end.

Definition Cancel (ctx : Ctx) (tenantID id : uuid) (expectedVersion : Z) : M Delegation :=
  cancelInternal ctx tenantID id expectedVersion EndReasonCancelled.

Definition extendWindow (extendDays : option Z) (d : Delegation) (tenantDefault : Z) : Z :=
  match extendDays with
  | Some n => n
  | None => default tenantDefault (ReviewWindowDays d)
  end.

Definition Extend (ctx : Ctx) (tenantID id : uuid) (extendDays : option Z) (expectedVersion : Z)
    : M Delegation :=
  if match extendDays with Some n => (n <? PolicyDaysMin) || (PolicyDaysMax <? n) | None => false end
  then throw (NewError ErrExtendDaysOutOfRange "extend_days must be between 1 and 180")
  else
    d ← repo_FindByID (delegations s) ctx tenantID id;
    if bool_decide (Status d ≠ DelegationActive)
    then throw (NewError ErrDelegationNotFound "delegation not found")
    else if bool_decide (EndsAt d ≠ None)
    then throw (NewError ErrNotReviewTracked "extend only applies to open-ended delegations")
    else
      policy ← settings_Get (settings s) ctx tenantID;
      let windowDays := extendWindow extendDays d (ts_ReviewWindowDays policy) in
      out ← repo_ExtendReview (delegations s) ctx tenantID id windowDays expectedVersion;
      _ ← when_some (cache s) (λ c, cache_InvalidateDelegatorList c ctx tenantID (DelegatorID out));
      _ ← best_effort "extend" (up_SetAvailability (userProfile s) ctx
            (mkSetAvailability tenantID (DelegatorID out) (Some "ooo"%string) (Some (StartsAt out))
               (ReviewDueAt out) (Some (DelegateID out)) (Reason out)));
      mret out.

Definition reassignInput (existing : Delegation) (req : ReassignInput) : CreateInput :=
  mkCreateInput
    (default (DelegateID existing) (ri_NewDelegateID req))
    (default (Scope existing) (ri_Scope req))
    (if ri_ScopeIDSet req then ri_ScopeID req else ScopeID existing)
    (default (Reason existing) (ri_Reason req))
    None
    (if ri_EndsAtProvided req then ri_EndsAt req else EndsAt existing).

Definition Reassign (ctx : Ctx) (tenantID id : uuid) (expectedVersion : Z) (req : ReassignInput)
    : M Delegation :=
  existing ← repo_FindByID (delegations s) ctx tenantID id;
  if bool_decide (Status existing ≠ DelegationActive)
  then throw (NewError ErrDelegationNotFound "delegation not found")
  else
    _ ← cancelInternal ctx tenantID id expectedVersion EndReasonReassigned;
    Create ctx tenantID (DelegatorID existing) "" (reassignInput existing req).
End service.
