(* ===== verification/CascadeService.v ===== *)
(** * cascade_service.go and settings_service.go

    The reactions to membership removal, tenant offboarding and delegate
    disablement, and the tenant policy. *)
From S2P Require Import Prelude GoLib Domain World Store EventBus.
Local Open Scope Z_scope.

Module Cascade.
Record CascadeService := mkCascadeService {
  delegations : DelegationRepository;
  settings : SettingsRepository;
  userProfile : UserProfileClient;
  txRunner : TxRunner;
  metrics : option Metrics;
}.

Section service.
Context `{Env} `{UuidLib}.
Context (s : CascadeService).

Definition removedPayload (tenantID : uuid) (reason : EndReason) (d : Delegation) : EventData :=
  Ended {| ep_DelegationID := ID d; ep_TenantID := tenantID; ep_DelegatorID := DelegatorID d;
           ep_DelegateID := DelegateID d; ep_Scope := Scope d; ep_ScopeID := ScopeID d;
           ep_EndedReason := reason; ep_ActorID := SystemActorID |}.
Definition escalationPayload (tenantID : uuid) (d : Delegation) : EventData :=
  EscalationRequested {| xp_DelegationID := ID d; xp_TenantID := tenantID; xp_DelegatorID := DelegatorID d;
           xp_DelegateID := DelegateID d; xp_Scope := Scope d; xp_ScopeID := ScopeID d;
           xp_Reason := EndReasonDelegateDisabled; xp_ActorID := SystemActorID |}.

Definition announceRemoved (txCtx : Ctx) (tenantID userID : uuid) (d : Delegation) : M unit :=
  if bool_decide (DelegateID d ≠ userID) then mret tt
  else enqueue txCtx EventDelegationEnded tenantID (uuid_String (ID d)) "iam-system"
         (removedPayload tenantID EndReasonDelegateRemoved d).

Definition clearPointerOf (ctx : Ctx) (tenantID userID : uuid) (d : Delegation) : M unit :=
  if bool_decide (DelegatorID d = userID) then mret tt
  else r ← try (up_ClearDelegatePointer (userProfile s) ctx tenantID (DelegatorID d));
       match r with
       | Err _ => when_some (metrics s) (λ m, m_RecordUPAvailabilityFailure m "cascade")
       | Ok _ => mret tt
       end.

Definition EndForUser (ctx : Ctx) (tenantID userID : uuid) : M unit :=
  ended ← tx_RunInTx (txRunner s) ctx [] (λ txCtx _,
    rows ← repo_EndForUser (delegations s) txCtx tenantID userID;
    _ ← for_each rows (announceRemoved txCtx tenantID userID);
    mret rows);
  _ ← for_each ended (clearPointerOf ctx tenantID userID);
  when_some (metrics s) (λ m, for_each ended (λ d,
    if bool_decide (DelegateID d = userID) then m_RecordEnded m EndReasonDelegateRemoved else mret tt)).

Definition announceDisabled (txCtx : Ctx) (tenantID : uuid) (d : Delegation) : M unit :=
  _ ← enqueue txCtx EventDelegationEnded tenantID (uuid_String (ID d)) "iam-system"
        (removedPayload tenantID EndReasonDelegateDisabled d);
  enqueue txCtx EventDelegationEscalationRequested tenantID (uuid_String (ID d)) "iam-system"
    (escalationPayload tenantID d).

Definition EndForDisabledDelegate (ctx : Ctx) (tenantID delegateID : uuid) : M unit :=
  n ← tx_RunInTx (txRunner s) ctx 0%nat (λ txCtx _,
    rows ← repo_EndForDisabledDelegate (delegations s) txCtx tenantID delegateID;
    _ ← for_each rows (announceDisabled txCtx tenantID);
    mret (length rows));
  when_some (metrics s) (λ m, for_each (replicate n tt) (λ _, m_RecordEnded m EndReasonDelegateDisabled)).

Definition ScrubTenant (ctx : Ctx) (tenantID : uuid) : M unit :=
  tx_RunInTx (txRunner s) ctx tt (λ txCtx _,
    _ ← repo_SoftDeleteTenant (delegations s) txCtx tenantID;
    settings_SoftDeleteTenant (settings s) txCtx tenantID).
End service.
End Cascade.

Module Settings.
Section service.
Context (settings : SettingsRepository).

Definition Get (ctx : Ctx) (tenantID : uuid) : M DelegationTenantSettings :=
  settings_Get settings ctx tenantID.

Definition in_policy (n : Z) : bool := negb ((n <? PolicyDaysMin) || (PolicyDaysMax <? n)).

Definition Set_ (ctx : Ctx) (tenantID : uuid) (maxDurationDays reviewWindowDays : Z)
    : M DelegationTenantSettings :=
  if negb (in_policy maxDurationDays)
  then throw (NewError ErrInvalidDelegationMaxDurationDays "max_duration_days must be between 1 and 180")
  else if negb (in_policy reviewWindowDays)
  then throw (NewError ErrInvalidDelegationReviewWindow "review_window_days must be between 1 and 180")
  else settings_Upsert settings ctx tenantID maxDurationDays reviewWindowDays.
End service.
End Settings.
