(* ===== verification/Consumer.v ===== *)
(** * Package [internal/adapter/inbound/consumer]: the cascade queue

    [Handle] is called once per SQS delivery.  Returning nil acknowledges the
    message, returning an error leaves it for redelivery and, in the end, for the
    dead-letter queue. *)
From S2P Require Import Prelude GoLib Domain World Store MetricsRec.
Local Open Scope Z_scope.
Local Open Scope string_scope.

Definition consumerCascade : string := "cascade".
Definition consumerOffboarding : string := "offboarding".
Definition consumerDelegateDisable : string := "delegate_disable".
Definition cascadeQueueName : string := "delegation-cascade-q".
Definition systemPrincipal : string := "iam-system".

(** The slices of the cascade service and of the dedup ledger it uses. *)
Record cascadeService := {
  cs_EndForUser : Ctx → uuid → uuid → M unit;
  cs_ScrubTenant : Ctx → uuid → M unit;
  cs_EndForDisabledDelegate : Ctx → uuid → uuid → M unit;
}.
Record idempotencyStore := {
  is_IsProcessed : Ctx → string → string → M bool;
  is_MarkProcessed : Ctx → string → string → M unit;
}.

Record CascadeConsumer := mkCascadeConsumer {
  cascade : cascadeService;
  dedup : idempotencyStore;
  bindGUC : Ctx → uuid → string → Ctx;
  tx : option TxRunner;
  validate : option (string → json → result goerror unit);
}.

Section consumer.
Context `{Env} `{UuidLib}.

(** [if metrics.Live != nil] *)
Definition live (m : M unit) : M unit := if env_metrics_live then m else mret tt.
(** [fmt.Errorf("msg: %w", err)] around a failing call. *)
Definition wrapping {A} (msg : string) (m : M A) : M A :=
  r ← try m;
  match r with Ok a => mret a | Err e => throw (EWrap msg e) end.

(** *** dedup.go *)
Definition skipDuplicate (ctx : Ctx) (store : idempotencyStore) (consumer eventID : string) : M bool :=
  processed ← is_IsProcessed store ctx consumer eventID;
  if processed : bool
  then _ ← live (RecordProcessedEventsDuplicate consumer); mret true
  else mret false.

Definition markProcessedInTx (ctx : Ctx) (runner : option TxRunner) (store : idempotencyStore)
    (consumer eventID : string) : M unit :=
  match runner with
  | None => wrapping "mark processed" (is_MarkProcessed store ctx consumer eventID)
  | Some r => tx_RunInTx r ctx tt (λ txCtx _,
                wrapping "mark processed" (is_MarkProcessed store txCtx consumer eventID))
  end.

Definition ackUnknown (ctx : Ctx) (runner : option TxRunner) (store : idempotencyStore) (consumer : string)
    (env : Envelope json) : M unit :=
  _ ← live (RecordUnknownEventAcknowledged consumer (env_Type env));
  markProcessedInTx ctx runner store consumer (env_ID env).

(** *** cascade_consumer.go *)
Context (c : CascadeConsumer).

Definition dispatched (t : string) : bool :=
  bool_decide (t ∈ [EventMembershipRevoked; EventTenantMembershipsPurged; EventUserUpdated]).

Definition validatePayload (env : Envelope json) : M unit :=
  match validate c with
  | None => mret tt
  | Some v =>
      if negb (dispatched (env_Type env)) then mret tt
      else match v (env_Type env) (env_Payload env) with
           | Ok _ => mret tt
           | Err e =>
               _ ← live RecordCascadeDLQ;
               throw (EWrap ("cascadeconsumer: event " ++ env_ID env) e)
           end
  end.

Definition runCascadeAndMark (ctx : Ctx) (consumerName eventID : string) (fn : Ctx → M unit) : M unit :=
  let mark ctx := wrapping ("cascadeconsumer: mark event " ++ eventID ++ " processed")
                           (is_MarkProcessed (dedup c) ctx consumerName eventID) in
  match tx c with
  | None => _ ← fn ctx; mark ctx
  | Some r => tx_RunInTx r ctx tt (λ txCtx _, _ ← fn txCtx; mark txCtx)
  end.

Definition decode_failed (what : string) (env : Envelope json) : goerror :=
  EWrap ("cascadeconsumer: decode " ++ what ++ " payload for event " ++ env_ID env) (EPlain "json").

Definition handleMembershipRevoked (ctx : Ctx) (env : Envelope json) (consumerName eventID : string) : M unit :=
  match unmarshal_MembershipRevoked (env_Payload env) with
  | None => throw (decode_failed "MembershipRevoked" env)
  | Some p =>
      runCascadeAndMark (bindGUC c ctx (mr_TenantID p) systemPrincipal) consumerName eventID (λ txCtx,
        wrapping "cascadeconsumer: EndForUser" (cs_EndForUser (cascade c) txCtx (mr_TenantID p) (mr_UserID p)))
  end.

Definition handleTenantMembershipsPurged (ctx : Ctx) (env : Envelope json) (consumerName eventID : string) : M unit :=
  match unmarshal_TenantMembershipsPurged (env_Payload env) with
  | None => throw (decode_failed "TenantMembershipsPurged" env)
  | Some p =>
      runCascadeAndMark (bindGUC c ctx (tp_TenantID p) systemPrincipal) consumerName eventID (λ txCtx,
        wrapping "cascadeconsumer: ScrubTenant" (cs_ScrubTenant (cascade c) txCtx (tp_TenantID p)))
  end.

(** [None]: the payload does not decode. *)
Definition isUserUpdatedDisabled (env : Envelope json) : option bool :=
  (λ p, bool_decide (uu_Status p = Some "disabled")) <$> unmarshal_UserUpdated (env_Payload env).

Definition handleUserDisabled (ctx : Ctx) (env : Envelope json) (consumerName eventID : string) : M unit :=
  match unmarshal_UserUpdated (env_Payload env) with
  | None => throw (decode_failed "UserUpdated" env)
  | Some p =>
      match uuid_Parse (env_TenantID env) with
      | None => throw (EWrap ("cascadeconsumer: envelope has invalid tenant_id for event " ++ env_ID env)
                         (EPlain "invalid UUID"))
      | Some tenantID =>
          runCascadeAndMark (bindGUC c ctx tenantID systemPrincipal) consumerName eventID (λ txCtx,
            wrapping "cascadeconsumer: EndForDisabledDelegate"
              (cs_EndForDisabledDelegate (cascade c) txCtx tenantID (uu_UserID p)))
      end
  end.

Definition check_failed (eventID : string) : string :=
  "cascadeconsumer: check idempotency for event " ++ eventID.

(** The second half of [Handle]: dedup, dispatch, count the outcome. *)
Definition runHandler (ctx : Ctx) (consumerName eventID : string) (handler : string → string → M unit) : M unit :=
  skip ← wrapping (check_failed eventID) (skipDuplicate ctx (dedup c) consumerName eventID);
  if skip : bool then mret tt
  else
    r ← try (handler consumerName eventID);
    match r with
    | Err e => _ ← live RecordCascadeDLQ; throw e
    | Ok _ => live RecordCascadeProcessed
    end.

(** A [UserUpdated] that disables nobody: recorded, not dispatched. *)
Definition ackFiltered (ctx : Ctx) (eventID : string) : M unit :=
  skip ← wrapping (check_failed eventID) (skipDuplicate ctx (dedup c) consumerDelegateDisable eventID);
  if skip : bool then mret tt
  else wrapping ("cascadeconsumer: mark event " ++ eventID ++ " processed")
         (markProcessedInTx ctx (tx c) (dedup c) consumerDelegateDisable eventID).

Definition Handle (ctx : Ctx) (env : Envelope json) : M unit :=
  _ ← live (RecordMessageReceived cascadeQueueName);
  match uuid_Parse (env_ID env) with
  | None => mret tt
  | Some eventID =>
      if bool_decide (eventID = uuid_Nil) then mret tt
      else
        let id := uuid_String eventID in
        _ ← validatePayload env;
        if bool_decide (env_Type env = EventMembershipRevoked)
        then runHandler ctx consumerCascade id (handleMembershipRevoked ctx env)
        else if bool_decide (env_Type env = EventTenantMembershipsPurged)
        then runHandler ctx consumerOffboarding id (handleTenantMembershipsPurged ctx env)
        else if bool_decide (env_Type env = EventUserUpdated)
        then match isUserUpdatedDisabled env with
             | None => throw (decode_failed "UserUpdated" env)
             | Some false => ackFiltered ctx id
             | Some true => runHandler ctx consumerDelegateDisable id (handleUserDisabled ctx env)
             end
        else wrapping "cascadeconsumer" (ackUnknown ctx (tx c) (dedup c) consumerCascade env)
  end.
End consumer.
