(* ===== verification/Jobs.v ===== *)
(** * Package [cmd/reconciler/jobs]: expiry, activation, review, cleanup

    The four cron jobs over the same ports as the service.  The finders read
    through a repository on the BYPASSRLS pool; the writes run in a transaction
    of the application pool with the row's tenant bound. *)
From S2P Require Import Prelude GoLib Domain World Store EventBus.
Local Open Scope Z_scope.

Record JobMetrics := {
  jm_RecordExpiryDeferred : M unit;
  jm_RecordActivationDeferred : M unit;
  jm_RecordReviewDeferred : M unit;
  jm_RecordReviewWarned : string → M unit;
  jm_RecordReviewExpired : M unit;
  jm_RecordEnded : string → M unit;
  jm_RecordUPAvailabilityFailure : string → M unit;
}.

Record JobContext := mkJobContext {
  Delegations : DelegationRepository;
  UserProfile : UserProfileClient;
  JobTxRunner : TxRunner;
  BindTenantGUC : Ctx → uuid → string → Ctx;
  BatchLimit : Z;
  RetentionDays : Z;
  ProcessedEventsPrune : option (Ctx → Z → Z → M Z);
  ProcessedEventsTTLDays : Z;
  JMetrics : option JobMetrics;
}.

(** jobs.Result *)
Record Result := mkResult {
  Attempted : Z; Succeeded : Z; Failed : Z;
  Warned3d : Z; Warned2d : Z; Warned1d : Z; Expired : Z; Deferred : Z;
  Purged : Z }.
Definition zeroResult : Result := mkResult 0 0 0 0 0 0 0 0 0.

Definition incAttempted (r : Result) : Result :=
  mkResult (Attempted r + 1) (Succeeded r) (Failed r) (Warned3d r) (Warned2d r) (Warned1d r) (Expired r) (Deferred r) (Purged r).
Definition incSucceeded (r : Result) : Result :=
  mkResult (Attempted r) (Succeeded r + 1) (Failed r) (Warned3d r) (Warned2d r) (Warned1d r) (Expired r) (Deferred r) (Purged r).
Definition incFailed (r : Result) : Result :=
  mkResult (Attempted r) (Succeeded r) (Failed r + 1) (Warned3d r) (Warned2d r) (Warned1d r) (Expired r) (Deferred r) (Purged r).
Definition incWarned (days : Z) (r : Result) : Result :=
  mkResult (Attempted r) (Succeeded r) (Failed r)
    (if days =? 3 then Warned3d r + 1 else Warned3d r)
    (if days =? 2 then Warned2d r + 1 else Warned2d r)
    (if days =? 1 then Warned1d r + 1 else Warned1d r)
    (Expired r) (Deferred r) (Purged r).
Definition incExpired (r : Result) : Result :=
  mkResult (Attempted r) (Succeeded r) (Failed r) (Warned3d r) (Warned2d r) (Warned1d r) (Expired r + 1) (Deferred r) (Purged r).
Definition incDeferred (r : Result) : Result :=
  mkResult (Attempted r) (Succeeded r) (Failed r) (Warned3d r) (Warned2d r) (Warned1d r) (Expired r) (Deferred r + 1) (Purged r).
Definition setPurged (n : Z) (r : Result) : Result :=
  mkResult (Attempted r) (Succeeded r) (Failed r) (Warned3d r) (Warned2d r) (Warned1d r) (Expired r) (Deferred r) n.

Definition defaultBatchLimit : Z := 50.
Definition defaultRetentionDays : Z := 90.
Definition defaultProcessedEventsTTLDays : Z := 30.
Definition systemUserID : string := "iam-system".

(** [computeDaysRemaining], in [float64] arithmetic. *)
Definition computeDaysRemaining (reviewDueAt : option Time) (now : Time) : Z :=
  match reviewDueAt with
  | None => 0
  | Some r =>
      let days := Float64.ceil (Float64.div (Hours (Sub r now)) (Float64.of_int 24)) in
      if days <? 1 then 1 else days
  end.

Section jobs.
Context `{Env} `{UuidLib}.
Context (jctx : JobContext).

Definition batchLimit : Z := if 0 <? BatchLimit jctx then BatchLimit jctx else defaultBatchLimit.

Definition enqueueEvent (ctx : Ctx) (eventType : string) (tenantID : uuid) (subject : string)
    (data : EventData) (cronName : string) : M unit :=
  match EventPublisherFromContext ctx with
  | None => mret tt
  | Some pub =>
      now ← time_Now;
      EnqueueCtx pub ctx (mkDomainEvent eventType tenantID subject systemUserID now data
        "system" ("iam-delegation/" ++ cronName ++ "-cron")%string)
  end.

(** [errors.Is(err, ErrDelegationNotFound) || errors.Is(err, ErrOptimisticLockConflict)] *)
Definition lost_race (e : goerror) : bool :=
  is_sentinel ErrDelegationNotFound e || is_sentinel ErrOptimisticLockConflict e.

Definition endedEvent (d : Delegation) (reason : EndReason) : EventData :=
  Ended {| ep_DelegationID := ID d; ep_TenantID := TenantID d; ep_DelegatorID := DelegatorID d;
           ep_DelegateID := DelegateID d; ep_Scope := Scope d; ep_ScopeID := ScopeID d;
           ep_EndedReason := reason; ep_ActorID := SystemActorID |}.
Definition startedEvent (d : Delegation) : EventData :=
  Started {| sp_DelegationID := ID d; sp_TenantID := TenantID d; sp_DelegatorID := DelegatorID d;
             sp_DelegateID := DelegateID d; sp_Scope := Scope d; sp_ScopeID := ScopeID d;
             sp_StartsAt := StartsAt d; sp_EndsAt := EndsAt d; sp_ActorID := SystemActorID |}.
Definition reviewEvent (d : Delegation) (daysRemaining : Z) : EventData :=
  ReviewRequested {| rp_DelegationID := ID d; rp_TenantID := TenantID d; rp_DelegatorID := DelegatorID d;
             rp_DelegateID := DelegateID d; rp_Scope := Scope d; rp_ScopeID := ScopeID d;
             rp_DaysRemaining := daysRemaining; rp_ActorID := SystemActorID |}.

(** The transaction of [endExpired] and [endReviewExpired]: the captured
    variable is [raced]. *)
Definition endInTx (d : Delegation) (reason : EndReason) (cronName : string) (txCtx : Ctx) (raced : bool) : M bool :=
  r ← try (repo_End (Delegations jctx) txCtx (TenantID d) (ID d) DelegationEnded (RecordVersion d));
  match r with
  | Err e => if lost_race e then mret true else throw e
  | Ok _ => _ ← enqueueEvent txCtx EventDelegationEnded (TenantID d) (uuid_String (ID d))
                  (endedEvent d reason) cronName;
            mret raced
  end.
Definition endExpired (ctx : Ctx) (d : Delegation) : M bool :=
  tx_RunInTx (JobTxRunner jctx) (BindTenantGUC jctx ctx (TenantID d) systemUserID) false
    (endInTx d EndReasonExpired "delegation-expiry").
Definition endReviewExpired (ctx : Ctx) (d : Delegation) : M bool :=
  tx_RunInTx (JobTxRunner jctx) (BindTenantGUC jctx ctx (TenantID d) systemUserID) false
    (endInTx d EndReasonReviewExpired "delegation-review").

(** *** delegation_expiry.go *)
Definition expireOne (ctx : Ctx) (res : Result) (d : Delegation) : M Result :=
  let res := incAttempted res in
  up ← try (up_ClearDelegatePointer (UserProfile jctx) ctx (TenantID d) (DelegatorID d));
  match up with
  | Err _ =>
      _ ← when_some (JMetrics jctx) (λ m,
            _ ← jm_RecordExpiryDeferred m; jm_RecordUPAvailabilityFailure m "expiry-cron");
      mret (incDeferred res)
  | Ok _ =>
      r ← try (endExpired ctx d);
      match r with
      | Err _ => mret (incFailed res)
      | Ok raced =>
          if raced : bool then mret res
          else _ ← when_some (JMetrics jctx) (λ m, jm_RecordEnded m EndReasonExpired);
               mret (incSucceeded res)
      end
  end.

Definition Expiry (ctx : Ctx) : M Result :=
  now ← time_Now;
  targets ← repo_ListExpiringBefore (Delegations jctx) ctx now batchLimit;
  fold_each targets zeroResult (expireOne ctx).

(** *** delegation_activation.go *)
Definition activateInTx (d : Delegation) (txCtx : Ctx) (raced : bool) : M bool :=
  activated ← repo_Activate (Delegations jctx) txCtx (TenantID d) (ID d) (RecordVersion d);
  match activated with
  | None => mret true
  | Some _ => _ ← enqueueEvent txCtx EventDelegationStarted (TenantID d) (uuid_String (ID d))
                    (startedEvent d) "delegation-activation";
              mret raced
  end.
Definition activateScheduled (ctx : Ctx) (d : Delegation) : M bool :=
  tx_RunInTx (JobTxRunner jctx) (BindTenantGUC jctx ctx (TenantID d) systemUserID) false (activateInTx d).

Definition activateOne (ctx : Ctx) (res : Result) (d : Delegation) : M Result :=
  let res := incAttempted res in
  let oooUntil := match EndsAt d with Some e => Some e | None => ReviewDueAt d end in
  up ← try (up_SetAvailability (UserProfile jctx) ctx
         (mkSetAvailability (TenantID d) (DelegatorID d) (Some "ooo"%string) (Some (StartsAt d)) oooUntil
            (Some (DelegateID d)) (Reason d)));
  match up with
  | Err _ =>
      _ ← when_some (JMetrics jctx) (λ m,
            _ ← jm_RecordActivationDeferred m; jm_RecordUPAvailabilityFailure m "activation-cron");
      mret (incDeferred res)
  | Ok _ =>
      r ← try (activateScheduled ctx d);
      match r with
      | Err _ => mret (incFailed res)
      | Ok raced => if raced : bool then mret res else mret (incSucceeded res)
      end
  end.

Definition Activation (ctx : Ctx) : M Result :=
  now ← time_Now;
  targets ← repo_ListScheduledBefore (Delegations jctx) ctx now batchLimit;
  fold_each targets zeroResult (activateOne ctx).

(** *** delegation_review.go *)
Definition warnInTx (d : Delegation) (daysRemaining : Z) (txCtx : Ctx) (raced : bool) : M bool :=
  r ← try (repo_MarkReviewWarned (Delegations jctx) txCtx (TenantID d) (ID d) daysRemaining (RecordVersion d));
  match r with
  | Err e => if lost_race e then mret true else throw e
  | Ok _ => _ ← enqueueEvent txCtx EventDelegationReviewRequested (TenantID d) (uuid_String (ID d))
                  (reviewEvent d daysRemaining) "delegation-review";
            mret raced
  end.

Definition warnOne (ctx : Ctx) (now : Time) (res : Result) (d : Delegation) : M Result :=
  let daysRemaining := computeDaysRemaining (ReviewDueAt d) now in
  if daysRemaining <? 1 then mret res
  else if bool_decide (ReviewLastWarnedBucket d = Some daysRemaining) then mret res
  else
    r ← try (tx_RunInTx (JobTxRunner jctx) (BindTenantGUC jctx ctx (TenantID d) systemUserID) false
               (warnInTx d daysRemaining));
    match r with
    | Err _ => mret (incFailed res)
    | Ok raced =>
        if raced : bool then mret res
        else _ ← when_some (JMetrics jctx) (λ m, jm_RecordReviewWarned m (Itoa daysRemaining));
             mret (incWarned daysRemaining res)
    end.

Definition autoEndOne (ctx : Ctx) (res : Result) (d : Delegation) : M Result :=
  up ← try (up_ClearDelegatePointer (UserProfile jctx) ctx (TenantID d) (DelegatorID d));
  match up with
  | Err _ =>
      _ ← when_some (JMetrics jctx) (λ m,
            _ ← jm_RecordReviewDeferred m; jm_RecordUPAvailabilityFailure m "review-cron");
      mret (incDeferred res)
  | Ok _ =>
      r ← try (endReviewExpired ctx d);
      match r with
      | Err _ => mret (incFailed res)
      | Ok raced =>
          if raced : bool then mret res
          else _ ← when_some (JMetrics jctx) (λ m,
                     _ ← jm_RecordReviewExpired m; jm_RecordEnded m EndReasonReviewExpired);
               mret (incExpired res)
      end
  end.

Definition ReviewSweep (ctx : Ctx) : M Result :=
  now ← time_Now;
  targets ← repo_FindDueForDailyWarn (Delegations jctx) ctx now batchLimit;
  res ← fold_each targets zeroResult (warnOne ctx now);
  endTargets ← repo_FindDueForAutoEnd (Delegations jctx) ctx now batchLimit;
  fold_each endTargets res (autoEndOne ctx).

(** *** delegation_cleanup.go *)
Definition orDefault (n dflt : Z) : Z := if n <=? 0 then dflt else n.

Definition Cleanup (ctx : Ctx) : M Result :=
  now ← time_Now;
  let before := AddDateDays now (- orDefault (RetentionDays jctx) defaultRetentionDays) in
  purged ← repo_HardPurgeSoftDeletedBefore (Delegations jctx) ctx before batchLimit;
  _ ← match ProcessedEventsPrune jctx with
      | Some prune =>
          _ ← try (prune ctx (orDefault (ProcessedEventsTTLDays jctx) defaultProcessedEventsTTLDays) batchLimit);
          mret tt
      | None => mret tt
      end;
  mret (setPurged purged zeroResult).
End jobs.
