(* ===== verification/FloatFacts.v ===== *)
(** * The float64 arithmetic of [computeDaysRemaining]

    Rounding keeps a quotient on the same side of every number representable at
    its exponent; that is enough to show the day count exact. *)
From S2P Require Import Prelude GoLib Domain World Jobs.
Local Open Scope Z_scope.

Module Rounding.
Import Float64.

Lemma den_pos x : 0 < den x.
Proof. destruct x as [m e]. simpl. destruct (Z.ltb_spec e 0); [apply Z.pow_pos_nonneg; lia|lia]. Qed.

Lemma rne_lower n d K : 0 < d → K * d ≤ n → K ≤ rne n d.
Proof.
  intros Hd Hle. assert (K ≤ n / d) by (apply Z.div_le_lower_bound; lia).
  unfold rne. destruct (2 * (n mod d) <? d), (d <? 2 * (n mod d)), (Z.even (n / d)); lia.
Qed.
Lemma rne_upper n d K : 0 < d → n ≤ K * d → rne n d ≤ K.
Proof.
  intros Hd Hle. pose proof (Z.div_mod n d ltac:(lia)) as Hn. pose proof (Z.mod_pos_bound n d Hd).
  assert (n / d < K ∨ n / d = K ∧ n mod d = 0) as [?|[Hq Hr]] by nia;
    unfold rne; [destruct (2 * (n mod d) <? d), (d <? 2 * (n mod d)), (Z.even (n / d)); lia|].
  rewrite Hr. destruct (Z.ltb_spec (2 * 0) d); lia.
Qed.

Lemma log2_quotient n d a : 0 < n → 0 < d → 0 ≤ a → n < 2 ^ a * d → Z.log2 n - Z.log2 d ≤ a.
Proof.
  intros Hn Hd Ha Hlt. pose proof (Z.log2_spec n Hn). pose proof (Z.log2_spec d Hd) as [_ Hd2].
  assert (Z.log2 n < a + Z.succ (Z.log2 d)); [|lia].
  apply (Z.pow_lt_mono_r_iff 2); [lia|pose proof (Z.log2_nonneg d); lia|].
  rewrite Z.pow_add_r by (pose proof (Z.log2_nonneg d); lia).
  assert (0 < 2 ^ a) by (apply Z.pow_pos_nonneg; lia). nia.
Qed.

(** The value of [n / d], rounded: the exponent is at most [a - 52] below [2 ^ a]. *)
Lemma round64_shape n d a :
  0 < n → 0 < d → 0 ≤ a ≤ 52 → n < 2 ^ a * d →
  ∃ c, 52 - a ≤ c ∧ num (round64 n d) = rne (n * 2 ^ c) d ∧ den (round64 n d) = 2 ^ c.
Proof.
  intros Hn Hd Ha Hlt. pose proof (log2_quotient n d a Hn Hd ltac:(lia) Hlt) as Hlog.
  unfold round64. rewrite (proj2 (Z.eqb_neq n 0)) by lia. rewrite (proj2 (Z.ltb_ge n 0)) by lia.
  unfold round_pos. set (e0 := Z.log2 n - Z.log2 d - 53). destruct (scale n d e0) as [n0 d0].
  set (e := if 2 ^ 53 <=? n0 / d0 then e0 + 1 else e0).
  assert (e ≤ a - 52) as He by (unfold e, e0; destruct (_ <=? _); lia).
  unfold scale. destruct (Z.ltb_spec e 0).
  - exists (- e). simpl. rewrite (proj2 (Z.ltb_lt e 0)) by lia. split; [lia|done].
  - assert (e = 0) as -> by lia. exists 0. simpl. rewrite !Z.mul_1_r. split; [lia|done].
Qed.

Lemma round64_lower n d a b M :
  0 < n → 0 < d → 0 ≤ a ≤ 52 → n < 2 ^ a * d → 0 ≤ b ≤ 52 - a →
  M * d ≤ n * 2 ^ b → M * den (round64 n d) ≤ num (round64 n d) * 2 ^ b.
Proof.
  intros Hn Hd Ha Hlt Hb HM. destruct (round64_shape n d a Hn Hd Ha Hlt) as (c & Hc & -> & ->).
  assert (2 ^ c = 2 ^ (c - b) * 2 ^ b) as Hpow by (rewrite <- Z.pow_add_r by lia; f_equal; lia).
  assert (0 < 2 ^ (c - b)) by (apply Z.pow_pos_nonneg; lia).
  assert (0 < 2 ^ b) by (apply Z.pow_pos_nonneg; lia).
  pose proof (rne_lower (n * 2 ^ c) d (M * 2 ^ (c - b)) Hd ltac:(rewrite Hpow; nia)). rewrite Hpow at 1. nia.
Qed.
Lemma round64_upper n d a b M :
  0 < n → 0 < d → 0 ≤ a ≤ 52 → n < 2 ^ a * d → 0 ≤ b ≤ 52 - a →
  n * 2 ^ b ≤ M * d → num (round64 n d) * 2 ^ b ≤ M * den (round64 n d).
Proof.
  intros Hn Hd Ha Hlt Hb HM. destruct (round64_shape n d a Hn Hd Ha Hlt) as (c & Hc & -> & ->).
  assert (2 ^ c = 2 ^ (c - b) * 2 ^ b) as Hpow by (rewrite <- Z.pow_add_r by lia; f_equal; lia).
  assert (0 < 2 ^ (c - b)) by (apply Z.pow_pos_nonneg; lia).
  assert (0 < 2 ^ b) by (apply Z.pow_pos_nonneg; lia).
  pose proof (rne_upper (n * 2 ^ c) d (M * 2 ^ (c - b)) Hd ltac:(rewrite Hpow; nia)). rewrite Hpow at 2. nia.
Qed.

(** Integers below [2 ^ 52] are exact. *)
Lemma of_int_exact z : 0 ≤ z < 2 ^ 52 → num (of_int z) = z * den (of_int z).
Proof.
  intros [H0 Hz]. unfold of_int. destruct (Z.eq_dec z 0) as [->|Hnz]; [done|].
  pose proof (round64_lower z 1 52 0 z ltac:(lia) ltac:(lia) ltac:(lia) ltac:(lia) ltac:(lia) ltac:(lia)).
  pose proof (round64_upper z 1 52 0 z ltac:(lia) ltac:(lia) ltac:(lia) ltac:(lia) ltac:(lia) ltac:(lia)). lia.
Qed.
End Rounding.

Section days.
Import Float64 Rounding.

(** The hours of a duration under 73 hours: between the exact bounds that are
    representable, and a visible amount over a whole number of hours. *)
Lemma Hours_bounds d lo hi :
  0 < d → 0 ≤ lo → hi ≤ 72 → lo * Hour < d ≤ hi * Hour →
  (lo * 2 ^ 42 + 1) * den (Hours d) ≤ num (Hours d) * 2 ^ 42 ∧ num (Hours d) ≤ hi * den (Hours d).
Proof.
  intros Hd Hlo Hhi [Hl Hh]. unfold Hours.
  assert (0 < Hour) as HH by (unfold Hour, Minute, Second; lia).
  set (h := Z.quot d Hour). set (m := Z.rem d Hour).
  assert (d = h * Hour + m ∧ 0 ≤ m < Hour ∧ 0 ≤ h) as (Hdm & Hm & Hh0).
  { unfold h, m. rewrite Z.quot_div_nonneg, Z.rem_mod_nonneg by lia.
    pose proof (Z.div_mod d Hour ltac:(lia)). pose proof (Z.mod_pos_bound d Hour HH).
    pose proof (Z.div_pos d Hour ltac:(lia) HH). lia. }
  assert (h ≤ 72) as Hh72 by nia.
  pose proof (of_int_exact h ltac:(lia)) as Ench. pose proof (den_pos (of_int h)) as Hdh.
  pose proof (of_int_exact m ltac:(unfold Hour, Minute, Second in *; lia)) as Encm. pose proof (den_pos (of_int m)) as Hdm'.
  pose proof (of_int_exact Hour ltac:(unfold Hour, Minute, Second; lia)) as EncH. pose proof (den_pos (of_int Hour)) as HdH.
  set (q := div (of_int m) (of_int Hour)).
  assert (0 < den q) as Hdq by apply den_pos.
  assert (num q ≤ den q ∧ 0 ≤ num q ∧ (1 ≤ m → den q ≤ num q * 2 ^ 42) ∧ (m = 0 → num q = 0)) as (Hq1 & Hq0 & Hq42 & Hqz).
  { unfold q, div. rewrite Encm, EncH. destruct (Z.eq_dec m 0) as [->|Hmz]; [rewrite Z.mul_0_l; simpl; lia|].
    set (n' := m * den (of_int m) * den (of_int Hour)). set (d' := den (of_int m) * (Hour * den (of_int Hour))).
    assert (0 < n') by (unfold n'; nia). assert (0 < d') by (unfold d'; nia).
    assert (n' < d') as Hlt by (unfold n', d'; nia).
    pose proof (round64_upper n' d' 0 0 1 ltac:(lia) ltac:(lia) ltac:(lia) ltac:(lia) ltac:(lia) ltac:(lia)).
    pose proof (round64_lower n' d' 0 42 1 ltac:(lia) ltac:(lia) ltac:(lia) ltac:(lia) ltac:(lia)
      ltac:(unfold n', d', Hour, Minute, Second in *; nia)).
    pose proof (den_pos (round64 n' d')).
    split; [lia|]. split; [nia|]. split; [lia|done]. }
  unfold add. rewrite Ench. set (n' := h * den (of_int h) * den q + num q * den (of_int h)).
  set (d' := den (of_int h) * den q).
  assert (0 < d') as Hd' by (unfold d'; nia).
  assert (n' ≤ hi * d') as Hup.
  { unfold n', d'. destruct (Z.eq_dec m 0) as [Hz|]; [rewrite (Hqz Hz); nia|]. assert (h + 1 ≤ hi) by nia. nia. }
  assert ((lo * 2 ^ 42 + 1) * d' ≤ n' * 2 ^ 42) as Hdown.
  { unfold n', d'. destruct (Z.eq_dec h lo) as [->|]; [assert (1 ≤ m) by nia; specialize (Hq42 ltac:(lia)); nia|].
    assert (lo + 1 ≤ h) by nia. nia. }
  assert (0 < n') by nia. assert (n' < 2 ^ 7 * d') by nia.
  split.
  - by apply (round64_lower n' d' 7 42).
  - pose proof (round64_upper n' d' 7 0 hi) as Hu. rewrite !Z.mul_1_r in Hu. apply Hu; lia.
Qed.

(** Between [k] days (excluded) and [k + 1] days (included), with three days or
    fewer to go, the answer is [k + 1]. *)
Lemma days_between r now k :
  0 ≤ k ≤ 2 → k * Day < r - now ≤ (k + 1) * Day → computeDaysRemaining (Some r) now = k + 1.
Proof.
  intros Hk [Hlo Hhi]. unfold computeDaysRemaining.
  assert (Day = 24 * Hour) as HDay by done. assert (0 < Hour) as HH by (unfold Hour, Minute, Second; lia).
  rewrite Sub_exact by (unfold min_int64, max_int64, Day, Hour, Minute, Second in *; lia).
  destruct (Hours_bounds (r - now) (24 * k) (24 * (k + 1))) as [Hl Hu]; [nia|lia|lia|nia|].
  set (x := Hours (r - now)) in *. pose proof (den_pos x) as Hdx.
  pose proof (of_int_exact 24 ltac:(lia)) as E24. pose proof (den_pos (of_int 24)) as Hd24.
  unfold div. rewrite E24. set (n' := num x * den (of_int 24)). set (d' := den x * (24 * den (of_int 24))).
  assert (0 < d') by (unfold d'; nia). assert (0 < n') by (unfold n'; nia).
  assert (n' ≤ (k + 1) * d') as Hup by (unfold n', d'; nia).
  assert ((k * 2 ^ 47 + 1) * d' ≤ n' * 2 ^ 47) as Hdown.
  { unfold n', d'. replace (2 ^ 47) with (2 ^ 42 * 32) by done. nia. }
  assert (n' < 2 ^ 2 * d') as Hlt by nia.
  pose proof (round64_lower n' d' 2 47 (k * 2 ^ 47 + 1) ltac:(lia) ltac:(lia) ltac:(lia) Hlt ltac:(lia) Hdown) as HL.
  pose proof (round64_upper n' d' 2 0 (k + 1) ltac:(lia) ltac:(lia) ltac:(lia) Hlt ltac:(lia) ltac:(lia)) as HU.
  set (y := round64 n' d') in *. pose proof (den_pos y) as Hdy.
  assert (ceil y = k + 1) as ->; [|destruct (Z.ltb_spec (k + 1) 1); lia].
  unfold ceil. assert (- num y / den y = - (k + 1)) as ->; [|lia].
  symmetry. apply (Z.div_unique_pos _ _ _ (- num y + (k + 1) * den y)); nia.
Qed.

(** C34. The days-remaining bucket of a review deadline inside the three-day warning
    window is exactly the number of days left, rounded up: 1, 2 or 3, although the
    code computes it in floating point. *)
Theorem computeDaysRemaining_exact r now :
  0 < r - now ≤ 3 * Day →
  computeDaysRemaining (Some r) now = (r - now + Day - 1) / Day
  ∧ 1 ≤ computeDaysRemaining (Some r) now ≤ 3.
Proof.
  intros Hw. assert (0 < Day) as HD by (unfold Day, Hour, Minute, Second; lia).
  set (k := (r - now - 1) / Day).
  pose proof (Z.div_mod (r - now - 1) Day ltac:(lia)) as Hdm. pose proof (Z.mod_pos_bound (r - now - 1) Day HD).
  assert (0 ≤ k ≤ 2) as Hk by (unfold k; split; [apply Z.div_pos; lia|apply Z.lt_succ_r, Z.div_lt_upper_bound; lia]).
  rewrite (days_between r now k Hk) by (unfold k; nia). split; [|lia].
  replace (r - now + Day - 1) with (r - now - 1 + 1 * Day) by lia. rewrite Z.div_add by lia. done.
Qed.
End days.
