(* ===== verification/Http.v ===== *)
(** * Package [internal/adapter/inbound/http]

    Requests and responses, the DTOs, the error mapping, the authorization and
    header gates, the handlers and the route table.  A handler that writes an
    error response and returns is a handler that throws: [respond] is the
    [HandleError] at the end of every such path.  gin, the gateway's
    authentication ([rq_identity]) and the observability middlewares are third
    party; trace and request ids of the error envelope come from them. *)
From S2P Require Import Prelude GoLib Domain World Store DelegationService.
Local Open Scope Z_scope.
Local Open Scope string_scope.

(** ** Requests *)
Inductive Body :=
| Unreadable                              (* over the 1 MB cap, or the connection broke *)
| Malformed                               (* not JSON, or empty *)
| Document (j : json) (trailing : bool).  (* a document, and whether bytes follow it *)

Record Request := mkRequest {
  rq_Method : string;
  rq_Path : list string;                  (* path segments *)
  rq_Query : string → string;             (* "" when absent *)
  rq_Header : string → string;
  rq_Body : Body;
  rq_identity : option requestctx.Context; (* what the gateway middlewares established *)
  rq_ctx : Ctx;
}.

(** [c.ShouldBindJSON] decodes the first document; [json.Unmarshal] wants no more. *)
Definition bind_json {A} (dec : json → option A) (b : Body) : option A :=
  match b with Document j _ => dec j | _ => None end.
Definition unmarshal_all {A} (dec : json → option A) (b : Body) : option A :=
  match b with Document j false => dec j | _ => None end.

(** ** dto.go *)
Record DelegationResponse := mkDelegationResponse {
  dr_DelegationID : uuid; dr_DelegatorID : uuid; dr_DelegateID : uuid;
  dr_Scope : string; dr_ScopeID : option uuid;
  dr_StartsAt : Time; dr_EndsAt : option Time;
  dr_Status : string; dr_RecordVersion : Z;
  dr_ReviewDueAt : option Time; dr_ReviewLastWarnedBucket : option Z; dr_ReviewWindowDays : option Z }.
Definition DelegationToResponse (d : Delegation) : DelegationResponse :=
  mkDelegationResponse (ID d) (DelegatorID d) (DelegateID d) (Scope d) (ScopeID d) (StartsAt d) (EndsAt d)
    (Status d) (RecordVersion d) (ReviewDueAt d) (ReviewLastWarnedBucket d) (ReviewWindowDays d).

Record DelegationExtendResponse := mkDelegationExtendResponse {
  er_DelegationID : uuid; er_ReviewDueAt : option Time; er_ReviewLastWarnedBucket : option Z; er_RecordVersion : Z }.
Definition DelegationToExtendResponse (d : Delegation) : DelegationExtendResponse :=
  mkDelegationExtendResponse (ID d) (ReviewDueAt d) (ReviewLastWarnedBucket d) (RecordVersion d).

Record SettingsResponse := mkSettingsResponse {
  sr_MaxDurationDays : Z; sr_ReviewWindowDays : Z; sr_RecordVersion : Z }.
Definition SettingsToResponse (s : DelegationTenantSettings) : SettingsResponse :=
  mkSettingsResponse (MaxDurationDays s) (ts_ReviewWindowDays s) (ts_RecordVersion s).

Record DeptDelegateResponse := mkDeptDelegate {
  dd_Found : bool; dd_DelegationID : option uuid; dd_DelegatorID : option uuid; dd_DelegateID : option uuid }.

Record ActiveDelegationView := mkActiveView {
  av_DelegationID : uuid; av_DelegatorID : uuid; av_DelegateID : uuid;
  av_Scope : string; av_ScopeID : option uuid; av_EndsAt : option Time }.
Definition DelegationToActiveView (d : Delegation) : ActiveDelegationView :=
  mkActiveView (ID d) (DelegatorID d) (DelegateID d) (Scope d) (ScopeID d) (EndsAt d).

Record ReviewSweepResult := mkReviewSweepResult {
  rs_Warned3d : Z; rs_Warned2d : Z; rs_Warned1d : Z; rs_Expired : Z; rs_Deferred : Z; rs_Failed : Z }.

Section requests.
Context `{UuidLib} `{TimeText}.

Record DelegationCreateRequest := mkCreateRequest {
  cr_DelegateID : uuid; cr_Scope : string; cr_ScopeID : option uuid;
  cr_StartsAt : option Time; cr_EndsAt : option Time; cr_OOONote : string }.
Definition decode_create (j : json) : option DelegationCreateRequest :=
  ms ← struct_members j;
  d ← value_field json_uuid "delegate_id" uuid_Nil ms;
  s ← value_field json_string "scope" "" ms;
  i ← pointer_field json_uuid "scope_id" ms;
  st ← pointer_field json_time "starts_at" ms;
  e ← pointer_field json_time "ends_at" ms;
  n ← value_field json_string "ooo_note" "" ms;
  Some (mkCreateRequest d s i st e n).

Record DelegationExtendRequest := mkExtendRequest { xr_ExtendDays : option Z; xr_RecordVersion : Z }.
Definition decode_extend (j : json) : option DelegationExtendRequest :=
  ms ← struct_members j;
  d ← pointer_field json_int "extend_days" ms;
  v ← value_field json_int "record_version" 0%Z ms;
  Some (mkExtendRequest d v).

Record DelegationReassignRequest := mkReassignRequest {
  rr_NewDelegateID : option uuid; rr_Scope : option string; rr_ScopeID : option uuid;
  rr_EndsAt : option Time; rr_Reason : option string; rr_RecordVersion : Z }.
Definition decode_reassign (j : json) : option DelegationReassignRequest :=
  ms ← struct_members j;
  d ← pointer_field json_uuid "new_delegate_id" ms;
  s ← pointer_field json_string "scope" ms;
  i ← pointer_field json_uuid "scope_id" ms;
  e ← pointer_field json_time "ends_at" ms;
  r ← pointer_field json_string "reason" ms;
  v ← value_field json_int "record_version" 0%Z ms;
  Some (mkReassignRequest d s i e r v).

Record SettingsSetRequest := mkSettingsSetRequest { ss_MaxDurationDays : Z; ss_ReviewWindowDays : Z }.
Definition decode_settings (j : json) : option SettingsSetRequest :=
  ms ← struct_members j;
  m ← value_field json_int "max_duration_days" 0%Z ms;
  r ← value_field json_int "review_window_days" 0%Z ms;
  Some (mkSettingsSetRequest m r).
End requests.

(** [_, ok := rawFields[name]] on the body as a map: exact names, [null] is the
    empty map. *)
Definition raw_has (name : string) (b : Body) : bool :=
  match b with
  | Document (JObj ms) _ => existsb (λ m, bool_decide (fst m = name)) ms
  | _ => false
  end.

(** ** Responses *)
Inductive Payload :=
| PDelegation (r : DelegationResponse)
| PList (items : list DelegationResponse)
| PExtend (r : DelegationExtendResponse)
| PSettings (r : SettingsResponse)
| PDept (r : DeptDelegateResponse)
| PActive (l : list ActiveDelegationView)
| PExpiry (attempted succeeded failed : Z)
| PReview (r : ReviewSweepResult)
| PError (code : string) (details : gmap string Z)
| PReady (overall : string) (checks : list (string * string))
| PNone.
Record Response := mkResponse { rs_Status : Z; rs_Payload : Payload }.

(** ** errors.go *)
Definition errorStatusTable : list (Sentinel * Z) :=
  [(ErrValidation, 400); (ErrMissingIdentity, 401); (ErrInsufficientRole, 403);
   (ErrOptimisticLockConflict, 409); (ErrIdempotencyKeyInFlight, 409);
   (ErrInvalidDelegationScope, 400); (ErrInvalidDelegationMaxDurationDays, 400);
   (ErrInvalidDelegationReviewWindow, 400); (ErrDelegationNotFound, 404);
   (ErrScopeIDRequired, 422); (ErrInvalidScopeID, 422); (ErrSelfDelegation, 422);
   (ErrInvalidDelegate, 422); (ErrDelegateUnavailable, 422); (ErrReasonTooLong, 422);
   (ErrDelegationWindowInverted, 422); (ErrDelegationWindowTooLong, 422);
   (ErrDelegationStartInPast, 422); (ErrDelegationStartTooFarFuture, 422);
   (ErrNotReviewTracked, 422); (ErrExtendDaysOutOfRange, 422);
   (ErrOrgMembershipUnavailable, 503); (ErrUserProfileUnavailable, 503);
   (ErrCatalogAdminUnavailable, 503); (ErrDBUnavailable, 503)]%Z.
Definition errorStatusByCode : gmap string Z :=
  list_to_map ((λ p, (wire_code p.1, p.2)) <$> errorStatusTable).

Definition writeError (status : Z) (code : string) : Response := mkResponse status (PError code ∅).
Definition writeErrorWithDetails (status : Z) (code : string) (details : gmap string Z) : Response :=
  if bool_decide (details = ∅) then writeError status code else mkResponse status (PError code details).

Section handlers.
Context `{Env} `{PgCommon} `{UuidLib} `{TimeText}.

Definition HandleError (err : goerror) : Response :=
  match as_domain err with
  | Some derr => writeErrorWithDetails (default 500%Z (errorStatusByCode !! Code derr)) (Code derr) (Details derr)
  | None =>
      if IsConnectionException err || IsInsufficientResources err || isOperatorOrSystemErrorSQLState err
      then writeError 503 (wire_code ErrDBUnavailable)
      else writeError 500 "internal_server_error"
  end.

(** Run a handler body; an error it throws is written by [HandleError]. *)
Definition respond (m : M Response) : M Response :=
  r ← try m;
  match r with Ok resp => mret resp | Err e => mret (HandleError e) end.

Definition from_option {A} (e : goerror) (o : option A) : M A :=
  match o with Some a => mret a | None => throw e end.

Definition validation (msg : string) : goerror := NewError ErrValidation msg.
Definition missing_identity (msg : string) : goerror := NewError ErrMissingIdentity msg.

Definition identityOrError (ctx : Ctx) : M requestctx.Context :=
  from_option (missing_identity "missing identity headers") (FromContext ctx).
Definition parseUUIDParam (name value : string) : M uuid :=
  from_option (validation (name ++ " must be a valid UUID")) (uuid_Parse value).
Definition tenantOf (rc : requestctx.Context) : M uuid :=
  from_option (missing_identity "invalid tenant identity") (uuid_Parse (requestctx.TenantID rc)).
Definition userOf (rc : requestctx.Context) : M uuid :=
  from_option (missing_identity "invalid user identity") (uuid_Parse (requestctx.UserID rc)).

(** *** authz.go *)
Record DelegationReader := {
  rd_FindByID : Ctx → uuid → uuid → M Delegation;
  rd_FindActiveDeptDelegateForUser : Ctx → uuid → uuid → uuid → M (option Delegation);
  rd_FindActiveByDelegator : Ctx → uuid → uuid → M (list Delegation);
}.

Definition requireSelfOrAdmin (ctx : Ctx) (reader : DelegationReader) (tenantID id : uuid) : M Delegation :=
  rc ← identityOrError ctx;
  d ← rd_FindByID reader ctx tenantID id;
  if negb (bool_decide (uuid_String (DelegatorID d) = requestctx.UserID rc)) && negb (requestctx.IsAdmin rc)
  then throw (NewError ErrInsufficientRole "caller is neither the delegator nor a tenant admin")
  else mret d.

(** *** delegation_handler.go *)
Record DelegationSvc := {
  svc_List : Ctx → uuid → uuid → M (list Delegation);
  svc_Create : Ctx → uuid → uuid → string → CreateInput → M Delegation;
  svc_Cancel : Ctx → uuid → uuid → Z → M Delegation;
  svc_Extend : Ctx → uuid → uuid → option Z → Z → M Delegation;
  svc_Reassign : Ctx → uuid → uuid → Z → ReassignInput → M Delegation;
}.

Section delegation_handler.
Context (svc : DelegationSvc) (reader : DelegationReader).

Definition handleList (r : Request) : M Response := respond (
  rc ← identityOrError (rq_ctx r);
  tenantID ← tenantOf rc;
  delegatorID ← userOf rc;
  list ← svc_List svc (rq_ctx r) tenantID delegatorID;
  mret (mkResponse 200 (PList (DelegationToResponse <$> list)))).

Definition toCreateInput (req : DelegationCreateRequest) : CreateInput :=
  mkCreateInput (cr_DelegateID req) (cr_Scope req) (cr_ScopeID req) (cr_OOONote req)
    (cr_StartsAt req) (cr_EndsAt req).

Definition handleCreate (r : Request) : M Response := respond (
  rc ← identityOrError (rq_ctx r);
  tenantID ← tenantOf rc;
  delegatorID ← userOf rc;
  req ← from_option (validation "invalid request body") (bind_json decode_create (rq_Body r));
  d ← svc_Create svc (rq_ctx r) tenantID delegatorID (rq_Header r "Idempotency-Key") (toCreateInput req);
  mret (mkResponse 201 (PDelegation (DelegationToResponse d)))).

(** The prefix of the three routes on one delegation: parse, identify, authorize. *)
Definition authorized (idParam : string) (r : Request) : M (uuid * uuid) :=
  id ← parseUUIDParam "id" idParam;
  rc ← identityOrError (rq_ctx r);
  tenantID ← tenantOf rc;
  _ ← requireSelfOrAdmin (rq_ctx r) reader tenantID id;
  mret (tenantID, id).

Definition handleCancel (idParam : string) (r : Request) : M Response := respond (
  ti ← authorized idParam r;
  let '(v, _) := ParseInt (rq_Query r "record_version") in
  d ← svc_Cancel svc (rq_ctx r) (fst ti) (snd ti) v;
  mret (mkResponse 200 (PDelegation (DelegationToResponse d)))).

Definition handleExtend (idParam : string) (r : Request) : M Response := respond (
  ti ← authorized idParam r;
  req ← from_option (validation "invalid request body") (bind_json decode_extend (rq_Body r));
  d ← svc_Extend svc (rq_ctx r) (fst ti) (snd ti) (xr_ExtendDays req) (xr_RecordVersion req);
  mret (mkResponse 200 (PExtend (DelegationToExtendResponse d)))).

Definition toReassignInput (req : DelegationReassignRequest) (b : Body) : ReassignInput :=
  mkReassignInput (rr_NewDelegateID req) (rr_Scope req) (rr_ScopeID req) (raw_has "scope_id" b)
    (rr_EndsAt req) (raw_has "ends_at" b) (rr_Reason req).

Definition handleReassign (idParam : string) (r : Request) : M Response := respond (
  ti ← authorized idParam r;
  _ ← match rq_Body r with
      | Unreadable => throw (validation "unable to read request body")
      | _ => mret tt
      end;
  req ← from_option (validation "invalid request body") (unmarshal_all decode_reassign (rq_Body r));
  d ← svc_Reassign svc (rq_ctx r) (fst ti) (snd ti) (rr_RecordVersion req) (toReassignInput req (rq_Body r));
  mret (mkResponse 201 (PDelegation (DelegationToResponse d)))).
End delegation_handler.

(** *** settings_handler.go *)
Record SettingsSvc := {
  set_Get : Ctx → uuid → M DelegationTenantSettings;
  set_Set : Ctx → uuid → Z → Z → M DelegationTenantSettings;
}.
Section settings_handler.
Context (svc : SettingsSvc).
Definition handleSettingsGet (r : Request) : M Response := respond (
  rc ← identityOrError (rq_ctx r);
  tenantID ← tenantOf rc;
  s ← set_Get svc (rq_ctx r) tenantID;
  mret (mkResponse 200 (PSettings (SettingsToResponse s)))).
Definition handleSettingsSet (r : Request) : M Response := respond (
  rc ← identityOrError (rq_ctx r);
  tenantID ← tenantOf rc;
  req ← from_option (validation "invalid request body") (bind_json decode_settings (rq_Body r));
  s ← set_Set svc (rq_ctx r) tenantID (ss_MaxDurationDays req) (ss_ReviewWindowDays req);
  mret (mkResponse 200 (PSettings (SettingsToResponse s)))).
End settings_handler.

(** *** internal_handler.go *)
Section internal_handler.
Context (runExpiry : Ctx → M (Z * Z * Z)) (runReview : Ctx → M ReviewSweepResult) (reader : DelegationReader).

Definition handleExpire (r : Request) : M Response := respond (
  res ← runExpiry (rq_ctx r);
  mret (mkResponse 200 (PExpiry (fst (fst res)) (snd (fst res)) (snd res)))).
Definition handleReviewSweep (r : Request) : M Response := respond (
  res ← runReview (rq_ctx r);
  mret (mkResponse 200 (PReview res))).
Definition handleDeptDelegate (r : Request) : M Response := respond (
  tenantID ← parseUUIDParam "tenant_id" (rq_Query r "tenant_id");
  userID ← parseUUIDParam "user_id" (rq_Query r "user_id");
  deptID ← parseUUIDParam "dept_id" (rq_Query r "dept_id");
  d ← rd_FindActiveDeptDelegateForUser reader (rq_ctx r) tenantID userID deptID;
  mret (mkResponse 200 (PDept match d with
    | None => mkDeptDelegate false None None None
    | Some d => mkDeptDelegate true (Some (ID d)) (Some (DelegatorID d)) (Some (DelegateID d))
    end))).
Definition handleActiveDelegations (idParam : string) (r : Request) : M Response := respond (
  userID ← parseUUIDParam "id" idParam;
  tenantID ← parseUUIDParam "tenant_id" (rq_Query r "tenant_id");
  list ← rd_FindActiveByDelegator reader (rq_ctx r) tenantID userID;
  mret (mkResponse 200 (PActive (DelegationToActiveView <$> list)))).
End internal_handler.

(** *** middleware.go, router.go: the gates of the public group *)
Definition maxIdempotencyKeyLen : Z := 1024.

Definition with_ctx (ctx : Ctx) (r : Request) : Request :=
  mkRequest (rq_Method r) (rq_Path r) (rq_Query r) (rq_Header r) (rq_Body r) (rq_identity r) ctx.

Definition ContextMiddleware (r : Request) : Request :=
  match rq_identity r with
  | Some prc => with_ctx (WithContext (rq_ctx r) prc) r
  | None => r
  end.
Definition tenantGUCMiddleware (bind : Ctx → string → string → Ctx) (r : Request) : Request :=
  match FromContext (rq_ctx r) with
  | Some rc => with_ctx (bind (rq_ctx r) (requestctx.TenantID rc) (requestctx.UserID rc)) r
  | None => r
  end.

Definition RequireAnyRole (roles : list string) (next : Request → M Response) (r : Request) : M Response :=
  match FromContext (rq_ctx r) with
  | None => mret (HandleError (missing_identity "missing identity headers"))
  | Some rc =>
      if existsb (requestctx.HasRole rc) roles then next r
      else mret (HandleError (NewError ErrInsufficientRole "caller lacks a required role"))
  end.

Definition requireIdempotencyKey (next : Request → M Response) (r : Request) : M Response :=
  let key := rq_Header r "Idempotency-Key" in
  if Utf8.blank key || (maxIdempotencyKeyLen <? Z.of_nat (String.length key))%Z
  then mret (HandleError (validation "Idempotency-Key header is required"))
  else next r.

(** *** health.go: a dependency that is not wired is skipped *)
Definition readyz (postgres sysPostgres cache outbox : option bool) : Response :=
  let pg (name : string) (o : option bool) :=
    match o with Some b => [(name, if b : bool then "ok" else "error")] | None => [] end in
  let soft (name : string) (o : option bool) :=
    match o with Some b => [(name, if b : bool then "ok" else "degraded")] | None => [] end in
  let healthy := default true postgres && default true sysPostgres in
  mkResponse (if healthy then 200 else 503)
    (PReady (if healthy then "ok" else "error")
       (pg "postgres" postgres ++ pg "sys_postgres" sysPostgres ++ soft "valkey" cache ++ soft "outbox" outbox)).

(** *** router.go *)
Definition settingsSetRoles : list string := ["tenant_admin"; "tenant_owner"].

Record DocsConfig := mkDocsConfig { docs_Environment : string; docs_Enabled : bool; docs_AuthToken : string }.
Definition docs_active (d : DocsConfig) : bool :=
  negb (bool_decide (docs_Environment d = "production")) || docs_Enabled d.
(** [docsAuthMiddleware]: whether the request gets through. *)
Definition docs_authorized (token : string) (authorization : string) : bool :=
  bool_decide (authorization = "Bearer " ++ token).
Definition docs_gate (d : DocsConfig) (authorization : string) : option Z :=
  if negb (docs_active d) then Some 404%Z
  else if bool_decide (docs_Environment d = "production") && negb (bool_decide (docs_AuthToken d = ""))
  then if docs_authorized (docs_AuthToken d) authorization then None else Some 401%Z
  else None.

Record Handlers := {
  h_svc : DelegationSvc; h_reader : DelegationReader; h_settings : SettingsSvc;
  h_expiry : Ctx → M (Z * Z * Z); h_review : Ctx → M ReviewSweepResult; h_internal_reader : DelegationReader;
  h_bind : Ctx → string → string → Ctx;
  h_health : option bool * option bool * option bool * option bool;
}.

(** [gincommon.ProtectedMiddlewares]: no identity, no entry. *)
Definition public (h : Handlers) (next : Request → M Response) (r : Request) : M Response :=
  match rq_identity r with
  | None => mret (mkResponse 401 PNone)
  | Some _ => next (tenantGUCMiddleware (h_bind h) (ContextMiddleware r))
  end.

(** The route table: the methods and endpoints registered for a path. *)
Inductive endpoint :=
| EList | ECreate | ECancel (id : string) | EExtend (id : string) | EReassign (id : string)
| ESettingsGet | ESettingsSet
| EExpire | EReviewSweep | EDeptDelegate | EActiveDelegations (id : string)
| EHealthz | EReadyz.

Definition seg_is (a b : string) : bool := bool_decide (a = b).
Definition routes (path : list string) : list (string * endpoint) :=
  match path with
  | [a] => if seg_is a "readyz" then [("GET", EReadyz)] else if seg_is a "healthz" then [("GET", EHealthz)] else []
  | [a; b; c] =>
      if seg_is a "api" && seg_is b "v1" && seg_is c "delegations" then [("GET", EList); ("POST", ECreate)]
      else if seg_is a "internal" && seg_is b "delegations"
      then if seg_is c "expire" then [("POST", EExpire)]
           else if seg_is c "review-sweep" then [("POST", EReviewSweep)]
           else if seg_is c "dept-delegate" then [("GET", EDeptDelegate)] else []
      else []
  | [a; b; c; d] =>
      if seg_is a "api" && seg_is b "v1" && seg_is c "delegations"
      then ("DELETE", ECancel d) ::
           (if seg_is d "settings" then [("GET", ESettingsGet); ("PUT", ESettingsSet)] else [])
      else if seg_is a "internal" && seg_is b "users" && seg_is d "active-delegations"
      then [("GET", EActiveDelegations c)] else []
  | [a; b; c; d; e] =>
      if seg_is a "api" && seg_is b "v1" && seg_is c "delegations"
      then if seg_is e "extend" then [("POST", EExtend d)]
           else if seg_is e "reassign" then [("POST", EReassign d)] else []
      else []
  | _ => []
  end.

(** The handler of an endpoint behind the middlewares of its group. *)
Definition dispatch (h : Handlers) (e : endpoint) (r : Request) : M Response :=
  match e with
  | EList => public h (handleList (h_svc h)) r
  | ECreate => public h (requireIdempotencyKey (handleCreate (h_svc h))) r
  | ECancel i => public h (handleCancel (h_svc h) (h_reader h) i) r
  | EExtend i => public h (handleExtend (h_svc h) (h_reader h) i) r
  | EReassign i => public h (handleReassign (h_svc h) (h_reader h) i) r
  | ESettingsGet => public h (handleSettingsGet (h_settings h)) r
  | ESettingsSet => public h (RequireAnyRole settingsSetRoles (handleSettingsSet (h_settings h))) r
  | EExpire => handleExpire (h_expiry h) r
  | EReviewSweep => handleReviewSweep (h_review h) r
  | EDeptDelegate => handleDeptDelegate (h_internal_reader h) r
  | EActiveDelegations i => handleActiveDelegations (h_internal_reader h) i r
  | EHealthz => mret (mkResponse 200 PNone)
  | EReadyz => let '(p, s, c, o) := h_health h in mret (readyz p s c o)
  end.

(** [HandleMethodNotAllowed]: a known path with another method is 405. *)
Definition serve (h : Handlers) (r : Request) : M Response :=
  match routes (rq_Path r) with
  | [] => mret (mkResponse 404 PNone)
  | l => match filter (λ me, me.1 = rq_Method r) l with
         | (_, e) :: _ => dispatch h e r
         | [] => mret (mkResponse 405 PNone)
         end
  end.
End handlers.
