(* ===== verification/PageText.v ===== *)
(** * Text of a rendered page

    What the AsyncAPI viewer uses of Go's [html], [strings] and [encoding/json]:
    escaping, prefixes and suffixes, letter case and indented JSON. *)
From S2P Require Import Prelude GoLib.
Local Open Scope Z_scope.
Local Open Scope string_scope.

(** HTML is written in this development with a backtick for the double quote. *)
Definition dquote : ascii := Ascii.ascii_of_N 34.
Fixpoint html (s : string) : string :=
  match s with
  | EmptyString => EmptyString
  | String a s' => String (if bool_decide (a = "`"%char) then dquote else a) (html s')
  end.
Definition concat_strings (l : list string) : string := String.concat "" l.

(** [html.EscapeString] *)
Definition escape_char (a : ascii) : string :=
  if bool_decide (a = "&"%char) then "&amp;"
  else if bool_decide (a = "'"%char) then "&#39;"
  else if bool_decide (a = "<"%char) then "&lt;"
  else if bool_decide (a = ">"%char) then "&gt;"
  else if bool_decide (a = dquote) then "&#34;"
  else String a EmptyString.
Fixpoint EscapeString (s : string) : string :=
  match s with EmptyString => EmptyString | String a s' => escape_char a ++ EscapeString s' end.

(** [strings.HasSuffix], [strings.TrimPrefix] *)
Fixpoint HasSuffix (s suffix : string) : bool :=
  bool_decide (s = suffix) || match s with EmptyString => false | String _ s' => HasSuffix s' suffix end.
Fixpoint strip (prefix s : string) : option string :=
  match prefix, s with
  | EmptyString, _ => Some s
  | String a p, String b s' => if bool_decide (a = b) then strip p s' else None
  | _, EmptyString => None
  end.
Definition TrimPrefix (s prefix : string) : string := default s (strip prefix s).
(** [s[:n]] when it is longer, with an ellipsis: a cut between bytes. *)
Definition cut (n : nat) (ellipsis s : string) : string :=
  if (n <? String.length s)%nat then String.substring 0 n s ++ ellipsis else s.

(** ** Letter case

    ASCII by bytes, as [strings.ToUpper] has it; the case tables of Unicode,
    consulted when another byte occurs, are a parameter. *)
Class UnicodeCase := {
  unicode_upper : string → string;
  unicode_lower : string → string }.
Definition is_ascii (s : string) : bool := forallb (λ b, b <? Utf8.RuneSelf)%Z (bytes_of s).
Definition upper_byte (b : Z) : Z := (if (97 <=? b) && (b <=? 122) then b - 32 else b)%Z.
Definition ToUpper `{UnicodeCase} (s : string) : string :=
  if is_ascii s then string_of_bytes (upper_byte <$> bytes_of s) else unicode_upper s.
Definition ToLower `{UnicodeCase} (s : string) : string :=
  if is_ascii s then string_of_bytes (fold_byte <$> bytes_of s) else unicode_lower s.

(** ** [json.MarshalIndent(v, "", "  ")] *)
Module JsonText.
(** The string encoder: HTML characters, control characters, the two line
    separators and invalid bytes are escaped. *)
Definition quote_byte (b : Z) : list Z :=
  if bool_decide (b ∈ [34; 92]) then [92; b]
  else if (b =? 8)%Z then [92; 98] else if (b =? 12)%Z then [92; 102] else if (b =? 10)%Z then [92; 110]
  else if (b =? 13)%Z then [92; 114] else if (b =? 9)%Z then [92; 116]
  else if (b <? 32)%Z || bool_decide (b ∈ [60; 62; 38]) then unicode_escape b
  else [b].
Fixpoint quote_bytes (fuel : nat) (bs : list Z) : list Z :=
  match fuel, bs with
  | S fuel', b :: _ =>
      let '(r, size) := Utf8.DecodeRune bs in
      let text := if (b <? Utf8.RuneSelf)%Z then quote_byte b
                  else if (r =? Utf8.RuneError)%Z && (size =? 1)%nat then unicode_escape Utf8.RuneError
                  else if bool_decide (r ∈ [8232; 8233]) then unicode_escape r
                  else take size bs in
      (text ++ quote_bytes fuel' (drop size bs))%list
  | _, _ => []
  end.
Definition quote (s : string) : string :=
  let bs := bytes_of s in string_of_bytes ([34] ++ quote_bytes (length bs) bs ++ [34])%list.

Definition newline (depth : nat) : string := String (ascii_of 10) (String.concat "" (replicate depth "  ")).
Definition block (open close : string) (depth : nat) (items : list string) : string :=
  match items with
  | [] => open ++ close
  | _ => concat_strings [open; newline (S depth); String.concat ("," ++ newline (S depth)) items; newline depth; close]
  end.
(** The members of a Go map come in the order of their keys. *)
Definition key_le (x y : string * string) : Prop := String.le x.1 y.1.
#[export] Instance key_le_dec x y : Decision (key_le x y) := _.
Fixpoint print (depth : nat) (j : json) : string :=
  match j with
  | JNull => "null"
  | JBool b => if b then "true" else "false"
  | JNum literal => literal
  | JStr s => quote s
  | JArr l => block "[" "]" depth (print (S depth) <$> l)
  | JObj members =>
      block "{" "}" depth ((λ kv, quote kv.1 ++ ": " ++ kv.2) <$>
        merge_sort key_le ((λ kv, (kv.1, print (S depth) kv.2)) <$> members))
  end.
End JsonText.
Definition MarshalIndent (v : json) : string := JsonText.print 0 v.

(** [{"b": ["<"], "a": {}}] *)
Example MarshalIndent_sample :
  MarshalIndent (JObj [("b", JArr [JStr "<"; JNum "1"]); ("a", JObj [])]) =
  html "{
  `a`: {},
  `b`: [
    `\u003c`,
    1
  ]
}".
Proof. vm_compute. reflexivity. Qed.
