(* ===== verification/AsyncDocs.v ===== *)
(** * The AsyncAPI viewer: internal/adapter/inbound/http/asyncapi.go

    The parsed specification, the resolution of schemas, the page it renders and
    the routes that serve it (registerDocsRoutes of router.go).  The
    specification is parsed once and shared by all requests: the table of a
    schema sorts the property order in place, so the renderers thread the
    specification as state.  The head and the scripts of the page, which but for
    the title depend on nothing, are not modelled, nor is the YAML library. *)
From S2P Require Import Prelude GoLib Domain World Http PageText.
Local Open Scope Z_scope.
Local Open Scope string_scope.

(** ** The parsed specification *)
Inductive NodeKind := ZeroNode | DocumentNode | MappingNode | OtherNode.
#[export] Instance NodeKind_eq_dec : EqDecision NodeKind.
Proof. solve_decision. Defined.
(** [yaml.Node], as far as it is read. *)
Inductive Node := mkNode (Kind : NodeKind) (Value : string) (Content : list Node).
Definition Kind (n : Node) : NodeKind := let 'mkNode k _ _ := n in k.
Definition Value (n : Node) : string := let 'mkNode _ v _ := n in v.
Definition Content (n : Node) : list Node := let 'mkNode _ _ c := n in c.
(** The steps [i, i+1] of a mapping node. *)
Fixpoint pairs (l : list Node) : list (Node * Node) :=
  match l with k :: v :: l' => (k, v) :: pairs l' | _ => [] end.

(** An example that JSON cannot express counts as none: both are left out. *)
Inductive asyncProp := mkProp {
  p_Type : string; p_Format : string; p_Desc : string; p_Example : option json;
  p_Enum : list string; p_Ref : string; p_Items : option asyncProp }.
Inductive asyncSchema := mkSchema {
  sc_Type : string; Required : list string; Properties : gmap string asyncProp;
  PropertyOrder : list string; AllOf : list asyncSchema; sc_Ref : string }.
Definition set_order (o : list string) (s : asyncSchema) : asyncSchema :=
  mkSchema (sc_Type s) (Required s) (Properties s) o (AllOf s) (sc_Ref s).
Record asyncMessage := mkMessage {
  ms_Name : string; ms_Title : string; ms_Summary : string; ms_ContentType : string;
  ms_Tags : list string; ms_Payload : string; ms_Bindings : Node }.
Record asyncComponents := mkComps { Messages : gmap string asyncMessage; Schemas : gmap string asyncSchema }.
Record asyncInfo := mkInfo { in_Title : string; in_Version : string; in_Desc : string }.
Record asyncSpec := mkSpec { AsyncAPI : string; Info : asyncInfo; Servers : Node; Comps : asyncComponents }.

(** [UnmarshalYAML]: what the library decodes, with the declared order of the
    first [properties] member. *)
Definition declared_order (value : Node) : option (list string) :=
  match list_find (λ kv, Value kv.1 = "properties") (pairs (Content value)) with
  | Some (_, (_, p)) =>
      if bool_decide (Kind p = MappingNode) then Some (Value <$> (fst <$> pairs (Content p))) else None
  | None => None
  end.
Definition UnmarshalYAML (decode : Node → result goerror asyncSchema) (value : Node) : result goerror asyncSchema :=
  match decode value with
  | Err e => Err e
  | Ok s => Ok (match declared_order value with Some o => set_order o s | None => s end)
  end.

Definition isConsumed (m : asyncMessage) : bool := existsb (λ t, HasSuffix t "/consumed") (ms_Tags m).

(** ** Helpers *)

(** [sort.Strings] on the keys of a map: their order is that of the bytes. *)
Definition sortedKeys {A} (m : gmap string A) : list string := merge_sort String.le (fst <$> map_to_list m).

(** [sort.SliceStable(l, less)], as insertion. *)
Section stable_sort.
Context {A : Type} (less : A → A → bool).
Fixpoint insert_stable (x : A) (l : list A) : list A :=
  match l with
  | [] => [x]
  | y :: l' => if less y x then y :: insert_stable x l' else x :: y :: l'
  end.
Definition SliceStable (l : list A) : list A := foldr insert_stable [] l.
End stable_sort.

Definition splitMessagesByDirection (messages : gmap string asyncMessage) : list string * list string :=
  foldl (λ '(published, consumed) name,
    match messages !! name with
    | Some m => if isConsumed m then (published, (consumed ++ [name])%list) else ((published ++ [name])%list, consumed)
    | None => (published, consumed)
    end) ([], []) (sortedKeys messages).

Definition schemas_ref : string := "#/components/schemas/".

(** One part merged into the result: its keys keep the first place they had, its
    properties win. *)
Definition add_new (order : list string) (k : string) : list string :=
  if bool_decide (k ∈ order) then order else (order ++ [k])%list.
Definition merge_part (merged resolved : asyncSchema) : asyncSchema :=
  mkSchema "" (Required merged ++ Required resolved)%list (Properties resolved ∪ Properties merged)
    (foldl add_new (PropertyOrder merged) (PropertyOrder resolved)) [] "".
Definition empty_schema : asyncSchema := mkSchema "" [] ∅ [] [] "".

(** [resolveSchema]: the schema and, when it is one of the components itself, its
    name: its property order is then the shared one.  The fuel bounds the depth
    of the calls; the Go stack is the only bound of the source. *)
Fixpoint resolveSchema (fuel : nat) (comps : asyncComponents) (owner : option string) (sc : asyncSchema)
    : option (asyncSchema * option string) :=
  match fuel with
  | O => None
  | S fuel' =>
      match AllOf sc with
      | [] =>
          if bool_decide (sc_Ref sc = "") then Some (sc, owner)
          else let name := TrimPrefix (sc_Ref sc) schemas_ref in
               match Schemas comps !! name with
               | Some sub => resolveSchema fuel' comps (Some name) sub
               | None => Some (sc, owner)
               end
      | parts =>
          resolved ← mapM (resolveSchema fuel' comps None) parts;
          Some (foldl merge_part empty_schema (fst <$> resolved), None)
      end
  end.

Definition propType (p : asyncProp) : string :=
  if negb (bool_decide (p_Ref p = "")) then TrimPrefix (p_Ref p) schemas_ref
  else
    let t := if bool_decide (p_Format p = "") then p_Type p else p_Type p ++ "(" ++ p_Format p ++ ")" in
    match p_Items p with
    | Some items =>
        if bool_decide (p_Type p = "array") then
          if negb (bool_decide (p_Type items = "")) then "array<" ++ p_Type items ++ ">"
          else if negb (bool_decide (p_Ref items = "")) then "array<" ++ TrimPrefix (p_Ref items) schemas_ref ++ ">"
          else t
        else t
    | None => t
    end.

Definition schema_link (name : string) : string :=
  concat_strings [html "<a href=`#schema-"; EscapeString name; html "` class=`prop-type schema-link`>"; EscapeString name; "</a>"].
Definition typeHTML (p : asyncProp) : string :=
  let plain := concat_strings [html "<span class=`prop-type`>"; EscapeString (propType p); "</span>"] in
  if negb (bool_decide (p_Ref p = "")) then schema_link (TrimPrefix (p_Ref p) schemas_ref)
  else match p_Items p with
       | Some items =>
           if bool_decide (p_Type p = "array") && negb (bool_decide (p_Ref items = ""))
           then concat_strings [html "<span class=`prop-type`>array&lt;"; schema_link (TrimPrefix (p_Ref items) schemas_ref); "&gt;</span>"]
           else plain
       | None => plain
       end.

(** [walkYAML]: down the mapping nodes along the keys, the first match each. *)
Fixpoint walkYAML (node : Node) (keys : list string) : string :=
  match keys with
  | [] => ""
  | target :: rest =>
      let n := match Kind node, Content node with DocumentNode, c :: _ => c | _, _ => node end in
      if bool_decide (Kind n = MappingNode) then
        match list_find (λ kv, Value kv.1 = target) (pairs (Content n)) with
        | Some (_, (_, v)) => match rest with [] => Value v | _ => walkYAML v rest end
        | None => ""
        end
      else ""
  end.
Definition snsEventType (node : Node) : string :=
  if bool_decide (Kind node = ZeroNode) then ""
  else let v := walkYAML node ["sns"; "messageAttributes"; "EventType"; "value"] in
       if negb (bool_decide (v = "")) then v
       else walkYAML node ["sns"; "messageAttributes"; "event_type"; "value"].

(** ** Renderers *)

(** A renderer reads and changes the shared components; [None]: it never returns. *)
Definition Render (A : Type) : Type := asyncComponents → option (A * asyncComponents).
#[export] Instance Render_ret : MRet Render := λ A a c, Some (a, c).
#[export] Instance Render_bind : MBind Render := λ A B k m c, '(a, c') ← m c; k a c'.
Fixpoint render_each {A} (f : A → Render string) (l : list A) : Render string :=
  match l with
  | [] => mret ""
  | x :: l' => s ← f x; rest ← render_each f l'; mret (s ++ rest)
  end.
Definition resolved (fuel : nat) (owner : option string) (sc : asyncSchema) : Render (asyncSchema * option string) :=
  λ c, r ← resolveSchema fuel c owner sc; Some (r, c).

Section renderers.
Context `{UnicodeCase} (fuel : nat).

Definition server_row (kv : Node * Node) : string :=
  let '(k, val) := kv in
  let attr '(host, proto, desc) '(a, v) :=
    if bool_decide (Value a = "host") then (Value v, proto, desc)
    else if bool_decide (Value a = "protocol") then (host, Value v, desc)
    else if bool_decide (Value a = "description") then (host, proto, cut 200 "…" (Value v))
    else (host, proto, desc) in
  let '(host, proto, desc) := foldl attr ("", "", "") (pairs (Content val)) in
  concat_strings [html "<div class=`server-item`>
  <div><span class=`server-name`>"; EscapeString (Value k); html "</span></div>
  <div><span class=`server-proto`>"; EscapeString (ToUpper proto); html "</span> <span class=`server-host`>"; EscapeString host; html "</span></div>
  <div class=`server-desc`>"; EscapeString (Utf8.TrimSpace desc); "</div>
</div>"].
Definition renderServers (node : Node) : string :=
  if bool_decide (Kind node = ZeroNode) then ""
  else concat_strings
    [html "<div class=`section` id=`servers`><div class=`section-title`>Servers</div>"; html "<div class=`card`>";
     (if bool_decide (Kind node = MappingNode) then concat_strings (server_row <$> pairs (Content node)) else "");
     "</div></div>"].

(** The rows of a table: the declared order, what it lacks in key order, the
    required ones first. *)
Definition missing_keys (sc : asyncSchema) (keys : list string) : list string :=
  filter (λ k, k ∉ keys) (sortedKeys (Properties sc)).
Definition required_first (required : list string) : list string → list string :=
  SliceStable (λ a b, bool_decide (a ∈ required) && negb (bool_decide (b ∈ required))).
Definition unsorted_keys (sc : asyncSchema) : list string :=
  let keys := match PropertyOrder sc with [] => sortedKeys (Properties sc) | o => o end in
  (keys ++ missing_keys sc keys)%list.
Definition table_keys (sc : asyncSchema) : list string := required_first (Required sc) (unsorted_keys sc).
(** [keys] is the shared slice when the order is there and complete; an
    [append] moves it to an array of its own. *)
Definition sorts_in_place (sc : asyncSchema) : bool :=
  negb (bool_decide (PropertyOrder sc = [])) && bool_decide (missing_keys sc (PropertyOrder sc) = []).
Definition write_back (owner : option string) (sc : asyncSchema) : Render unit := λ c,
  Some (tt, match owner with
            | Some name => if sorts_in_place sc
                           then mkComps (Messages c) (alter (set_order (table_keys sc)) name (Schemas c)) else c
            | None => c
            end).

Definition enum_list (enum : list string) : string :=
  concat_strings [html "<div class=`enum-list`>";
    concat_strings ((λ ev, concat_strings [html "<span class=`enum-val`>"; EscapeString ev; "</span>"]) <$> enum); "</div>"].
Definition table_row (sc : asyncSchema) (schemaID : string) (k : string) : string :=
  let v := default (mkProp "" "" "" None [] "" None) (Properties sc !! k) in
  let req := if bool_decide (k ∈ Required sc) then html "<span class=`prop-req`>required</span>" else "" in
  let desc := EscapeString (cut 200 "…" (Utf8.TrimSpace (p_Desc v))) in
  let enumHTML := match p_Enum v with [] => "" | e => enum_list e end in
  let itemEnumHTML :=
    match p_Items v with
    | Some items =>
        match p_Enum items with
        | [] => ""
        | e => html "<div style=`margin-top:4px;font-size:.72rem;color:var(--muted)`>values:</div>" ++ enum_list e
        end
    | None => ""
    end in
  let exampleHTML :=
    match MarshalIndent <$> p_Example v with
    | Some b =>
        concat_strings [html "<pre style=`background:#0d0d0d;border:1px solid rgba(132,38,176,.25);padding:6px 8px;border-radius:6px;font-size:.72rem;margin-top:6px;color:#e879f9;overflow-x:auto;white-space:pre-wrap`>";
          EscapeString b; "</pre>"]
    | None => ""
    end in
  let rowID := if bool_decide (schemaID = "") then ""
               else concat_strings [html " id=`field--"; EscapeString schemaID; "--"; EscapeString k; html "`"] in
  concat_strings ["<tr"; rowID; html ">
<td onclick=`copyText('"; EscapeString k; html "')` title=`Click to copy` style=`cursor:pointer`><span class=`prop-name`>"; EscapeString k; "</span></td>
<td>"; typeHTML v; "</td>
<td>"; req; html "</td>
<td><span class=`prop-desc`>"; desc; "</span>"; enumHTML; itemEnumHTML; exampleHTML; "</td>
</tr>"].
Definition props_table (sc : asyncSchema) (schemaID : string) : string :=
  concat_strings [html "<table class=`prop-table`><thead><tr>
<th>Field</th><th>Type</th><th>Required</th><th>Description</th>
</tr></thead><tbody>"; concat_strings (table_row sc schemaID <$> table_keys sc); "</tbody></table>"].
Definition renderPropsTable (r : asyncSchema * option string) (schemaID : string) : Render string :=
  let '(sc, owner) := r in
  if bool_decide (Properties sc = ∅)
  then mret (html "<p style=`color:var(--muted);font-size:.8rem`>No properties.</p>")
  else _ ← write_back owner sc; mret (props_table sc schemaID).

Definition payload_table (payloadRef : string) : Render string := λ c,
  match Schemas c !! payloadRef with
  | Some sc =>
      (r ← resolved fuel (Some payloadRef) sc;
       t ← renderPropsTable r payloadRef;
       mret (concat_strings [html "<div style=`font-size:.78rem;color:var(--muted);margin-bottom:.5rem`>Payload: <span style=`color:var(--code);font-family:monospace`>";
               EscapeString payloadRef; "</span></div>"; t])) c
  | None => Some ("", c)
  end.
Definition renderMessage (name : string) (msg : asyncMessage) : Render string :=
  let title := if bool_decide (ms_Title msg = "") then name else ms_Title msg in
  let summary := Utf8.TrimSpace (ms_Summary msg) in
  let eventType := snsEventType (ms_Bindings msg) in
  let '(badgeClass, badgeLabel) := if isConsumed msg then ("m-recv", "RECEIVE") else ("m-send", "SEND") in
  let head := concat_strings [html "<div class=`card` id=`msg-"; name; html "`>
<div class=`card-header`>
  <span class=`badge "; badgeClass; html "`>"; badgeLabel; html "</span>
  <span class=`card-title`>"; EscapeString title; "</span>
  "; (if bool_decide (eventType = "") then ""
      else concat_strings [html "<span class=`sns-attr`>event_type: "; EscapeString eventType; "</span>"]); html "
  <button class=`toggle-btn` type=`button` tabindex=`-1` aria-hidden=`true`>▸</button>
</div>
<div class=`card-body` style=`display:none`>
"; (if bool_decide (summary = "") then ""
    else concat_strings [html "<p class=`card-summary` style=`margin-bottom:.75rem`>"; EscapeString summary; "</p>"])] in
  let payloadRef := TrimPrefix (ms_Payload msg) schemas_ref in
  payload ← (if bool_decide (payloadRef = "") then mret "" else payload_table payloadRef);
  mret (concat_strings [head; payload; "</div></div>"]).

Definition renderSchema (name : string) : Render string := λ c,
  match Schemas c !! name with
  | Some sc =>
      (r ← resolved fuel (Some name) sc;
       t ← renderPropsTable r name;
       mret (concat_strings [html "<div class=`card` id=`schema-"; name; html "`>
<div class=`card-header`><span class=`card-title` style=`font-family:monospace`>"; EscapeString name; html "</span><button class=`toggle-btn` type=`button` tabindex=`-1` aria-hidden=`true`>▸</button></div>
<div class=`card-body` style=`display:none`>"; t; "</div></div>"])) c
  | None => Some ("", c)
  end.

(** *** The sections of [renderPage] between its header and its scripts *)
Definition nav_links (kind : string) (names : list string) : string :=
  concat_strings ((λ name, concat_strings [html "<a href=`#"; kind; "-"; name; html "`>"; EscapeString name; "</a>"]) <$> names).
Definition nav_group (title links : string) : string :=
  concat_strings [html "<div class=`sidebar-group`><div class=`sidebar-label`>"; title; "</div>"; links; "</div>"].
Definition message_section (id title : string) (names : list string) : Render string :=
  match names with
  | [] => mret ""
  | _ =>
      body ← render_each (λ name c, match Messages c !! name with
                                    | Some msg => renderMessage name msg c
                                    | None => Some ("", c) end) names;
      mret (concat_strings [html "<div class=`section` id=`"; id; html "`><div class=`section-title`>"; title; "</div>"; body; "</div>"])
  end.
Definition renderSections (desc : string) (servers : Node) : Render string := λ c,
  let '(published, consumed) := splitMessagesByDirection (Messages c) in
  let group title names := match names with [] => "" | _ => nav_group title (nav_links "msg" names) end in
  let opening := concat_strings [html "<div class=`layout`><nav class=`sidebar`>"; html "<div style=`padding:.75rem 1rem .25rem`><input id=`search` placeholder=`Search...` autocomplete=`off` style=`width:100%;padding:6px 10px;background:#0d0d0d;border:1px solid var(--border);color:#fff;border-radius:6px;font-size:.8rem;outline:none`></div>"; html "<div class=`sidebar-group`><div class=`sidebar-label`>Overview</div>"; html "<a href=`#info`>Info</a><a href=`#servers`>Servers</a></div>"] in
  let nav := opening ++ group "Published Messages" published ++ group "Consumed Messages" consumed
             ++ nav_group "Schemas" (nav_links "schema" (sortedKeys (Schemas c))) ++ "</nav>" in
  let info := if bool_decide (desc = "") then ""
              else concat_strings [html "<div class=`info-desc`>";
                EscapeString (cut 800 "

[truncated — see api/asyncapi.yaml for full description]" desc); "</div>"] in
  (pub ← message_section "messages-published" "Published Messages" published;
   con ← message_section "messages-consumed" "Consumed Messages" consumed;
   sch ← render_each renderSchema (sortedKeys (Schemas c));
   mret (concat_strings
     [nav; html "<main class=`content`>"; html "<div class=`section` id=`info`>"; html "<div class=`section-title`>Info</div>";
      info; "</div>"; renderServers servers; pub; con;
      html "<div class=`section` id=`schemas`><div class=`section-title`>Schemas</div>"; sch; "</div>"])) c.

(** The header of the page, with the badge of the environment. *)
Definition envLabel (env : string) : string := if bool_decide (ToUpper env = "") then "DEV" else ToUpper env.
Definition envColor (env : string) : string :=
  if bool_decide (ToLower env ∈ ["prod"; "production"]) then "#ec4b3c"
  else if bool_decide (ToLower env ∈ ["staging"; "stage"]) then "#f59e0b"
  else "#22c55e".
Definition page_header (s : asyncSpec) (env : string) : string :=
  concat_strings [html "<div class=`header`>
  <div>
    <h1>"; EscapeString (in_Title (Info s)); html "</h1>
    <p>Events on iam.delegation.events + the delegation-cascade-q consumer contract</p>
  </div>
  <span class=`badge badge-version`>v"; EscapeString (in_Version (Info s)); html "</span>
  <span class=`badge` style=`background:linear-gradient(to right,#bd0283,#ec4b3c);color:#fff`>AsyncAPI "; EscapeString (AsyncAPI s); html "</span>
  <span class=`badge` style=`background:"; envColor env; html ";color:#fff;margin-left:auto`>"; EscapeString (envLabel env); html "</span>
  <button id=`theme-btn` class=`theme-toggle` onclick=`toggleTheme()` title=`Toggle light/dark mode`>🌙</button>
</div>
"].
Definition renderPage (s : asyncSpec) (env : string) : Render string :=
  sections ← renderSections (in_Desc (Info s)) (Servers s);
  mret (page_header s env ++ sections).
End renderers.

(** ** The routes *)

(** The variables behind [loadAsyncSpec]: [None] before the first request. *)
Definition SpecCache : Type := option (result goerror asyncSpec).

Inductive DocsAnswer :=
| DocsStatus (status : Z)                   (* refused before any handler *)
| DocsError (r : Response)
| DocsPage (page : string)                  (* 200, text/html *)
| DocsYAML (raw : string)                   (* 200, application/yaml *)
| DocsTheme | DocsInitializer               (* 200, the constants of swagger_theme.go, swagger_initializer.go *)
| DocsSwagger.                              (* whatever the Swagger UI library answers *)

Section docs_routes.
Context `{UnicodeCase} (Unmarshal : string → result goerror asyncSpec) (AsyncAPISpec : string) (fuel : nat).

Definition parseAsyncSpec (raw : string) : result goerror asyncSpec :=
  match Unmarshal raw with Ok s => Ok s | Err e => Err (EWrap "parse AsyncAPI spec" e) end.
Definition loadAsyncSpec (cache : SpecCache) : result goerror asyncSpec * SpecCache :=
  let r := default (parseAsyncSpec AsyncAPISpec) cache in (r, Some r).

(** The handler writes through the pointer it was given, so the sorted orders
    are those of the cached specification. *)
Definition AsyncAPIHandler (env : string) (cache : SpecCache) : option (DocsAnswer * SpecCache) :=
  match loadAsyncSpec cache with
  | (Err _, cache') => Some (DocsError (writeError 500 "internal_server_error"), cache')
  | (Ok s, _) =>
      '(page, c) ← renderPage fuel s env (Comps s);
      Some (DocsPage page, Some (Ok (mkSpec (AsyncAPI s) (Info s) (Servers s) c)))
  end.

(** The routes [registerDocsRoutes] adds, for a GET of a path. *)
Inductive docs_route := RTheme | RInitializer | RSwagger | RViewer | RYAML.
Definition registerDocsRoutes (path : string) : option docs_route :=
  match strip "/swagger/" path with
  | Some _ => Some (if HasSuffix path "/index.css" then RTheme
                    else if HasSuffix path "/swagger-initializer.js" then RInitializer else RSwagger)
  | None => if bool_decide (path = "/asyncapi") then Some RViewer
            else if bool_decide (path = "/asyncapi.yaml") then Some RYAML else None
  end.
Definition serve_docs (d : DocsConfig) (route : docs_route) (authorization : string) (cache : SpecCache)
    : option (DocsAnswer * SpecCache) :=
  match docs_gate d authorization, route with
  | Some status, _ => Some (DocsStatus status, cache)
  | None, RTheme => Some (DocsTheme, cache)
  | None, RInitializer => Some (DocsInitializer, cache)
  | None, RSwagger => Some (DocsSwagger, cache)
  | None, RViewer => AsyncAPIHandler (docs_Environment d) cache
  | None, RYAML => Some (DocsYAML AsyncAPISpec, cache)
  end.
(** Requests one after the other. *)
Fixpoint serve_all (d : DocsConfig) (requests : list (docs_route * string)) (cache : SpecCache)
    : option (list DocsAnswer * SpecCache) :=
  match requests with
  | [] => Some ([], cache)
  | (route, authorization) :: rest =>
      '(a, cache1) ← serve_docs d route authorization cache;
      '(answers, cache2) ← serve_all d rest cache1;
      Some (a :: answers, cache2)
  end.
End docs_routes.
