(* ===== verification/SchemaSpec.v ===== *)
(** * Events and their schemas

    Every payload the service publishes conforms to the embedded schema of its
    type, so the codec never refuses one; and what the consumed schemas accept
    the handlers can decode. *)
From S2P Require Import Prelude GoLib Domain World Store StoreFacts EventBus EventSchema DelegationService CascadeService Jobs.
Local Open Scope string_scope.
Local Open Scope Z_scope.

(** ** Published payloads *)
Definition payload_ok (d : EventData) : bool :=
  match d with
  | Started p => bool_decide (sp_Scope p ∈ scopes) && marshalable d
  | Ended p => bool_decide (ep_Scope p ∈ scopes) && bool_decide (ep_EndedReason p ∈ end_reasons)
  | ReviewRequested p => bool_decide (rp_Scope p ∈ scopes) && bool_decide (1 ≤ rp_DaysRemaining p ≤ 3)
  | EscalationRequested p => bool_decide (xp_Scope p ∈ scopes) && bool_decide (xp_Reason p = EndReasonDelegateDisabled)
  end.

(** Every payload struct has a type the codec knows and a schema. *)
Lemma published_type d : type_of d ∈ ByEventType.
Proof. destruct d; repeat first [left | right]. Qed.
Lemma published_entry d : ∃ s, entry (type_of d) schema_ByEventType = Some s.
Proof. destruct d; eexists; reflexivity. Qed.

(** Case analysis on membership in a literal list. *)
Ltac elem_cases :=
  repeat match goal with
         | H : _ ∈ _ :: _ |- _ => apply elem_of_cons in H as [?|H]
         | H : _ ∈ [] |- _ => by apply elem_of_nil in H
         end.

Section published.
Context `{E : Env} `{U : UuidLib} `{F : Formats} `{SL : !SchemaLaws E U F}.

Ltac conform :=
  cbv -[in_format uuid_String rfc3339nano];
  repeat first [ rewrite uuid_format | rewrite time_format by done ]; reflexivity.

Lemma payload_conforms d :
  payload_ok d = true → ∃ s, entry (type_of d) schema_ByEventType = Some s ∧ conforms s (payload_json d) = true.
Proof.
  destruct d as [[] | [] | [] | []]; unfold payload_ok; rewrite andb_true_iff, bool_decide_eq_true; simpl.
  - intros [Hs Ht]. apply andb_true_iff in Ht as [Hst He]. exists document.DelegationStarted. split; [done|].
    unfold scopes in Hs. destruct sp_ScopeID, sp_EndsAt; elem_cases; subst; conform.
  - rewrite bool_decide_eq_true. intros [Hs Hr]. exists document.DelegationEnded. split; [done|].
    unfold scopes, end_reasons in *. destruct ep_ScopeID; elem_cases; subst; conform.
  - rewrite bool_decide_eq_true. intros [Hs Hr]. exists document.DelegationReviewRequested. split; [done|].
    assert (rp_DaysRemaining = 1 ∨ rp_DaysRemaining = 2 ∨ rp_DaysRemaining = 3) as Hd by lia.
    unfold scopes in Hs. destruct rp_ScopeID, Hd as [?|[?|?]]; elem_cases; subst; conform.
  - rewrite bool_decide_eq_true. intros [Hs ->]. exists document.DelegationEscalationRequested. split; [done|].
    unfold scopes in Hs. destruct xp_ScopeID; elem_cases; subst; conform.
Qed.

Lemma accepted d : payload_ok d = true → ValidatingCodec_Encode (type_of d) d = Ok tt.
Proof.
  intros Hok. destruct (payload_conforms d Hok) as (s & Hs & Hc).
  unfold ValidatingCodec_Encode. case_bool_decide; [|done].
  by apply (published_decided _ _ _ Hs) in Hc as ->.
Qed.
Lemma encodable d : payload_ok d = true → ¬ refused (type_of d) d.
Proof.
  intros Hok [Hm|[e He]]; [|by rewrite accepted in He].
  destruct d; simpl in *; [|done..]. by rewrite Hm, andb_false_r in Hok.
Qed.
End published.

(** ** The payloads of the program

    Built from rows that satisfy the CHECK constraints they are all acceptable;
    a start is announced when its dates have a year JSON can hold. *)
Lemma row_scope d : row_ok d = true → Scope d ∈ scopes.
Proof. unfold row_ok. rewrite !andb_true_iff, bool_decide_eq_true. tauto. Qed.

Definition dates_ok (d : Delegation) : bool :=
  year_representable (StartsAt d) && match EndsAt d with Some e => year_representable e | None => true end.

Lemma payload_started d : row_ok d = true → dates_ok d = true → payload_ok (startedEvent d) = true.
Proof. intros Hr Hd. simpl. rewrite bool_decide_true by by apply row_scope. done. Qed.
Lemma payload_ended t i d reason actor :
  row_ok d = true → reason ∈ end_reasons → payload_ok (endedPayload t i d reason actor) = true.
Proof. intros Hr Hreason. simpl. rewrite !bool_decide_true; [done|done|by apply row_scope]. Qed.
Lemma payload_ended_event d reason :
  row_ok d = true → reason ∈ end_reasons → payload_ok (endedEvent d reason) = true.
Proof. apply payload_ended. Qed.
Lemma payload_removed t d reason :
  row_ok d = true → reason ∈ end_reasons → payload_ok (Cascade.removedPayload t reason d) = true.
Proof. intros Hr Hreason. simpl. rewrite !bool_decide_true; [done|done|by apply row_scope]. Qed.
Lemma payload_escalation t d : row_ok d = true → payload_ok (Cascade.escalationPayload t d) = true.
Proof. intros Hr. simpl. by rewrite !bool_decide_true by (done || by apply row_scope). Qed.
Lemma payload_review d n : row_ok d = true → 1 ≤ n ≤ 3 → payload_ok (reviewEvent d n) = true.
Proof. intros Hr Hn. simpl. rewrite !bool_decide_true; [done|done|by apply row_scope]. Qed.

(** ** Consumed payloads

    encoding/json matches the names of members without regard to case and
    decodes every duplicate, the schema knows exact names and the last of them:
    a document with plain names has no other. *)
Definition field_names : list string := ["tenant_id"; "user_id"; "actor_id"; "changed_fields"; "status"].
Definition plain_names (j : json) : bool :=
  match j with
  | JObj ms => bool_decide (NoDup (fst <$> ms))
      && forallb (λ m, forallb (λ f, implb (same_field m.1 f) (bool_decide (m.1 = f))) field_names) ms
  | _ => true
  end.

Section entries.
Context {A : Type}.
Implicit Types l : list (string * A).

Lemma entry_elem n l a : entry n l = Some a → (n, a) ∈ l.
Proof.
  induction l as [|[m b] l IH]; simpl; [done|]. case_bool_decide as Heq; [intros [= ->]; subst; left|].
  intros Ha. right. auto.
Qed.
Lemma entry_unique n l a : NoDup (fst <$> l) → (n, a) ∈ l → entry n l = Some a.
Proof.
  induction l as [|[m b] l IH]; simpl; [by intros _ ?%elem_of_nil|]. intros [Hm Hnd]%NoDup_cons [Heq|Hin]%elem_of_cons.
  - injection Heq as -> ->. by rewrite bool_decide_true.
  - rewrite bool_decide_false; [auto|]. intros ->. apply Hm, list_elem_of_fmap. by exists (n, a).
Qed.
Lemma entry_absent n l : entry n l = None → n ∉ fst <$> l.
Proof.
  induction l as [|[m b] l IH]; simpl; [by intros _ ?%elem_of_nil|]. case_bool_decide as Heq; [done|].
  intros Hl [?|Hin]%elem_of_cons; [by subst|]. by apply IH.
Qed.
End entries.

Lemma member_entry ms f : NoDup (fst <$> ms) → member ms f = entry f ms.
Proof.
  intros Hnd. unfold member. assert (NoDup (fst <$> reverse ms)) as Hnd' by by rewrite fmap_reverse, reverse_Permutation.
  destruct (entry f ms) as [v|] eqn:He.
  - apply entry_unique; [done|]. apply elem_of_reverse. by apply entry_elem.
  - destruct (entry f (reverse ms)) as [v|] eqn:Hr; [|done]. exfalso.
    apply (entry_absent f ms He), list_elem_of_fmap. exists (f, v). split; [done|].
    apply elem_of_reverse. by apply entry_elem.
Qed.

(** The members a field is decoded from are the one the schema looks at. *)
Lemma plain_field ms f :
  plain_names (JObj ms) = true → f ∈ field_names → field_members f ms = option_list (member ms f).
Proof.
  unfold plain_names. rewrite andb_true_iff, bool_decide_eq_true, forallb_forall. intros [Hnd Hp] Hf.
  rewrite member_entry by done.
  unfold field_members. revert Hnd Hp. induction ms as [|[n v] ms IH]; intros Hnd Hp; [done|].
  apply NoDup_cons in Hnd as [Hn Hnd].
  specialize (IH Hnd ltac:(intros m Hm; apply Hp; by right)).
  assert (same_field n f = true ↔ n = f) as Hs.
  { specialize (Hp (n, v) ltac:(by left)). rewrite forallb_forall in Hp. specialize (Hp f ltac:(by apply list_elem_of_In)).
    cbn [fst] in Hp. split; [intros Heq; rewrite Heq in Hp; by apply bool_decide_eq_true in Hp|].
    intros ->. unfold same_field. by apply bool_decide_eq_true. }
  rewrite filter_cons. cbn [fst entry]. case_decide as Hd.
  - apply Hs in Hd as ->. rewrite bool_decide_true, fmap_cons, IH by done.
    destruct (entry f ms) as [x|] eqn:He; [|done]. exfalso. apply Hn, list_elem_of_fmap. exists (f, x).
    split; [done|by apply entry_elem].
  - rewrite bool_decide_false; [done|]. intros ->. apply Hd. by apply Hs.
Qed.

Section consumed.
Context `{E : Env} `{U : UuidLib} `{F : Formats} `{SL : !SchemaLaws E U F}.

(** A field whose members all decode is decoded. *)
Lemma value_decodes {A} (dec : json → option A) name zero ms :
  plain_names (JObj ms) = true → name ∈ field_names →
  (∀ v, member ms name = Some v → v ≠ JNull ∧ dec v ≠ None) → value_field dec name zero ms ≠ None.
Proof.
  intros Hp Hn Hv. unfold value_field. rewrite plain_field by done. destruct (member ms name) as [v|]; [|done].
  simpl. destruct (Hv v eq_refl) as [? ?]. by destruct v.
Qed.
Lemma pointer_decodes {A} (dec : json → option A) name ms :
  plain_names (JObj ms) = true → name ∈ field_names →
  (∀ v, member ms name = Some v → dec v ≠ None) → pointer_field dec name ms ≠ None.
Proof.
  intros Hp Hn Hv. unfold pointer_field. rewrite plain_field by done. destruct (member ms name) as [v|]; [|done].
  simpl. specialize (Hv v eq_refl). destruct v; simpl; try done; by destruct (dec _).
Qed.

Lemma uuid_conforms v : conforms (formatted "uuid") v = true → v ≠ JNull ∧ json_uuid v ≠ None.
Proof.
  destruct v; try done. intros Hc. split; [done|]. apply uuid_format_parses. revert Hc. simpl.
  by rewrite !andb_true_r.
Qed.
Lemma strings_conform v : conforms (array_of 1 text) v = true → v ≠ JNull ∧ json_strings v ≠ None.
Proof.
  destruct v as [| | | |l|]; try done. simpl. rewrite andb_true_iff. intros [_ Hall]. split; [done|].
  assert (is_Some (mapM (λ x, match x with JNull => Some EmptyString | _ => json_string x end) l)) as [? ->]; [|done].
  apply mapM_is_Some. rewrite Forall_forall. intros x Hx. rewrite forallb_forall in Hall.
  specialize (Hall x ltac:(by apply list_elem_of_In)). destruct x; try done. by eexists.
Qed.
Lemma string_conforms l v : conforms (one_of l) v = true → json_string v ≠ None.
Proof. by destruct v. Qed.

(** What an object schema says of one of its properties. *)
Lemma conforms_object req props ms name ps v :
  conforms (object req props) (JObj ms) = true → (name, ps) ∈ props → member ms name = Some v → conforms ps v = true.
Proof.
  simpl. rewrite andb_true_iff, !forallb_forall. intros [_ Hp] Hin Hm.
  specialize (Hp (name, ps) ltac:(by apply list_elem_of_In)). simpl in Hp. by rewrite Hm in Hp.
Qed.

Lemma conforms_is_object req props j : conforms (object req props) j = true → ∃ ms, j = JObj ms.
Proof. destruct j; try done. eauto. Qed.

Ltac listed := by repeat first [left | right].
Lemma bind_some {A B} (o : option A) (f : A → option B) : o ≠ None → (∀ a, f a ≠ None) → o ≫= f ≠ None.
Proof. by destruct o; simpl; auto. Qed.

(** An object is decoded field by field. *)
Lemma bind_members {B} ms (f : list (string * json) → option B) : f ms ≠ None → struct_members (JObj ms) ≫= f ≠ None.
Proof. done. Qed.
Create HintDb decoders.
#[local] Hint Unfold unmarshal_MembershipRevoked unmarshal_TenantMembershipsPurged unmarshal_UserUpdated : decoders.
Ltac start_decode := autounfold with decoders; apply bind_members.
Ltac decode_fields Hc Hp :=
  repeat (apply bind_some; [first [done
    | apply value_decodes; [exact Hp|listed|intros v Hv; first
        [ apply uuid_conforms; eapply conforms_object; [exact Hc| |exact Hv]; listed
        | apply strings_conform; eapply conforms_object; [exact Hc| |exact Hv]; listed ]]
    | apply pointer_decodes; [exact Hp|listed|intros v Hv; eapply string_conforms, conforms_object; [exact Hc| |exact Hv]; listed]]
   |intros ?]); done.

Lemma revoked_decodes j :
  conforms document.MembershipRevoked j = true → plain_names j = true → unmarshal_MembershipRevoked j ≠ None.
Proof. intros Hc Hp. destruct (conforms_is_object _ _ _ Hc) as [ms ->]. start_decode. decode_fields Hc Hp. Qed.
Lemma purged_decodes j :
  conforms document.TenantMembershipsPurged j = true → plain_names j = true → unmarshal_TenantMembershipsPurged j ≠ None.
Proof. intros Hc Hp. destruct (conforms_is_object _ _ _ Hc) as [ms ->]. start_decode. decode_fields Hc Hp. Qed.
Lemma updated_decodes j :
  conforms document.UserUpdated j = true → plain_names j = true → unmarshal_UserUpdated j ≠ None.
Proof. intros Hc Hp. destruct (conforms_is_object _ _ _ Hc) as [ms ->]. start_decode. decode_fields Hc Hp. Qed.
End consumed.
