(* ===== verification/ServiceFacts.v ===== *)
(** * The effects of the services on the tables

    Proved once against the contracts of the ports: whatever a use case does and
    however it fails, its effect on the tables is within the relation its ports
    are within. *)
From S2P Require Import Prelude GoLib Domain World Store StoreFacts MetricsRec EventBus EventSchema Postgres Contracts ClientFacts DelegationService CascadeService Consumer Jobs Http.
Local Open Scope Z_scope.

(** An optional collaborator keeps its promise when it is there. *)
Definition each {C} (P : C → Prop) (o : option C) : Prop := ∀ c, o = Some c → P c.

Section services.
Context `{E : Env} `{P : PgCommon} `{U : UuidLib} `{PL : !PgCommonLaws E P U} `{T : TimeText}.
Context (pool : Role) (K : Ctx → Prop) (R : relation Db) `{Hc : !Confined pool K R}.
#[local] Instance svc_preorder : PreOrder R := conf_pre (pool:=pool) (K:=K).

#[local] Hint Extern 2 (Within _ (enqueue _ _ _ _ _ _)) =>
  apply (within_enqueue pool K R); by repeat split : lawful.

(** *** DelegationService *)
Class LawfulService (s : DelegationService) : Prop := {
  ls_repo : LawfulRepo K R (delegations s);
  ls_settings : LawfulSettings K R (settings s);
  ls_runner : LawfulRunner K R (txRunner s);
  ls_up : QuietUserProfile (userProfile s);
  ls_mc : QuietMembership (membershipCheck s);
  ls_catalog : each QuietCatalog (catalogAdmin s);
  ls_idem : each QuietIdempotency (idempotency s);
  ls_cache : each QuietCache (cache s);
  ls_metrics : each QuietMetrics (metrics s);
}.

Section delegation_service.
Context (s : DelegationService) `{Hs : !LawfulService s}.
#[local] Instance i1 : LawfulRepo K R (delegations s) := ls_repo (s:=s).
#[local] Instance i2 : LawfulSettings K R (settings s) := ls_settings (s:=s).
#[local] Instance i3 : LawfulRunner K R (txRunner s) := ls_runner (s:=s).
#[local] Instance i4 : QuietUserProfile (userProfile s) := ls_up (s:=s).
#[local] Instance i5 : QuietMembership (membershipCheck s) := ls_mc (s:=s).

Ltac collaborator :=
  match goal with
  | H : catalogAdmin s = Some ?c |- _ => pose proof (ls_catalog (s:=s) c H); clear H
  | H : idempotency s = Some ?c |- _ => pose proof (ls_idem (s:=s) c H); clear H
  | H : cache s = Some ?c |- _ => pose proof (ls_cache (s:=s) c H); clear H
  | H : metrics s = Some ?c |- _ => pose proof (ls_metrics (s:=s) c H); clear H
  end.

Lemma within_when_cache (f : Cache → M unit) : (∀ c, QuietCache c → Within (DbRel R) (f c)) → Within (DbRel R) (when_some (cache s) f).
Proof. intros Hf. destruct (cache s) as [c|] eqn:Hc'; simpl; [|apply _]. by apply Hf, (ls_cache (s:=s)). Qed.
Lemma within_when_metrics (f : Metrics → M unit) :
  (∀ c, QuietMetrics c → Within (DbRel R) (f c)) → Within (DbRel R) (when_some (metrics s) f).
Proof. intros Hf. destruct (metrics s) as [c|] eqn:Hc'; simpl; [|apply _]. by apply Hf, (ls_metrics (s:=s)). Qed.
Lemma within_when_idem (f : IdempotencyStore → M unit) :
  (∀ c, QuietIdempotency c → Within (DbRel R) (f c)) → Within (DbRel R) (when_some (idempotency s) f).
Proof. intros Hf. destruct (idempotency s) as [c|] eqn:Hc'; simpl; [|apply _]. by apply Hf, (ls_idem (s:=s)). Qed.

Ltac svc_step :=
  lazymatch goal with
  | |- Within _ (when_some (cache s) _) => apply within_when_cache; intros ? ?
  | |- Within _ (when_some (metrics s) _) => apply within_when_metrics; intros ? ?
  | |- Within _ (when_some (idempotency s) _) => apply within_when_idem; intros ? ?
  | |- Within _ _ => first [lawful_step | collaborator]
  end.
Ltac svc := repeat (svc_step; cbv beta).

Lemma within_List ctx t u : K ctx → Within (DbRel R) (DelegationService.List s ctx t u).
Proof. intros HK. unfold DelegationService.List. svc. Qed.

Lemma within_claim ctx t key : K ctx → Within (DbRel R) (claimIdempotencyKey s ctx t key).
Proof. intros HK. unfold claimIdempotencyKey. destruct (bool_decide _); svc. Qed.
Lemma within_checkDepartment ctx req : Within (DbRel R) (checkDepartment s ctx req).
Proof. unfold checkDepartment. svc. Qed.
Lemma within_checkBothMemberships ctx t u d : Within (DbRel R) (checkBothMemberships s ctx t u d).
Proof. unfold checkBothMemberships, concurrently. svc. Qed.
Lemma within_checkDelegateAvailable ctx t d now starts :
  Within (DbRel R) (checkDelegateAvailable s ctx t d now starts).
Proof. unfold checkDelegateAvailable. svc. Qed.

Lemma within_setOutOfOffice ctx t u now starts review req :
  Within (DbRel R) (setOutOfOffice s ctx t u now starts review req).
Proof. unfold setOutOfOffice. svc. Qed.

Lemma within_afterCreate ctx t u key d : Within (DbRel R) (afterCreate s ctx t u key d).
Proof. unfold afterCreate. svc. Qed.

Lemma within_persist ctx t u key req starts sched row :
  K ctx → Within (DbRel R) (persist s ctx t u key req starts sched row).
Proof.
  intros HK. unfold persist, insertAndAnnounce.
  repeat first [apply within_afterCreate | svc_step; cbv beta].
Qed.

Lemma within_createClaimed ctx t u key req : K ctx → Within (DbRel R) (createClaimed s ctx t u key req).
Proof.
  intros HK. unfold createClaimed.
  repeat first [ by apply within_persist | by apply within_setOutOfOffice
               | apply within_checkDepartment | apply within_checkBothMemberships
               | apply within_checkDelegateAvailable | svc_step; cbv beta].
Qed.

Lemma within_Create ctx t u key req : K ctx → Within (DbRel R) (Create s ctx t u key req).
Proof.
  intros HK. unfold Create.
  repeat first [ by apply within_claim | by apply within_createClaimed | svc_step; cbv beta].
Qed.

Lemma within_best_effort path m : Within (DbRel R) m → Within (DbRel R) (best_effort s path m).
Proof. intros Hm. unfold best_effort. repeat first [exact Hm | svc_step; cbv beta]. Qed.

Lemma within_cancelInternal ctx t i v reason : K ctx → Within (DbRel R) (cancelInternal s ctx t i v reason).
Proof.
  intros HK. unfold cancelInternal, endAndAnnounce.
  repeat first [ apply within_best_effort | svc_step; cbv beta].
Qed.

Lemma within_Extend ctx t i n v : K ctx → Within (DbRel R) (Extend s ctx t i n v).
Proof.
  intros HK. unfold Extend. repeat first [ apply within_best_effort | svc_step; cbv beta].
Qed.

Lemma within_Reassign ctx t i v req : K ctx → Within (DbRel R) (Reassign s ctx t i v req).
Proof.
  intros HK. unfold Reassign.
  repeat first [ by apply within_cancelInternal | by apply within_Create | svc_step; cbv beta].
Qed.
End delegation_service.

(** *** CascadeService *)
Class LawfulCascade (s : Cascade.CascadeService) : Prop := {
  lc_repo : LawfulRepo K R (Cascade.delegations s);
  lc_settings : LawfulSettings K R (Cascade.settings s);
  lc_runner : LawfulRunner K R (Cascade.txRunner s);
  lc_up : QuietUserProfile (Cascade.userProfile s);
  lc_metrics : each QuietMetrics (Cascade.metrics s);
}.

Section cascade_service.
Context (s : Cascade.CascadeService) `{Hs : !LawfulCascade s}.
#[local] Instance j1 : LawfulRepo K R (Cascade.delegations s) := lc_repo (s:=s).
#[local] Instance j2 : LawfulSettings K R (Cascade.settings s) := lc_settings (s:=s).
#[local] Instance j3 : LawfulRunner K R (Cascade.txRunner s) := lc_runner (s:=s).
#[local] Instance j4 : QuietUserProfile (Cascade.userProfile s) := lc_up (s:=s).

Lemma within_when_cascade_metrics (f : Metrics → M unit) :
  (∀ c, QuietMetrics c → Within (DbRel R) (f c)) → Within (DbRel R) (when_some (Cascade.metrics s) f).
Proof.
  intros Hf. destruct (Cascade.metrics s) as [c|] eqn:Hc'; simpl; [|apply _]. by apply Hf, (lc_metrics (s:=s)).
Qed.
Ltac csc_step :=
  lazymatch goal with
  | |- Within _ (when_some (Cascade.metrics s) _) => apply within_when_cascade_metrics; intros ? ?
  | |- Within _ _ => lawful_step
  end.
Ltac csc := repeat (csc_step; cbv beta).

Lemma within_Cascade_EndForUser ctx t u : K ctx → Within (DbRel R) (Cascade.EndForUser s ctx t u).
Proof. intros HK. unfold Cascade.EndForUser, Cascade.announceRemoved, Cascade.clearPointerOf. csc. Qed.
Lemma within_Cascade_EndForDisabledDelegate ctx t u :
  K ctx → Within (DbRel R) (Cascade.EndForDisabledDelegate s ctx t u).
Proof. intros HK. unfold Cascade.EndForDisabledDelegate, Cascade.announceDisabled. csc. Qed.
Lemma within_ScrubTenant ctx t : K ctx → Within (DbRel R) (Cascade.ScrubTenant s ctx t).
Proof. intros HK. unfold Cascade.ScrubTenant. csc. Qed.
End cascade_service.

(** *** Jobs *)
Class LawfulJobs (j : JobContext) : Prop := {
  lj_repo : LawfulRepo K R (Delegations j);
  lj_runner : LawfulRunner K R (JobTxRunner j);
  lj_bind : ∀ ctx t u, K ctx → K (BindTenantGUC j ctx t u);
  lj_up : QuietUserProfile (UserProfile j);
  lj_prune : ∀ f ctx a b, ProcessedEventsPrune j = Some f → Within (DbRel R) (f ctx a b);
  lj_expiry : ∀ m, JMetrics j = Some m → QuietDb (jm_RecordExpiryDeferred m);
  lj_activation : ∀ m, JMetrics j = Some m → QuietDb (jm_RecordActivationDeferred m);
  lj_review : ∀ m, JMetrics j = Some m → QuietDb (jm_RecordReviewDeferred m);
  lj_warned : ∀ m s, JMetrics j = Some m → QuietDb (jm_RecordReviewWarned m s);
  lj_expired : ∀ m, JMetrics j = Some m → QuietDb (jm_RecordReviewExpired m);
  lj_ended : ∀ m s, JMetrics j = Some m → QuietDb (jm_RecordEnded m s);
  lj_upfail : ∀ m s, JMetrics j = Some m → QuietDb (jm_RecordUPAvailabilityFailure m s);
}.
#[local] Hint Resolve lj_expiry lj_activation lj_review lj_warned lj_expired lj_ended lj_upfail lj_prune : lawful.

Section jobs.
Context (j : JobContext) `{Hj : !LawfulJobs j}.
#[local] Instance k1 : LawfulRepo K R (Delegations j) := lj_repo (j:=j).
#[local] Instance k2 : LawfulRunner K R (JobTxRunner j) := lj_runner (j:=j).
#[local] Instance k3 : QuietUserProfile (UserProfile j) := lj_up (j:=j).

Lemma within_when_job_metrics (f : JobMetrics → M unit) :
  (∀ c, JMetrics j = Some c → Within (DbRel R) (f c)) → Within (DbRel R) (when_some (JMetrics j) f).
Proof. intros Hf. destruct (JMetrics j) as [c|] eqn:Hc'; simpl; [by apply Hf|apply _]. Qed.
Lemma within_enqueueEvent ctx ty t s d c : describes ty t s d → Within (DbRel R) (enqueueEvent ctx ty t s d c).
Proof.
  intros Hd. unfold enqueueEvent. within_rule; [within_rule|apply _]; [apply _|].
  by apply (within_EnqueueCtx pool K R).
Qed.
Ltac job_step :=
  lazymatch goal with
  | |- Within _ (when_some (JMetrics j) _) => apply within_when_job_metrics; intros ? ?
  | |- Within _ (enqueueEvent _ _ _ _ _ _) => apply within_enqueueEvent; by repeat split
  | |- Within _ (tx_RunInTx _ (BindTenantGUC j _ _ _) _ _) =>
      eapply law_RunInTx; [typeclasses eauto|by eapply lj_bind|intros ? ? ?]
  | |- Within _ _ => lawful_step
  end.
Ltac job := repeat (job_step; cbv beta).

Lemma within_Expiry ctx : K ctx → Within (DbRel R) (Expiry j ctx).
Proof. intros HK. unfold Expiry, expireOne, endExpired, endInTx. job. Qed.
Lemma within_Activation ctx : K ctx → Within (DbRel R) (Activation j ctx).
Proof. intros HK. unfold Activation, activateOne, activateScheduled, activateInTx. job. Qed.
Lemma within_ReviewSweep ctx : K ctx → Within (DbRel R) (ReviewSweep j ctx).
Proof. intros HK. unfold ReviewSweep, warnOne, warnInTx, autoEndOne, endReviewExpired, endInTx. job. Qed.
Lemma within_Cleanup ctx : K ctx → Within (DbRel R) (Cleanup j ctx).
Proof. intros HK. unfold Cleanup. job. Qed.
End jobs.

(** *** The cascade consumer *)
Class LawfulConsumer (c : CascadeConsumer) : Prop := {
  lk_user : ∀ ctx t u, K ctx → Within (DbRel R) (cs_EndForUser (cascade c) ctx t u);
  lk_scrub : ∀ ctx t, K ctx → Within (DbRel R) (cs_ScrubTenant (cascade c) ctx t);
  lk_disabled : ∀ ctx t u, K ctx → Within (DbRel R) (cs_EndForDisabledDelegate (cascade c) ctx t u);
  lk_is : ∀ ctx n i, Within (DbRel R) (is_IsProcessed (dedup c) ctx n i);
  lk_mark : ∀ ctx n i, Within (DbRel R) (is_MarkProcessed (dedup c) ctx n i);
  lk_tx : each (LawfulRunner K R) (tx c);
}.
#[local] Hint Resolve lk_user lk_scrub lk_disabled lk_is lk_mark : lawful.

Section consumer.
Context (c : CascadeConsumer) `{Hk : !LawfulConsumer c}.

Lemma within_live (m : M unit) : Recorder m → Within (DbRel R) (live m).
Proof. intros Hm. unfold live. destruct env_metrics_live; apply _. Qed.
Lemma within_wrapping {A} msg (m : M A) : Within (DbRel R) m → Within (DbRel R) (wrapping msg m).
Proof. intros Hm. unfold wrapping. repeat first [exact Hm | lawful_step; cbv beta]. Qed.

Lemma within_runner (r : TxRunner) ctx (fn : Ctx → unit → M unit) :
  tx c = Some r → K ctx → (∀ ctx' u, K ctx' → Within (DbRel R) (fn ctx' u)) →
  Within (DbRel R) (tx_RunInTx r ctx tt fn).
Proof.
  intros Hr HK Hfn. pose proof (lk_tx (c:=c) r Hr) as Hl. apply (law_RunInTx K R); auto.
Qed.

Ltac con_step :=
  lazymatch goal with
  | |- Within _ (live _) => apply within_live, _
  | |- Within _ (wrapping _ _) => apply within_wrapping
  | |- Within _ (tx_RunInTx _ _ _ _) => eapply within_runner; [eassumption|assumption|intros ? ? ?]
  | |- Within _ (match tx ?x with _ => _ end) => destruct (tx x) eqn:?
  | |- Within _ _ => lawful_step
  end.
Ltac con := repeat (con_step; cbv beta).

Lemma within_mark_tx ctx n i : K ctx → Within (DbRel R) (markProcessedInTx ctx (tx c) (dedup c) n i).
Proof. intros HK. unfold markProcessedInTx. con. Qed.

Lemma within_runCascadeAndMark ctx n i fn :
  K ctx → (∀ ctx', K ctx' → Within (DbRel R) (fn ctx')) → Within (DbRel R) (runCascadeAndMark c ctx n i fn).
Proof. intros HK Hfn. unfold runCascadeAndMark. repeat first [by apply Hfn | con_step; cbv beta]. Qed.

Lemma within_skipDuplicate ctx n i : Within (DbRel R) (skipDuplicate ctx (dedup c) n i).
Proof. unfold skipDuplicate. con. Qed.
Lemma within_validatePayload msg : Within (DbRel R) (validatePayload c msg).
Proof. unfold validatePayload. con. Qed.
Lemma within_runHandler ctx n i handler :
  (∀ n i, Within (DbRel R) (handler n i)) → Within (DbRel R) (runHandler c ctx n i handler).
Proof.
  intros Hh. unfold runHandler. repeat first [by apply Hh | apply within_skipDuplicate | con_step; cbv beta].
Qed.
Lemma within_ackFiltered ctx i : K ctx → Within (DbRel R) (ackFiltered c ctx i).
Proof.
  intros HK. unfold ackFiltered.
  repeat first [apply within_skipDuplicate | by apply within_mark_tx | con_step; cbv beta].
Qed.

Section bound.
Context (ctx : Ctx) (msg : Envelope json).

Lemma within_handleMembershipRevoked n i :
  (∀ p user, unmarshal_MembershipRevoked (env_Payload msg) = Some p → K (bindGUC c ctx (mr_TenantID p) user)) →
  Within (DbRel R) (handleMembershipRevoked c ctx msg n i).
Proof.
  intros Hb. unfold handleMembershipRevoked. within_rule; [|apply _].
  apply within_runCascadeAndMark; [by apply Hb|intros ctx' HK]. apply within_wrapping. by apply lk_user.
Qed.
Lemma within_handlePurged n i :
  (∀ p user, unmarshal_TenantMembershipsPurged (env_Payload msg) = Some p →
     K (bindGUC c ctx (tp_TenantID p) user)) →
  Within (DbRel R) (handleTenantMembershipsPurged c ctx msg n i).
Proof.
  intros Hb. unfold handleTenantMembershipsPurged. within_rule; [|apply _].
  apply within_runCascadeAndMark; [by apply Hb|intros ctx' HK]. apply within_wrapping. by apply lk_scrub.
Qed.
Lemma within_handleUserDisabled n i :
  (∀ t user, uuid_Parse (env_TenantID msg) = Some t → K (bindGUC c ctx t user)) →
  Within (DbRel R) (handleUserDisabled c ctx msg n i).
Proof.
  intros Hb. unfold handleUserDisabled. within_rule; [|apply _]. within_rule; [|apply _].
  apply within_runCascadeAndMark; [by apply Hb|intros ctx' HK]. apply within_wrapping. by apply lk_disabled.
Qed.

(** The tenant a message is about: the one of its payload, or of its envelope. *)
Definition message_tenant : option uuid :=
  if bool_decide (env_Type msg = EventMembershipRevoked)
  then mr_TenantID <$> unmarshal_MembershipRevoked (env_Payload msg)
  else if bool_decide (env_Type msg = EventTenantMembershipsPurged)
  then tp_TenantID <$> unmarshal_TenantMembershipsPurged (env_Payload msg)
  else uuid_Parse (env_TenantID msg).

(** [Handle] binds that tenant itself, so it may start from any context on which
    the binding is allowed. *)
Lemma within_Handle :
  K ctx → (∀ t user, message_tenant = Some t → K (bindGUC c ctx t user)) →
  Within (DbRel R) (Handle c ctx msg).
Proof.
  intros HK Hb. unfold message_tenant in Hb. unfold Handle, ackUnknown.
  within_rule; [con|]. within_rule; [|apply _]. within_rule; [apply _|].
  within_rule; [apply within_validatePayload|].
  destruct (bool_decide (env_Type msg = EventMembershipRevoked)).
  { apply within_runHandler. intros. apply within_handleMembershipRevoked. intros p' user Hp.
    apply Hb. by rewrite Hp. }
  destruct (bool_decide (env_Type msg = EventTenantMembershipsPurged)).
  { apply within_runHandler. intros. apply within_handlePurged. intros p' user Hp.
    apply Hb. by rewrite Hp. }
  repeat first
    [ apply within_runHandler; intros ? ? | by apply within_handleUserDisabled
    | by apply within_ackFiltered | by apply within_mark_tx | con_step; cbv beta ].
Qed.
End bound.
End consumer.
End services.

(** *** The HTTP handlers

    Nothing but what the services they call are within is asked of [R] here. *)
Section http.
Context `{E : Env} `{P : PgCommon} `{U : UuidLib} `{T : TimeText}.
Context (K : Ctx → Prop) (R : relation Db) `{!PreOrder R}.

Class LawfulHandlers (h : Handlers) : Prop := {
  lh_List : ∀ ctx t u, K ctx → Within (DbRel R) (svc_List (h_svc h) ctx t u);
  lh_Create : ∀ ctx t u k req, K ctx → Within (DbRel R) (svc_Create (h_svc h) ctx t u k req);
  lh_Cancel : ∀ ctx t i v, K ctx → Within (DbRel R) (svc_Cancel (h_svc h) ctx t i v);
  lh_Extend : ∀ ctx t i n v, K ctx → Within (DbRel R) (svc_Extend (h_svc h) ctx t i n v);
  lh_Reassign : ∀ ctx t i v req, K ctx → Within (DbRel R) (svc_Reassign (h_svc h) ctx t i v req);
  lh_FindByID : ∀ ctx t i, K ctx → Within (DbRel R) (rd_FindByID (h_reader h) ctx t i);
  lh_settings_Get : ∀ ctx t, K ctx → Within (DbRel R) (set_Get (h_settings h) ctx t);
  lh_settings_Set : ∀ ctx t m v, K ctx → Within (DbRel R) (set_Set (h_settings h) ctx t m v);
}.
Class LawfulInternal (h : Handlers) : Prop := {
  li_expiry : ∀ ctx, K ctx → Within (DbRel R) (h_expiry h ctx);
  li_review : ∀ ctx, K ctx → Within (DbRel R) (h_review h ctx);
  li_dept : ∀ ctx t u d, K ctx →
    Within (DbRel R) (rd_FindActiveDeptDelegateForUser (h_internal_reader h) ctx t u d);
  li_active : ∀ ctx t u, K ctx → Within (DbRel R) (rd_FindActiveByDelegator (h_internal_reader h) ctx t u);
}.
#[local] Hint Resolve lh_List lh_Create lh_Cancel lh_Extend lh_Reassign lh_FindByID lh_settings_Get
  lh_settings_Set li_expiry li_review li_dept li_active : lawful.

Section handlers.
Context (h : Handlers) `{Hh : !LawfulHandlers h}.

Lemma within_from_option {A} e (o : option A) : Within (DbRel R) (from_option e o).
Proof. destruct o; apply _. Qed.
Lemma within_respond m : Within (DbRel R) m → Within (DbRel R) (respond m).
Proof. intros Hm. unfold respond. repeat first [exact Hm | lawful_step; cbv beta]. Qed.

Ltac http_step :=
  lazymatch goal with
  | |- Within _ (respond _) => apply within_respond
  | |- Within _ (from_option _ _) => apply within_from_option
  | |- Within _ _ => lawful_step
  end.
Ltac http :=
  unfold authorized, requireSelfOrAdmin, identityOrError, tenantOf, userOf, parseUUIDParam;
  repeat (http_step; cbv beta).

(** The context the public group hands to its handlers. *)
Definition public_ctx (r : Request) : Ctx :=
  rq_ctx (tenantGUCMiddleware (h_bind h) (ContextMiddleware r)).

Lemma within_public next r :
  (∀ r', K (rq_ctx r') → Within (DbRel R) (next r')) → (rq_identity r ≠ None → K (public_ctx r)) →
  Within (DbRel R) (public h next r).
Proof.
  intros Hn HK. unfold public. destruct (rq_identity r); [|apply _]. apply Hn. by apply HK.
Qed.
Lemma within_requireIdempotencyKey next r :
  (∀ r', K (rq_ctx r') → Within (DbRel R) (next r')) → K (rq_ctx r) →
  Within (DbRel R) (requireIdempotencyKey next r).
Proof. intros Hn HK. unfold requireIdempotencyKey. destruct (_ || _); [apply _|auto]. Qed.
Lemma within_RequireAnyRole roles next r :
  (∀ r', K (rq_ctx r') → Within (DbRel R) (next r')) → K (rq_ctx r) →
  Within (DbRel R) (RequireAnyRole roles next r).
Proof. intros Hn HK. unfold RequireAnyRole. repeat first [by apply Hn | lawful_step]. Qed.

Lemma within_handleList r : K (rq_ctx r) → Within (DbRel R) (handleList (h_svc h) r).
Proof. intros HK. unfold handleList. http. Qed.
Lemma within_handleCreate r : K (rq_ctx r) → Within (DbRel R) (handleCreate (h_svc h) r).
Proof. intros HK. unfold handleCreate. http. Qed.
Lemma within_handleCancel i r : K (rq_ctx r) → Within (DbRel R) (handleCancel (h_svc h) (h_reader h) i r).
Proof. intros HK. unfold handleCancel. http. Qed.
Lemma within_handleExtend i r : K (rq_ctx r) → Within (DbRel R) (handleExtend (h_svc h) (h_reader h) i r).
Proof. intros HK. unfold handleExtend. http. Qed.
Lemma within_handleReassign i r : K (rq_ctx r) → Within (DbRel R) (handleReassign (h_svc h) (h_reader h) i r).
Proof. intros HK. unfold handleReassign. http. Qed.
Lemma within_handleSettingsGet r : K (rq_ctx r) → Within (DbRel R) (handleSettingsGet (h_settings h) r).
Proof. intros HK. unfold handleSettingsGet. http. Qed.
Lemma within_handleSettingsSet r : K (rq_ctx r) → Within (DbRel R) (handleSettingsSet (h_settings h) r).
Proof. intros HK. unfold handleSettingsSet. http. Qed.

(** An endpoint of the public group acts in the context the group binds; one of
    the internal group in the context of the connection. *)
Definition is_internal (e : endpoint) : bool :=
  match e with EExpire | EReviewSweep | EDeptDelegate | EActiveDelegations _ => true | _ => false end.

Lemma within_dispatch_public e r :
  is_internal e = false → (rq_identity r ≠ None → K (public_ctx r)) → Within (DbRel R) (dispatch h e r).
Proof.
  intros Hint HK. destruct e; try discriminate; simpl;
    try (apply within_public; [intros ? ?|done]).
  - by apply within_handleList.
  - apply within_requireIdempotencyKey; [intros ? ?|done]. by apply within_handleCreate.
  - by apply within_handleCancel.
  - by apply within_handleExtend.
  - by apply within_handleReassign.
  - by apply within_handleSettingsGet.
  - apply within_RequireAnyRole; [intros ? ?|done]. by apply within_handleSettingsSet.
  - apply _.
  - repeat within_rule.
Qed.

Lemma within_dispatch_internal e r :
  LawfulInternal h → is_internal e = true → K (rq_ctx r) → Within (DbRel R) (dispatch h e r).
Proof.
  intros Hi Hint HK. destruct e; try discriminate; simpl;
    unfold handleExpire, handleReviewSweep, handleDeptDelegate, handleActiveDelegations; http.
Qed.

Lemma within_serve r :
  (∀ m e, (m, e) ∈ routes (rq_Path r) → Within (DbRel R) (dispatch h e r)) → Within (DbRel R) (serve h r).
Proof.
  intros Hd. unfold serve. destruct (routes (rq_Path r)) as [|me l]; [apply _|].
  destruct (filter _ (me :: l)) as [|[m e] l'] eqn:Hf; [apply _|]. apply (Hd m).
  apply (list_elem_of_filter (λ me, me.1 = rq_Method r)). rewrite Hf. set_solver.
Qed.
End handlers.
End http.
