(* ===== verification/DelegationSpec.v ===== *)
(** * What the delegation use cases do

    Functional correctness of create, cancel, extend and reassign against the
    store contract: on success exactly the row and the events they promise, on
    failure the tables as they were. *)
From S2P Require Import Prelude GoLib Domain World Store StoreFacts MetricsRec EventBus EventSchema Contracts StoreSpec DelegationService SchemaSpec ServiceFacts.
Local Open Scope Z_scope.

(** ** Advisory operations: they never fail and never touch the tables *)
Class Advisory (m : M unit) : Prop := advisory : ∀ w, ∃ w', m w = (Ok tt, w') ∧ w_db w' = w_db w.

Lemma wp_advisory {B} (m : M unit) (k : unit → M B) Q w :
  Advisory m → (∀ w1, w_db w1 = w_db w → wp (k tt) Q w1) → wp (m ≫= k) Q w.
Proof.
  intros Hm Hk. apply wp_bind. unfold wp. destruct (Hm w) as (w1 & -> & Hdb). simpl. by apply Hk.
Qed.
#[export] Instance advisory_ret : Advisory (mret tt).
Proof. intros w. eauto. Qed.
#[export] Instance advisory_when_some {C} (c : option C) f :
  (∀ x, c = Some x → Advisory (f x)) → Advisory (when_some c f).
Proof. intros Hf. destruct c; simpl; [by apply Hf|apply _]. Qed.
#[export] Instance advisory_try {A} (m : M A) : QuietDb m → Advisory (_ ← try m; mret tt).
Proof. intros Hm w. exists (m w).2. split; [done|]. symmetry. apply (Hm w). Qed.
#[export] Instance advisory_bind m1 m2 : Advisory m1 → Advisory m2 → Advisory (m1 ≫= λ _, m2).
Proof.
  intros H1 H2 w. destruct (H1 w) as (w1 & Hw1 & Hdb1). destruct (H2 w1) as (w2 & Hw2 & Hdb2).
  exists w2. unfold mbind, gom_bind. rewrite Hw1. split; [done|congruence].
Qed.
#[export] Instance advisory_modify f : (∀ w, w_db (f w) = w_db w) → Advisory (modify f).
Proof. intros Hf w. exists (f w). split; [done|]. apply Hf. Qed.

#[export] Instance advisory_recorder `{Env} m : Recorder m → Advisory m.
Proof. intros Hm w. destruct (Hm w) as (w1 & Hw & Hdb & _). by exists w1. Qed.

(** A phase that leaves the tables alone. *)
Lemma wp_quiet {A B} (m : M A) (k : A → M B) Q w :
  QuietDb m → (∀ a w1, w_db w1 = w_db w → wp (k a) Q w1) → (∀ e w1, w_db w1 = w_db w → Q (Err e) w1) →
  wp (m ≫= k) Q w.
Proof.
  intros Hm Hk He. apply wp_bind. eapply wp_mono; [apply (within_wp _ m w Hm)|].
  intros [a|e] w1 Hdb%DbRel_db; symmetry in Hdb; auto.
Qed.

Lemma wp_quiet_try {A B} (m : M A) (k : result goerror A → M B) Q w :
  QuietDb m → (∀ r w1, w_db w1 = w_db w → wp (k r) Q w1) → wp (try m ≫= k) Q w.
Proof.
  intros Hm Hk. apply wp_bind, wp_try. eapply wp_mono; [apply (within_wp _ m w Hm)|].
  intros r w1 Hdb%DbRel_db. by apply Hk.
Qed.
(** The same, keeping what the call answered. *)
Lemma wp_quiet_call {A B} (m : M A) (k : result goerror A → M B) Q w :
  QuietDb m → (∀ r w1, r = (m w).1 → w_db w1 = w_db w → wp (k r) Q w1) → wp (try m ≫= k) Q w.
Proof.
  intros Hm Hk. apply wp_bind, wp_try. unfold wp at 1. apply Hk; [done|]. symmetry. apply (DbRel_db eq), Hm.
Qed.

(** ** Publishing *)
Section publishing.
Context `{E : Env} `{P : PgCommon} `{U : UuidLib} `{PL : !PgCommonLaws E P U}.

(** Inside a transaction only an outage or a payload the codec refuses keeps an
    event out of the outbox. *)
Lemma wp_EnqueueCtx p ctx tx evt w :
  ctx_tx ctx = Some tx →
  wp (EnqueueCtx p ctx evt) (λ r w',
    match r with
    | Ok _ => ∃ id, w_db w' = append_events [NewEnvelope p evt id] (w_db w)
    | Err e => w_db w' = w_db w ∧ fails_with (λ _, refused (de_Type evt) (de_Data evt)) e
    end) w.
Proof.
  intros Htx. unfold EnqueueCtx, TxFromContext, refused. rewrite Htx.
  destruct (marshalable _); [|split; [done|apply fails_here; by left]].
  apply wp_bind, wp_ret. apply wp_bind.
  destruct (ValidatingCodec_Encode _ _) as [[]|e]; [apply wp_ret|split; [done|apply fails_here; eauto]].
  apply wp_bind. apply wp_intro. simpl. apply wp_stmt; [|done|].
  - intros e He. split; [done|by eapply fault_fails].
  - intros [] d [= <-]. by eexists.
Qed.

Lemma wp_enqueue p ctx tx ty t subject actor data w :
  ctx_publisher ctx = Some p → ctx_tx ctx = Some tx →
  wp (enqueue ctx ty t subject actor data) (λ r w',
    match r with
    | Ok _ => ∃ e, announces p ty t subject actor data e ∧ w_db w' = append_events [e] (w_db w)
    | Err e => w_db w' = w_db w ∧ fails_with (λ _, refused ty data) e
    end) w.
Proof.
  intros Hp Htx. unfold enqueue, EventPublisherFromContext. rewrite Hp. apply wp_bind, wp_intro. simpl.
  destruct (match FromContext ctx with Some rc => _ | None => _ end) as [ip ua].
  eapply wp_mono; [by eapply wp_EnqueueCtx|]. intros [[]|e] w'; [|done]. intros (id & Hid).
  eexists. split; [|exact Hid]. by repeat split.
Qed.

(** Nothing but the data makes an operation fail: the database answers, and the
    codec takes every proper payload. *)
Definition reliable : Prop := healthy_db ∧ ∀ d, payload_ok d = true → ¬ refused (type_of d) d.
Lemma unreliable e : fails_with (λ _, ¬ reliable) e → ¬ reliable.
Proof. intros He Hr. pose proof Hr as [Hh _]. by destruct (healthy_fails _ _ Hh He) as (? & ? & _). Qed.
Lemma unhealthy e : fails_with (λ _, False) e → ¬ reliable.
Proof. intros He [Hh _]. by eapply healthy_no_outage. Qed.

Lemma wp_publish p ctx tx t subject actor data w :
  ctx_publisher ctx = Some p → ctx_tx ctx = Some tx → payload_ok data = true →
  wp (enqueue ctx (type_of data) t subject actor data) (λ r w',
    match r with
    | Ok _ => ∃ e, announces p (type_of data) t subject actor data e ∧ w_db w' = append_events [e] (w_db w)
    | Err e => ¬ reliable
    end) w.
Proof.
  intros Hp Htx Hok. eapply wp_mono; [by eapply (wp_enqueue p)|]. intros [[]|e] w'; [done|].
  intros [_ He] [Hh Henc]. destruct (healthy_fails _ _ Hh He) as (_ & Hr & _). by apply (Henc data).
Qed.
End publishing.

(** ** The contract of the service *)
Section service.
Context `{E : Env} `{P : PgCommon} `{U : UuidLib} `{PL : !PgCommonLaws E P U}.
Context (pool : Role) (p : Publisher) (s : DelegationService).

Class ServiceContract : Prop := {
  sc_read : ReadContract pool (delegations s);
  sc_write : WriteContract pool (delegations s);
  sc_settings : SettingsContract pool (settings s);
  sc_runner : RunnerContract pool p (txRunner s);
  sc_up : QuietUserProfile (userProfile s);
  sc_mc : QuietMembership (membershipCheck s);
  sc_catalog : each QuietCatalog (catalogAdmin s);
  sc_idem : each QuietIdempotency (idempotency s);
  sc_cache : ∀ c ctx t u, cache s = Some c → Advisory (cache_InvalidateDelegatorList c ctx t u);
  sc_metrics : ∀ m, metrics s = Some m → QuietMetrics m;
  sc_created : ∀ m x, metrics s = Some m → Advisory (m_RecordCreated m x);
  sc_ended : ∀ m x, metrics s = Some m → Advisory (m_RecordEnded m x);
  sc_hit : ∀ m, metrics s = Some m → Advisory (m_RecordIdempotencyHit m);
  sc_upfail : ∀ m x, metrics s = Some m → Advisory (m_RecordUPAvailabilityFailure m x);
}.

Context `{Hs : !ServiceContract}.
#[local] Instance r1 : ReadContract pool (delegations s) := sc_read.
#[local] Instance r2 : WriteContract pool (delegations s) := sc_write.
#[local] Instance r3 : SettingsContract pool (settings s) := sc_settings.
#[local] Instance r4 : RunnerContract pool p (txRunner s) := sc_runner.
#[local] Instance r5 : QuietUserProfile (userProfile s) := sc_up.
#[local] Instance r6 : QuietMembership (membershipCheck s) := sc_mc.

Lemma quiet_when_metrics (f : Metrics → M unit) :
  (∀ m, QuietMetrics m → QuietDb (f m)) → QuietDb (when_some (metrics s) f).
Proof. intros Hf. destruct (metrics s) eqn:Hm; simpl; [by apply Hf, sc_metrics|apply _]. Qed.
#[local] Instance advisory_upfail x : Advisory (when_some (metrics s) (λ m, m_RecordUPAvailabilityFailure m x)).
Proof. apply advisory_when_some. intros m Hm. by apply sc_upfail. Qed.
#[local] Instance advisory_invalidate ctx t u :
  Advisory (when_some (cache s) (λ c, cache_InvalidateDelegatorList c ctx t u)).
Proof. apply advisory_when_some. intros c Hc. by apply sc_cache. Qed.
#[local] Instance advisory_created x : Advisory (when_some (metrics s) (λ m, m_RecordCreated m x)).
Proof. apply advisory_when_some. intros m Hm. by apply sc_created. Qed.
#[local] Instance advisory_ended x : Advisory (when_some (metrics s) (λ m, m_RecordEnded m x)).
Proof. apply advisory_when_some. intros m Hm. by apply sc_ended. Qed.

Ltac quiet_step :=
  lazymatch goal with
  | |- Within _ (when_some (metrics s) _) => apply quiet_when_metrics; intros ? ?
  | H : catalogAdmin s = Some ?c |- _ => pose proof (sc_catalog c H); clear H
  | H : idempotency s = Some ?c |- _ => pose proof (sc_idem c H); clear H
  | |- Within _ _ => lawful_step
  end.
Ltac quiet := repeat (quiet_step; cbv beta).

Lemma quiet_checkDepartment ctx req : QuietDb (checkDepartment s ctx req).
Proof. unfold checkDepartment. quiet. Qed.
Lemma quiet_checkBothMemberships ctx t u d : QuietDb (checkBothMemberships s ctx t u d).
Proof. unfold checkBothMemberships, concurrently. quiet. Qed.
Lemma quiet_checkDelegateAvailable ctx t d now starts : QuietDb (checkDelegateAvailable s ctx t d now starts).
Proof. unfold checkDelegateAvailable. quiet. Qed.
Lemma quiet_setOutOfOffice ctx t u now starts review req :
  QuietDb (setOutOfOffice s ctx t u now starts review req).
Proof. unfold setOutOfOffice. quiet. Qed.
#[local] Instance advisory_best_effort path m : QuietDb m → Advisory (best_effort s path m).
Proof.
  intros Hm w. unfold best_effort, mbind at 1, gom_bind. simpl. specialize (Hm w).
  destruct (m w) as [[a|e] w1]; simpl in *.
  - apply DbRel_db in Hm. eauto.
  - destruct (advisory_upfail path w1) as (w2 & -> & Hdb). exists w2. split; [done|]. apply DbRel_db in Hm. congruence.
Qed.

(** *** Create *)

(** The idempotency key never touches the tables; a replay returns a live row. *)
Lemma wp_claim ctx t key w :
  db_inv (w_db w) →
  wp (claimIdempotencyKey s ctx t key) (λ r w', meanwhile (w_db w) (w_db w') ∧
    match r with
    | Ok (Replayed d) => key ≠ EmptyString ∧ ∃ db i, meanwhile (w_db w) db ∧ live_row db t i d
    | _ => True
    end) w.
Proof.
  intros Hinv. unfold claimIdempotencyKey. case_bool_decide as Hkey; [by apply wp_ret|].
  destruct (idempotency s) as [store|] eqn:Hst; [|by apply wp_ret].
  pose proof (sc_idem store Hst) as Hq.
  set (reserve := (reserved ← try (idem_Reserve store ctx t key); _) : M claim).
  assert (∀ w1, meanwhile (w_db w) (w_db w1) → wp reserve (λ r w', meanwhile (w_db w) (w_db w') ∧
    match r with Ok (Replayed d) => key ≠ EmptyString ∧ ∃ db i, meanwhile (w_db w) db ∧ live_row db t i d | _ => True end) w1) as Hres.
  { intros w1 Hdb. unfold reserve. apply wp_quiet; [apply within_try, quiet_idem_Reserve| |intros e w2 ->; by split].
    intros [[]|e] w2 Hdb2; (split; [simpl; by rewrite Hdb2|done]). }
  apply wp_quiet; [apply within_try, quiet_idem_Get| |intros e w1 ->; by split].
  intros [[rec|]|e] w1 Hdb1; [|by apply Hres; rewrite Hdb1..].
  case_bool_decide; [|apply wp_throw; by rewrite Hdb1]. apply wp_bind, wp_try.
  eapply wp_mono; [apply (rc_FindByID pool); by rewrite Hdb1|].
  intros [d|e] w2 (db & Hb%begins_on_meanwhile & Hdb2 & Hd); rewrite Hdb1 in Hb; rewrite <- Hdb2 in Hb.
  - destruct (metrics s) as [m|] eqn:Hm; simpl.
    + apply wp_advisory; [by apply sc_hit|]. intros w3 Hdb3. apply wp_ret. rewrite Hdb3. split; [done|].
      split; [done|]. rewrite <- Hdb2 in Hd. eauto.
    + apply wp_bind, wp_ret, wp_ret. split; [done|]. split; [done|]. rewrite <- Hdb2 in Hd. eauto.
  - by apply Hres.
Qed.

Lemma settings_window (db : Db) t policy :
  (db_settings db !! t = Some policy ∧ settings_ok policy = true)
  ∨ (policy = DefaultDelegationTenantSettings t ∧ (∀ ctx, sees pool ctx t → db_settings db !! t = None)) →
  1 ≤ ts_ReviewWindowDays policy ≤ 180.
Proof.
  intros [[_ Hok]|[-> _]]; [|done]. unfold settings_ok in Hok. rewrite !andb_true_iff, !Z.leb_le in Hok. lia.
Qed.

Lemma wp_insertAndAnnounce t u req starts (scheduled : bool) row txCtx tx cap w :
  ctx_publisher txCtx = Some p → ctx_tx txCtx = Some tx →
  wp (insertAndAnnounce s t u req starts scheduled row txCtx cap) (λ r w',
    match r with
    | Ok o => ∃ out tx d0, o = Some out ∧ filled_in row d0 ∧ out = inserted_row tx d0 ∧ row_ok out = true
        ∧ db_delegations (w_db w) !! ID out = None
        ∧ (if scheduled then w_db w' = put_row out (w_db w)
           else ∃ e, announces p EventDelegationStarted t (uuid_String (ID out)) (uuid_String u)
                       (startedPayload t u (ID out) req starts) e
                     ∧ w_db w' = append_events [e] (put_row out (w_db w)))
    | Err _ => True
    end) w.
Proof.
  intros Hp Htx. unfold insertAndAnnounce. apply wp_bind.
  eapply wp_mono; [eapply wp_inside, (rc_Insert pool); done|].
  intros [out|e] w1; [|done]. intros (tx' & d0 & _ & Hd0 & Hout & Hok & Hfresh & Hdb).
  destruct scheduled.
  - apply wp_ret. eauto 10.
  - apply wp_bind. eapply wp_mono; [by eapply (wp_enqueue p)|]. intros [[]|e] w2; [|done].
    intros (e & He & Hdb2). apply wp_ret. exists out, tx', d0. rewrite Hdb in Hdb2. eauto 10.
Qed.
End service.
#[export] Existing Instances sc_read sc_write sc_settings sc_runner sc_up sc_mc.

(** ** The promise of create *)

(** The clock of the host is past 1970. *)
Class SaneClock (E : Env) : Prop := clock_sane : ∀ n, 0 ≤ env_clock n.

(** The delegation a caller [u] of tenant [t] gets for [req]. *)
Record granted (t u : uuid) (req : CreateInput) (d : Delegation) : Prop := {
  g_parties : TenantID d = t ∧ DelegatorID d = u ∧ DelegateID d = ci_DelegateID req;
  g_scope : Scope d = ci_Scope req ∧ ScopeID d = ci_ScopeID req;
  g_reason : Reason d = ci_Reason req;
  g_window : EndsAt d = ci_EndsAt req ∧ (∀ st, ci_StartsAt req = Some st → StartsAt d = st);
  g_status : Status d = DelegationScheduled ∨ Status d = DelegationActive;
  g_fresh : RecordVersion d = 1 ∧ DeletedAt d = None ∧ ReviewLastWarnedBucket d = None;
  g_review : ∃ n, 1 ≤ n ≤ 180 ∧ ReviewWindowDays d = Some n ∧
    ReviewDueAt d = match ci_EndsAt req with None => Some (StartsAt d + n * Day) | Some _ => None end;
  g_checks : row_ok d = true;
}.

(** The tables after [d] was created: one new row, and the announcement unless it
    starts later. *)
Definition created `{UuidLib} (p : Publisher) (t u : uuid) (req : CreateInput) (d : Delegation) (db db' : Db) : Prop :=
  granted t u req d ∧ db_delegations db !! ID d = None ∧
  ((Status d = DelegationScheduled ∧ db' = put_row d db)
   ∨ (Status d = DelegationActive ∧ ∃ e,
        announces p EventDelegationStarted t (uuid_String (ID d)) (uuid_String u)
          (startedPayload t u (ID d) req (StartsAt d)) e
        ∧ db' = append_events [e] (put_row d db))).

Lemma inserted_granted t u req ms starts scheduled n tx d0 :
  IsZero starts = false → (∀ st, ci_StartsAt req = Some st → starts = st) → 1 ≤ n ≤ 180 →
  filled_in (newDelegation t u req ms starts scheduled (reviewDueAt starts n req) n) d0 →
  row_ok (inserted_row tx d0) = true →
  granted t u req (inserted_row tx d0)
  ∧ StartsAt (inserted_row tx d0) = starts
  ∧ Status (inserted_row tx d0) = if scheduled then DelegationScheduled else DelegationActive.
Proof.
  intros Hz Hst Hn [Hid Hstarts Hstatus Hcols] Hok. simpl in *.
  specialize (Hstarts Hz). specialize (Hstatus ltac:(by destruct scheduled)).
  destruct Hcols as (?&?&?&?&?&?&?&?&?&Hrev&?).
  split; [|by rewrite Hstarts, Hstatus]. split; simpl; try done.
  - split; [done|]. intros st Heq. rewrite Hstarts. auto.
  - rewrite Hstatus. destruct scheduled; auto.
  - exists n. split; [done|]. split; [done|]. rewrite Hrev, Hstarts. unfold reviewDueAt.
    destruct (ci_EndsAt req); [done|]. unfold Add. by rewrite Days_exact by lia.
Qed.

(** The checks a request passed leave a start that is not the zero time. *)
Lemma checked_start now req :
  0 ≤ now → checkWindow now req = Ok tt → IsZero (startOf now req) = false.
Proof.
  intros Hnow Hw. unfold IsZero. apply bool_decide_eq_false. intros Hz.
  unfold checkWindow, startOf in *. destruct (ci_StartsAt req) as [st|]; simpl in *; subst.
  - unfold Before, Add, skewTolerance, ZeroTime, Second in *.
    destruct (Z.ltb_spec (-62135596800 * 1000000000) (now + - (5 * 1000000000))); [done|lia].
  - unfold ZeroTime, Second in *. lia.
Qed.

Section create.
Context `{E : Env} `{P : PgCommon} `{U : UuidLib} `{PL : !PgCommonLaws E P U} `{CL : !SaneClock E} `{LO : !LawfulOthers E} `{UI : !UniqueIds E}.
Context (pool : Role) (p : Publisher) (s : DelegationService) `{Hs : !ServiceContract pool p s}.

(** A context as the handlers pass it: no transaction of the caller, at most the
    service's own publisher. *)
Definition outermost (ctx : Ctx) : Prop :=
  ctx_tx ctx = None ∧ (ctx_publisher ctx = None ∨ ctx_publisher ctx = Some p).

Lemma advisory_afterCreate ctx t u key d w :
  ∃ w', afterCreate s ctx t u key d w = (Ok d, w') ∧ w_db w' = w_db w.
Proof.
  enough (wp (afterCreate s ctx t u key d) (λ r w', r = Ok d ∧ w_db w' = w_db w) w) as [Hr Hw].
  { exists (afterCreate s ctx t u key d w).2. split; [|done]. rewrite <- Hr. by destruct (afterCreate _ _ _ _ _ _ _). }
  unfold afterCreate. apply wp_advisory.
  { case_bool_decide; [apply _|]. apply advisory_when_some. intros st Hst.
    apply advisory_try. pose proof (sc_idem pool p s st Hst). apply quiet_idem_Save. }
  intros w1 Hdb1. apply wp_advisory; [by eapply advisory_invalidate|]. intros w2 Hdb2.
  apply wp_advisory; [by eapply advisory_created|]. intros w3 Hdb3. apply wp_ret. split; [done|congruence].
Qed.

Lemma begins_outermost ctx d d1 : outermost ctx → begins_on ctx d d1 ↔ meanwhile d d1.
Proof. intros [Htx _]. unfold begins_on. by rewrite Htx. Qed.

Lemma wp_persist ctx t u key req ms starts scheduled n w :
  outermost ctx → IsZero starts = false → (∀ st, ci_StartsAt req = Some st → starts = st) → 1 ≤ n ≤ 180 →
  wp (persist s ctx t u key req starts scheduled
        (newDelegation t u req ms starts scheduled (reviewDueAt starts n req) n))
    (λ r w', ∃ db, meanwhile (w_db w) db ∧ match r with Ok d => created p t u req d db (w_db w') | Err _ => w_db w' = db end) w.
Proof.
  intros Hctx Hz Hst Hn. pose proof Hctx as [Htx Hpub]. unfold persist. apply wp_bind, wp_try.
  eapply wp_mono.
  { apply (rc_RunInTx pool _ ctx None _ (λ _, True)
      (λ db o db', ∃ d, o = Some d ∧ created p t u req d db db') (λ _ _, True) w); [done|done|].
    intros tx ctx' cap w1 _ Htx' Hp' _ _ _ _.
    eapply wp_mono; [by eapply (wp_insertAndAnnounce pool p)|]. intros [o|e] w2; [|intros _; by apply fails_here].
    intros (out & tx' & d0 & -> & Hd0 & -> & Hok & Hfresh & Hdb2). split; [|done]. eexists. split; [done|].
    destruct (inserted_granted t u req ms starts scheduled n tx' d0 Hz Hst Hn Hd0 Hok) as (Hg & Hstart & Hstatus).
    split; [done|]. split; [done|]. rewrite Hstart. destruct scheduled; [by left|by right]. }
  intros r w1 (db & Hb & Hr). apply (begins_outermost ctx _ _ Hctx) in Hb. destruct r as [[d|]|e]; simpl.
  - destruct Hr as (d' & [= <-] & Hc). destruct (advisory_afterCreate ctx t u key d w1) as (w2 & Heq & Hdb).
    unfold wp. rewrite Heq. exists db. split; [done|]. simpl. by rewrite Hdb.
  - by destruct Hr as (d' & ? & _).
  - destruct Hr as [Hdb _]. specialize (Hdb Htx). apply wp_advisory.
    + destruct scheduled; [apply _|]. apply advisory_try, quiet_ClearDelegatePointer.
    + intros w2 Hdb2. apply wp_throw. exists db. split; [done|congruence].
Qed.

Lemma wp_createClaimed ctx t u key req w :
  outermost ctx → db_inv (w_db w) →
  wp (createClaimed s ctx t u key req)
    (λ r w', ∃ db, meanwhile (w_db w) db ∧ match r with Ok d => created p t u req d db (w_db w') | Err _ => w_db w' = db end) w.
Proof.
  intros Hctx Hinv. unfold createClaimed.
  assert (∀ w', meanwhile (w_db w) (w_db w') → ∃ db, meanwhile (w_db w) db ∧ w_db w' = db) as Hfail by (intros w' Hm; by exists (w_db w')).
  apply wp_bind, wp_of_result.
  destruct (validateCreateInput u req) as [[]|e]; [|by apply Hfail].
  apply wp_quiet; [by eapply quiet_checkDepartment| |intros e w' Hw; apply Hfail; by rewrite Hw].
  intros _ w1 Hdb1. apply wp_bind, wp_intro. simpl. set (now := env_clock (w_step w1)).
  apply wp_bind, wp_of_result. destruct (checkWindow now req) as [[]|e] eqn:Hwin; [|apply Hfail; simpl; by rewrite Hdb1].
  assert (IsZero (startOf now req) = false) as Hz by (eapply checked_start; [apply clock_sane|done]).
  apply wp_bind. eapply wp_mono; [apply (rc_settings_Get pool); simpl; by rewrite Hdb1|].
  intros [policy|e] w2 (db & Hb%begins_on_meanwhile & Hdb2 & Hpol); simpl in Hb; rewrite Hdb1, <- Hdb2 in Hb;
    [|by apply Hfail].
  assert (1 ≤ ts_ReviewWindowDays policy ≤ 180) as Hn.
  { destruct Hpol as [[_ Hok]|[-> _]]; [|done]. unfold settings_ok in Hok.
    rewrite !andb_true_iff, !Z.leb_le in Hok. lia. }
  apply wp_bind, wp_of_result. destruct (checkSpan _ _ _) as [[]|e]; [|by apply Hfail].
  apply wp_quiet; [by eapply quiet_checkBothMemberships| |intros e w' Hw; apply Hfail; by rewrite Hw]. intros ms w3 Hdb3.
  apply wp_quiet; [by eapply quiet_checkDelegateAvailable| |intros e w' Hw; apply Hfail; by rewrite Hw, Hdb3]. intros _ w4 Hdb4.
  apply wp_quiet; [|intros _ w5 Hdb5|intros e w' Hw; apply Hfail; by rewrite Hw, Hdb4, Hdb3].
  { destruct (isScheduled _ _); [apply _|by eapply quiet_setOutOfOffice]. }
  eapply wp_mono; [apply wp_persist; [done|done| |done]|].
  - intros st Hst. unfold startOf. by rewrite Hst.
  - intros r w6 (db6 & Hm & Hr). exists db6. split; [|done]. rewrite Hdb5, Hdb4, Hdb3 in Hm. by etransitivity.
Qed.

(** Created or replayed; [db] is what the transaction began on. *)
Definition create_outcome (t u : uuid) (key : string) (req : CreateInput) (d0 : Db) (r : result goerror Delegation) (d' : Db) : Prop :=
  match r with
  | Ok d => (∃ db, meanwhile d0 db ∧ created p t u req d db d')
            ∨ (key ≠ EmptyString ∧ meanwhile d0 d' ∧ ∃ db i, meanwhile d0 db ∧ live_row db t i d)
  | Err _ => meanwhile d0 d'
  end.
Lemma wp_Create ctx t u key req w :
  outermost ctx → db_inv (w_db w) →
  wp (Create s ctx t u key req) (λ r w', create_outcome t u key req (w_db w) r (w_db w')) w.
Proof.
  intros Hctx Hinv. unfold Create. apply wp_bind. eapply wp_mono; [by apply (wp_claim pool p s)|].
  intros [[d|reserved]|e] w1 [Hdb1 Hc]; [apply wp_ret; right; tauto| |done].
  apply wp_bind, wp_try. eapply wp_mono; [apply wp_createClaimed; [done|by destruct (meanwhile_inv _ _ Hdb1 Hinv)]|].
  intros r w2 (db & Hm & Hr). assert (meanwhile (w_db w) db) as Hm' by by etransitivity. apply wp_advisory.
  - destruct r as [d|e]; [apply _|]. destruct reserved; [|apply _].
    destruct (idempotency s) as [st|] eqn:Hst; [|apply _].
    apply advisory_try. pose proof (sc_idem pool p s st Hst). apply quiet_idem_Release.
  - intros w3 Hdb3. apply wp_of_result. destruct r; simpl; rewrite Hdb3; [left; eauto|by rewrite Hr].
Qed.

(** *** Cancel *)

(** Why a cancellation is refused: there is no such open delegation, or its version
    is another one, which the error tells. *)
Definition cancel_refused (t i : uuid) (v : Z) (sees_t : Prop) (db : Db) (e : goerror) : Prop :=
  (e = not_found_error ∧ (sees_t → ∀ d, live_row db t i d → open_status (Status d) = false))
  ∨ (∃ d, e = conflict_error (RecordVersion d) ∧ live_row db t i d ∧ open_status (Status d) = true ∧ RecordVersion d ≠ v).

Lemma cancel_refused_domain t i v S db e : cancel_refused t i v S db e → as_domain e ≠ None.
Proof. by intros [[-> _]|(d & -> & _)]. Qed.

(** The open delegation [i] was cancelled and its end announced, nothing else. *)
Definition cancelled (t i : uuid) (v : Z) (reason : EndReason) (actor : Delegation → uuid)
    (d' : Delegation) (db db' : Db) : Prop :=
  ∃ tx d e, live_row db t i d ∧ RecordVersion d = v ∧ open_status (Status d) = true
    ∧ d' = updated_row tx (set_Status DelegationCancelled) d
    ∧ announces p EventDelegationEnded t (uuid_String i) (uuid_String (DelegatorID d))
        (endedPayload t i d reason (actor d)) e
    ∧ db' = append_events [e] (put_row d' db).

(** The announcement says of a delegation what never changes. *)
Lemma ended_later t i reason ctx d d0 :
  row_step d d0 →
  endedPayload t i d reason (cancelActor ctx d) = endedPayload t i d0 reason (cancelActor ctx d0)
  ∧ DelegatorID d0 = DelegatorID d.
Proof.
  intros [(_ & _ & Hu & Hd & _ & _ & Hsc & Hsid & _) _ _ _]. unfold endedPayload, cancelActor.
  by rewrite Hu, Hd, Hsc, Hsid.
Qed.

Definition cancel_outcome (ctx : Ctx) (t i : uuid) (v : Z) (reason : EndReason) (d0 : Db) (r : result goerror Delegation) (d1 : Db) : Prop :=
  match r with
  | Ok d' => ∃ db, meanwhile d0 db ∧ cancelled t i v reason (cancelActor ctx) d' db d1
  | Err e => meanwhile d0 d1 ∧ ∃ db, meanwhile d0 db ∧
      fails_with (λ e, cancel_refused t i v (sees pool ctx t) db e
        ∨ ∃ d, live_row db t i d ∧ refused EventDelegationEnded (endedPayload t i d reason (cancelActor ctx d))) e
  end.

(** Its transaction, [d] being the delegation as it was read just before: the one
    that ends is its delegator's. *)
Definition cancel_fails (ctx : Ctx) (t i : uuid) (v : Z) (reason : EndReason) (db : Db) (e : goerror) : Prop :=
  cancel_refused t i v (sees pool ctx t) db e
  ∨ ∃ d, live_row db t i d ∧ refused EventDelegationEnded (endedPayload t i d reason (cancelActor ctx d)).
Lemma wp_endTx ctx t i v reason d w :
  outermost ctx → db_inv (w_db w) → live_row (w_db w) t i d →
  wp (tx_RunInTx (txRunner s) ctx None (endAndAnnounce s t i d v reason (cancelActor ctx d)))
    (concludes ctx (λ db o db', ∃ d', o = Some d' ∧ DelegatorID d' = DelegatorID d
                                ∧ cancelled t i v reason (cancelActor ctx) d' db db')
      (cancel_fails ctx t i v reason) w) w.
Proof.
  intros Hctx Hinv Hd. pose proof Hctx as [Htx Hpub]. eapply wp_mono.
  { apply (rc_RunInTx pool _ ctx None _ (λ _, True)
      (λ db o db', ∃ d', o = Some d' ∧ DelegatorID d' = DelegatorID d ∧ cancelled t i v reason (cancelActor ctx) d' db db')
      (cancel_fails ctx t i v reason) w); [done|done|].
    intros tx ctx' cap w3 Heff Htx' Hp' _ _ Hb _. unfold endAndAnnounce. apply wp_bind.
    eapply wp_mono; [eapply wp_inside, (rc_End pool); [done|by eapply begins_on_inv|by right]|].
    intros [out|e] w4.
    2:{ intros [_ He]. eapply fails_mono; [|exact He]. intros x [[-> Hno]|Hc]; left; [left|by right].
        split; [done|]. intros Hsees. apply Hno. by eapply sees_inside. }
    intros (tx' & d0 & _ & Hl & [Hv Ho] & Hout & Hdb4).
    assert (row_step d d0) as Hsame
      by (eapply (same_delegation _ _ i); [eapply history_meanwhile, begins_on_meanwhile, Hb|by destruct Hd|by destruct Hl]).
    destruct (ended_later t i reason ctx d d0 Hsame) as [Hpay Hu].
    apply wp_bind. eapply wp_mono; [by eapply (wp_enqueue p)|]. intros [[]|e] w5.
    2:{ intros [_ He]. eapply fails_mono; [|exact He]. intros x Hr. right. exists d0. by rewrite <- Hpay. }
    intros (e & He & Hdb5). apply wp_ret. split; [|done]. exists out. split; [done|].
    split; [rewrite Hout; unfold updated_row, touch_row; by case_decide|].
    exists tx', d0, e. rewrite Hdb4 in Hdb5. rewrite Hu, <- Hpay. by repeat (split; [done|]). }
  intros r w3 (db & Hb & Hr). exists db. split; [done|]. destruct r; [done|]. destruct Hr as [Hw He]. auto.
Qed.

Lemma wp_cancelInternal ctx t i v reason w :
  outermost ctx → db_inv (w_db w) →
  wp (cancelInternal s ctx t i v reason) (λ r w', cancel_outcome ctx t i v reason (w_db w) r (w_db w')) w.
Proof.
  intros Hctx Hinv. unfold cancelInternal. apply wp_bind. eapply wp_mono; [by apply (rc_FindByID pool)|].
  intros [d|e] w1 (db1 & Hb1%begins_on_meanwhile & Hdb1 & Hd).
  2:{ split; [by rewrite Hdb1|]. exists db1. split; [done|]. eapply fails_mono; [|exact Hd]. intros x [-> Hno]. left. left.
      split; [done|]. intros Hsees d Hl. by apply Hno in Hl. }
  apply wp_advisory; [by eapply advisory_best_effort, quiet_ClearDelegatePointer|]. intros w2 Hdb2. cbv zeta.
  assert (w_db w2 = db1) as Hdb by congruence. destruct (meanwhile_inv _ _ Hb1 Hinv) as [Hinv1 _].
  apply wp_bind. eapply wp_mono; [apply wp_endTx; [done|by rewrite Hdb..]|].
  intros r w3 (db & Hb%begins_on_meanwhile & Hr). rewrite Hdb in Hb.
  assert (meanwhile (w_db w) db) as Hm by by etransitivity. destruct r as [o|e].
  2:{ destruct Hr as [Hw He]. split; [by rewrite Hw|]. exists db. split; [done|exact He]. }
  destruct Hr as (d' & -> & _ & Hc). apply wp_advisory; [by eapply advisory_invalidate|]. intros w4 Hdb4.
  apply wp_advisory; [by eapply advisory_ended|]. intros w5 Hdb5. apply wp_ret. exists db. by rewrite Hdb5, Hdb4.
Qed.

(** *** Extend *)

(** The review deadline of the active, open-ended delegation [i] moved [n] days on. *)
Definition extended (t i : uuid) (v n : Z) (d d' : Delegation) (db db' : Db) : Prop :=
  ∃ tx, live_row db t i d ∧ RecordVersion d = v ∧ Status d = DelegationActive ∧ EndsAt d = None
    ∧ d' = updated_row tx (λ d, set_Review ((λ r, r + n * Day) <$> ReviewDueAt d) None (Some n) d) d
    ∧ db' = put_row d' db.

(** Why an extension is refused: its days are out of range, or the caller sees no
    active, open-ended delegation at that version. *)
Definition extend_refused (t i : uuid) (days : option Z) (v : Z) (sees_t : Prop) (db : Db) (e : goerror) : Prop :=
  as_domain e ≠ None ∧
  (match days with Some n => ¬ 1 ≤ n ≤ 180 | None => False end
   ∨ (sees_t → ∀ d, live_row db t i d → ¬ (RecordVersion d = v ∧ Status d = DelegationActive ∧ EndsAt d = None))).

(** The days of an extension: those asked for, or the window of the delegation as
    it was read. *)
Definition extend_outcome (ctx : Ctx) (t i : uuid) (days : option Z) (v : Z) (d0 : Db) (r : result goerror Delegation) (d1 : Db) : Prop :=
  match r with
  | Ok d' => ∃ n d db, 1 ≤ n ≤ 180 ∧ meanwhile d0 db ∧ extended t i v n d d' db d1
      ∧ match days with
        | Some m => n = m
        | None => ∃ read db', meanwhile d0 db' ∧ live_row db' t i read ∧ row_step read d
                              ∧ ∀ m, ReviewWindowDays read = Some m → n = m
        end
  | Err e => meanwhile d0 d1 ∧ ∃ db, meanwhile d0 db ∧ fails_with (extend_refused t i days v (sees pool ctx t) db) e
  end.
Lemma wp_Extend ctx t i days v w :
  outermost ctx → db_inv (w_db w) →
  wp (Extend s ctx t i days v) (λ r w', extend_outcome ctx t i days v (w_db w) r (w_db w')) w.
Proof.
  intros Hctx Hinv. unfold Extend.
  assert (∀ db e w', meanwhile (w_db w) db → meanwhile (w_db w) (w_db w') → fails_with (extend_refused t i days v (sees pool ctx t) db) e →
    extend_outcome ctx t i days v (w_db w) (Err e) (w_db w')) as Hfail by (intros db e w' ? ? ?; split; [done|by exists db]).
  destruct (match days with Some n => _ | None => _ end) eqn:Hrange.
  { apply (Hfail (w_db w)); [done..|]. apply fails_here. split; [done|]. left. destruct days as [n|]; [|done].
    apply orb_true_iff in Hrange as [?%Z.ltb_lt|?%Z.ltb_lt]; unfold PolicyDaysMin, PolicyDaysMax in *; lia. }
  apply wp_bind. eapply wp_mono; [by apply (rc_FindByID pool)|].
  intros [d|e] w1 (db1 & Hb1%begins_on_meanwhile & Hdb1 & Hd).
  2:{ apply (Hfail db1); [done|by rewrite Hdb1|]. eapply fails_mono; [|exact Hd]. intros x [-> Hno]. split; [done|]. right.
      intros Hsees d Hl. by apply Hno in Hl. }
  assert (∀ d', live_row db1 t i d' → d' = d) as Huniq by (intros d' [? _]; destruct Hd; congruence).
  destruct (meanwhile_inv _ _ Hb1 Hinv) as [Hinv1 _].
  case_bool_decide as Hact.
  { apply wp_throw, (Hfail db1); [done|by rewrite Hdb1|]. apply fails_here. split; [done|]. right. by intros _ d' ->%Huniq (_ & ? & _). }
  case_bool_decide as Hopen.
  { apply wp_throw, (Hfail db1); [done|by rewrite Hdb1|]. apply fails_here. split; [done|]. right. by intros _ d' ->%Huniq (_ & _ & ?). }
  apply wp_bind. eapply wp_mono; [apply (rc_settings_Get pool); by rewrite Hdb1|].
  intros r w2 (db2 & Hb2%begins_on_meanwhile & Hpol). rewrite Hdb1 in Hb2.
  assert (meanwhile (w_db w) db2) as Hm2 by by etransitivity.
  destruct r as [policy|e].
  2:{ destruct Hpol as [Hdb2 He]. apply (Hfail db2); [done|by rewrite Hdb2|]. eapply fails_mono; [|exact He]. by intros x []. }
  destruct Hpol as [Hdb2 Hpol]. cbv zeta.
  set (n := extendWindow days d (ts_ReviewWindowDays policy)).
  assert (1 ≤ n ≤ 180) as Hn.
  { unfold n, extendWindow. destruct days as [m|].
    - apply orb_false_iff in Hrange as [?%Z.ltb_ge ?%Z.ltb_ge]. unfold PolicyDaysMin, PolicyDaysMax in *. lia.
    - destruct (ReviewWindowDays d) as [m|] eqn:Hm; simpl.
      + destruct Hd as (Hi & _). apply (inv_row _ Hinv1) in Hi as [_ Hok]. unfold row_ok in Hok.
        rewrite Hm, !andb_true_iff in Hok. unfold between in Hok. rewrite !andb_true_iff, !Z.leb_le in Hok. lia.
      + destruct Hpol as [[_ Hok]|[-> _]]; [|done]. unfold settings_ok in Hok.
        rewrite !andb_true_iff, !Z.leb_le in Hok. lia. }
  destruct (meanwhile_inv _ _ Hm2 Hinv) as [Hinv2 _].
  apply wp_bind. eapply wp_mono; [apply (rc_ExtendReview pool); [by rewrite Hdb2|done]|].
  intros r w3 (db3 & Hb3%begins_on_meanwhile & Hr). rewrite Hdb2 in Hb3.
  assert (meanwhile (w_db w) db3) as Hm3 by by etransitivity.
  destruct r as [out|e].
  2:{ destruct Hr as [Hdb3 He]. apply (Hfail db3); [done|by rewrite Hdb3|]. eapply fails_mono; [|exact He]. intros x [? ?]. split; [done|by right]. }
  destruct Hr as (tx & d0 & _ & Hl & HP & Hout & Hdb3).
  apply wp_advisory; [by eapply advisory_invalidate|]. intros w4 Hdb4.
  apply wp_advisory; [by eapply advisory_best_effort, quiet_SetAvailability|]. intros w5 Hdb5. apply wp_ret.
  exists n, d0, db3. split; [done|]. split; [done|].
  split; [exists tx; destruct HP as (?&?&?); repeat (split; [done|]); congruence|].
  unfold n, extendWindow. destruct days; [done|]. exists d, db1. split; [done|]. split; [done|]. split.
  - eapply (same_delegation db1 db3 i); [apply history_meanwhile; by etransitivity|by destruct Hd|by destruct Hl].
  - by intros m ->.
Qed.

(** *** Reassign *)
Definition reassign_outcome (ctx : Ctx) (t i : uuid) (v : Z) (req : ReassignInput) (d0 : Db) (r : result goerror Delegation) (d1 : Db) : Prop :=
  (∃ e, r = Err e ∧ meanwhile d0 d1)
  ∨ (∃ old ended db1 db2 db3, meanwhile d0 db1 ∧ live_row db1 t i old ∧ Status old = DelegationActive
     ∧ meanwhile db1 db2 ∧ cancelled t i v EndReasonReassigned (cancelActor ctx) ended db2 db3
     ∧ match r with
       | Ok d => ∃ db4, meanwhile db3 db4 ∧ created p t (DelegatorID old) (reassignInput old req) d db4 d1
       | Err _ => meanwhile db3 d1
       end).
Lemma wp_Reassign ctx t i v req w :
  outermost ctx → db_inv (w_db w) → Within (DbRel grows) (cancelInternal s ctx t i v EndReasonReassigned) →
  wp (Reassign s ctx t i v req) (λ r w', reassign_outcome ctx t i v req (w_db w) r (w_db w')) w.
Proof.
  intros Hctx Hinv Hgrow. unfold Reassign. apply wp_bind.
  eapply wp_mono; [by apply (rc_FindByID pool)|].
  intros [old|e] w1 (db1 & Hb1%begins_on_meanwhile & Hdb1 & Hold); [|left; exists e; split; [done|by rewrite Hdb1]].
  case_bool_decide as Hact; [apply wp_throw; left; eexists; split; [done|by rewrite Hdb1]|].
  destruct (meanwhile_inv _ _ Hb1 Hinv) as [Hinv1 _].
  assert (Status old = DelegationActive) as Hact' by (destruct (String.string_dec (Status old) DelegationActive); tauto).
  apply wp_bind.
  eapply wp_mono; [apply wp_and; [apply (wp_cancelInternal ctx t i v EndReasonReassigned w1 Hctx); by rewrite Hdb1|
    apply (within_wp _ _ w1 Hgrow)]|].
  intros [ended|e] w2 [Hc Hg]; rewrite Hdb1 in Hc.
  2:{ left. eexists. split; [done|]. destruct Hc as [Hc _]. by etransitivity. }
  assert (db_inv (w_db w2)) as Hinv2 by (apply Hg; by rewrite Hdb1). destruct Hc as (db2 & Hm2 & Hc).
  eapply wp_mono; [by apply wp_Create|]. intros r w3 Hr. right. exists old, ended, db1, db2, (w_db w2).
  repeat (split; [done|]). destruct r as [d|e]; [|done]. by destruct Hr as [?|[? _]].
Qed.
End create.
