(* ===== verification/CascadeSpec.v ===== *)
(** * What the cascades do

    Functional correctness of the reactions to a removed membership, a disabled
    delegate and an offboarded tenant, against the store contract.  The same
    lemmas serve a call of its own and a call inside the consumer's transaction. *)
From S2P Require Import Prelude GoLib Domain World Store StoreFacts MetricsRec EventBus EventSchema Contracts StoreSpec PostgresSpec SchemaSpec ServiceFacts DelegationSpec CascadeService.
Local Open Scope Z_scope.

(** ** Rows a sweep of one tenant changes *)

(** The rows satisfying [P], in table order. *)
Definition rows_where (P : Delegation → bool) (db : Db) : list Delegation :=
  (map_to_list (filter (λ kd, P kd.2 = true) (db_delegations db))).*2.
Definition replace_where (P : Delegation → bool) (f : Delegation → Delegation) (db : Db) : Db :=
  map_rows (λ d, if P d then f d else d) db.

Lemma elem_of_rows_where P db d :
  d ∈ rows_where P db ↔ ∃ k, db_delegations db !! k = Some d ∧ P d = true.
Proof.
  unfold rows_where. rewrite list_elem_of_fmap. split.
  - intros ([k d'] & -> & Hin). apply elem_of_map_to_list, map_lookup_filter_Some in Hin. eauto.
  - intros (k & Hk & HP). exists (k, d). split; [done|].
    apply elem_of_map_to_list, map_lookup_filter_Some. auto.
Qed.

Section visible.
Context (tx : Tx) (t : uuid) (P : Delegation → bool) (Hrls : rls_check_tenant tx t = true)
  (HP : ∀ d, P d = true → TenantID d = t).

Lemma selected_visible d : selected tx P d = P d.
Proof.
  unfold selected. destruct (P d) eqn:Hd; [|by rewrite andb_false_r]. by rewrite (HP d Hd), Hrls.
Qed.
Lemma select_visible db : sql_select tx P db = rows_where P db.
Proof.
  unfold sql_select, matching, rows_where. do 2 f_equal. apply map_filter_ext. intros k d _. simpl.
  by rewrite selected_visible.
Qed.
Lemma swept_visible f db : map_rows (swept tx P f) db = replace_where P (updated_row tx f) db.
Proof.
  unfold replace_where, map_rows. f_equal. apply map_fmap_ext. intros k d _. unfold swept.
  by rewrite selected_visible.
Qed.
End visible.

Lemma involves_tenant t u d : involves t u d = true → TenantID d = t.
Proof. unfold involves. rewrite bool_decide_eq_true. tauto. Qed.
Lemma delegated_to_tenant t u d : delegated_to t u d = true → TenantID d = t.
Proof. unfold delegated_to. rewrite bool_decide_eq_true. tauto. Qed.
Lemma live_in_tenant t d : live_in t d = true → TenantID d = t.
Proof. unfold live_in. rewrite bool_decide_eq_true. tauto. Qed.

(** The row as the sweeps leave it at [now]. *)
Definition retired (tx : Tx) : Delegation → Delegation :=
  updated_row tx (λ d, set_DeletedAt (Some (tx_now tx)) (set_Status DelegationEnded d)).
Definition ended (tx : Tx) : Delegation → Delegation := updated_row tx (set_Status DelegationEnded).
Definition scrubbed (tx : Tx) : Delegation → Delegation := updated_row tx (set_DeletedAt (Some (tx_now tx))).

(** Swept rows satisfy the CHECK constraints. *)
Lemma swept_ok P tx f db d :
  db_inv db → (∀ x, row_ok x = true → row_ok (f x) = true) → d ∈ updated_row tx f <$> rows_where P db → row_ok d = true.
Proof.
  intros Hinv Hf (x & -> & Hx)%list_elem_of_fmap. apply elem_of_rows_where in Hx as (k & Hk & _).
  apply (inv_row _ Hinv) in Hk as [_ Hrow]. apply row_ok_updated; auto.
Qed.
Lemma retired_ok P tx db d : db_inv db → d ∈ retired tx <$> rows_where P db → row_ok d = true.
Proof.
  intros Hinv. apply swept_ok; [done|]. intros x Hx. apply row_ok_deleted, row_ok_status; [set_solver|done].
Qed.
Lemma ended_ok P tx db d : db_inv db → d ∈ ended tx <$> rows_where P db → row_ok d = true.
Proof. intros Hinv. apply swept_ok; [done|]. intros x Hx. apply row_ok_status; [set_solver|done]. Qed.

Section cascade.
Context `{E : Env} `{P : PgCommon} `{U : UuidLib} `{PL : !PgCommonLaws E P U}.
Context (pool : Role) (p : Publisher) (s : Cascade.CascadeService).

Class CascadeContract : Prop := {
  cc_sweep : SweepContract pool (Cascade.delegations s);
  cc_settings : SettingsContract pool (Cascade.settings s);
  cc_runner : RunnerContract pool p (Cascade.txRunner s);
  cc_up : QuietUserProfile (Cascade.userProfile s);
  cc_ended : ∀ m x, Cascade.metrics s = Some m → Advisory (m_RecordEnded m x);
  cc_upfail : ∀ m x, Cascade.metrics s = Some m → Advisory (m_RecordUPAvailabilityFailure m x);
}.
#[local] Existing Instances cc_sweep cc_settings cc_runner cc_up.
Context `{LO : !LawfulOthers E} `{Hs : !CascadeContract}.

(** What a cascade does, on the tables its transaction begins on: all of its
    effect, or, when it opened the transaction itself, none of it. *)
Definition cascaded {A} (ctx : Ctx) (effect : Db → Db → Prop) (w : World) (r : result goerror A) (w' : World) : Prop :=
  ∃ db, begins_on ctx (w_db w) db ∧
    match r with
    | Ok _ => effect db (w_db w')
    | Err _ => (ctx_tx ctx = None → w_db w' = db) ∧ ¬ reliable
    end.
Lemma cascaded_err {A} ctx effect w (e : goerror) w' :
  (∃ db, begins_on ctx (w_db w) db ∧ (ctx_tx ctx = None → w_db w' = db) ∧ fails_with (λ _, ¬ reliable) e) →
  cascaded (A:=A) ctx effect w (Err e) w'.
Proof. intros (db & Hb & Hdb & He). exists db. split; [done|]. split; [done|by eapply unreliable]. Qed.

(** A loop that announces [R d es] for every row. *)
Lemma wp_announce_each (R : Delegation → list (Envelope EventData) → Prop) (rows : list Delegation)
    (body : Delegation → M unit) w :
  (∀ d w1, d ∈ rows → wp (body d) (λ r w', match r with
      | Ok _ => ∃ es, R d es ∧ w_db w' = append_events es (w_db w1) | Err _ => ¬ reliable end) w1) →
  wp (for_each rows body) (λ r w', match r with
      | Ok _ => ∃ ess, Forall2 R rows ess ∧ w_db w' = append_events (concat ess) (w_db w) | Err _ => ¬ reliable end) w.
Proof.
  revert w. induction rows as [|d rows IH]; intros w Hb; simpl.
  - apply wp_ret. exists []. split; [done|]. destruct (w_db w). unfold append_events. simpl. by rewrite app_nil_r.
  - apply wp_bind. eapply wp_mono; [apply Hb; left|]. intros [[]|e] w1; [|done]. intros (es & HR & Hdb1).
    eapply wp_mono; [apply IH; intros; apply Hb; by right|]. intros [[]|e] w2; [|done]. intros (ess & HF & Hdb2).
    exists (es :: ess). split; [by constructor|]. rewrite Hdb2, Hdb1. unfold append_events. simpl.
    by rewrite app_assoc.
Qed.

Lemma advisory_for_each {A} (l : list A) (body : A → M unit) : (∀ x, Advisory (body x)) → Advisory (for_each l body).
Proof. intros Hb. induction l; simpl; apply _. Qed.

(** *** EndForUser *)

(** A removed user's delegations end and leave the API; each of those the user
    was the delegate of is announced to its delegator's side. *)
Definition removal_event (t u : uuid) (d : Delegation) (es : list (Envelope EventData)) : Prop :=
  if bool_decide (DelegateID d = u)
  then ∃ e, es = [e] ∧ announces p EventDelegationEnded t (uuid_String (ID d)) "iam-system"
               (Cascade.removedPayload t EndReasonDelegateRemoved d) e
  else es = [].
Definition ended_for_user (t u : uuid) (db db' : Db) : Prop :=
  ∃ tx ess, Forall2 (removal_event t u) (retired tx <$> rows_where (involves t u) db) ess
    ∧ db' = append_events (concat ess) (replace_where (involves t u) (retired tx) db).

#[local] Instance quiet_clear ctx t u d : Advisory (Cascade.clearPointerOf s ctx t u d).
Proof.
  unfold Cascade.clearPointerOf. case_bool_decide; [apply _|]. intros w. unfold mbind, gom_bind. simpl.
  pose proof (quiet_ClearDelegatePointer (up:=Cascade.userProfile s) ctx t (DelegatorID d) w) as Hq.
  destruct (up_ClearDelegatePointer _ _ _ _ w) as [[a|e] w1]; apply DbRel_db in Hq; simpl in *; [eauto|].
  destruct (Cascade.metrics s) as [m|] eqn:Hm; simpl; [|eauto].
  destruct (cc_upfail m "cascade" Hm w1) as (w2 & -> & Hdb). exists w2. split; [done|congruence].
Qed.

Lemma wp_EndForUser ctx t u w :
  ctx_publisher ctx = None ∨ ctx_publisher ctx = Some p → db_inv (w_db w) → sees pool ctx t →
  wp (Cascade.EndForUser s ctx t u) (λ r w',
    cascaded ctx (ended_for_user t u) w r w') w.
Proof.
  intros Hpub Hinv Hsees. unfold Cascade.EndForUser. apply wp_bind. eapply wp_mono.
  { apply (rc_RunInTx pool _ ctx [] _ (λ _, True) (λ db _ db', ended_for_user t u db db') (λ _ _, ¬ reliable) w);
      [done|done|].
    intros tx ctx' cap w1 Htx Htx' Hp' _ _ Hb1 _. pose proof (begins_on_inv _ _ _ Hb1 Hinv) as Hinv1. apply wp_bind.
    eapply wp_mono; [by eapply wp_inside, (rc_EndForUser pool)|].
    intros [rows|e] w2; [|intros [_ ?]; by eapply fails_here, unhealthy]. intros (tx' & Htx2 & -> & Hdb2).
    assert (tx' = tx) as -> by (unfold eff_tx in Htx2; by rewrite Htx' in Htx2).
    assert (rls_check_tenant tx t = true) as Hrls by (by apply Hsees).
    rewrite (select_visible tx t _ Hrls (involves_tenant t u)).
    rewrite (swept_visible tx t _ Hrls (involves_tenant t u)) in Hdb2.
    apply wp_bind. eapply wp_mono; [apply (wp_announce_each (removal_event t u))|].
    - intros d w3 Hd. unfold Cascade.announceRemoved, removal_event. rewrite bool_decide_not.
      case_bool_decide; simpl.
      + eapply wp_mono; [eapply (wp_publish p _ _ _ _ _ (Cascade.removedPayload t EndReasonDelegateRemoved d)); [done..|]|].
        * apply payload_removed; [by eapply retired_ok|by repeat first [left | right]].
        * intros [[]|e] w4; [|done]. intros (e & He & Hdb). eauto.
      + apply wp_ret. exists []. split; [done|]. destruct (w_db w3). unfold append_events. simpl. by rewrite app_nil_r.
    - intros [[]|e] w3; [|intros ?; by apply fails_here]. intros (ess & HF & Hdb3). apply wp_ret. split; [|done].
      exists tx, ess. split; [exact HF|]. by rewrite Hdb3, Hdb2. }
  intros [rows|e] w1; [|by apply cascaded_err]. intros (db & Hb & Hend).
  apply wp_advisory; [apply advisory_for_each, _|]. intros w2 Hdb2.
  assert (Advisory (when_some (Cascade.metrics s) (λ m, for_each rows (λ d,
    if bool_decide (DelegateID d = u) then m_RecordEnded m EndReasonDelegateRemoved else mret tt)))) as Hadv.
  { apply advisory_when_some. intros m Hm. apply advisory_for_each. intros d. case_bool_decide; [by apply cc_ended|apply _]. }
  unfold wp. destruct (Hadv w2) as (w3 & -> & Hdb3). simpl. exists db. by rewrite Hdb3, Hdb2.
Qed.

(** *** EndForDisabledDelegate *)

(** Each grant to the disabled delegate ends with two events, in this order: the
    end, and a request to escalate to whoever can grant anew. *)
Definition disabled_events (t : uuid) (d : Delegation) (es : list (Envelope EventData)) : Prop :=
  ∃ e1 e2, es = [e1; e2]
    ∧ announces p EventDelegationEnded t (uuid_String (ID d)) "iam-system"
        (Cascade.removedPayload t EndReasonDelegateDisabled d) e1
    ∧ announces p EventDelegationEscalationRequested t (uuid_String (ID d)) "iam-system"
        (Cascade.escalationPayload t d) e2.
Definition ended_for_disabled (t u : uuid) (db db' : Db) : Prop :=
  ∃ tx ess, Forall2 (disabled_events t) (ended tx <$> rows_where (delegated_to t u) db) ess
    ∧ db' = append_events (concat ess) (replace_where (delegated_to t u) (ended tx) db).

Lemma wp_announceDisabled ctx tx t d w :
  ctx_publisher ctx = Some p → ctx_tx ctx = Some tx → row_ok d = true →
  wp (Cascade.announceDisabled ctx t d) (λ r w', match r with
    | Ok _ => ∃ es, disabled_events t d es ∧ w_db w' = append_events es (w_db w) | Err _ => ¬ reliable end) w.
Proof.
  intros Hp Htx Hrow. unfold Cascade.announceDisabled. apply wp_bind.
  eapply wp_mono; [eapply (wp_publish p _ _ _ _ _ (Cascade.removedPayload t EndReasonDelegateDisabled d)); [done..|]|].
  { apply payload_removed; [done|by repeat first [left | right]]. }
  intros [[]|e] w1; [|done]. intros (e1 & He1 & Hdb1).
  eapply wp_mono; [eapply (wp_publish p _ _ _ _ _ (Cascade.escalationPayload t d)); [done..|by apply payload_escalation]|]. intros [[]|e] w2; [|done]. intros (e2 & He2 & Hdb2).
  exists [e1; e2]. split; [by exists e1, e2|]. rewrite Hdb2, Hdb1. unfold append_events. simpl. by rewrite <- app_assoc.
Qed.

Lemma wp_EndForDisabledDelegate ctx t u w :
  ctx_publisher ctx = None ∨ ctx_publisher ctx = Some p → db_inv (w_db w) → sees pool ctx t →
  wp (Cascade.EndForDisabledDelegate s ctx t u) (λ r w',
    cascaded ctx (ended_for_disabled t u) w r w') w.
Proof.
  intros Hpub Hinv Hsees. unfold Cascade.EndForDisabledDelegate. apply wp_bind. eapply wp_mono.
  { apply (rc_RunInTx pool _ ctx 0%nat _ (λ _, True) (λ db _ db', ended_for_disabled t u db db') (λ _ _, ¬ reliable) w);
      [done|done|].
    intros tx ctx' cap w1 Htx Htx' Hp' _ _ Hb1 _. pose proof (begins_on_inv _ _ _ Hb1 Hinv) as Hinv1. apply wp_bind.
    eapply wp_mono; [by eapply wp_inside, (rc_EndForDisabledDelegate pool)|].
    intros [rows|e] w2; [|intros [_ ?]; by eapply fails_here, unhealthy]. intros (tx' & Htx2 & -> & Hdb2).
    assert (tx' = tx) as -> by (unfold eff_tx in Htx2; by rewrite Htx' in Htx2).
    assert (rls_check_tenant tx t = true) as Hrls by (by apply Hsees).
    rewrite (select_visible tx t _ Hrls (delegated_to_tenant t u)).
    rewrite (swept_visible tx t _ Hrls (delegated_to_tenant t u)) in Hdb2.
    apply wp_bind. eapply wp_mono; [apply (wp_announce_each (disabled_events t)); intros; eapply wp_announceDisabled; [done..|by eapply ended_ok]|].
    intros [[]|e] w3; [|intros ?; by apply fails_here]. intros (ess & HF & Hdb3). apply wp_ret. split; [|done].
    exists tx, ess. split; [exact HF|]. by rewrite Hdb3, Hdb2. }
  intros [n|e] w1; [|by apply cascaded_err]. intros (db & Hb & Hend).
  assert (Advisory (when_some (Cascade.metrics s) (λ m, for_each (replicate n tt) (λ _,
    m_RecordEnded m EndReasonDelegateDisabled)))) as Hadv.
  { apply advisory_when_some. intros m Hm. apply advisory_for_each. intros []. by apply cc_ended. }
  unfold wp. destruct (Hadv w1) as (w2 & -> & Hdb2). simpl. exists db. by rewrite Hdb2.
Qed.

(** *** ScrubTenant *)
Definition tenant_scrubbed (t : uuid) (db db' : Db) : Prop :=
  ∃ tx, db' = with_settings_of t None (replace_where (live_in t) (scrubbed tx) db).

Lemma wp_ScrubTenant ctx t w :
  ctx_publisher ctx = None ∨ ctx_publisher ctx = Some p → db_inv (w_db w) → sees pool ctx t →
  wp (Cascade.ScrubTenant s ctx t) (λ r w',
    cascaded ctx (tenant_scrubbed t) w r w') w.
Proof.
  intros Hpub Hinv Hsees. unfold Cascade.ScrubTenant. eapply wp_mono.
  { apply (rc_RunInTx pool _ ctx tt _ (λ _, True) (λ db _ db', tenant_scrubbed t db db') (λ _ _, ¬ reliable) w);
      [done|done|].
    intros tx ctx' cap w1 Htx Htx' Hp' _ _ Hb1 _. pose proof (begins_on_inv _ _ _ Hb1 Hinv) as Hinv1. apply wp_bind.
    eapply wp_mono; [by eapply wp_inside, (rc_SoftDeleteTenant pool)|].
    intros [[]|e] w2; [|intros [_ ?]; by eapply fails_here, unhealthy]. intros (tx' & rows & Htx2 & _ & Hdb2).
    assert (tx' = tx) as -> by (unfold eff_tx in Htx2; by rewrite Htx' in Htx2).
    assert (rls_check_tenant tx t = true) as Hrls by (by apply Hsees).
    rewrite (swept_visible tx t _ Hrls (live_in_tenant t)) in Hdb2.
    eapply wp_mono; [eapply wp_inside, (rc_settings_SoftDelete pool); [done|]|].
    - intros tx' Htx3. unfold eff_tx in Htx3. rewrite Htx' in Htx3. by subst.
    - intros [[]|e] w3; [|intros [_ ?]; by eapply fails_here, unhealthy]. intros Hdb3. split; [|done]. exists tx.
      by rewrite Hdb3, Hdb2. }
  intros [[]|e] w1; [done|by apply cascaded_err].
Qed.
End cascade.
