(* ===== verification/ConsumerSpec.v ===== *)
(** * What one delivery of the cascade queue does

    The dedup ledger and the cascade in one transaction: a delivery that is
    acknowledged has found its mark or had its effect with it, one that is not has
    had none. *)
From S2P Require Import Prelude GoLib Domain World Store StoreFacts MetricsRec EventBus EventSchema Postgres Contracts StoreSpec PostgresSpec DelegationSpec CascadeService CascadeSpec Consumer.
Local Open Scope Z_scope.
Local Open Scope string_scope.

(** ** The ledger *)
Definition is_marked (db : Db) (id consumer : string) : Prop := is_Some (db_processed db !! (id, consumer)).
Definition mark (id consumer : string) (now : Time) (db : Db) : Db :=
  match db_processed db !! (id, consumer) with
  | Some _ => db
  | None => mkDb (db_delegations db) (db_settings db) (<[(id, consumer) := now]> (db_processed db)) (db_outbox db)
  end.

#[export] Instance advisory_live `{Env} m : Advisory m → Advisory (live m).
Proof. intros Hm. unfold live. destruct env_metrics_live; apply _. Qed.

Lemma wp_wrapping {A} msg (m : M A) Q w :
  wp m (λ r w', match r with Ok a => Q (Ok a) w' | Err e => Q (Err (EWrap msg e)) w' end) w →
  wp (wrapping msg m) Q w.
Proof.
  intros Hm. unfold wrapping. apply wp_bind, wp_try. eapply wp_mono; [exact Hm|].
  intros [a|e] w'; [apply wp_ret|apply wp_throw].
Qed.

Section ledger.
Context `{E : Env} `{P : PgCommon} `{U : UuidLib} `{PL : !PgCommonLaws E P U}.

Class LedgerContract (st : idempotencyStore) : Prop := {
  lg_is : ∀ ctx n i w, wp (is_IsProcessed st ctx n i)
    (concludes ctx (λ db b db', db' = db ∧ b = bool_decide (is_marked db i n)) (λ _ _, False) w) w;
  lg_mark : ∀ ctx n i w, wp (is_MarkProcessed st ctx n i)
    (concludes ctx (λ db _ db', ∃ now, db' = mark i n now db) (λ _ _, False) w) w;
}.

#[export] Instance postgres_ledger pool :
  LedgerContract {| is_IsProcessed := ProcessedEvents.IsProcessed pool;
                    is_MarkProcessed := ProcessedEvents.MarkProcessed pool |}.
Proof.
  split; intros ctx n i w; simpl; apply wp_method; intros w0 _ tx w1 Htx Hdb.
  - apply wp_query; [intros e He; by apply fault_unchanged|]. split; [exact Hdb|]. unfold is_marked. by rewrite Hdb.
  - eapply wp_stmt_known; [done|intros e He; by apply fault_unchanged|]. simpl. rewrite Hdb. by exists (tx_now tx).
Qed.
End ledger.

(** ** The consumer *)
Section consumer.
Context `{E : Env} `{P : PgCommon} `{U : UuidLib} `{PL : !PgCommonLaws E P U} `{LO : !LawfulOthers E}.
Context (pool : Role) (p : Publisher) (c : CascadeConsumer).

Class ConsumerContract : Prop := {
  kc_user : ∀ ctx t u w, ctx_publisher ctx = None ∨ ctx_publisher ctx = Some p → db_inv (w_db w) → sees pool ctx t →
    wp (cs_EndForUser (cascade c) ctx t u) (cascaded ctx (ended_for_user p t u) w) w;
  kc_scrub : ∀ ctx t w, ctx_publisher ctx = None ∨ ctx_publisher ctx = Some p → db_inv (w_db w) → sees pool ctx t →
    wp (cs_ScrubTenant (cascade c) ctx t) (cascaded ctx (tenant_scrubbed t) w) w;
  kc_disabled : ∀ ctx t u w, ctx_publisher ctx = None ∨ ctx_publisher ctx = Some p → db_inv (w_db w) → sees pool ctx t →
    wp (cs_EndForDisabledDelegate (cascade c) ctx t u) (cascaded ctx (ended_for_disabled p t u) w) w;
  kc_ledger : LedgerContract (dedup c);
  kc_tx : ∃ r, tx c = Some r ∧ RunnerContract pool p r;
  kc_bind : ∀ ctx t user, ctx_tx ctx = None →
    sees pool (bindGUC c ctx t user) t ∧ ctx_tx (bindGUC c ctx t user) = None
    ∧ ctx_publisher (bindGUC c ctx t user) = ctx_publisher ctx;
}.
Context `{Hk : !ConsumerContract}.
#[local] Existing Instance kc_ledger.

(** The effect a message asks for, and the consumer name it is recorded under. *)
Definition requested (msg : Envelope json) (db db' : Db) : Prop :=
  if bool_decide (env_Type msg = EventMembershipRevoked)
  then ∃ q, unmarshal_MembershipRevoked (env_Payload msg) = Some q
            ∧ ended_for_user p (mr_TenantID q) (mr_UserID q) db db'
  else if bool_decide (env_Type msg = EventTenantMembershipsPurged)
  then ∃ q, unmarshal_TenantMembershipsPurged (env_Payload msg) = Some q ∧ tenant_scrubbed (tp_TenantID q) db db'
  else if bool_decide (env_Type msg = EventUserUpdated)
  then ∃ q, unmarshal_UserUpdated (env_Payload msg) = Some q ∧
         if bool_decide (uu_Status q = Some "disabled")
         then ∃ t, uuid_Parse (env_TenantID msg) = Some t ∧ ended_for_disabled p t (uu_UserID q) db db'
         else db' = db
  else db' = db.
Definition recorded_as (msg : Envelope json) : string :=
  if bool_decide (env_Type msg = EventMembershipRevoked) then consumerCascade
  else if bool_decide (env_Type msg = EventTenantMembershipsPurged) then consumerOffboarding
  else if bool_decide (env_Type msg = EventUserUpdated) then consumerDelegateDisable
  else consumerCascade.

(** A delivery recorded under [id]: acknowledged, it was either found recorded and
    did nothing or, not found recorded, had its effect on what its transaction
    began on and was marked with it; refused, it did nothing, and there is a reason. *)
Definition once (id name : string) (effect : Db → Db → Prop) (why : Prop) (d0 : Db) (r : result goerror unit) (db' : Db) : Prop :=
  match r with
  | Ok _ => (meanwhile d0 db' ∧ is_marked db' id name)
            ∨ ∃ seen db mid now, meanwhile d0 seen ∧ ¬ is_marked seen id name
                ∧ meanwhile seen db ∧ effect db mid ∧ db' = mark id name now mid
  | Err _ => meanwhile d0 db' ∧ why
  end.

(** What the handler of a delivery that is not a duplicate does. *)
Definition marks (n i : string) (effect : Db → Db → Prop) (why : Prop) (d0 : Db) (r : result goerror unit) (db' : Db) : Prop :=
  match r with
  | Ok _ => ∃ db mid now, meanwhile d0 db ∧ effect db mid ∧ db' = mark i n now mid
  | Err _ => meanwhile d0 db' ∧ why
  end.
Lemma marks_mono n i (e1 e2 : Db → Db → Prop) (why1 why2 : Prop) d0 r db' :
  (∀ db mid, e1 db mid → e2 db mid) → (why1 → why2) → marks n i e1 why1 d0 r db' → marks n i e2 why2 d0 r db'.
Proof. intros He Hw. unfold marks. destruct r; naive_solver. Qed.

Lemma wp_runCascadeAndMark ctx t n i fn (effect : Db → Db → Prop) w :
  ctx_tx ctx = None → ctx_publisher ctx = None ∨ ctx_publisher ctx = Some p → db_inv (w_db w) →
  (∀ ctx' tx w1, ctx_tx ctx' = Some tx → ctx_publisher ctx' = Some p → sees pool ctx' t → db_inv (w_db w1) →
     wp (fn ctx') (λ r w', match r with Ok _ => effect (w_db w1) (w_db w') | Err _ => ¬ reliable end) w1) →
  wp (runCascadeAndMark c (bindGUC c ctx t systemPrincipal) n i fn)
    (λ r w', marks n i effect (¬ reliable) (w_db w) r (w_db w')) w.
Proof.
  intros Htx Hpub Hinv Hfn. destruct (kc_bind ctx t systemPrincipal Htx) as (Hsees & Htx' & Hpub').
  destruct kc_tx as (r & Hr & Hrun). unfold runCascadeAndMark. rewrite Hr. eapply wp_mono.
  - apply (rc_RunInTx pool _ _ tt _ (λ _, True)
      (λ db _ db', ∃ mid now, effect db mid ∧ db' = mark i n now mid) (λ _ _, ¬ reliable) w); [by rewrite Hpub'|done|].
    intros tx ctx' cap w1 Heff Hbound Hp' _ _ Hb _. pose proof (begins_on_inv _ _ _ Hb Hinv). apply wp_bind.
    eapply wp_mono; [apply (Hfn ctx' tx w1 Hbound Hp'); [|done]|].
    + intros tx' Heff'. unfold eff_tx in Heff'. rewrite Hbound in Heff'. subst. by apply Hsees.
    + intros [[]|e] w2; [|intros ?; by apply fails_here]. intros Heffect.
      apply wp_wrapping. eapply wp_mono; [eapply wp_inside, lg_mark; done|].
      intros [[]|e] w3; [|intros [_ ?]; by eapply fails_here, unhealthy].
      intros [now Hdb3]. split; [|done]. eauto.
  - intros [[]|e] w' (db & Hb%begins_on_meanwhile & H); [|].
    + destruct H as (mid & now & ? & ?). by exists db, mid, now.
    + destruct H as [Hdb ?]. rewrite (Hdb Htx'). split; [done|by eapply unreliable].
Qed.

Lemma wp_skipDuplicate ctx n i w :
  wp (skipDuplicate ctx (dedup c) n i) (λ r w', meanwhile (w_db w) (w_db w') ∧
    match r with Ok b => b = bool_decide (is_marked (w_db w') i n) | Err _ => ¬ reliable end) w.
Proof.
  unfold skipDuplicate. apply wp_bind. eapply wp_mono; [apply lg_is|].
  intros [b|e] w1 (db & Hb%begins_on_meanwhile & Hdb1 & Hr); [|rewrite Hdb1; split; [done|by eapply unhealthy]].
  rewrite <- Hdb1 in Hb, Hr. destruct b; [|by apply wp_ret]. apply wp_advisory; [apply _|]. intros w2 Hdb2. apply wp_ret.
  by rewrite Hdb2.
Qed.

Lemma wp_runHandler ctx n i handler effect (why : Prop) w :
  (¬ reliable → why) → db_inv (w_db w) →
  (∀ w1, db_inv (w_db w1) → wp (handler n i) (λ r w', marks n i effect why (w_db w1) r (w_db w')) w1) →
  wp (runHandler c ctx n i handler) (λ r w', once i n effect why (w_db w) r (w_db w')) w.
Proof.
  intros Hwhy Hinv Hh. unfold runHandler, once. apply wp_bind, wp_wrapping.
  eapply wp_mono; [apply wp_skipDuplicate|]. intros [b|e] w1 [Hm1 Hb]; [|auto]. subst b.
  case_bool_decide as Hm; [apply wp_ret; by left|].
  apply wp_bind, wp_try. eapply wp_mono; [by apply Hh; destruct (meanwhile_inv _ _ Hm1)|]. intros [[]|e] w2 Hr; simpl.
  - destruct Hr as (db & mid & now & Hm2 & He & Hdb2). unfold wp.
    destruct (advisory (m:=live RecordCascadeProcessed) w2) as (w3 & -> & Hdb3). simpl. right. rewrite Hdb3.
    by exists (w_db w1), db, mid, now.
  - apply wp_advisory; [apply _|]. intros w3 Hdb3. apply wp_throw. destruct Hr. rewrite Hdb3. split; [by etransitivity|done].
Qed.

Lemma wp_markProcessedInTx ctx n i w :
  ctx_tx ctx = None → ctx_publisher ctx = None ∨ ctx_publisher ctx = Some p →
  wp (markProcessedInTx ctx (tx c) (dedup c) n i) (λ r w', marks n i eq (¬ reliable) (w_db w) r (w_db w')) w.
Proof.
  intros Htx Hpub. destruct kc_tx as (r & Hr & Hrun). unfold markProcessedInTx. rewrite Hr. eapply wp_mono.
  - apply (rc_RunInTx pool _ ctx tt _ (λ _, True) (λ db _ db', ∃ now, db' = mark i n now db) (λ _ _, ¬ reliable) w); [done|done|].
    intros tx ctx' cap w1 _ Hbound _ _ _ _ _. apply wp_wrapping.
    eapply wp_mono; [eapply wp_inside, lg_mark; done|]. intros [[]|e] w2; [|intros [_ ?]; by eapply fails_here, unhealthy].
    intros [now Hdb2]. split; [|done]. eauto.
  - intros [[]|e] w' (db & Hb%begins_on_meanwhile & H).
    + destruct H as [now ?]. by exists db, db, now.
    + destruct H as [Hdb ?]. rewrite (Hdb Htx). split; [done|by eapply unreliable].
Qed.

(** The three cascades, inside the transaction that also writes the mark. *)
Ltac cascade_call L :=
  intros ctx' tx w1 Htx1 Hp' Hsees Hinv1; apply wp_wrapping; (eapply wp_mono; [apply L; [by right|done|exact Hsees]|]);
  intros [[]|e] w' (db & ->%(begins_on_inside _ _ _ _ Htx1) & H); [exact H|by destruct H].

Lemma wp_handleMembershipRevoked ctx msg n i w :
  ctx_tx ctx = None → ctx_publisher ctx = None ∨ ctx_publisher ctx = Some p → db_inv (w_db w) →
  wp (handleMembershipRevoked c ctx msg n i) (λ r w', marks n i
    (λ db mid, ∃ q, unmarshal_MembershipRevoked (env_Payload msg) = Some q
                 ∧ ended_for_user p (mr_TenantID q) (mr_UserID q) db mid)
    (unmarshal_MembershipRevoked (env_Payload msg) = None ∨ ¬ reliable) (w_db w) r (w_db w')) w.
Proof.
  intros Htx Hpub Hinv. unfold handleMembershipRevoked.
  destruct (unmarshal_MembershipRevoked _) as [q|] eqn:Hq; [|by split; [|left]].
  eapply wp_mono; [apply (wp_runCascadeAndMark ctx _ n i _ (ended_for_user p (mr_TenantID q) (mr_UserID q)));
    [done..|]; cascade_call kc_user|]. intros r w'. apply marks_mono; eauto.
Qed.
Lemma wp_handlePurged ctx msg n i w :
  ctx_tx ctx = None → ctx_publisher ctx = None ∨ ctx_publisher ctx = Some p → db_inv (w_db w) →
  wp (handleTenantMembershipsPurged c ctx msg n i) (λ r w', marks n i
    (λ db mid, ∃ q, unmarshal_TenantMembershipsPurged (env_Payload msg) = Some q ∧ tenant_scrubbed (tp_TenantID q) db mid)
    (unmarshal_TenantMembershipsPurged (env_Payload msg) = None ∨ ¬ reliable) (w_db w) r (w_db w')) w.
Proof.
  intros Htx Hpub Hinv. unfold handleTenantMembershipsPurged.
  destruct (unmarshal_TenantMembershipsPurged _) as [q|] eqn:Hq; [|by split; [|left]].
  eapply wp_mono; [apply (wp_runCascadeAndMark ctx _ n i _ (tenant_scrubbed (tp_TenantID q)));
    [done..|]; cascade_call kc_scrub|]. intros r w'. apply marks_mono; eauto.
Qed.
Lemma wp_handleUserDisabled ctx msg n i w :
  ctx_tx ctx = None → ctx_publisher ctx = None ∨ ctx_publisher ctx = Some p → db_inv (w_db w) →
  wp (handleUserDisabled c ctx msg n i) (λ r w', marks n i
    (λ db mid, ∃ q t, unmarshal_UserUpdated (env_Payload msg) = Some q ∧ uuid_Parse (env_TenantID msg) = Some t
                 ∧ ended_for_disabled p t (uu_UserID q) db mid)
    (unmarshal_UserUpdated (env_Payload msg) = None ∨ uuid_Parse (env_TenantID msg) = None ∨ ¬ reliable)
    (w_db w) r (w_db w')) w.
Proof.
  intros Htx Hpub Hinv. unfold handleUserDisabled.
  destruct (unmarshal_UserUpdated _) as [q|] eqn:Hq; [|by split; [|left]].
  destruct (uuid_Parse _) as [t|] eqn:Ht; [|by split; [|right; left]].
  eapply wp_mono; [apply (wp_runCascadeAndMark ctx _ n i _ (ended_for_disabled p t (uu_UserID q)));
    [done..|]; cascade_call kc_disabled|]. intros r w'. apply marks_mono; eauto.
Qed.

Lemma once_mono id name (e1 e2 : Db → Db → Prop) (why1 why2 : Prop) d0 r db' :
  (∀ db mid, e1 db mid → e2 db mid) → (why1 → why2) → once id name e1 why1 d0 r db' → once id name e2 why2 d0 r db'.
Proof. intros He Hw. unfold once. destruct r as [[]|e]; [|naive_solver]. intros [?|(seen & db & mid & now & ?)]; [by left|].
  right. exists seen, db, mid, now. naive_solver.
Qed.

(** What makes a message of a known type one the consumer can serve: it passes the
    validator and decodes, and a disabled user comes with its tenant. *)
Definition valid_payload (msg : Envelope json) : bool :=
  match validate c with Some v => is_ok (v (env_Type msg) (env_Payload msg)) | None => true end.
Definition decodes (msg : Envelope json) : bool :=
  if bool_decide (env_Type msg = EventMembershipRevoked)
  then bool_decide (is_Some (unmarshal_MembershipRevoked (env_Payload msg)))
  else if bool_decide (env_Type msg = EventTenantMembershipsPurged)
  then bool_decide (is_Some (unmarshal_TenantMembershipsPurged (env_Payload msg)))
  else match unmarshal_UserUpdated (env_Payload msg) with
       | None => false
       | Some q => if bool_decide (uu_Status q = Some "disabled")
                   then bool_decide (is_Some (uuid_Parse (env_TenantID msg))) else true
       end.
Definition serviceable (msg : Envelope json) : bool := valid_payload msg && decodes msg.

Lemma wp_validate msg w :
  wp (validatePayload c msg) (λ r w', w_db w' = w_db w ∧
    match r with Ok _ => True | Err _ => valid_payload msg = false end) w.
Proof.
  unfold validatePayload, valid_payload. destruct (validate c) as [v|]; [|done]. destruct (negb _); [done|].
  destruct (v _ _); [done|]. apply wp_advisory; [apply _|]. intros w1 Hdb1. by apply wp_throw.
Qed.

(** A delivery of a well-identified message of a type the service knows. *)
Lemma wp_Handle_known ctx msg id w :
  outermost p ctx → db_inv (w_db w) →
  uuid_Parse (env_ID msg) = Some id → id ≠ uuid_Nil → dispatched (env_Type msg) = true →
  wp (Handle c ctx msg) (λ r w',
    once (uuid_String id) (recorded_as msg) (requested msg) (serviceable msg = true → ¬ reliable) (w_db w) r (w_db w')) w.
Proof.
  intros [Htx Hpub] Hinv Hid Hnil Hty. unfold Handle, recorded_as, requested. rewrite Hid.
  apply wp_advisory; [apply _|]. intros w1 Hdb1. rewrite bool_decide_false by done. cbv zeta.
  apply wp_bind. eapply wp_mono; [apply wp_validate|]. unfold serviceable, decodes.
  intros [[]|e] w2 [Hdb2 Hv]; [|by rewrite Hdb2, Hdb1, Hv].
  assert (w_db w2 = w_db w) as Hdb by congruence. assert (db_inv (w_db w2)) as Hinv2 by congruence. rewrite <- Hdb.
  unfold dispatched in Hty. apply bool_decide_eq_true in Hty.
  destruct (bool_decide (env_Type msg = EventMembershipRevoked)) eqn:H1.
  { apply wp_runHandler; [done..|]. intros w3 Hinv3. eapply wp_mono; [by apply wp_handleMembershipRevoked|].
    intros r w'. apply marks_mono; [done|]. intros [Hnone|?]; rewrite ?Hnone; [|done]. by intros [_ ?]%andb_true_iff. }
  destruct (bool_decide (env_Type msg = EventTenantMembershipsPurged)) eqn:H2.
  { apply wp_runHandler; [done..|]. intros w3 Hinv3. eapply wp_mono; [by apply wp_handlePurged|].
    intros r w'. apply marks_mono; [done|]. intros [Hnone|?]; rewrite ?Hnone; [|done]. by intros [_ ?]%andb_true_iff. }
  assert (env_Type msg = EventUserUpdated) as H3.
  { apply bool_decide_eq_false in H1, H2. set_solver. }
  rewrite bool_decide_true by done. unfold isUserUpdatedDisabled.
  destruct (unmarshal_UserUpdated (env_Payload msg)) as [q|] eqn:Hq; simpl; [|by rewrite andb_false_r].
  destruct (bool_decide (uu_Status q = Some "disabled")) eqn:Hdis.
  - eapply wp_mono; [eapply (wp_runHandler _ _ _ _ _ (_ ∨ _ ∨ _)); [by intros ?; right; right|done|];
      intros w3 Hinv3; by apply wp_handleUserDisabled|].
    intros r w'. apply once_mono.
    + intros db mid (q' & t & Hq' & Ht & He). exists q. split; [done|]. rewrite Hdis. simplify_eq. eauto.
    + intros [?|[Hnone|?]]; [congruence| |done]. rewrite Hnone. by intros [_ ?]%andb_true_iff.
  - unfold ackFiltered. apply wp_bind, wp_wrapping. eapply wp_mono; [apply wp_skipDuplicate|].
    intros [b|e] w3 [Hm3 Hb]; [|by split].
    destruct b; symmetry in Hb; [apply bool_decide_eq_true in Hb; apply wp_ret; by left|].
    apply bool_decide_eq_false in Hb. apply wp_wrapping. eapply wp_mono; [by apply wp_markProcessedInTx|].
    intros [[]|e] w4; [|intros [? ?]; split; [by etransitivity|done]]. intros (db & mid & now & Hm4 & <- & Hdb4). right.
    exists (w_db w3), db, db, now. do 3 (split; [done|]). split; [|done]. exists q. by rewrite Hdis.
Qed.
End consumer.
