(* ===== verification/JobSpec.v ===== *)
(** * What the cron jobs do

    Each job moves the tables by a number of lawful steps of its own kind — end
    an expired row, start a due one, warn, end a lapsed review — one event each,
    and counts what it did. *)
From S2P Require Import Prelude GoLib Domain World Store StoreFacts MetricsRec EventBus EventSchema Contracts StoreSpec Postgres PostgresFacts PostgresSpec ServiceFacts DelegationSpec Jobs FloatFacts.
Local Open Scope Z_scope.

(** ** Steps *)
#[local] Opaque computeDaysRemaining.

Section steps.
Context `{U : UuidLib}.
Context (p : Publisher).

(** The row [d] becomes [f d] and one event about it is published. *)
Definition announced_by (f : Tx → Delegation → Delegation) (ty : string) (data : Delegation → EventData)
    (d : Delegation) (db db' : Db) : Prop :=
  ∃ tx e, announces p ty (TenantID d) (uuid_String (ID d)) "iam-system" (data d) e
    ∧ db' = append_events [e] (put_row (updated_row tx (f tx) d) db).
(** The same, the row being in the table. *)
Definition announced_at (f : Tx → Delegation → Delegation) (ty : string) (data : Delegation → EventData)
    (d : Delegation) (db db' : Db) : Prop :=
  db_delegations db !! ID d = Some d ∧ announced_by f ty data d db db'.
Definition step_of (Q : Delegation → Prop) (f : Tx → Delegation → Delegation) (ty : string)
    (data : Delegation → EventData) : relation Db := λ db db',
  ∃ d, db_delegations db !! ID d = Some d ∧ DeletedAt d = None ∧ Q d ∧ announced_by f ty data d db db'.

Definition end_row (tx : Tx) : Delegation → Delegation := set_Status DelegationEnded.
Definition start_row (tx : Tx) : Delegation → Delegation := set_Status DelegationActive.
Definition warn_row (days : Z) (tx : Tx) (d : Delegation) : Delegation :=
  set_Review (ReviewDueAt d) (Some days) (ReviewWindowDays d) d.

Definition expire_step (now : Time) : relation Db :=
  step_of (λ d, expired_at now d = true) end_row EventDelegationEnded (λ d, endedEvent d EndReasonExpired).
Definition start_step (now : Time) : relation Db :=
  step_of (λ d, startable_at now d = true) start_row EventDelegationStarted startedEvent.
Definition warn_step (now : Time) : relation Db := λ db db',
  ∃ days, 1 ≤ days ≤ 3 ∧
    step_of (λ d, warnable_at now d = true ∧ days = computeDaysRemaining (ReviewDueAt d) now
                  ∧ ReviewLastWarnedBucket d ≠ Some days)
      (warn_row days) EventDelegationReviewRequested (λ d, reviewEvent d days) db db'.
Definition lapse_step (now : Time) : relation Db :=
  step_of (λ d, overdue_at now d = true) end_row EventDelegationEnded (λ d, endedEvent d EndReasonReviewExpired).
End steps.

(** *** Among the others

    [n] steps of this process, the transactions of others before, between and after. *)
Definition among `{Env} (step : relation Db) (n : nat) (db db' : Db) : Prop :=
  ∃ m, nsteps (λ a c, ∃ b, meanwhile a b ∧ step b c) n db m ∧ meanwhile m db'.
Section among.
Context `{E : Env} (step : relation Db).
Lemma among_none db db' : meanwhile db db' → among step 0 db db'.
Proof. exists db. split; [constructor|done]. Qed.
Lemma among_wait n db1 db2 db3 : among step n db1 db2 → meanwhile db2 db3 → among step n db1 db3.
Proof. intros (m & Hn & Hm) H. exists m. split; [done|by etransitivity]. Qed.
Lemma among_step n db1 db2 db3 db4 :
  among step n db1 db2 → meanwhile db2 db3 → step db3 db4 → among step (S n) db1 db4.
Proof.
  intros (m & Hn & Hm) H Hs. exists db4. split; [|done]. eapply nsteps_r; [done|]. exists db3. split; [by etransitivity|done].
Qed.
Lemma among_after n db1 db2 db3 : meanwhile db1 db2 → among step n db2 db3 → among step n db1 db3.
Proof.
  intros H (m & Hn & Hm). destruct Hn as [db2|n db2 db2' m (b & Hb & Hs) Hn].
  - apply among_none. by etransitivity.
  - exists m. split; [|done]. econstructor; [|done]. exists b. split; [by etransitivity|done].
Qed.
Lemma among_alone `{!Alone E} n db db' : among step n db db' → nsteps step n db db'.
Proof.
  intros (m & Hn & ->%alone_meanwhile). induction Hn as [|n x y z (b & ->%alone_meanwhile & Hs) _ IH]; [constructor|].
  by econstructor.
Qed.
End among.

(** *** Draining

    When each step takes its row out of [Pw], as many steps as there are rows in
    [Pw] leave none. *)
Section drain.
Context `{U : UuidLib} (p : Publisher) (Pw : Delegation → bool) (f : Tx → Delegation → Delegation) (ty : string)
  (data : Delegation → EventData).
Context (Hid : ∀ tx d, ID (f tx d) = ID d) (Hout : ∀ tx d, Pw d = true → Pw (updated_row tx (f tx) d) = false).

(** Distinct rows of the tables that are in [Pw]. *)
Definition due (l : list Delegation) (db : Db) : Prop :=
  NoDup (ID <$> l) ∧ ∀ d, d ∈ l → db_delegations db !! ID d = Some d ∧ Pw d = true.

Lemma due_before_step db1 db2 l :
  step_of p (λ d, Pw d = true) f ty data db1 db2 → due l db2 → ∃ d, due (d :: l) db1.
Proof using Hid Hout.
  intros (d & Hd & _ & HP & tx & e & _ & ->) [Hnd Hl]. exists d.
  assert (∀ x, x ∈ l → ID x ≠ ID d ∧ db_delegations db1 !! ID x = Some x ∧ Pw x = true) as Hx.
  { intros x Hx. destruct (Hl x Hx) as [Hk HPx]. simpl in Hk. rewrite updated_row_id in Hk by done.
    destruct (decide (ID x = ID d)) as [Heq|Hne]; [|by rewrite lookup_insert_ne in Hk].
    rewrite Heq, lookup_insert_eq in Hk. injection Hk as <-. by rewrite Hout in HPx. }
  split.
  - rewrite fmap_cons. constructor; [|done]. intros (x & Heq & Hin)%list_elem_of_fmap. by destruct (Hx x Hin) as [? _].
  - intros x [->|Hin]%elem_of_cons; [done|]. by destruct (Hx x Hin) as [_ ?].
Qed.
Lemma due_before n db1 db2 l :
  nsteps (step_of p (λ d, Pw d = true) f ty data) n db1 db2 → due l db2 →
  ∃ l', due l' db1 ∧ length l' = (n + length l)%nat.
Proof using Hid Hout.
  induction 1 as [db|n db1 db2 db3 Hs _ IH]; intros Hl; [by exists l|].
  destruct (IH Hl) as (l' & Hl' & Hlen). destruct (due_before_step _ _ _ Hs Hl') as [d Hd].
  exists (d :: l'). split; [done|]. simpl. lia.
Qed.
Lemma drained n db1 db2 :
  db_inv db2 → nsteps (step_of p (λ d, Pw d = true) f ty data) n db1 db2 →
  (∀ l, NoDup (ID <$> l) → (∀ d, d ∈ l → db_delegations db1 !! ID d = Some d ∧ Pw d = true) → (length l ≤ n)%nat) →
  ∀ k d, db_delegations db2 !! k = Some d → Pw d = false.
Proof using Hid Hout.
  intros Hinv Hn Hmax k d Hd. destruct (Pw d) eqn:HP; [|done]. exfalso.
  destruct (inv_row _ Hinv k d Hd) as [<- _].
  destruct (due_before n db1 db2 [d] Hn) as (l & [Hnd Hl] & Hlen).
  - split; [apply NoDup_singleton|]. by intros x ->%list_elem_of_singleton.
  - specialize (Hmax l Hnd Hl). simpl in Hlen. lia.
Qed.
End drain.

(** What the jobs pick is live and open. *)
Lemma expired_open now d : expired_at now d = true → DeletedAt d = None ∧ open_status (Status d) = true.
Proof. unfold expired_at. rewrite andb_true_iff, bool_decide_eq_true. by intros [_ [-> ?]]. Qed.
Lemma startable_open now d : startable_at now d = true → DeletedAt d = None ∧ Status d = DelegationScheduled.
Proof. unfold startable_at. rewrite andb_true_iff, !bool_decide_eq_true. by intros [_ [-> ?]]. Qed.
Lemma overdue_open now d : overdue_at now d = true → DeletedAt d = None ∧ open_status (Status d) = true.
Proof. unfold overdue_at. rewrite andb_true_iff, bool_decide_eq_true. by intros [(_ & -> & ?) _]. Qed.

Lemma endable s d : s = DelegationEnded ∨ s = DelegationActive →
  row_ok d = true → row_ok (set_Status s d) = true.
Proof. intros Hs. apply row_ok_status. destruct Hs as [->| ->]; set_solver. Qed.

(** The statements of the jobs, on a row that satisfies their WHERE clause. *)
Lemma end_row_step tx d : DeletedAt d = None → open_status (Status d) = true → row_step d (updated_row tx (end_row tx) d).
Proof.
  intros Hl Ho. apply (updated_row_step tx (where_end (TenantID d) (ID d) (RecordVersion d))); [apply sets_end; by left|].
  unfold where_end, where_activate, where_warn, in_tenant, has_id, has_version, is_live, has_status.
  by rewrite ?Z.eqb_refl, !bool_decide_true.
Qed.
Lemma start_row_step tx d : DeletedAt d = None → Status d = DelegationScheduled → row_step d (updated_row tx (start_row tx) d).
Proof.
  intros Hl Hs. apply (updated_row_step tx (where_activate (TenantID d) (ID d) (RecordVersion d))); [apply sets_activate|].
  unfold where_end, where_activate, where_warn, in_tenant, has_id, has_version, is_live, has_status.
  by rewrite ?Z.eqb_refl, !bool_decide_true.
Qed.
Lemma warn_row_step b tx d : DeletedAt d = None → Status d = DelegationActive → row_step d (updated_row tx (warn_row b tx) d).
Proof.
  intros Hl Hs. apply (updated_row_step tx (where_warn (TenantID d) (ID d) (RecordVersion d)) (set_bucket b)); [apply sets_warn|].
  unfold where_end, where_activate, where_warn, in_tenant, has_id, has_version, is_live, has_status.
  by rewrite ?Z.eqb_refl, !bool_decide_true.
Qed.

(** One row replaced by an acceptable one: the invariant holds on, the other rows
    are as they were. *)
Definition one_row (d : Delegation) (db db' : Db) : Prop :=
  db_inv db' ∧ kept db db' ∧ ∀ k, k ≠ ID d → db_delegations db' !! k = db_delegations db !! k.
Lemma announced_by_inv `{UuidLib} p f ty data d db db' :
  db_inv db → db_delegations db !! ID d = Some d → (∀ tx, ID (f tx d) = ID d) →
  (∀ tx, row_ok d = true → row_ok (f tx d) = true) → (∀ tx, row_step d (updated_row tx (f tx) d)) →
  announced_by p f ty data d db db' → one_row d db db'.
Proof.
  intros Hinv Hd Hid Hok Hstep (tx & e & _ & ->). destruct (inv_row db Hinv _ _ Hd) as [_ Hrow]. unfold one_row, kept. simpl.
  rewrite updated_row_id by done. split; [split; simpl|split].
  - intros k b. rewrite lookup_insert_Some. intros [[<- <-]|[_ Hb]]; [|by apply (inv_row db Hinv)].
    rewrite updated_row_id by done. split; [done|]. apply row_ok_updated; auto.
  - apply (inv_settings db Hinv).
  - intros k b. rewrite lookup_insert_Some. intros [[<- <-]|[_ Hb]]; [by exists d|by exists b].
  - intros k Hk. by rewrite lookup_insert_ne.
Qed.

(** The dedup ledger has lost entries, and nothing else has happened. *)
Definition ledger_pruned : relation Db := λ d d',
  db_delegations d' = db_delegations d ∧ db_settings d' = db_settings d ∧ db_outbox d' = db_outbox d
  ∧ db_processed d' ⊆ db_processed d.

Section jobs.
Context `{E : Env} `{P : PgCommon} `{U : UuidLib} `{PL : !PgCommonLaws E P U}.
Context `{LO : !LawfulOthers E} `{UI : !UniqueIds E}.
Context (read pool : Role) (p : Publisher) (j : JobContext).

Class JobContract : Prop := {
  jc_find : FinderContract read (Delegations j);
  jc_purge : PurgeContract read (Delegations j);
  jc_prune : ∀ f ctx a b w, ProcessedEventsPrune j = Some f →
    wp (f ctx a b) (λ _ w', ∃ db, meanwhile (w_db w) db ∧ ledger_pruned db (w_db w')) w;
  jc_write : WriteContract read (Delegations j);
  jc_runner : RunnerContract pool p (JobTxRunner j);
  jc_up : QuietUserProfile (UserProfile j);
  jc_bind : ∀ ctx t user, ctx_tx ctx = None →
    ctx_tx (BindTenantGUC j ctx t user) = None
    ∧ ctx_publisher (BindTenantGUC j ctx t user) = ctx_publisher ctx;
  jc_expiry : ∀ m, JMetrics j = Some m → Advisory (jm_RecordExpiryDeferred m);
  jc_activation : ∀ m, JMetrics j = Some m → Advisory (jm_RecordActivationDeferred m);
  jc_review : ∀ m, JMetrics j = Some m → Advisory (jm_RecordReviewDeferred m);
  jc_warned : ∀ m x, JMetrics j = Some m → Advisory (jm_RecordReviewWarned m x);
  jc_expired : ∀ m, JMetrics j = Some m → Advisory (jm_RecordReviewExpired m);
  jc_ended : ∀ m x, JMetrics j = Some m → Advisory (jm_RecordEnded m x);
  jc_upfail : ∀ m x, JMetrics j = Some m → Advisory (jm_RecordUPAvailabilityFailure m x);
}.
Context `{Hj : !JobContract}.
#[local] Existing Instances jc_find jc_purge jc_write jc_runner jc_up.

Lemma wp_enqueueEvent ctx tx ty t subject data cron w :
  ctx_publisher ctx = Some p → ctx_tx ctx = Some tx →
  wp (enqueueEvent ctx ty t subject data cron) (λ r w',
    match r with
    | Ok _ => ∃ e, announces p ty t subject "iam-system" data e ∧ w_db w' = append_events [e] (w_db w)
    | Err e => w_db w' = w_db w ∧ fails_with (λ _, refused ty data) e
    end) w.
Proof.
  intros Hp Htx. unfold enqueueEvent, EventPublisherFromContext. rewrite Hp. apply wp_bind, wp_intro. simpl.
  eapply wp_mono; [by eapply wp_EnqueueCtx|]. intros [[]|e] w'; [|done]. intros (id & Hid).
  eexists. split; [|exact Hid]. by repeat split.
Qed.

(** When nothing stands in the way of the transaction about [d]: nobody else is at
    work, the database answers, the bound tenant is the row's own, and the event
    can be encoded. *)
Definition unhindered (ctx : Ctx) (ty : string) (data : EventData) (d : Delegation) : Prop :=
  Alone E ∧ healthy_db ∧ sees pool (BindTenantGUC j ctx (TenantID d) systemUserID) (TenantID d) ∧ ¬ refused ty data.

(** What one transaction of a job does to its row: the announced change, or
    nothing when it lost a race or failed, which it cannot when unhindered. *)
Definition tx_outcome_of (fine : Prop) (change : Db → Db → Prop) (d0 : Db) (r : result goerror bool) (d1 : Db) : Prop :=
  match r with
  | Ok raced => (raced = true ∧ meanwhile d0 d1 ∧ ¬ fine)
                ∨ (∃ db, meanwhile d0 db ∧ change db d1 ∧ (raced = true → ¬ fine))
  | Err _ => meanwhile d0 d1 ∧ ¬ fine
  end.

(** The same of its body, before the commit. *)
Definition body_outcome (fine : Prop) (change : Db → Db → Prop) (w0 : World) (r : result goerror bool) (w' : World) : Prop :=
  match r with
  | Ok b => (b = true ∧ w_db w' = w_db w0 ∧ ¬ fine) ∨ (change (w_db w0) (w_db w') ∧ (b = true → ¬ fine))
  | Err e => fails_with (λ _, ¬ fine) e
  end.

Lemma wp_job_tx ctx t fn fine change w :
  outermost p ctx →
  (∀ tx ctx' raced w1, eff_tx pool (BindTenantGUC j ctx t systemUserID) tx → ctx_tx ctx' = Some tx →
     ctx_publisher ctx' = Some p → meanwhile (w_db w) (w_db w1) → (raced = true → ¬ fine) →
     wp (fn ctx' raced) (body_outcome fine change w1) w1) →
  (fine → healthy_db) →
  wp (tx_RunInTx (JobTxRunner j) (BindTenantGUC j ctx t systemUserID) false fn)
    (λ r w', tx_outcome_of fine change (w_db w) r (w_db w')) w.
Proof.
  intros [Htx Hpub] Hfn Hfine. destruct (jc_bind ctx t systemUserID Htx) as [Htx' Hpub']. eapply wp_mono.
  - apply (rc_RunInTx pool _ _ false _ (λ b, b = true → ¬ fine)
      (λ db b db', (b = true ∧ db' = db ∧ ¬ fine) ∨ (change db db' ∧ (b = true → ¬ fine)))
      (λ _ _, ¬ fine) w); [by rewrite Hpub'|done|].
    intros tx ctx' cap w1 Heff Hbound Hp' _ _ Hb%begins_on_meanwhile HC.
    eapply wp_mono; [by eapply Hfn|]. intros [b|e] w2; [|done]. intros H. split; [done|]. by destruct H as [(?&?&?)|[? ?]]; auto.
  - intros [b|e] w' (db & Hb%begins_on_meanwhile & H).
    + destruct H as [(? & -> & ?)|[? ?]]; [by left|right; eauto].
    + destruct H as [Hdb He]. split; [by rewrite (Hdb Htx')|]. intros Hf.
      by destruct (healthy_fails _ _ (Hfine Hf) He) as (? & ? & _).
Qed.

(** The tail of a transaction: the event after the write, or the refused write. *)
Lemma wp_announce_change ctx f ty data d tx ctx' tx' (raced : bool) cron w0 w :
  let fine := unhindered ctx ty (data d) d in
  ctx_tx ctx' = Some tx → ctx_publisher ctx' = Some p → (raced = true → ¬ fine) →
  db_delegations (w_db w0) !! ID d = Some d → w_db w = put_row (updated_row tx' (f tx') d) (w_db w0) →
  wp (_ ← enqueueEvent ctx' ty (TenantID d) (uuid_String (ID d)) (data d) cron; mret raced)
    (body_outcome fine (announced_at p f ty data d) w0) w.
Proof.
  intros fine Htx Hp HC Hin Hdb. apply wp_bind. eapply wp_mono; [by eapply wp_enqueueEvent|].
  intros [[]|e] w3.
  - intros (e & He & Hdb3). apply wp_ret. right. split; [|done]. split; [done|]. exists tx', e. split; [done|]. by rewrite Hdb3, Hdb.
  - intros [_ He]. eapply fails_mono; [|exact He]. unfold fine, unhindered. tauto.
Qed.

Lemma wp_lost e (fine : Prop) change w0 w :
  ¬ fine → w_db w = w_db w0 → wp (if lost_race e then mret true else throw e) (body_outcome fine change w0) w.
Proof. intros Hno Hdb. destruct (lost_race e); [apply wp_ret; by left|by apply wp_throw, fails_here]. Qed.

(** A row [d] as the job read it in [seen], [w] being later. *)
Section row.
Context (ctx : Ctx) (d : Delegation) (seen : Db) (w : World) (Hctx : outermost p ctx) (Hinv : db_inv (w_db w))
  (Hd : db_delegations seen !! ID d = Some d) (Hh : history seen (w_db w))
  (Hhere : Alone E → db_delegations (w_db w) !! ID d = Some d).

(** A write conditional on the version of the row that was read is one on that row. *)
Lemma written_row w1 d0 :
  meanwhile (w_db w) (w_db w1) → live_row (w_db w1) (TenantID d) (ID d) d0 → RecordVersion d0 = RecordVersion d → d0 = d.
Proof using Hd Hh UI. intros Hm [Hi _] Hv. eapply (same_version seen (w_db w1)); [|done..]. by etransitivity; [|apply history_meanwhile]. Qed.
Lemma later_inv w1 : meanwhile (w_db w) (w_db w1) → db_inv (w_db w1).
Proof using Hinv LO. intros Hm. by destruct (meanwhile_inv _ _ Hm). Qed.

(** An unhindered conditional write on the row as it was read succeeds. *)
Lemma write_lost ty data (X : goerror → Prop) e tx ctx' w1 :
  eff_tx pool (BindTenantGUC j ctx (TenantID d) systemUserID) tx → ctx_tx ctx' = Some tx →
  meanwhile (w_db w) (w_db w1) →
  (∀ x, db_delegations (w_db w1) !! ID d = Some d → X x → ¬ sees read ctx' (TenantID d)) →
  fails_with X e → ¬ unhindered ctx ty data d.
Proof using Hhere.
  intros Heff Htx Hm HX He (Hal & Hh' & Hs & _). destruct (healthy_fails _ _ Hh' He) as (x & Hx & _).
  apply (HX x); [|done|by eapply sees_inside]. rewrite (alone_meanwhile _ _ Hm). by apply Hhere.
Qed.

Lemma wp_end_row reason cron :
  DeletedAt d = None → open_status (Status d) = true →
  wp (tx_RunInTx (JobTxRunner j) (BindTenantGUC j ctx (TenantID d) systemUserID) false (endInTx j d reason cron))
    (λ r w', tx_outcome_of (unhindered ctx EventDelegationEnded (endedEvent d reason) d)
               (announced_at p end_row EventDelegationEnded (λ d, endedEvent d reason) d)
               (w_db w) r (w_db w')) w.
Proof using All.
  intros Hl Hopen. apply wp_job_tx; [done| |by intros (_ & ? & _)].
  intros tx ctx' raced w1 Heff Htx Hp Hm HC. unfold endInTx.
  apply wp_bind, wp_try. eapply wp_mono; [eapply wp_inside, (rc_End read); [done|by apply later_inv|by left]|].
  intros [out|e] w2.
  - intros (tx' & d0 & _ & Hlive & [Hv _] & Hout & Hdb2). pose proof (written_row _ _ Hm Hlive Hv). subst d0 out.
    eapply (wp_announce_change ctx end_row _ (λ d, endedEvent d reason)); [done..|by destruct Hlive|done].
  - intros [Hdb2 He]. apply wp_lost; [|congruence]. eapply (write_lost _ _ _ _ _ _ w1); [done..| |exact He].
    intros x Hin [[_ Hno]|(d0 & _ & (Hi & _) & _ & Hv)] Hs.
    + by rewrite (Hno Hs d) in Hopen.
    + by simplify_eq.
Qed.

Lemma wp_start_row :
  DeletedAt d = None → Status d = DelegationScheduled →
  wp (activateScheduled j ctx d)
    (λ r w', tx_outcome_of (unhindered ctx EventDelegationStarted (startedEvent d) d)
               (announced_at p start_row EventDelegationStarted startedEvent d) (w_db w) r (w_db w')) w.
Proof using All.
  intros Hl Hsch. apply wp_job_tx; [done| |by intros (_ & ? & _)].
  intros tx ctx' raced w1 Heff Htx Hp Hm HC. unfold activateInTx.
  apply wp_bind. eapply wp_mono; [eapply wp_inside, (rc_Activate read); [done|by apply later_inv]|].
  intros [[out|]|e] w2.
  - intros (tx' & d0 & _ & Hlive & [Hv _] & Hout & Hdb2). pose proof (written_row _ _ Hm Hlive Hv). subst d0 out.
    eapply (wp_announce_change ctx start_row _ startedEvent); [done..|by destruct Hlive|done].
  - intros [Hdb2 Hno]. apply wp_ret. left. split; [done|]. split; [done|]. intros (Hal & _ & Hs & _).
    apply (Hno (sees_inside _ _ _ _ _ _ Heff Htx Hs) d); [|done]. split; [|done].
    rewrite (alone_meanwhile _ _ Hm). by apply Hhere.
  - intros [_ He]. eapply fails_mono; [|exact He]. by intros x [].
Qed.

Lemma wp_warn_row days :
  DeletedAt d = None → Status d = DelegationActive → 1 ≤ days ≤ 3 →
  wp (tx_RunInTx (JobTxRunner j) (BindTenantGUC j ctx (TenantID d) systemUserID) false (warnInTx j d days))
    (λ r w', tx_outcome_of (unhindered ctx EventDelegationReviewRequested (reviewEvent d days) d)
               (announced_at p (warn_row days) EventDelegationReviewRequested (λ d, reviewEvent d days) d)
               (w_db w) r (w_db w')) w.
Proof using All.
  intros Hl Hact Hdays. apply wp_job_tx; [done| |by intros (_ & ? & _)].
  intros tx ctx' raced w1 Heff Htx Hp Hm HC. unfold warnInTx.
  apply wp_bind, wp_try. eapply wp_mono; [eapply wp_inside, (rc_MarkReviewWarned read); [done|by apply later_inv|done]|].
  intros [[]|e] w2.
  - intros (out & tx' & d0 & _ & Hlive & [Hv _] & Hout & Hdb2). pose proof (written_row _ _ Hm Hlive Hv). subst d0 out.
    eapply (wp_announce_change ctx (warn_row days) _ (λ d, reviewEvent d days)); [done..|by destruct Hlive|done].
  - intros [Hdb2 He]. apply wp_lost; [|congruence]. eapply (write_lost _ _ _ _ _ _ w1); [done..| |exact He].
    intros x Hin [_ Hno] Hs. by apply (Hno Hs d).
Qed.
End row.

(** *** The loops *)

(** One item of a loop: it moved the tables by one [step] about its own row, or
    left them to the others; [J] relates items done and moves made to the counters. *)
Definition item_done (step : relation Db) (J : nat → nat → Result → Prop) (i n : nat) (d : Delegation)
    (db : Db) (r : result goerror Result) (db' : Db) : Prop :=
  ∃ res' moved, r = Ok res' ∧ J (S i) (n + moved)%nat res'
    ∧ ((moved = 0%nat ∧ meanwhile db db')
       ∨ (moved = 1%nat ∧ ∃ m, meanwhile db m ∧ step m db' ∧ one_row d m db')).

Lemma wp_loop (step : relation Db) J (targets : list Delegation) (body : Result → Delegation → M Result) res0 w :
  db_inv (w_db w) → NoDup (ID <$> targets) →
  (∀ d, d ∈ targets → db_delegations (w_db w) !! ID d = Some d) → J 0%nat 0%nat res0 →
  (∀ i n d res w1, d ∈ targets → db_inv (w_db w1) → history (w_db w) (w_db w1) →
     (Alone E → db_delegations (w_db w1) !! ID d = Some d) → J i n res →
     wp (body res d) (λ r w', item_done step J i n d (w_db w1) r (w_db w')) w1) →
  wp (fold_each targets res0 body) (λ r w', ∃ res n, r = Ok res ∧ among step n (w_db w) (w_db w')
     ∧ J (length targets) n res ∧ db_inv (w_db w')) w.
Proof.
  intros Hinv Hnd Hin HJ Hbody.
  apply (wp_fold_each targets res0 body (λ pre res w1, db_inv (w_db w1) ∧ history (w_db w) (w_db w1)
    ∧ (Alone E → ∀ k, k ∉ ID <$> pre → db_delegations (w_db w1) !! k = db_delegations (w_db w) !! k)
    ∧ ∃ n, among step n (w_db w) (w_db w1) ∧ J (length pre) n res)).
  - split; [done|]. split; [reflexivity|]. split; [done|]. exists 0%nat. split; [by apply among_none|done].
  - intros pre d post res w1 Hl (Hinv1 & Hh & Hsame & n & Hn & HJn).
    assert (d ∈ targets) as Hdt by (rewrite Hl; set_solver).
    rewrite Hl, fmap_app, fmap_cons in Hnd. apply NoDup_app in Hnd as (_ & Hfresh & _).
    assert (ID d ∉ ID <$> pre) as Hnew by (intros Hc; apply (Hfresh _ Hc); left).
    eapply wp_mono; [apply (Hbody (length pre) n d res w1 Hdt Hinv1 Hh); [|done]|].
    { intros Hal. rewrite (Hsame Hal _ Hnew). by apply Hin. }
    intros r w2 (res' & moved & -> & HJ' & Hmove). rewrite length_app, fmap_app. simpl. rewrite Nat.add_1_r.
    destruct Hmove as [[-> Hm]|(-> & m & Hm & Hstep & Hinv2 & Hkept & Hother)].
    + split; [by destruct (meanwhile_inv _ _ Hm)|]. split; [by etransitivity; [|apply history_meanwhile]|].
      split; [|exists n; rewrite Nat.add_0_r in HJ'; split; [by eapply among_wait|done]].
      intros Hal k Hk. rewrite (alone_meanwhile _ _ Hm). apply Hsame; [done|set_solver].
    + split; [done|]. split; [do 2 (etransitivity; [eassumption || (apply history_meanwhile; eassumption)|]); by apply history_kept|].
      split; [|exists (n + 1)%nat; split; [|done]].
      * intros Hal k Hk. rewrite Hother by set_solver. rewrite (alone_meanwhile _ _ Hm). apply Hsame; [done|set_solver].
      * rewrite Nat.add_1_r. by eapply among_step.
  - intros res w1 (Hinv1 & _ & _ & n & Hn & HJn). eauto 10.
Qed.

#[local] Instance advisory_job_metrics (f : JobMetrics → M unit) :
  (∀ m, JMetrics j = Some m → Advisory (f m)) → Advisory (when_some (JMetrics j) f) := advisory_when_some _ _.

(** A transaction of a job, as the move of an item. *)
Lemma item_moved (fine : Prop) (step : relation Db) f ty data d (raced : bool) db db' :
  db_inv db → (∀ tx, ID (f tx d) = ID d) → (∀ tx, row_ok d = true → row_ok (f tx d) = true) →
  (∀ tx, row_step d (updated_row tx (f tx) d)) →
  (∀ m, announced_at p f ty data d m db' → step m db') →
  tx_outcome_of fine (announced_at p f ty data d) db (Ok raced) db' →
  (raced = true ∧ meanwhile db db' ∧ ¬ fine)
  ∨ ((∃ m, meanwhile db m ∧ step m db' ∧ one_row d m db') ∧ (raced = true → ¬ fine)).
Proof.
  intros Hinv Hid Hok Hrow Hstep [(?&?&?)|(m & Hm & Hc & ?)]; [by left|]. right. split; [|done].
  exists m. split; [done|]. split; [by apply Hstep|]. destruct Hc. destruct (meanwhile_inv _ _ Hm Hinv).
  by eapply announced_by_inv.
Qed.

(** How an item ends: nothing moved, or the row did; the counters follow. *)
Lemma item_still (step : relation Db) J i n d res' db db' :
  meanwhile db db' → J (S i) n res' → item_done step J i n d db (Ok res') db'.
Proof. intros Hm HJ. exists res', 0%nat. rewrite Nat.add_0_r. auto. Qed.
Lemma item_moves (step : relation Db) J i n d res' db db' :
  J (S i) (S n) res' → (∃ m, meanwhile db m ∧ step m db' ∧ one_row d m db') → item_done step J i n d db (Ok res') db'.
Proof. intros HJ Hm. exists res', 1%nat. rewrite Nat.add_1_r. auto. Qed.

(** Counters of the two jobs that count attempts: all of them succeed when the run
    is [fine]; and of the review sweep. *)
Definition attempts (fine : Prop) (i n : nat) (res : Result) : Prop :=
  (Attempted res = Z.of_nat i ∧ 0 ≤ Succeeded res ≤ Z.of_nat n ∧ (n ≤ i)%nat
   ∧ 0 ≤ Failed res ∧ 0 ≤ Deferred res ∧ Z.of_nat n + Failed res + Deferred res ≤ Z.of_nat i)
  ∧ (fine → n = i ∧ Succeeded res = Z.of_nat i).
Definition warnings (i0 n0 i n : nat) (res : Result) : Prop :=
  0 ≤ Warned3d res ∧ 0 ≤ Warned2d res ∧ 0 ≤ Warned1d res ∧ 0 ≤ Expired res
  ∧ Warned3d res + Warned2d res + Warned1d res + Expired res ≤ Z.of_nat (n0 + n) ∧ (n0 + n ≤ i0 + i)%nat
  ∧ 0 ≤ Failed res ∧ 0 ≤ Deferred res ∧ Z.of_nat (n0 + n) + Failed res + Deferred res ≤ Z.of_nat (i0 + i).

Ltac tally :=
  match goal with
  | HJ : attempts ?fine _ _ _ |- attempts ?fine _ _ _ =>
      destruct HJ as [HJ Hall]; split; [simpl in *; lia|];
      intros Hf; first [by exfalso; auto | destruct (Hall Hf); simpl in *; lia]
  | _ => unfold warnings in *; simpl in *; lia
  end.
Ltac deferred :=
  apply wp_advisory;
  [apply advisory_job_metrics; intros m Hm;
   apply advisory_bind; first [by apply jc_expiry|by apply jc_activation|by apply jc_review|by apply jc_upfail]|];
  intros w2 Hdb2; apply wp_ret; rewrite Hdb2; apply item_still; [done|].

Section item.
Context (ctx : Ctx) (now : Time) (d : Delegation) (seen : Db) (w : World) (Hctx : outermost p ctx) (Hinv : db_inv (w_db w))
  (Hd : db_delegations seen !! ID d = Some d) (Hh : history seen (w_db w))
  (Hhere : Alone E → db_delegations (w_db w) !! ID d = Some d).

Lemma wp_expireOne (fine : Prop) i n res :
  expired_at now d = true → attempts fine i n res →
  (fine → unhindered ctx EventDelegationEnded (endedEvent d EndReasonExpired) d
          ∧ ∀ t u w, is_ok (up_ClearDelegatePointer (UserProfile j) ctx t u w).1 = true) →
  wp (expireOne j ctx res d) (λ r w', item_done (expire_step p now) (attempts fine) i n d (w_db w) r (w_db w')) w.
Proof using All.
  intros Hexp HJ Hfine. destruct (expired_open _ _ Hexp) as [Hl Hopen]. unfold expireOne.
  apply wp_quiet_call; [apply quiet_ClearDelegatePointer|].
  intros [up|e] w1 Hr Hdb1; rewrite <- Hdb1 in *.
  2:{ assert (¬ fine) as Hno by (intros [_ Hup]%Hfine; specialize (Hup (TenantID d) (DelegatorID d) w); by rewrite <- Hr in Hup).
      deferred. tally. }
  apply wp_bind, wp_try. unfold endExpired. eapply wp_mono; [by eapply wp_end_row|]. intros [raced|e] w2 Hw.
  - apply (item_moved _ (expire_step p now)) in Hw; [|done|done|intros tx; apply endable; by left|intros tx; by apply end_row_step|].
    + destruct raced.
      * assert (¬ fine) as Hno by (intros [? _]%Hfine; tauto). apply wp_ret.
        destruct Hw as [(_ & Hw & _)|[Hw _]]; [apply item_still|apply item_moves]; try done; tally.
      * destruct Hw as [[? _]|[Hw _]]; [done|].
        apply wp_advisory; [apply advisory_job_metrics; intros m Hm; by apply jc_ended|].
        intros w3 Hdb3. apply wp_ret. rewrite Hdb3. apply item_moves; [tally|done].
    + intros m [? Hc]. by exists d.
  - destruct Hw as [Hw Hno']. assert (¬ fine) as Hno by (intros [? _]%Hfine; tauto).
    apply wp_ret, item_still; [done|tally].
Qed.

Lemma wp_activateOne (fine : Prop) i n res :
  startable_at now d = true → attempts fine i n res →
  (fine → unhindered ctx EventDelegationStarted (startedEvent d) d
          ∧ ∀ req w, is_ok (up_SetAvailability (UserProfile j) ctx req w).1 = true) →
  wp (activateOne j ctx res d) (λ r w', item_done (start_step p now) (attempts fine) i n d (w_db w) r (w_db w')) w.
Proof using All.
  intros Hst HJ Hfine. destruct (startable_open _ _ Hst) as [Hl Hsch]. unfold activateOne.
  apply wp_quiet_call; [apply quiet_SetAvailability|].
  intros [up|e] w1 Hr Hdb1; rewrite <- Hdb1 in *.
  2:{ assert (¬ fine) as Hno.
      { intros [_ Hup]%Hfine. match type of Hr with _ = (up_SetAvailability _ _ ?req _).1 => specialize (Hup req w) end.
        by rewrite <- Hr in Hup. }
      deferred. tally. }
  apply wp_bind, wp_try. eapply wp_mono; [by eapply wp_start_row|]. intros [raced|e] w2 Hw.
  - apply (item_moved _ (start_step p now)) in Hw; [|done|done|intros tx; apply endable; by right|intros tx; by apply start_row_step|].
    + destruct raced; apply wp_ret.
      * assert (¬ fine) as Hno by (intros [? _]%Hfine; tauto).
        destruct Hw as [(_ & Hw & _)|[Hw _]]; [apply item_still|apply item_moves]; try done; tally.
      * destruct Hw as [[? _]|[Hw _]]; [done|]. apply item_moves; [tally|done].
    + intros m [? Hc]. by exists d.
  - destruct Hw as [Hw Hno']. assert (¬ fine) as Hno by (intros [? _]%Hfine; tauto).
    apply wp_ret, item_still; [done|tally].
Qed.

Lemma wp_warnOne i0 n0 i n res :
  warnable_at now d = true → warnings i0 n0 i n res →
  wp (warnOne j ctx now res d) (λ r w', item_done (warn_step p now) (warnings i0 n0) i n d (w_db w) r (w_db w')) w.
Proof using All.
  intros Hwn HJ. unfold warnOne. set (days := computeDaysRemaining (ReviewDueAt d) now).
  unfold warnable_at in Hwn. destruct (ReviewDueAt d) as [rv|] eqn:Hrv; [|by rewrite andb_false_r in Hwn].
  rewrite andb_true_iff, !bool_decide_eq_true in Hwn. destruct Hwn as [(He & Hs & Hl) Hw].
  destruct (computeDaysRemaining_exact rv now ltac:(lia)) as [_ Hdays]. change (1 ≤ days ≤ 3) in Hdays.
  rewrite (proj2 (Z.ltb_ge days 1)) by lia.
  case_bool_decide as Hb; [apply wp_ret, item_still; [done|tally]|].
  apply wp_bind, wp_try. eapply wp_mono; [by eapply wp_warn_row|]. intros [raced|e] w2 Hr.
  - apply (item_moved _ (warn_step p now)) in Hr; [|done|done| |intros tx; by apply warn_row_step|].
    + destruct raced; [apply wp_ret; destruct Hr as [(_ & Hr & _)|[Hr _]]; [apply item_still|apply item_moves]; try done; tally|].
      destruct Hr as [[? _]|[Hr _]]; [done|].
      apply wp_advisory; [apply advisory_job_metrics; intros m Hm; by apply jc_warned|].
      intros w3 Hdb3. apply wp_ret. rewrite Hdb3. apply item_moves; [|done].
      unfold warnings in *. simpl. assert (days = 1 ∨ days = 2 ∨ days = 3) as [->|[->| ->]] by lia; simpl; lia.
    + intros tx Hrow. apply row_ok_review; [by apply between_Some|by apply row_ok_window|done].
    + intros m [? Hc]. exists days. split; [done|]. exists d. split; [done|]. split; [done|]. split; [|done].
      unfold warnable_at. rewrite Hrv, andb_true_iff, !bool_decide_eq_true. auto.
  - destruct Hr as [Hr _]. apply wp_ret, item_still; [done|tally].
Qed.

Lemma wp_autoEndOne i0 n0 i n res :
  overdue_at now d = true → warnings i0 n0 i n res →
  wp (autoEndOne j ctx res d) (λ r w', item_done (lapse_step p now) (warnings i0 n0) i n d (w_db w) r (w_db w')) w.
Proof using All.
  intros Hov HJ. destruct (overdue_open _ _ Hov) as [Hl Hopen]. unfold autoEndOne.
  apply wp_quiet_try; [apply quiet_ClearDelegatePointer|].
  intros [up|e] w1 Hdb1; rewrite <- Hdb1 in *; [|deferred; tally].
  apply wp_bind, wp_try. unfold endReviewExpired. eapply wp_mono; [by eapply wp_end_row|]. intros [raced|e] w2 Hr.
  - apply (item_moved _ (lapse_step p now)) in Hr; [|done|done|intros tx; apply endable; by left|intros tx; by apply end_row_step|].
    + destruct raced; [apply wp_ret; destruct Hr as [(_ & Hr & _)|[Hr _]]; [apply item_still|apply item_moves]; try done; tally|].
      destruct Hr as [[? _]|[Hr _]]; [done|].
      apply wp_advisory; [apply advisory_job_metrics; intros m Hm; apply advisory_bind; [by apply jc_expired|by apply jc_ended]|].
      intros w3 Hdb3. apply wp_ret. rewrite Hdb3. apply item_moves; [tally|done].
    + intros m [? Hc]. by exists d.
  - destruct Hr as [Hr _]. apply wp_ret, item_still; [done|tally].
Qed.
End item.

(** *** The jobs *)
Lemma batch_in tx Pw key limit db l :
  batch tx Pw key limit db l →
  NoDup (ID <$> l) ∧ (∀ d, d ∈ l → db_delegations db !! ID d = Some d ∧ Pw d = true).
Proof.
  intros Hb. split; [apply Hb|]. intros d Hd. destruct (b_rows _ _ _ _ _ _ Hb d Hd) as [Hk Hs].
  split; [done|]. unfold selected in Hs. apply andb_true_iff in Hs. tauto.
Qed.

(** The rows a job picks: at most the batch limit, which is 50 unless configured. *)
Definition batch_limit : nat := Z.to_nat (batchLimit j).
Lemma batch_limit_eq : Z.to_nat (if batchLimit j <=? 0 then 100 else batchLimit j) = batch_limit.
Proof.
  unfold batch_limit, batchLimit. destruct (Z.ltb_spec 0 (BatchLimit j)); [|done].
  by rewrite (proj2 (Z.leb_gt _ _)).
Qed.
Lemma batch_limit_bound tx Pw key db l :
  batch tx Pw key (Z.to_nat (if batchLimit j <=? 0 then 100 else batchLimit j)) db l → (length l ≤ batch_limit)%nat.
Proof.
  intros Hb. rewrite <- batch_limit_eq. apply Hb.
Qed.

(** A job that finds a batch, then processes it item by item.  When the run is
    [fine] every row of the batch moves, and a batch below the limit was all
    there was. *)
Definition attempts_result (fine : Prop) (step : relation Db) (Pw : Delegation → bool) (limit : nat)
    (db : Db) (r : result goerror Result) (db' : Db) : Prop :=
  match r with
  | Ok res => ∃ n, among step n db db' ∧ 0 ≤ Succeeded res ≤ Z.of_nat n
      ∧ 0 ≤ Failed res ∧ 0 ≤ Deferred res ∧ Z.of_nat n + Failed res + Deferred res ≤ Attempted res
      ∧ Attempted res ≤ Z.of_nat limit
      ∧ (fine → db_inv db' ∧ Succeeded res = Attempted res ∧ Attempted res = Z.of_nat n
           ∧ ((n < limit)%nat → ∀ l, NoDup (ID <$> l) →
                (∀ d, d ∈ l → db_delegations db !! ID d = Some d ∧ Pw d = true) → (length l ≤ n)%nat))
  | Err _ => meanwhile db db' ∧ ¬ fine
  end.

(** Nothing due is left out of a batch below its limit. *)
Lemma batch_complete tx Pw key limit db l :
  batch tx Pw key limit db l → (∀ d, rls_check_tenant tx (TenantID d) = true) → (length l < limit)%nat →
  ∀ l', NoDup (ID <$> l') → (∀ d, d ∈ l' → db_delegations db !! ID d = Some d ∧ Pw d = true) →
  (length l' ≤ length l)%nat.
Proof.
  intros Hb Hrls Hlt l' Hnd Hl'. rewrite <- (length_fmap ID l'), <- (length_fmap ID l).
  apply submseteq_length, NoDup_submseteq; [done|]. intros k (d & -> & Hd)%list_elem_of_fmap.
  destruct (Hl' d Hd) as [Hk HP]. apply list_elem_of_fmap_2.
  destruct (b_first _ _ _ _ _ _ Hb _ d Hk) as [?|[? _]]; [|done|lia].
  unfold selected. by rewrite Hrls, HP.
Qed.

Lemma wp_attempts_job (fine : Prop) (step : relation Db) (find : M (list Delegation)) Pw key
    (one : Result → Delegation → M Result) ctx w :
  db_inv (w_db w) →
  wp find (batched read ctx Pw key (batchLimit j) w) w →
  (fine → Alone E ∧ healthy_db ∧ ∀ tx d, eff_tx read ctx tx → rls_check_tenant tx (TenantID d) = true) →
  (∀ seen i n d res w1, db_delegations seen !! ID d = Some d → history seen (w_db w1) →
     (Alone E → db_delegations (w_db w) !! ID d = Some d ∧ db_delegations (w_db w1) !! ID d = Some d) →
     db_inv (w_db w1) → Pw d = true → attempts fine i n res →
     wp (one res d) (λ r w', item_done step (attempts fine) i n d (w_db w1) r (w_db w')) w1) →
  wp (targets ← find; fold_each targets zeroResult one)
    (λ r w', attempts_result fine step Pw batch_limit (w_db w) r (w_db w')) w.
Proof.
  intros Hinv Hfind Hfine Hone. apply wp_bind. eapply wp_mono; [exact Hfind|].
  intros [l|e] w1 (db & Hm%begins_on_meanwhile & Hdb1 & Hb); subst db.
  2:{ split; [done|]. intros (_ & Hh & _)%Hfine. by eapply healthy_no_outage. }
  destruct Hb as (tx & Htx & Hb).
  destruct (batch_in _ _ _ _ _ _ Hb) as [Hnd Hin]. pose proof (batch_limit_bound _ _ _ _ _ Hb) as Hlim.
  destruct (meanwhile_inv _ _ Hm Hinv) as [Hinv1 _].
  eapply wp_mono.
  - apply (wp_loop step (attempts fine) l one zeroResult w1 Hinv1 Hnd);
      [by apply Hin|split; simpl; [lia|done]|].
    intros i n d res w2 Hd Hinv2 Hh Hk HJ. apply (Hone (w_db w1)); try done; [by apply Hin| |by apply Hin].
    intros Hal. split; [|by apply Hk]. rewrite <- (alone_meanwhile _ _ Hm). by apply Hin.
  - intros r w2 (res & n & -> & Hn & [HJ Hall] & Hinv2). exists n. split; [by eapply among_after|]. do 5 (split; [lia|]).
    intros Hf. destruct (Hfine Hf) as (Hal & _ & Hrls). rewrite <- (alone_meanwhile _ _ Hm).
    destruct (Hall Hf) as [-> Hs]. split; [done|]. split; [lia|]. split; [lia|]. intros Hlt.
    apply (batch_complete _ _ _ _ _ _ Hb); [intros d; by apply Hrls|]. by rewrite batch_limit_eq.
Qed.

Lemma wp_Expiry (fine : Prop) ctx w :
  let now := env_clock (w_step w) in
  outermost p ctx → db_inv (w_db w) →
  (fine → Alone E ∧ healthy_db ∧ (∀ tx d, eff_tx read ctx tx → rls_check_tenant tx (TenantID d) = true)
     ∧ (∀ t u w, is_ok (up_ClearDelegatePointer (UserProfile j) ctx t u w).1 = true)
     ∧ (∀ d, db_delegations (w_db w) !! ID d = Some d → expired_at now d = true →
          unhindered ctx EventDelegationEnded (endedEvent d EndReasonExpired) d)) →
  wp (Expiry j ctx) (λ r w', attempts_result fine (expire_step p now) (expired_at now) batch_limit (w_db w) r (w_db w')) w.
Proof.
  intros now Hctx Hinv Hfine. unfold Expiry. apply wp_bind, wp_intro. simpl.
  apply (wp_attempts_job fine _ _ (expired_at now) (λ d, default 0 (EndsAt d)) _ ctx (next_step w) Hinv).
  - by apply (rc_ListExpiringBefore read).
  - intros (? & ? & ? & _)%Hfine. done.
  - intros seen i n d res w1 Hseen Hh Hk. intros. apply (wp_expireOne _ _ _ seen); try done; [by intros Hal; apply Hk|].
    intros (Hal & _ & _ & Hup & Hd)%Hfine. destruct (Hk Hal). auto.
Qed.

Lemma wp_Activation (fine : Prop) ctx w :
  let now := env_clock (w_step w) in
  outermost p ctx → db_inv (w_db w) →
  (fine → Alone E ∧ healthy_db ∧ (∀ tx d, eff_tx read ctx tx → rls_check_tenant tx (TenantID d) = true)
     ∧ (∀ req w, is_ok (up_SetAvailability (UserProfile j) ctx req w).1 = true)
     ∧ (∀ d, db_delegations (w_db w) !! ID d = Some d → startable_at now d = true →
          unhindered ctx EventDelegationStarted (startedEvent d) d)) →
  wp (Activation j ctx) (λ r w', attempts_result fine (start_step p now) (startable_at now) batch_limit (w_db w) r (w_db w')) w.
Proof.
  intros now Hctx Hinv Hfine. unfold Activation. apply wp_bind, wp_intro. simpl.
  apply (wp_attempts_job fine _ _ (startable_at now) StartsAt _ ctx (next_step w) Hinv).
  - by apply (rc_ListScheduledBefore read).
  - intros (? & ? & ? & _)%Hfine. done.
  - intros seen i n d res w1 Hseen Hh Hk. intros. apply (wp_activateOne _ _ _ seen); try done; [by intros Hal; apply Hk|].
    intros (Hal & _ & _ & Hup & Hd)%Hfine. destruct (Hk Hal). auto.
Qed.

(** The review sweep: warnings first, then the deadlines that have passed. *)
Lemma wp_ReviewSweep ctx w :
  outermost p ctx → db_inv (w_db w) →
  let now := env_clock (w_step w) in
  wp (ReviewSweep j ctx) (λ r w', ∃ n mid, among (warn_step p now) n (w_db w) mid ∧
    match r with
    | Ok res => ∃ m, among (lapse_step p now) m mid (w_db w')
        ∧ Warned3d res + Warned2d res + Warned1d res ≤ Z.of_nat (n + m)
        ∧ Warned3d res + Warned2d res + Warned1d res + Expired res ≤ Z.of_nat (n + m)
        ∧ 0 ≤ Failed res ∧ 0 ≤ Deferred res
        ∧ Z.of_nat (n + m) + Failed res + Deferred res ≤ Z.of_nat (2 * batch_limit)
    | Err _ => w_db w' = mid
    end) w.
Proof.
  intros Hctx Hinv now. unfold ReviewSweep. apply wp_bind, wp_intro. simpl. fold now.
  apply wp_bind. eapply wp_mono; [by apply (rc_FindDueForDailyWarn read)|].
  change (w_db (next_step w)) with (w_db w).
  intros [l|e] w1 (db & Hm%begins_on_meanwhile & Hdb1 & Hb); subst db;
    [|exists 0%nat, (w_db w1); split; [by apply among_none|done]].
  change (w_db (next_step w)) with (w_db w) in Hm. destruct Hb as (tx & _ & Hb).
  destruct (batch_in _ _ _ _ _ _ Hb) as [Hnd Hin]. pose proof (batch_limit_bound _ _ _ _ _ Hb) as Hlim.
  destruct (meanwhile_inv _ _ Hm Hinv) as [Hinv1 _].
  apply wp_bind. eapply wp_mono.
  { apply (wp_loop (warn_step p now) (warnings 0 0) l (warnOne j ctx now) zeroResult w1 Hinv1 Hnd);
      [by apply Hin|unfold warnings; simpl; lia|].
    intros i n d res w2 Hd Hinv2 Hh Hk HJ. apply (wp_warnOne _ _ _ (w_db w1)); try done; by apply Hin. }
  intros r w2 (res & n & -> & Hn & HJ & Hinv2). apply wp_bind.
  eapply wp_mono; [by apply (rc_FindDueForAutoEnd read)|].
  intros [l2|e] w3 (db & Hm3%begins_on_meanwhile & Hdb3 & Hb2); subst db;
    (assert (among (warn_step p now) n (w_db w) (w_db w3)) as Hn3 by (eapply among_after; [done|by eapply among_wait]));
    [|by exists n, (w_db w3)].
  destruct Hb2 as (tx2 & _ & Hb2).
  destruct (batch_in _ _ _ _ _ _ Hb2) as [Hnd2 Hin2]. pose proof (batch_limit_bound _ _ _ _ _ Hb2) as Hlim2.
  destruct (meanwhile_inv _ _ Hm3 Hinv2) as [Hinv3 _]. eapply wp_mono.
  { apply (wp_loop (lapse_step p now) (warnings (length l) n) l2 (autoEndOne j ctx) res w3 Hinv3 Hnd2);
      [by apply Hin2|unfold warnings in *; rewrite !Nat.add_0_r in *; simpl in *; lia|].
    intros i m d res' w4 Hd Hinv4 Hh Hk HJ'. apply (wp_autoEndOne _ _ _ (w_db w3)); try done; by apply Hin2. }
  intros r w4 (res' & m & -> & Hm' & HJ' & _). exists n, (w_db w3). split; [done|]. exists m. split; [done|].
  unfold warnings in *. lia.
Qed.

(** DEL-6: a job whose call to User Profile fails leaves the delegation alone. *)
Lemma deferred_expiry ctx res d w :
  (∀ t u w, is_ok (up_ClearDelegatePointer (UserProfile j) ctx t u w).1 = false) →
  wp (expireOne j ctx res d) (λ r w', w_db w' = w_db w ∧ r = Ok (incDeferred (incAttempted res))) w.
Proof.
  intros Hdown. unfold expireOne. apply wp_bind, wp_try.
  pose proof (Hdown (TenantID d) (DelegatorID d) w) as Hd.
  pose proof (quiet_ClearDelegatePointer (up:=UserProfile j) ctx (TenantID d) (DelegatorID d) w) as Hq.
  unfold wp at 1. destruct (up_ClearDelegatePointer _ _ _ _ w) as [[a|e] w1]; [done|]. simpl in *.
  apply wp_advisory.
  - apply advisory_job_metrics. intros m Hm. apply advisory_bind; [by apply jc_expiry|by apply jc_upfail].
  - intros w2 Hdb2. apply wp_ret. split; [apply DbRel_db in Hq; simpl in *; congruence|done].
Qed.

(** The cutoff of the cleanup: the configured retention, 90 days by default. *)
Definition cutoff (now : Time) : Time := now - orDefault (RetentionDays j) defaultRetentionDays * Day.

(** A cleanup purges a batch of old soft-deleted rows and prunes the dedup ledger. *)
Definition purged_batch (now : Time) (db : Db) (rows : list Delegation) : Prop :=
  (∀ d, d ∈ rows → db_delegations db !! ID d = Some d ∧ ∃ t, DeletedAt d = Some t ∧ t < cutoff now)
  ∧ (length rows ≤ batch_limit)%nat.
Definition cleaned (now : Time) (d0 : Db) (r : result goerror Result) (d1 : Db) : Prop :=
  match r with
  | Ok res => ∃ db rows pruning, meanwhile d0 db ∧ purged_batch now db rows ∧ Purged res = Z.of_nat (length rows)
      ∧ meanwhile (remove_rows (ID <$> rows) db) pruning ∧ ledger_pruned pruning d1
  | Err _ => meanwhile d0 d1
  end.

Lemma wp_Cleanup ctx w :
  db_inv (w_db w) → wp (Cleanup j ctx) (λ r w', cleaned (env_clock (w_step w)) (w_db w) r (w_db w')) w.
Proof.
  intros Hinv. set (now := env_clock (w_step w)). unfold Cleanup. apply wp_bind, wp_intro. simpl. fold now.
  assert (AddDateDays now (- orDefault (RetentionDays j) defaultRetentionDays) = cutoff now) as ->
    by (unfold AddDateDays, cutoff; lia).
  apply wp_bind. eapply wp_mono; [by apply (rc_HardPurge read)|].
  intros [n|e] w1 (db & Hm%begins_on_meanwhile & H); [|by destruct H as [-> _]].
  destruct H as (tx & rows & _ & Hb & -> & Hdb).
  assert (purged_batch now db rows) as Hrows.
  { split; [|by eapply batch_limit_bound]. intros d Hin. destruct (batch_in _ _ _ _ _ _ Hb) as [_ Hrows].
    destruct (Hrows d Hin) as [Hk Hp]. split; [done|]. unfold purgeable_at in Hp. destruct (DeletedAt d) as [t|]; [|done].
    exists t. split; [done|]. by apply bool_decide_eq_true in Hp. }
  apply wp_bind. destruct (ProcessedEventsPrune j) as [f|] eqn:Hf.
  - apply wp_bind, wp_try. eapply wp_mono; [by apply jc_prune|]. intros r w2 (db2 & Hm2 & Hl). apply wp_ret, wp_ret.
    exists db, rows, db2. by rewrite <- Hdb.
  - apply wp_ret, wp_ret. exists db, rows, (w_db w1). rewrite <- Hdb. by repeat (split; [done|]).
Qed.
End jobs.
