(* ===== verification/Config.v ===== *)
(** * Configuration: cmd/server/config.go, cmd/reconciler/config.go, the DSNs of db.go

    The process environment is a function from names to values, the empty string
    when unset, as [os.Getenv] has it. *)
From S2P Require Import Prelude GoLib Domain World.
Local Open Scope Z_scope.
Local Open Scope string_scope.

Definition Environ := string → string.
Definition unset (env : Environ) (key : string) : bool := bool_decide (env key = "").
Definition Setenv (key val : string) (env : Environ) : Environ :=
  λ k, if bool_decide (k = key) then val else env k.

Definition getEnv (env : Environ) (key fallback : string) : string :=
  if unset env key then fallback else env key.

Definition isDevLikeEnvironment (e : string) : bool :=
  bool_decide (e ∈ ["development"; "dev"; "local"; "test"; ""]).

Definition resolveAppEnv (env : Environ) : string :=
  if negb (unset env "APP_ENV") then env "APP_ENV"
  else if isDevLikeEnvironment (getEnv env "ENVIRONMENT" "development") then "dev"
  else getEnv env "ENVIRONMENT" "production".

(** [if os.Getenv(key) == "" { os.Setenv(key, val) }] *)
Definition backfill (key val : string) (env : Environ) : Environ :=
  if unset env key then Setenv key val env else env.

Definition ensureGincommonEnv (version : string) (env : Environ) : Environ :=
  let env := backfill "APP_ENV" (resolveAppEnv env) env in
  let env := backfill "APP_NAME" "iam-delegation" env in
  let env := backfill "OTEL_SERVICE_NAME" "iam-delegation" env in
  if unset env "BUILD_VERSION" && negb (bool_decide (version = "")) then Setenv "BUILD_VERSION" version env else env.

Definition outboxDefaults : list (string * string) :=
  [("OUTBOX_POLL_INTERVAL", "500ms"); ("OUTBOX_STARTUP_JITTER", "2s");
   ("OUTBOX_PUBLISH_CONCURRENCY", "4"); ("OUTBOX_CLAIM_LEASE_DURATION", "10m")].
Definition ensureOutboxEnv (env : Environ) : Environ :=
  foldr (λ kv env, backfill (fst kv) (snd kv) env) env outboxDefaults.

(** *** Typed variables *)
Definition bad_value (key : string) : goerror := EWrap key (EPlain "invalid syntax").

(** [strconv.Atoi] *)
Definition Atoi (s : string) : option Z := let '(v, ok) := ParseInt s in if ok then Some v else None.

Definition parsed {A} (env : Environ) (key : string) (fallback : A) (parse : string → option A) : result goerror A :=
  if unset env key then Ok fallback
  else match parse (env key) with Some a => Ok a | None => Err (bad_value key) end.

Definition getEnvDuration (env : Environ) (key : string) (fallback : Duration) : result goerror Duration :=
  parsed env key fallback (λ v, (λ ms, wrap64 (ms * Millisecond)) <$> Atoi v).
Definition getEnvDurationSeconds (env : Environ) (key : string) (fallback : Duration) : result goerror Duration :=
  parsed env key fallback (λ v, (λ s, wrap64 (s * Second)) <$> Atoi v).
Definition getEnvDurationStr (env : Environ) (key : string) (fallback : Duration) : result goerror Duration :=
  parsed env key fallback DurationText.ParseDuration.
Definition getEnvBool (env : Environ) (key : string) (fallback : bool) : result goerror bool :=
  parsed env key fallback ParseBool.
Definition getEnvInt (env : Environ) (key : string) (fallback : Z) : result goerror Z :=
  parsed env key fallback Atoi.

(** *** cmd/reconciler/config.go: a package of its own, with its own helpers *)
Module Reconciler.
Definition getEnv (env : Environ) (key fallback : string) : string :=
  if negb (unset env key) then env key else fallback.

Definition isDevLikeEnvironment (e : string) : bool :=
  bool_decide (e = "development") || bool_decide (e = "dev") || bool_decide (e = "local")
  || bool_decide (e = "test") || bool_decide (e = "").

Definition resolveAppEnv (env : Environ) : string :=
  if negb (unset env "APP_ENV") then env "APP_ENV"
  else if isDevLikeEnvironment (getEnv env "ENVIRONMENT" "development") then "dev"
  else getEnv env "ENVIRONMENT" "production".

Definition ensureGincommonEnv (env : Environ) : Environ :=
  let env := backfill "APP_ENV" (resolveAppEnv env) env in
  let env := backfill "APP_NAME" "iam-delegation-reconciler" env in
  backfill "OTEL_SERVICE_NAME" "iam-delegation-reconciler" env.

Definition getEnvDurationMS (env : Environ) (key : string) (fallback : Duration) : result goerror Duration :=
  if unset env key then Ok fallback
  else match Atoi (env key) with
       | Some ms => Ok (wrap64 (ms * Millisecond))
       | None => Err (bad_value key)
       end.

Definition getEnvIntVar (env : Environ) (key : string) (fallback : Z) : result goerror Z :=
  if unset env key then Ok fallback
  else match Atoi (env key) with Some n => Ok n | None => Err (bad_value key) end.
End Reconciler.

(** *** cmd/server *)
Record config := mkConfig {
  Environment : string; Port : string; MetricsPort : string;
  UserProfileBaseURL : string; UserProfileTimeout : Duration;
  OrgMembershipBaseURL : string; OrgMembershipTimeout : Duration;
  CatalogAdminBaseURL : string; CatalogAdminTimeout : Duration;
  ValkeyAddr : string; IdempotencyTTL : Duration; ListCacheTTL : Duration;
  SNSTopicARN : string; AWSRegion : string; AWSEndpointURL : string; GlueRegistryName : string;
  CascadeQueueURL : string; CascadeSQSConcurrency : Z;
  OutboxPruneInterval : Duration; OutboxPruneRetention : Duration; OutboxPruneLimit : Z;
  OTELExporterOTLPEndpoint : string;
  DocsEnabled : bool; DocsAuthToken : string;
  PolicyDefaultMaxDurationDays : Z; PolicyDefaultReviewWindowDays : Z;
}.

Definition required (msg : string) : goerror := EPlain msg.

(** The checks after parsing, in order; the first that fails is the error. *)
Definition checkRequiredEnv (env : Environ) (cfg : config) : result goerror config :=
  if unset env "DATABASE_URL" && (unset env "PG_HOST" || unset env "PG_USER" || unset env "PG_PASSWORD")
  then Err (required "DATABASE_URL (or PG_HOST + PG_USER + PG_PASSWORD) is required")
  else if bool_decide (env "PG_BOUNCER_MODE" = "true") && unset env "MIGRATION_DATABASE_URL"
  then Err (required "MIGRATION_DATABASE_URL is required when PG_BOUNCER_MODE=true")
  else if bool_decide (SNSTopicARN cfg = "") then Err (required "SNS_TOPIC_ARN is required")
  else if bool_decide (CascadeQueueURL cfg = "") then Err (required "CASCADE_QUEUE_URL is required")
  else if negb (isDevLikeEnvironment (resolveAppEnv env)) && unset env "SYSTEM_DATABASE_URL"
  then Err (required "SYSTEM_DATABASE_URL is required outside local/dev environments")
  else if bool_decide (Environment cfg = "production") && DocsEnabled cfg && bool_decide (DocsAuthToken cfg = "")
  then Err (required "DOCS_AUTH_TOKEN is required when DOCS_ENABLED=true in production")
  else Ok cfg.

Definition loadConfig (env : Environ) : result goerror config :=
  let environment := getEnv env "ENVIRONMENT" "development" in
  upTimeout ← getEnvDuration env "USER_PROFILE_TIMEOUT_MS" (3000 * Millisecond);
  omTimeout ← getEnvDuration env "ORG_MEMBERSHIP_MEMBERSHIP_CHECK_TIMEOUT_MS" (3000 * Millisecond);
  caTimeout ← getEnvDuration env "CATALOG_ADMIN_TIMEOUT_MS" (3000 * Millisecond);
  idemTTL ← getEnvDurationSeconds env "IDEMPOTENCY_TTL_SECONDS" (86400 * Second);
  listTTL ← getEnvDurationSeconds env "LIST_CACHE_TTL_SECONDS" (60 * Second);
  docs ← getEnvBool env "DOCS_ENABLED" (negb (bool_decide (environment = "production")));
  maxDays ← getEnvInt env "POLICY_DEFAULT_MAX_DURATION_DAYS" 90;
  reviewDays ← getEnvInt env "POLICY_DEFAULT_REVIEW_WINDOW_DAYS" 90;
  pruneInterval ← getEnvDurationStr env "OUTBOX_PRUNE_INTERVAL" (24 * Hour);
  pruneRetention ← getEnvDurationStr env "OUTBOX_PRUNE_RETENTION" (7 * 24 * Hour);
  pruneLimit ← getEnvInt env "OUTBOX_PRUNE_LIMIT" 1000;
  concurrency ← getEnvInt env "CASCADE_SQS_CONCURRENCY" 4;
  checkRequiredEnv env (mkConfig environment (getEnv env "PORT" "8080") (getEnv env "METRICS_PORT" "9090")
    (env "USER_PROFILE_BASE_URL") upTimeout (env "ORG_MEMBERSHIP_BASE_URL") omTimeout
    (env "CATALOG_ADMIN_BASE_URL") caTimeout (getEnv env "VALKEY_ADDR" "localhost:6379") idemTTL listTTL
    (env "SNS_TOPIC_ARN") (getEnv env "AWS_REGION" "ap-south-1") (env "AWS_ENDPOINT_URL") (env "GLUE_REGISTRY_NAME")
    (env "CASCADE_QUEUE_URL") concurrency pruneInterval pruneRetention pruneLimit
    (env "OTEL_EXPORTER_OTLP_ENDPOINT") docs (env "DOCS_AUTH_TOKEN") maxDays reviewDays).

(** *** db.go: the three DSNs.  [dsn] is what pgcommon assembles from the environment. *)
Definition ApplyStatementTimeout (env : Environ) (dsn : string) : string :=
  if bool_decide (dsn = "") then dsn
  else if unset env "PG_STATEMENT_TIMEOUT" then dsn
  else match DurationText.ParseDuration (env "PG_STATEMENT_TIMEOUT") with
       | Some d =>
           if (0 <? d)%Z
           then if Contains dsn "statement_timeout" then dsn
                else dsn ++ (if Contains dsn "?" then "&" else "?")
                     ++ "options=-c%20statement_timeout%3D" ++ Itoa (Z.quot d Millisecond)
           else dsn
       | None => dsn
       end.

Section dsn.
Context (pgcommon_DSN : Environ → string).

Definition DSNFromEnv (env : Environ) : string :=
  if negb (unset env "DATABASE_URL") then pgcommon_DSN env
  else ApplyStatementTimeout env (pgcommon_DSN env).
Definition SystemDSNFromEnv (env : Environ) : string :=
  if negb (unset env "SYSTEM_DATABASE_URL") then env "SYSTEM_DATABASE_URL" else DSNFromEnv env.
Definition MigrationDSNFromEnv (env : Environ) : string :=
  if negb (unset env "MIGRATION_DATABASE_URL") then ApplyStatementTimeout env (env "MIGRATION_DATABASE_URL")
  else DSNFromEnv env.
(** The DSN of the system pool ([SystemPoolConfig]). *)
Definition SystemPoolDSN (env : Environ) : string := ApplyStatementTimeout env (SystemDSNFromEnv env).
End dsn.

(** *** wiring.go: the overlay of the cascade queue on the SQS settings *)
Record SQSConfigEnv := mkSQSConfigEnv {
  QueueURL : string; Concurrency : Z; Region : string; EndpointURL : string }.
Definition cascadeSQSEnv (base : SQSConfigEnv) (queueURL : string) (concurrency : Z) (region endpointURL : string)
    : SQSConfigEnv :=
  mkSQSConfigEnv queueURL
    (if (0 <? concurrency)%Z then concurrency else Concurrency base)
    (if bool_decide (region = "") then Region base else region)
    (if bool_decide (endpointURL = "") then EndpointURL base else endpointURL).
