(* ===== verification/Startup.v ===== *)
(** * The processes: cmd/server/main.go and cmd/reconciler/main.go from start to exit

    What [run] does to its surroundings, in order, on every path: which
    resources it acquires, what it defers to its return, what it starts and how
    it shuts down.  The outcome of each call into the platform is a parameter,
    [ext]; a deferred call never stops the others. *)
From S2P Require Import Prelude GoLib Domain World EventSchema EventBus HttpClients Config.
Local Open Scope Z_scope.
Local Open Scope string_scope.

(** ** Processes *)
Inductive PoolName := AppPool | SysPool.
#[export] Instance PoolName_eq_dec : EqDecision PoolName.
Proof. solve_decision. Defined.

Inductive Action :=
(* the two [main] functions *)
| SetReleaseMode | NewLogger (appEnv : string)
(* signals, telemetry *)
| NotifySignals | StopSignals | InstallTracing | FlushTracing | ShutdownTelemetry | RegisterMetrics
| StartSpan (name : string) | EndSpan
(* database *)
| ApplyOutboxSchema (dsn : string) | ApplyDomainMigrations (dsn : string)
| OpenPool (p : PoolName) (dsn : string) | DrainAndClose (p : PoolName) | ClosePool (p : PoolName)
(* everything else that is built *)
| CompileSchema (name : string) | LoadAWSConfig (region : string) | ResolveGlueSchema (registry name : string)
| BuildSNSPublisher (region endpoint : string) | BuildOutboxRunner
| OpenRedis (addr : string) | CloseRedis | BuildSQSConsumer (queue : string)
(* work: until a signal or the first failure *)
| Serve | ShutdownHTTP | ShutdownMetricsServer | StopOutboxRunner | StopSQSConsumer
| RunJob (name : string).

#[export] Instance Action_eq_dec : EqDecision Action.
Proof. solve_decision. Defined.

(** What was done, each with whether it succeeded, and the deferred functions, last
    first; what such a function does may depend on what was done before. *)
Definition Log : Type := list (Action * bool).
Record Process := mkProcess { p_log : Log; p_defers : list (Log → list Action) }.
Definition fresh_process : Process := mkProcess [] [].

Definition P (A : Type) : Type := Process → result goerror A * Process.
#[export] Instance P_ret : MRet P := λ A a p, (Ok a, p).
#[export] Instance P_bind : MBind P := λ A B k m p,
  match m p with (Ok a, p') => k a p' | (Err e, p') => (Err e, p') end.
Definition lift {A} (r : result goerror A) : P A := λ p, (r, p).
(** [fmt.Errorf("msg: %w", err)] on the error of [m]. *)
Definition wrapped {A} (msg : string) (m : P A) : P A := λ p,
  match m p with (Err e, p') => (Err (EWrap msg e), p') | r => r end.

Section process.
Context (ext : Action → option goerror).

Definition outcome (a : Action) : Action * bool := (a, match ext a with None => true | Some _ => false end).
(** A call whose error is returned. *)
Definition call (a : Action) : P unit := λ p,
  (match ext a with None => Ok tt | Some e => Err e end, mkProcess (p_log p ++ [outcome a])%list (p_defers p)).
(** A call without an error, or whose error is only logged. *)
Definition act (a : Action) : P unit := λ p, (Ok tt, mkProcess (p_log p ++ [outcome a])%list (p_defers p)).
Definition defer_fn (f : Log → list Action) : P unit := λ p, (Ok tt, mkProcess (p_log p) (f :: p_defers p)).
Definition defer (a : Action) : P unit := defer_fn (λ _, [a]).
Definition each (f : string → P unit) (names : list string) : P unit :=
  foldr (λ n (rest : P unit), _ ← f n; rest) (mret tt) names.

(** Run a function to its return: the deferred functions follow, the last first. *)
Definition returned {A} (m : P A) : result goerror A * Log :=
  let '(r, p) := m fresh_process in
  (r, foldl (λ log f, log ++ (outcome <$> f log))%list (p_log p) (p_defers p)).

(** ** migrate.go: the outbox schema, then the domain migrations that grant on it *)
Definition Migrate (dsn : string) : P unit :=
  _ ← wrapped "outbox schema" (call (ApplyOutboxSchema dsn));
  wrapped "domain migrations" (call (ApplyDomainMigrations dsn)).

(** ** Constructors that compile the embedded schemas or look them up *)
Definition NewValidatingCodec : P unit :=
  each (λ n, wrapped ("eventbus: compile schema " ++ n) (call (CompileSchema n))) (fst <$> schema_ByEventType).
Definition newSchemaValidatorFromEntries (names : list string) : P unit :=
  each (λ n, wrapped ("compile event schema " ++ n) (call (CompileSchema n))) names.
Definition NewConsumedValidator : P unit :=
  wrapped "eventbus: consumed schemas" (newSchemaValidatorFromEntries (fst <$> schema_Consumed)).
Definition NewGlueCodec (registry : string) (schemaNames : list string) : P unit :=
  each (λ n, wrapped ("resolve glue schema " ++ n ++ " in registry " ++ registry) (call (ResolveGlueSchema registry n)))
    schemaNames.

Context (pgcommon_DSN : Environ → string).

(** A pool with its two deferred calls: [DrainAndClose] runs before [Close]. *)
Definition open_pool (msg : string) (p : PoolName) (dsn : string) : P unit :=
  _ ← wrapped msg (call (OpenPool p dsn));
  _ ← defer (ClosePool p);
  defer (DrainAndClose p).

(** ** cmd/server *)
Definition telemetry : P unit :=
  _ ← act InstallTracing;
  _ ← defer ShutdownTelemetry;
  _ ← defer FlushTracing;
  act RegisterMetrics.

Definition publishing (cfg : config) : P unit :=
  _ ← wrapped "build enqueue codec" NewValidatingCodec;
  _ ← (if bool_decide (GlueRegistryName cfg = "") then mret tt
       else _ ← wrapped "load AWS config" (call (LoadAWSConfig (AWSRegion cfg)));
            wrapped "build Glue codec" (NewGlueCodec (GlueRegistryName cfg)
              [EventDelegationStarted; EventDelegationEnded; EventDelegationReviewRequested;
               EventDelegationEscalationRequested]));
  _ ← wrapped "build SNS publisher" (call (BuildSNSPublisher (AWSRegion cfg) (AWSEndpointURL cfg)));
  wrapped "build outbox runner" (call BuildOutboxRunner).

Definition clients (cfg : config) : P (string * string * option string) :=
  up ← wrapped "build User Profile client" (lift (UserProfile.NewHTTPClient (UserProfileBaseURL cfg)));
  om ← wrapped "build Org Membership client" (lift (OrgMembership.NewHTTPChecker (OrgMembershipBaseURL cfg)));
  ca ← (if bool_decide (CatalogAdminBaseURL cfg = "") then mret None
        else c ← wrapped "build Catalog Admin client" (lift (CatalogAdmin.NewHTTPClient (CatalogAdminBaseURL cfg)));
             mret (Some c));
  mret (up, om, ca).

(** The goroutine group: it ends with the first failure or a signal, then the
    listeners and the runners are stopped, whatever each of them says.  One action
    here; [Serving] has its goroutines. *)
Definition serve_and_stop : P unit := λ p,
  let '(r, p1) := call Serve p in
  let '(_, p2) := (_ ← act ShutdownHTTP; _ ← act ShutdownMetricsServer; _ ← act StopOutboxRunner; act StopSQSConsumer) p1 in
  (r, p2).

Definition server_run (env : Environ) : P unit :=
  cfg ← wrapped "load config" (lift (loadConfig env));
  _ ← act NotifySignals;
  _ ← defer StopSignals;
  _ ← telemetry;
  _ ← wrapped "run migrations" (Migrate (MigrationDSNFromEnv pgcommon_DSN env));
  _ ← open_pool "connect app pool" AppPool (DSNFromEnv pgcommon_DSN env);
  _ ← open_pool "connect system pool" SysPool (SystemPoolDSN pgcommon_DSN env);
  _ ← publishing cfg;
  _ ← clients cfg;
  _ ← act (OpenRedis (ValkeyAddr cfg));
  _ ← defer CloseRedis;
  _ ← wrapped "build consumed-schema validator" NewConsumedValidator;
  _ ← wrapped "load AWS config" (call (LoadAWSConfig (AWSRegion cfg)));
  _ ← wrapped "build cascade SQS consumer" (call (BuildSQSConsumer (CascadeQueueURL cfg)));
  serve_and_stop.

(** ** cmd/reconciler: one deferred function drains the pools there are *)
Definition opened (p : PoolName) (log : Log) : bool :=
  existsb (λ x, match x with (OpenPool q _, ok) => bool_decide (q = p) && ok | _ => false end) log.
Definition drainPools (log : Log) : list Action :=
  DrainAndClose AppPool :: if opened SysPool log then [DrainAndClose SysPool] else [].

(** The job dispatch comes last: an unknown job is told only then. *)
Definition dispatch_job (jobName : string) : P unit :=
  if bool_decide (jobName ∈ ["delegation-expiry"; "delegation-activation"; "delegation-review"; "delegation-cleanup"])
  then wrapped jobName (call (RunJob jobName))
  else lift (Err (EPlain ("unknown --job " ++ jobName))).

Definition reconciler_process (env : Environ) (jobName : string) : P unit :=
  if bool_decide (jobName = "") then lift (Err (EPlain "--job is required"))
  else
    _ ← act NotifySignals;
    _ ← defer StopSignals;
    _ ← telemetry;
    _ ← act (StartSpan ("reconciler." ++ jobName));
    _ ← defer EndSpan;
    _ ← wrapped "connect app pool" (call (OpenPool AppPool (DSNFromEnv pgcommon_DSN env)));
    _ ← defer_fn drainPools;
    if negb (Reconciler.isDevLikeEnvironment (Reconciler.resolveAppEnv env)) && unset env "SYSTEM_DATABASE_URL"
    then lift (Err (EPlain "SYSTEM_DATABASE_URL is required outside local/dev environments"))
    else
      _ ← wrapped "connect system pool" (call (OpenPool SysPool (SystemPoolDSN pgcommon_DSN env)));
      _ ← lift (Reconciler.getEnvDurationMS env "USER_PROFILE_TIMEOUT_MS" (3000 * Millisecond));
      _ ← wrapped "build User Profile client" (lift (UserProfile.NewHTTPClient (env "USER_PROFILE_BASE_URL")));
      _ ← wrapped "build enqueue codec" NewValidatingCodec;
      _ ← lift (Reconciler.getEnvIntVar env "CRON_BATCH_LIMIT" 50);
      _ ← lift (Reconciler.getEnvIntVar env "DELEGATION_RETENTION_DAYS" 90);
      _ ← lift (Reconciler.getEnvIntVar env "PROCESSED_EVENTS_TTL_DAYS" 30);
      dispatch_job jobName.

(** ** The two [main] functions

    The environment is completed first.  Without a logger [main] panics, status 2;
    an error of [run] is status 1. *)
Definition logged_main (appEnv : string) (run : P unit) : Z * Log :=
  match ext (NewLogger appEnv) with
  | Some _ => (2, [(NewLogger appEnv, false)])
  | None =>
      let '(r, log) := returned run in
      (match r with Ok _ => 0 | Err _ => 1 end, (NewLogger appEnv, true) :: log)
  end.
Definition server_main (buildVersion : string) (env : Environ) : Z * Log :=
  let env := ensureGincommonEnv buildVersion env in
  let appEnv := resolveAppEnv env in
  let '(status, log) := logged_main appEnv (server_run env) in
  (status, (if bool_decide (appEnv = "dev") then [] else [outcome SetReleaseMode]) ++ log)%list.
Definition reconciler_main (env : Environ) (jobName : string) : Z * Log :=
  let env := Reconciler.ensureGincommonEnv env in
  logged_main (Reconciler.resolveAppEnv env) (reconciler_process env jobName).
End process.
