(* ===== verification/System.v ===== *)
(** * The composition roots: cmd/server and cmd/reconciler

    The adapters of cmd/server/adapters.go, the object graph main.go builds
    (which repository is on which pool, which client is behind which port), the
    reconciler's job dispatch, and the steps the running system takes. *)
From S2P Require Import Prelude GoLib Domain World Store MetricsRec Valkey EventBus HttpClients Postgres DelegationService CascadeService Consumer Jobs Http Config.
Local Open Scope Z_scope.
Local Open Scope string_scope.

Section system.
Context `{Env} `{PgCommon} `{UuidLib} `{TimeText}.
Context (env : Environ).

(** *** Pools

    [pool] is the application pool; the system pool falls back to the same DSN,
    hence the same role, when SYSTEM_DATABASE_URL is unset. *)
Definition pool : Role := AppRole.
Definition sysPool : Role := if unset env "SYSTEM_DATABASE_URL" then AppRole else SysRole.

Definition outboxPublisher : Publisher := mkPublisher Source.
Definition txRunner : TxRunner := NewTxRunner pool (Some outboxPublisher).

Definition delegationRepo : DelegationRepository := Repo.NewDelegationRepository pool.
Definition delegationRepoSys : DelegationRepository := Repo.NewDelegationRepository sysPool.
Definition settingsRepo : SettingsRepository := SettingsRepo.NewSettingsRepository pool.

(** *** adapters.go *)
Definition gucBoundReader (repo : DelegationRepository) : DelegationReader :=
  {| rd_FindByID ctx tenantID id :=
       repo_FindByID repo (WithTenantGUC ctx tenantID "iam-system") tenantID id;
     rd_FindActiveDeptDelegateForUser ctx tenantID userID deptID :=
       repo_FindActiveDeptDelegateForUser repo (WithTenantGUC ctx tenantID "iam-system") tenantID userID deptID;
     rd_FindActiveByDelegator ctx tenantID delegatorID :=
       repo_FindActiveByDelegator repo (WithTenantGUC ctx tenantID "iam-system") tenantID delegatorID |}.

Definition RunExpiry (jctx : JobContext) (ctx : Ctx) : M (Z * Z * Z) :=
  res ← Expiry jctx ctx;
  mret (Attempted res, Succeeded res, Failed res).
Definition RunReviewSweep (jctx : JobContext) (ctx : Ctx) : M ReviewSweepResult :=
  res ← ReviewSweep jctx ctx;
  mret (mkReviewSweepResult (Warned3d res) (Warned2d res) (Warned1d res) (Expired res) (Deferred res) (Failed res)).

(** *** main.go: the object graph *)
Definition job_metrics : JobMetrics :=
  {| jm_RecordExpiryDeferred := RecordExpiryDeferred;
     jm_RecordActivationDeferred := RecordActivationDeferred;
     jm_RecordReviewDeferred := RecordReviewDeferred;
     jm_RecordReviewWarned := RecordReviewWarned;
     jm_RecordReviewExpired := RecordReviewExpired;
     jm_RecordEnded := RecordEnded;
     jm_RecordUPAvailabilityFailure := RecordUPAvailabilityFailure |}.

(** The base URLs of the three clients; the catalog's is optional. *)
Context (userProfileURL orgMembershipURL : string) (catalogAdminURL : option string).

Definition delegationService : DelegationService :=
  mkDelegationService delegationRepo settingsRepo (OrgMembership.client orgMembershipURL)
    (UserProfile.client userProfileURL) (CatalogAdmin.client <$> catalogAdminURL)
    (Some Idempotency.NewIdempotencyStore) (Some ListCache.NewCache) txRunner (Some NewMetrics).
Definition cascadeServiceImpl : Cascade.CascadeService :=
  Cascade.mkCascadeService delegationRepo settingsRepo (UserProfile.client userProfileURL) txRunner (Some NewMetrics).

Definition server_jctx : JobContext :=
  mkJobContext delegationRepoSys (UserProfile.client userProfileURL) txRunner WithTenantGUC 50 90 None 0
    (Some job_metrics).

Definition bindTenantGUC (ctx : Ctx) (tenantID userID : string) : Ctx :=
  match uuid_Parse tenantID with
  | Some tid => WithTenantGUC ctx tid userID
  | None => ctx
  end.

Definition delegation_svc : DelegationSvc :=
  {| svc_List := DelegationService.List delegationService;
     svc_Create := Create delegationService;
     svc_Cancel := Cancel delegationService;
     svc_Extend := Extend delegationService;
     svc_Reassign := Reassign delegationService |}.
Definition repo_reader (repo : DelegationRepository) : DelegationReader :=
  {| rd_FindByID := repo_FindByID repo;
     rd_FindActiveDeptDelegateForUser := repo_FindActiveDeptDelegateForUser repo;
     rd_FindActiveByDelegator := repo_FindActiveByDelegator repo |}.
Definition settings_svc : SettingsSvc :=
  {| set_Get := Settings.Get settingsRepo; set_Set := Settings.Set_ settingsRepo |}.

Definition handlers (health : option bool * option bool * option bool * option bool) : Handlers :=
  {| h_svc := delegation_svc;
     h_reader := repo_reader delegationRepo;
     h_settings := settings_svc;
     h_expiry := RunExpiry server_jctx;
     h_review := RunReviewSweep server_jctx;
     h_internal_reader := gucBoundReader delegationRepo;
     h_bind := bindTenantGUC;
     h_health := health |}.

Definition cascadeConsumer : CascadeConsumer :=
  mkCascadeConsumer
    {| cs_EndForUser := Cascade.EndForUser cascadeServiceImpl;
       cs_ScrubTenant := Cascade.ScrubTenant cascadeServiceImpl;
       cs_EndForDisabledDelegate := Cascade.EndForDisabledDelegate cascadeServiceImpl |}
    {| is_IsProcessed := ProcessedEvents.IsProcessed sysPool;
       is_MarkProcessed := ProcessedEvents.MarkProcessed sysPool |}
    WithTenantGUC (Some txRunner) (Some ConsumedValidator_Validate).

(** *** exporters.go: one tick of the active-delegation gauge *)
Definition activeGaugeTick (ctx : Ctx) : M unit :=
  counts ← try (Gauge.CountActiveByTenant sysPool ctx);
  match counts with
  | Ok c => ReplaceActiveGauges c
  | Err _ => mret tt
  end.

(** [tick]: once at the start, then at every tick of the interval until the process
    stops; a failed query is logged and the gauge keeps its values. *)
Fixpoint tick (ticks : nat) (emit : M unit) : M unit :=
  _ ← try emit;
  match ticks with O => mret tt | S ticks' => tick ticks' emit end.
Definition runActiveGaugeExporter (ticks : nat) (ctx : Ctx) : M unit :=
  tick ticks (counts ← Gauge.CountActiveByTenant sysPool ctx; ReplaceActiveGauges counts).

(** *** cmd/reconciler/main.go *)
Definition reconciler_jctx (url : string) (batch retention ttl : Z) : JobContext :=
  mkJobContext delegationRepoSys (UserProfile.client url) txRunner WithTenantGUC batch retention
    (Some (ProcessedEvents.Prune sysPool)) ttl (Some job_metrics).

Definition run_job (jctx : JobContext) (jobName : string) : M Result :=
  let tagged (m : M Result) := r ← try m; match r with Ok a => mret a | Err e => throw (EWrap jobName e) end in
  if bool_decide (jobName = "delegation-expiry") then tagged (Expiry jctx background)
  else if bool_decide (jobName = "delegation-activation") then tagged (Activation jctx background)
  else if bool_decide (jobName = "delegation-review") then tagged (ReviewSweep jctx background)
  else if bool_decide (jobName = "delegation-cleanup") then tagged (Cleanup jctx background)
  else throw (EPlain ("unknown --job " ++ jobName)).

(** Start-up: the job name, then the system DSN outside local environments,
    then the client and the tunables; [connect] opens a pool. *)
Definition reconciler_run (connect : Role → result goerror unit) (jobName : string) : M Result :=
  if bool_decide (jobName = "") then throw (EPlain "--job is required")
  else
    _ ← of_result (connect pool);
    if negb (Reconciler.isDevLikeEnvironment (Reconciler.resolveAppEnv env)) && unset env "SYSTEM_DATABASE_URL"
    then throw (EPlain "SYSTEM_DATABASE_URL is required outside local/dev environments")
    else
      _ ← of_result (connect sysPool);
      _ ← of_result (Reconciler.getEnvDurationMS env "USER_PROFILE_TIMEOUT_MS" (3000 * Millisecond));
      url ← of_result (UserProfile.NewHTTPClient (env "USER_PROFILE_BASE_URL"));
      batch ← of_result (Reconciler.getEnvIntVar env "CRON_BATCH_LIMIT" 50);
      retention ← of_result (Reconciler.getEnvIntVar env "DELEGATION_RETENTION_DAYS" 90);
      ttl ← of_result (Reconciler.getEnvIntVar env "PROCESSED_EVENTS_TTL_DAYS" 30);
      run_job (reconciler_jctx url batch retention ttl) jobName.

(** *** The steps of the running system

    One request, one queue delivery, one job run, one gauge tick: each to
    completion, among the commits of others that [Env] holds. *)
Inductive sys_step (w : World) : World → Prop :=
| StepRequest health r :
    rq_ctx r = background → sys_step w (serve (handlers health) r w).2
| StepDelivery msg : sys_step w (Handle cascadeConsumer background msg w).2
| StepJob batch retention ttl job : sys_step w (run_job (reconciler_jctx userProfileURL batch retention ttl) job w).2
| StepGauge : sys_step w (activeGaugeTick background w).2.

Definition reachable : World → World → Prop := rtc sys_step.
End system.
