(* ===== verification/SystemFacts.v ===== *)
(** * Theorems on the running system

    The object graph of [System] satisfies the contracts of its components, with
    two confinements: any run makes the tables grow, and a run that acts for one
    tenant spares the others. *)
From S2P Require Import Prelude GoLib Domain World Store StoreFacts MetricsRec Valkey EventBus EventSchema HttpClients Postgres Contracts PostgresFacts ClientFacts DelegationService CascadeService Consumer Jobs Http SchemaSpec ServiceFacts Config System.
Local Open Scope Z_scope.
Local Open Scope string_scope.

(** Apply a law: its instances are resolved, its side conditions immediate. *)
Ltac by_law H := apply H; first [done | apply _].

Section wired.
Context `{E : Env} `{P : PgCommon} `{U : UuidLib} `{PL : !PgCommonLaws E P U} `{T : TimeText}.
Context (env : Environ) (upURL omURL : string) (caURL : option string).
Context (K : Ctx → Prop) (R : relation Db) `{Hc : !Confined AppRole K R}.

#[local] Instance wired_preorder : PreOrder R := conf_pre (pool:=AppRole) (K:=K).

Lemma each_Some {C} (Q : C → Prop) (c : C) : Q c → each Q (Some c).
Proof. intros Hq c' [= <-]. done. Qed.

#[export] Instance delegationService_lawful :
  LawfulService K R (delegationService upURL omURL caURL).
Proof.
  split; simpl; try apply _; try (apply each_Some; apply _).
  intros c Hca. destruct caURL; simplify_eq/=. apply _.
Qed.
#[export] Instance cascadeServiceImpl_lawful : LawfulCascade K R (cascadeServiceImpl upURL).
Proof. split; simpl; try apply _. apply each_Some, _. Qed.

#[export] Instance handlers_lawful health : LawfulHandlers K R (handlers env upURL omURL caURL health).
Proof.
  split; simpl; intros.
  - by_law (within_List AppRole K R).
  - by_law (within_Create AppRole K R).
  - by_law (within_cancelInternal AppRole K R).
  - by_law (within_Extend AppRole K R).
  - by_law (within_Reassign AppRole K R).
  - by_law (law_FindByID K R).
  - by_law (law_settings_Get K R).
  - unfold Settings.Set_. repeat first [by_law (law_settings_Upsert K R) | within_rule].
Qed.

#[export] Instance consumer_lawful : LawfulConsumer K R (cascadeConsumer env upURL).
Proof.
  split; simpl; intros.
  - by_law (within_Cascade_EndForUser AppRole K R).
  - by_law (within_ScrubTenant AppRole K R).
  - by_law (within_Cascade_EndForDisabledDelegate AppRole K R).
  - by_law (within_IsProcessed AppRole K R).
  - by_law (within_MarkProcessed AppRole K R).
  - apply each_Some, _.
Qed.
End wired.

(** ** Every run *)
Section growth.
Context `{E : Env} `{P : PgCommon} `{U : UuidLib} `{PL : !PgCommonLaws E P U} `{T : TimeText}.
Context (env : Environ) (upURL omURL : string) (caURL : option string).
Context (R : relation Db) (Hany : ∀ pool, Confined pool any_ctx R).
#[local] Instance run_confined pool : Confined pool any_ctx R := Hany pool.
#[local] Instance run_preorder : PreOrder R := conf_pre (pool:=AppRole) (K:=any_ctx).

Lemma job_metrics_quiet :
  QuietDb RecordExpiryDeferred ∧ QuietDb RecordActivationDeferred ∧ QuietDb RecordReviewDeferred
  ∧ (∀ s, QuietDb (RecordReviewWarned s)) ∧ QuietDb RecordReviewExpired
  ∧ (∀ s, QuietDb (RecordEnded s)) ∧ (∀ s, QuietDb (RecordUPAvailabilityFailure s)).
Proof. split_and!; intros; apply _. Qed.

(** The jobs read on the system pool and write on the application pool: the
    confinement must hold of both. *)
Lemma jobs_lawful jctx :
  Delegations jctx = delegationRepoSys env → (∃ url, Jobs.UserProfile jctx = UserProfile.client url) →
  JobTxRunner jctx = System.txRunner → JMetrics jctx = Some job_metrics →
  (ProcessedEventsPrune jctx = None ∨ ProcessedEventsPrune jctx = Some (ProcessedEvents.Prune (sysPool env))) →
  LawfulJobs any_ctx R jctx.
Proof.
  intros Hd [url Hu] Ht Hm Hp. destruct job_metrics_quiet as (?&?&?&?&?&?&?).
  split; rewrite ?Hd, ?Hu, ?Ht, ?Hm; try apply _; try (intros m; intros; simplify_eq; simpl; done).
  intros f ctx a b. destruct Hp as [-> | ->]; [done|]. intros [= <-]. by apply (within_Prune AppRole any_ctx R).
Qed.
#[local] Instance server_jobs : LawfulJobs any_ctx R (server_jctx env upURL).
Proof. apply jobs_lawful; simpl; eauto. Qed.
#[local] Instance reconciler_jobs url b r t : LawfulJobs any_ctx R (reconciler_jctx env url b r t).
Proof. apply jobs_lawful; simpl; eauto. Qed.

#[local] Instance internal_lawful health : LawfulInternal any_ctx R (handlers env upURL omURL caURL health).
Proof.
  split; simpl; intros.
  - unfold RunExpiry. within_rule; [|apply _]. by_law (within_Expiry AppRole any_ctx R).
  - unfold RunReviewSweep. within_rule; [|apply _]. by_law (within_ReviewSweep AppRole any_ctx R).
  - by_law (law_FindActiveDeptDelegateForUser any_ctx R (r:=delegationRepo)).
  - by_law (law_FindActiveByDelegator any_ctx R (r:=delegationRepo)).
Qed.

Lemma within_run_job jctx job : LawfulJobs any_ctx R jctx → Within (DbRel R) (run_job jctx job).
Proof.
  intros Hj. unfold run_job.
  repeat first [ by_law (within_Expiry AppRole any_ctx R) | by_law (within_Activation AppRole any_ctx R)
               | by_law (within_ReviewSweep AppRole any_ctx R) | by_law (within_Cleanup AppRole any_ctx R)
               | within_rule ].
Qed.

Lemma sys_step_within w w' : sys_step env upURL omURL caURL w w' → DbRel R w w'.
Proof.
  intros Hs. destruct Hs as [health r Hr|msg|b rt ttl job|].
  - apply (within_serve any_ctx R); [apply _|]. intros m e _. destruct (is_internal e) eqn:Hi.
    + by_law (within_dispatch_internal any_ctx R).
    + by_law (within_dispatch_public any_ctx R).
  - by_law (within_Handle AppRole any_ctx R).
  - apply within_run_job, _.
  - revert w. change (Within (DbRel R) (activeGaugeTick env background)). unfold activeGaugeTick. within_rule.
    + within_rule. by_law (within_CountActive AppRole any_ctx R).
    + within_rule; [apply within_modify; intros w'; by apply DbRel_uncounted|apply _].
Qed.

Lemma reachable_within w w' : reachable env upURL omURL caURL w w' → DbRel R w w'.
Proof.
  induction 1 as [w|w1 w2 w3 Hs _ IH]; [apply DbRel_refl, _|].
  eapply DbRel_trans; [apply _|by apply sys_step_within|done].
Qed.
End growth.

Section runs.
Context `{E : Env} `{P : PgCommon} `{U : UuidLib} `{PL : !PgCommonLaws E P U} `{T : TimeText}.
Context (env : Environ) (upURL omURL : string) (caURL : option string).

Lemma confined_any pool : Confined pool any_ctx (λ _ _, True).
Proof. by repeat split. Qed.

(** C1. Whatever requests, queue deliveries, job runs and gauge ticks are served,
    in whatever order and with whatever outages, the tables keep satisfying
    their constraints, and every delegation only evolves: the grant (who, to
    whom, what, when) never changes, the status only moves scheduled → active
    → ended/cancelled, the record version grows with every change, a
    soft-deleted row is frozen and only such a row is ever removed. *)
Theorem reachable_lifecycle `{!LawfulOthers E} w w' :
  reachable env upURL omURL caURL w w' → db_inv (w_db w) →
  db_inv (w_db w') ∧ evolves (w_db w) (w_db w').
Proof.
  intros Hr. by apply (reachable_within env upURL omURL caURL grows (confined_grows (U:=U))), DbRel_db in Hr.
Qed.

(** C6. Nothing but well-formed events ever reaches the outbox: whatever the
    system serves, and whatever rolls back, the outbox only grows, by events
    whose envelope carries the type of their payload, the tenant and the
    delegation the payload names, and a payload that conforms to the embedded
    schema of that type. *)
Theorem outbox_well_formed `{F : Formats} `{SL : !SchemaLaws E U F} `{!OthersWithin E announcing} w w' :
  reachable env upURL omURL caURL w w' → db_inv (w_db w) →
  ∃ es, db_outbox (w_db w') = (db_outbox (w_db w) ++ es)%list
    ∧ Forall (λ e, ∃ s, entry (env_Type e) schema_ByEventType = Some s
                     ∧ conforms s (payload_json (env_Payload e)) = true
                     ∧ env_Type e = type_of (env_Payload e)
                     ∧ env_TenantID e = uuid_String (payload_tenant (env_Payload e))
                     ∧ env_Subject e = uuid_String (payload_delegation (env_Payload e))) es.
Proof.
  intros Hr Hinv.
  apply (reachable_within env upURL omURL caURL announcing (confined_announcing (U:=U))), DbRel_db in Hr.
  destruct (Hr Hinv) as [_ (es & Hes & Hok)]. exists es. split; [done|].
  eapply Forall_impl; [exact Hok|]. intros e [Hty Ht Hs Hv].
  destruct (published_entry (env_Payload e)) as [s Hsch].
  exists s. rewrite Hty in *. split_and!; try done.
  apply (published_decided _ _ _ Hsch). unfold ValidatingCodec_Encode in Hv.
  rewrite bool_decide_true in Hv by apply published_type.
  by destruct (env_schema _ _).
Qed.

End runs.

(** ** Tenant isolation *)
Section isolation.
Context `{E : Env} `{P : PgCommon} `{U : UuidLib} `{PL : !PgCommonLaws E P U} `{T : TimeText} `{UL : !UuidLaws U}.
Context (env : Environ) (upURL omURL : string) (caURL : option string) (t : uuid).

(** The public group binds the tenant of the gateway-asserted identity, and
    nothing when that is not a UUID. *)
Lemma public_ctx_acts health r rc :
  rq_ctx r = background → rq_identity r = Some rc →
  acts_for (uuid_Parse (requestctx.TenantID rc)) (public_ctx (handlers env upURL omURL caURL health) r).
Proof.
  intros Hctx Hid. unfold public_ctx, ContextMiddleware. rewrite Hid. unfold tenantGUCMiddleware. simpl.
  unfold bindTenantGUC. rewrite Hctx. destruct (uuid_Parse _); [|done]. by apply acts_for_bound.
Qed.

(** C4. A request of the public API never creates, changes or removes a
    delegation or the policy of a tenant other than the one its identity
    asserts, whatever the request says and wherever it fails: row-level
    security sees the tenant of the identity, never one taken from the body. *)
Theorem request_isolation `{!OthersWithin E (spares t)} health r w :
  rq_ctx r = background →
  (∀ m e, (m, e) ∈ routes (rq_Path r) → is_internal e = false) →
  (∀ rc, rq_identity r = Some rc → uuid_Parse (requestctx.TenantID rc) ≠ Some t) →
  db_inv (w_db w) →
  untouched t (w_db w) (w_db (serve (handlers env upURL omURL caURL health) r w).2).
Proof.
  intros Hctx Hpub Hid Hinv.
  assert (Within (DbRel (spares t)) (serve (handlers env upURL omURL caURL health) r)) as Hw
    by (destruct (rq_identity r) as [rc|] eqn:Hr;
        [set (o := uuid_Parse (requestctx.TenantID rc)) | set (o := None : option uuid)];
        (assert (o ≠ Some t) as Ho by (unfold o; auto));
        pose proof (confined_spares o t Ho) as Hconf;
        (apply (within_serve (acts_for o) (spares t)); [apply _|intros m e He]);
        (apply (within_dispatch_public (acts_for o) (spares t)); [apply _|by eapply Hpub|]);
        rewrite Hr; [intros _; by apply public_ctx_acts|done]).
  by apply (DbRel_db _ _ _ (Hw w)).
Qed.

(** C5. A queue delivery never touches a tenant other than the one the message
    is about. *)
Theorem delivery_isolation `{!OthersWithin E (spares t)} msg w :
  message_tenant msg ≠ Some t → db_inv (w_db w) →
  untouched t (w_db w) (w_db (Handle (cascadeConsumer env upURL) background msg w).2).
Proof.
  intros Ht Hinv.
  assert (Within (DbRel (spares t)) (Handle (cascadeConsumer env upURL) background msg)) as Hw; [|by apply (DbRel_db _ _ _ (Hw w))].
  set (K := λ ctx, ∃ o, o ≠ Some t ∧ acts_for o ctx).
  assert (Confined AppRole K (spares t)) as Hconf.
  { split.
    - unfold spares. apply _.
    - apply _.
    - apply (confined_spares None t). done.
    - apply (confined_spares None t). done.
    - intros ctx tx d d' (o & Ho & Hk). eapply (conf_lawful (Confined := confined_spares o t Ho)). done.
    - intros ctx ctx' tx (o & Ho & Hk) Htx Hb. exists o. split; [done|].
      by eapply (conf_bind (Confined := confined_spares o t Ho)). }
  apply (within_Handle AppRole K (spares t)).
  - apply _.
  - exists None. split; [done|apply acts_for_background].
  - intros t' user Ht'. exists (Some t'). split; [congruence|]. by apply acts_for_bound.
Qed.
End isolation.
