(* ===== verification/SystemSpec.v ===== *)
(** * What the wired program does

    The object graph of cmd/server and cmd/reconciler fulfils the contracts, so
    the functional theorems of the components hold of the program that runs. *)
From S2P Require Import Prelude GoLib Domain World Store StoreFacts MetricsRec Valkey EventBus EventSchema HttpClients Postgres Contracts PostgresFacts StoreSpec PostgresSpec ClientFacts DelegationService CascadeService Consumer Jobs FloatFacts Http SchemaSpec ServiceFacts DelegationSpec CascadeSpec ConsumerSpec JobSpec Config System SystemFacts.
Local Open Scope string_scope.
Local Open Scope Z_scope.

Section wired.
Context `{E : Env} `{P : PgCommon} `{U : UuidLib} `{PL : !PgCommonLaws E P U} `{T : TimeText}.
Context (env : Environ) (upURL omURL : string) (caURL : option string).

#[export] Instance delegation_contract `{!LawfulOthers E} :
  ServiceContract AppRole outboxPublisher (delegationService upURL omURL caURL).
Proof.
  split; simpl; try apply _; try (apply each_Some; apply _); try (intros m; intros; simplify_eq/=; apply _).
  intros c Hca. destruct caURL; simplify_eq/=. apply _.
Qed.
#[export] Instance cascade_contract `{!LawfulOthers E} : CascadeContract AppRole outboxPublisher (cascadeServiceImpl upURL).
Proof. split; simpl; try apply _; intros m x [= <-]; simpl; apply _. Qed.

(** The gauge exporter only takes gauge steps, however often it ticks and whichever
    query fails, and it never ends with an error. *)
Theorem exporter_takes_gauge_steps ticks w :
  (runActiveGaugeExporter env ticks background w).1 = Ok tt ∧
  reachable env upURL omURL caURL w (runActiveGaugeExporter env ticks background w).2.
Proof.
  unfold runActiveGaugeExporter. set (emit := (counts ← _; _)).
  assert (∀ w, (emit w).2 = (activeGaugeTick env background w).2) as Hemit.
  { intros w'. unfold emit, activeGaugeTick, mbind, gom_bind, try. by destruct (Gauge.CountActiveByTenant _ _ w') as [[c|e] w1]. }
  clearbody emit. revert w. induction ticks as [|ticks IH]; intros w; simpl;
    pose proof (StepGauge env upURL omURL caURL w) as Hs; rewrite <- Hemit in Hs.
  - split; [done|]. by apply rtc_once.
  - destruct (IH (emit w).2) as [H1 H2]. split; [exact H1|]. by eapply rtc_l.
Qed.

(** Binding a tenant makes its rows visible to the application role. *)
Lemma sees_bound `{!UuidLaws U} ctx t user : ctx_tx ctx = None → sees AppRole (WithTenantGUC ctx t user) t.
Proof.
  intros Htx tx Heff. destruct (acts_for_tx (Some t) (WithTenantGUC ctx t user) tx) as [Hr Ht]; [|done|].
  - by apply acts_for_bound.
  - unfold rls_check_tenant. rewrite Hr, Ht. by apply bool_decide_eq_true.
Qed.

#[export] Instance consumer_contract `{!UuidLaws U} `{!LawfulOthers E} :
  ConsumerContract AppRole outboxPublisher (cascadeConsumer env upURL).
Proof.
  split; simpl; intros.
  - by_law (wp_EndForUser AppRole outboxPublisher).
  - by_law (wp_ScrubTenant AppRole outboxPublisher).
  - by_law (wp_EndForDisabledDelegate AppRole outboxPublisher).
  - apply postgres_ledger.
  - eexists. split; [done|apply _].
  - split; [by apply sees_bound|done].
Qed.

(** Pruning the dedup ledger adds nothing to it and touches nothing else. *)
Lemma prune_ledger role ctx a b w :
  wp (ProcessedEvents.Prune role ctx a b) (λ _ w', ∃ db, meanwhile (w_db w) db ∧ ledger_pruned db (w_db w')) w.
Proof.
  unfold ProcessedEvents.Prune. eapply wp_mono.
  - apply (wp_method ctx role _ (λ db _ db', ledger_pruned db db') (λ _ _, True)). intros w0 _ tx w1 _ Hdb1.
    apply wp_stmt; [intros e He; by apply fault_unchanged|done|]. intros n d [= <- <-].
    rewrite <- Hdb1. split_and!; [done..|]. simpl. induction (ProcessedEvents.prunable _ _ _ _) as [|k ks IH]; simpl; [done|].
    etransitivity; [apply delete_subseteq|exact IH].
  - intros r w' (db & Hm%begins_on_meanwhile & H). exists db. split; [done|]. destruct r; [done|]. by destruct H as [-> _].
Qed.

Lemma job_contract `{!LawfulOthers E} jctx :
  Delegations jctx = delegationRepoSys env → (∃ url, Jobs.UserProfile jctx = UserProfile.client url) →
  JobTxRunner jctx = System.txRunner → BindTenantGUC jctx = WithTenantGUC → JMetrics jctx = Some job_metrics →
  (ProcessedEventsPrune jctx = None ∨ ProcessedEventsPrune jctx = Some (ProcessedEvents.Prune (sysPool env))) →
  JobContract (sysPool env) AppRole outboxPublisher jctx.
Proof.
  intros Hd [url Hu] Ht Hb Hm Hp.
  split; rewrite ?Hd, ?Hu, ?Ht, ?Hb; try apply _; try done;
    try (intros m; intros; rewrite Hm in *; simplify_eq/=; apply _).
  intros f ctx a b w Hf. destruct Hp as [Hp|Hp]; rewrite Hp in Hf; simplify_eq. apply prune_ledger.
Qed.
#[export] Instance reconciler_contract `{!LawfulOthers E} url b r t :
  JobContract (sysPool env) AppRole outboxPublisher (reconciler_jctx env url b r t).
Proof. apply job_contract; simpl; eauto. Qed.
#[export] Instance server_contract `{!LawfulOthers E} : JobContract (sysPool env) AppRole outboxPublisher (server_jctx env upURL).
Proof. apply job_contract; simpl; eauto. Qed.
End wired.

(** With the schemas as they are, a healthy database is all it takes. *)
Lemma healthy_reliable `{E : Env} `{P : PgCommon} `{U : UuidLib} `{F : Formats} `{SL : !SchemaLaws E U F} :
  healthy_db → reliable.
Proof. intros Hh. split; [done|]. intros d. apply encodable. Qed.

(** ** The use cases of the server *)
Section use_cases.
Context `{E : Env} `{P : PgCommon} `{U : UuidLib} `{PL : !PgCommonLaws E P U} `{T : TimeText} `{CL : !SaneClock E} `{LO : !LawfulOthers E} `{UI : !UniqueIds E}.
Context (upURL omURL : string) (caURL : option string).
#[local] Abbreviation svc := (delegationService upURL omURL caURL).


(** A refused request changed nothing, for a reason found in the tables it saw. *)
Definition refused_for (d0 : Db) (X : Db → goerror → Prop) (e : goerror) (d1 : Db) : Prop :=
  meanwhile d0 d1 ∧ ∃ db, meanwhile d0 db ∧ (outage e ∨ X db e).

Lemma cancel_result `{F : Formats} `{SL : !SchemaLaws E U F} ctx t i v w :
  outermost outboxPublisher ctx → db_inv (w_db w) →
  wp (Cancel svc ctx t i v) (λ r w',
    match r with
    | Ok d => ∃ db, meanwhile (w_db w) db
                ∧ cancelled outboxPublisher t i v EndReasonCancelled (cancelActor ctx) d db (w_db w')
    | Err e => refused_for (w_db w) (cancel_refused t i v (sees AppRole ctx t)) e (w_db w')
    end) w.
Proof.
  intros Hctx Hinv. eapply wp_mono; [by_law (wp_cancelInternal AppRole outboxPublisher)|].
  intros [d|e] w'; [done|]. intros (Hm & db & Hdb & He). split; [done|]. exists db. split; [done|].
  apply fails_domain; [by apply cancel_refused_domain|].
  eapply fails_mono; [|exact He]. intros x [?|(d & (Hi & _) & Hr)]; [done|]. exfalso. revert Hr.
  destruct (meanwhile_inv _ _ Hdb Hinv) as [Hinv' _].
  apply (encodable (endedPayload t i d EndReasonCancelled (cancelActor ctx d))), payload_ended.
  - by apply (inv_row _ Hinv' i).
  - by repeat first [left | right].
Qed.

(** C9. Cancelling ends exactly the delegation it names, whatever transactions of
    others commit in between: on the tables its transaction begins on it must be
    live, open and at the caller's version; it becomes [cancelled], its version
    grows, and one DelegationEnded event with reason [cancelled] and the caller
    as actor is in the outbox with it.  On any error the tables are what the
    others made of them, and the error is an outage of the database, or says
    that there is no such open delegation for a caller who sees the tenant, or
    is the conflict that tells the current version. *)
Theorem cancel_all_or_nothing `{F : Formats} `{SL : !SchemaLaws E U F} ctx t i v w :
  outermost outboxPublisher ctx → db_inv (w_db w) →
  wp (Cancel svc ctx t i v) (λ r w',
    match r with
    | Ok d => ∃ db, meanwhile (w_db w) db
                ∧ cancelled outboxPublisher t i v EndReasonCancelled (cancelActor ctx) d db (w_db w')
    | Err e => refused_for (w_db w) (cancel_refused t i v (sees AppRole ctx t)) e (w_db w')
    end) w.
Proof. apply cancel_result. Qed.

Lemma extend_result ctx t i days v w :
  outermost outboxPublisher ctx → db_inv (w_db w) →
  wp (Extend svc ctx t i days v) (λ r w',
    match r with
    | Ok d' => ∃ n d db, 1 ≤ n ≤ 180 ∧ meanwhile (w_db w) db ∧ extended t i v n d d' db (w_db w')
        ∧ match days with
          | Some m => n = m
          | None => ∃ read db', meanwhile (w_db w) db' ∧ live_row db' t i read ∧ row_step read d
                                ∧ ∀ m, ReviewWindowDays read = Some m → n = m
          end
    | Err e => refused_for (w_db w) (extend_refused t i days v (sees AppRole ctx t)) e (w_db w')
    end) w.
Proof.
  intros Hctx Hinv. eapply wp_mono; [by_law (wp_Extend AppRole outboxPublisher)|].
  intros [d|e] w'; [done|]. intros (Hm & db & Hdb & He). split; [done|]. exists db. split; [done|].
  apply fails_domain; [by intros x [? _]|done].
Qed.

(** C10. Extending moves the review deadline of an active, open-ended delegation at
    the caller's version on by the requested 1 to 180 days, or else by the
    window of the row as it was read, and clears the warning bucket; it
    publishes nothing and cannot hit a CHECK constraint, whatever transactions
    of others commit in between.  On any error the tables are what the others
    made of them, and the error is an outage of the database or a domain error
    for a reason: the days are out of range, or a caller who sees the tenant
    finds no such delegation. *)
Theorem extend_all_or_nothing ctx t i days v w :
  outermost outboxPublisher ctx → db_inv (w_db w) →
  wp (Extend svc ctx t i days v) (λ r w',
    match r with
    | Ok d' => ∃ n d db, 1 ≤ n ≤ 180 ∧ meanwhile (w_db w) db ∧ extended t i v n d d' db (w_db w')
        ∧ match days with
          | Some m => n = m
          | None => ∃ read db', meanwhile (w_db w) db' ∧ live_row db' t i read ∧ row_step read d
                                ∧ ∀ m, ReviewWindowDays read = Some m → n = m
          end
    | Err e => refused_for (w_db w) (extend_refused t i days v (sees AppRole ctx t)) e (w_db w')
    end) w.
Proof. apply extend_result. Qed.

(** C11. While the database answers and nobody else is at work, a caller bound to the tenant is never turned away
    for no reason: cancelling an open delegation at its current version succeeds,
    and so does extending an active, open-ended one by 1 to 180 days, whatever
    User Profile, the cache and the metrics do. *)
Theorem cancel_and_extend_succeed `{!Alone E} `{F : Formats} `{SL : !SchemaLaws E U F} `{UL : !UuidLaws U} ctx0 t user i d w :
  let ctx := WithTenantGUC ctx0 t user in
  outermost outboxPublisher ctx0 → healthy_db → db_inv (w_db w) → live_row (w_db w) t i d →
  (open_status (Status d) = true → is_ok (Cancel svc ctx t i (RecordVersion d) w).1 = true)
  ∧ (∀ n, Status d = DelegationActive → EndsAt d = None → 1 ≤ n ≤ 180 →
       is_ok (Extend svc ctx t i (Some n) (RecordVersion d) w).1 = true).
Proof.
  intros ctx [Htx Hpub] Hh Hinv Hl. assert (outermost outboxPublisher ctx) as Hctx by done.
  assert (sees AppRole ctx t) as Hsees by by apply sees_bound.
  assert (∀ d', live_row (w_db w) t i d' → d' = d) as Huniq by (intros d' [? _]; destruct Hl; congruence).
  assert (∀ e, ¬ outage e) as Hno by (intros e (n & x & Hx & _); by rewrite Hh in Hx).
  split.
  - intros Hopen. pose proof (cancel_result ctx t i (RecordVersion d) w Hctx Hinv) as Hr. unfold wp in Hr.
    destruct (Cancel svc ctx t i (RecordVersion d) w) as [[d'|e] w']; [done|]. exfalso. simpl in Hr.
    destruct Hr as (_ & db & ->%alone_meanwhile & [?|[[_ Hnone]|(d' & _ & Hl' & _ & Hv)]]); [by eapply Hno| |].
    + by rewrite (Hnone Hsees d Hl) in Hopen.
    + by rewrite (Huniq d' Hl') in Hv.
  - intros n Hact Hends Hn. pose proof (extend_result ctx t i (Some n) (RecordVersion d) w Hctx Hinv) as Hr. unfold wp in Hr.
    destruct (Extend svc ctx t i (Some n) (RecordVersion d) w) as [[d'|e] w']; [done|]. exfalso. simpl in Hr.
    destruct Hr as (_ & db & ->%alone_meanwhile & [?|[_ [?|Hnone]]]); [by eapply Hno|lia|]. by apply (Hnone Hsees d Hl).
Qed.

(** C12. Reassigning is a cancellation (reason [reassigned]) and then a creation for
    the same delegator from the merged input, in two transactions between which
    others may commit: it succeeds with both, fails before the first with
    neither, and can fail between them, leaving the old delegation cancelled and
    announced and no new one. *)
Theorem reassign_two_transactions ctx t i v req w :
  outermost outboxPublisher ctx → db_inv (w_db w) →
  wp (Reassign svc ctx t i v req) (λ r w',
    (∃ e, r = Err e ∧ meanwhile (w_db w) (w_db w'))
    ∨ (∃ old ended db1 db2 db3, meanwhile (w_db w) db1 ∧ live_row db1 t i old ∧ Status old = DelegationActive
       ∧ meanwhile db1 db2
       ∧ cancelled outboxPublisher t i v EndReasonReassigned (cancelActor ctx) ended db2 db3
       ∧ match r with
         | Ok d => ∃ db4, meanwhile db3 db4
                     ∧ created outboxPublisher t (DelegatorID old) (reassignInput old req) d db4 (w_db w')
         | Err _ => meanwhile db3 (w_db w')
         end)) w.
Proof.
  intros Hctx Hinv. apply (wp_Reassign AppRole outboxPublisher _ ctx t i v req w Hctx Hinv).
  by_law (within_cancelInternal AppRole any_ctx grows).
Qed.

(** C13. Of two writers that read the same version of a delegation at most one
    ends it: once an End at version [v] has succeeded, no later End at [v] does,
    whatever lawful changes the row went through in between and whatever others
    commit before its transaction begins. *)
Theorem end_single_winner pool ctx1 ctx2 t i s1 s2 v w w1 w2 d1 :
  db_inv (w_db w) → db_inv (w_db w2) →
  s1 = DelegationEnded ∨ s1 = DelegationCancelled → s2 = DelegationEnded ∨ s2 = DelegationCancelled →
  Repo.End_ pool ctx1 t i s1 v w = (Ok d1, w1) →
  (∀ db x, meanwhile (w_db w2) db → live_row db t i x → row_step d1 x) →
  is_ok (Repo.End_ pool ctx2 t i s2 v w2).1 = false.
Proof.
  intros Hinv Hinv2 Hs1 Hs2 Hend Hlater.
  destruct (wp_run _ _ _ _ _ (end_contract pool ctx1 t i s1 v w Hinv Hs1) Hend) as (db1 & _ & tx & d & _ & _ & [Hv Ho] & -> & _).
  pose proof (end_contract pool ctx2 t i s2 v w2 Hinv2 Hs2) as H2. unfold wp in H2.
  destruct (Repo.End_ pool ctx2 t i s2 v w2) as [[d2|e] w3]; [|done]. simpl in H2.
  destruct H2 as (db2 & Hb%begins_on_meanwhile & tx2 & x & _ & Hx & [Hv2 _] & _). exfalso.
  destruct (Hlater db2 x Hb Hx) as [_ Hver _ _].
  assert (RecordVersion (updated_row tx (set_Status s1) d) = v + 1) as Hup.
  { unfold updated_row, touch_row. case_decide as Heq; [|simpl; lia]. exfalso.
    assert (Status d = s1) as Hst by (by rewrite Heq). unfold open_status in Ho. rewrite Hst in Ho.
    by destruct Hs1 as [->| ->]. }
  destruct Hver as [->|?]; lia.
Qed.
End use_cases.
