(* ===== verification/Actions.v ===== *)
(** * The program as a trace of actions

    What a run may do to the tables, without SQL, transactions, retries, outages
    or HTTP: grants are given, cancelled, extended, started, warned about, ended
    and purged, policies set, deliveries recorded.  The running system refines
    this, and what an action owes the outbox holds of every run. *)
From S2P Require Import Prelude GoLib Domain World Store StoreFacts MetricsRec EventBus EventSchema Contracts StoreSpec Postgres PostgresFacts PostgresSpec DelegationService CascadeService SchemaSpec ServiceFacts DelegationSpec CascadeSpec ConsumerSpec JobSpec.
Local Open Scope Z_scope.

(** ** Actions *)
Section actions.
Context `{U : UuidLib} (p : Publisher) (clk : Time → Prop).

(** One action, and the ids it gives out.  What the jobs do they do at a time
    [clk] of the clock. *)
Inductive action : list uuid → relation Db :=
| Grants t u req d db db' : created p t u req d db db' → action [ID d] db db'
| Cancels t i v reason actor d db db' :
    reason ∈ [EndReasonCancelled; EndReasonReassigned] → cancelled p t i v reason actor d db db' → action [] db db'
| Extends t i v n d d' db db' : 1 ≤ n ≤ 180 → extended t i v n d d' db db' → action [] db db'
| Starts now db db' : clk now → start_step p now db db' → action [] db db'
| Expires now db db' : clk now → expire_step p now db db' → action [] db db'
| Warns now db db' : clk now → warn_step p now db db' → action [] db db'
| Lapses now db db' : clk now → lapse_step p now db db' → action [] db db'
| Removes t u db db' : ended_for_user p t u db db' → action [] db db'
| Disables t u db db' : ended_for_disabled p t u db db' → action [] db db'
| Offboards t db db' : tenant_scrubbed t db db' → action [] db db'
| Sets t s db : ts_TenantID s = t → settings_ok s = true → action [] db (with_settings_of t (Some s) db)
| Records id name now db : action [] db (mark id name now db)
| Purges rows db :
    (∀ d, d ∈ rows → db_delegations db !! ID d = Some d ∧ DeletedAt d ≠ None) →
    action [] db (remove_rows (ID <$> rows) db)
| Prunes db db' : ledger_pruned db db' → action [] db db'.

(** A trace of them, with all the ids it gives out. *)
Inductive acts : list uuid → relation Db :=
| acts_nil db : acts [] db db
| acts_cons g1 g2 db1 db2 db3 : action g1 db1 db2 → acts g2 db2 db3 → acts (g1 ++ g2) db1 db3.

Lemma acts_app g1 g2 db1 db2 db3 : acts g1 db1 db2 → acts g2 db2 db3 → acts (g1 ++ g2) db1 db3.
Proof. induction 1 as [db|g g' a b c Ha _ IH]; [done|]. intros Hg. rewrite <- app_assoc. econstructor; eauto. Qed.
Lemma acts_once g db db' : action g db db' → acts g db db'.
Proof. intros Ha. rewrite <- (app_nil_r g). econstructor; [done|constructor]. Qed.

Definition acted : relation Db := λ db db', ∃ g, acts g db db'.
#[export] Instance acted_preorder : PreOrder acted.
Proof.
  split; [intros db; exists []; constructor|]. intros a b c [g1 H1] [g2 H2]. exists (g1 ++ g2)%list. by eapply acts_app.
Qed.
Lemma acted_once g db db' : action g db db' → acted db db'.
Proof. intros Ha. exists g. by apply acts_once. Qed.
Lemma acted_steps (step : relation Db) g n db db' :
  (∀ d d', step d d' → action g d d') → nsteps step n db db' → acted db db'.
Proof. intros Hs. induction 1 as [|n a b c Hab _ IH]; [reflexivity|]. etransitivity; [by eapply acted_once, Hs|done]. Qed.

(** What a run that is refined by actions does. *)
Definition refines : relation Db := under_inv acted.
End actions.

(** ** Actions grow the tables *)

(** Rows replaced by what they become, one for one. *)
Lemma evolves_each db db' :
  (∀ k a, db_delegations db !! k = Some a → ∃ b, db_delegations db' !! k = Some b ∧ row_step a b) → evolves db db'.
Proof. intros Hk k a Ha. left. by apply Hk. Qed.

Lemma put_grows d d' es db :
  db_delegations db !! ID d = Some d → ID d' = ID d → (row_ok d = true → row_ok d' = true) → row_step d d' →
  grows db (append_events es (put_row d' db)).
Proof.
  intros Hd Hid Hok Hstep Hinv. split; [split; simpl; [|apply Hinv]|].
  - intros k b. rewrite lookup_insert_Some. intros [[<- <-]|[_ Hb]]; [|by apply (inv_row db Hinv)].
    split; [done|]. apply Hok. by apply (inv_row db Hinv _ _ Hd).
  - apply evolves_each. intros k a Ha. simpl. rewrite Hid. destruct (decide (k = ID d)) as [->|Hne].
    + rewrite Hd in Ha. injection Ha as <-. exists d'. by rewrite lookup_insert_eq.
    + exists a. by rewrite lookup_insert_ne.
Qed.

Lemma replace_grows P f es db :
  (∀ d, P d = true → ID (f d) = ID d) → (∀ d, P d = true → row_ok d = true → row_ok (f d) = true) →
  (∀ d, P d = true → row_step d (f d)) → grows db (append_events es (replace_where P f db)).
Proof.
  intros Hid Hok Hstep Hinv. split; [split; simpl; [|apply Hinv]|].
  - intros k b. rewrite lookup_fmap. destruct (db_delegations db !! k) as [a|] eqn:Ha; [|done]. simpl. intros [= <-].
    apply (inv_row db Hinv) in Ha as [<- ?]. destruct (P a) eqn:HP; [|done]. split; auto.
  - apply evolves_each. intros k a Ha. simpl. rewrite lookup_fmap, Ha. eexists. split; [done|].
    destruct (P a) eqn:HP; [by apply Hstep|reflexivity].
Qed.

Lemma settings_grow t s db :
  (∀ x, s = Some x → ts_TenantID x = t ∧ settings_ok x = true) → grows db (with_settings_of t s db).
Proof.
  intros Hs Hinv. split; [split; simpl; [apply Hinv|]|apply evolves_each; intros k a Ha; by exists a].
  intros k x. destruct (decide (k = t)) as [->|Hne]; [rewrite lookup_partial_alter_eq; apply Hs|].
  rewrite lookup_partial_alter_ne by done. apply Hinv.
Qed.

(** The rows a sweep selects are live, and open where it ends them. *)
Lemma involves_sets t u now : sets (involves t u) (set_ended_deleted now).
Proof.
  split; intros d Hd; apply bool_decide_eq_true in Hd as (_ & _ & Ho & Hl); [done|done|]. apply reaches_final; [done|by left].
Qed.
Lemma delegated_to_sets t u : sets (delegated_to t u) (set_Status DelegationEnded).
Proof.
  split; intros d Hd; apply bool_decide_eq_true in Hd as (_ & _ & Ho & Hl); [done|done|]. apply reaches_final; [done|by left].
Qed.
Lemma live_in_sets t now : sets (live_in t) (set_DeletedAt now).
Proof. split; intros d Hd; apply bool_decide_eq_true in Hd as [_ Hl]; done. Qed.

Section grow.
Context `{U : UuidLib} (p : Publisher).

Lemma created_grows t u req d db db' : created p t u req d db db' → grows db db'.
Proof.
  intros (Hg & Hnew & Hdb) Hinv.
  assert (∃ es, db' = append_events es (put_row d db)) as (es & ->).
  { destruct Hdb as [[_ ->]|(_ & e & _ & ->)]; [|by exists [e]]. exists []. unfold append_events. simpl. by rewrite app_nil_r. }
  split; [split; simpl; [|apply Hinv]|].
  - intros k b. rewrite lookup_insert_Some. intros [[<- <-]|[_ Hb]]; [|by apply (inv_row db Hinv)]. split; [done|apply Hg].
  - apply evolves_each. intros k a Ha. exists a. simpl. rewrite lookup_insert_ne; [done|]. intros <-. congruence.
Qed.

(** The statements behind the actions on one row. *)
Lemma updated_grows tx Pw f d es db :
  sets Pw f → Pw d = true → db_delegations db !! ID d = Some d → (row_ok d = true → row_ok (f d) = true) →
  grows db (append_events es (put_row (updated_row tx f d) db)).
Proof.
  intros Hs HP Hd Hok. apply (put_grows d); [done| | |by eapply updated_row_step].
  - apply updated_row_id. by apply Hs.
  - intros Hrow. apply row_ok_updated; auto.
Qed.
Lemma swept_grows tx Pw f es db :
  sets Pw f → (∀ d, row_ok d = true → row_ok (f d) = true) →
  grows db (append_events es (replace_where Pw (updated_row tx f) db)).
Proof.
  intros Hs Hok. apply replace_grows; intros d HP.
  - apply updated_row_id. by apply Hs.
  - intros Hrow. apply row_ok_updated; auto.
  - by eapply updated_row_step.
Qed.
Lemma no_events db : append_events [] db = db.
Proof. unfold append_events. rewrite app_nil_r. by destruct db. Qed.

Lemma step_of_grows (Q : Delegation → Prop) f ty data db db' :
  (∀ tx d, ID (f tx d) = ID d) → (∀ tx d, Q d → DeletedAt d = None → row_ok d = true → row_ok (f tx d) = true) →
  (∀ tx d, Q d → DeletedAt d = None → row_step d (updated_row tx (f tx) d)) →
  step_of p Q f ty data db db' → grows db db'.
Proof.
  intros Hid Hok Hstep (d & Hd & Hl & HQ & tx & e & _ & ->). apply (put_grows d); [done|by apply updated_row_id| |auto].
  intros Hrow. apply row_ok_updated; auto.
Qed.

(** The invariant holds on, and every row that is left has only evolved. *)
Lemma action_grows clk g db db' : action p clk g db db' → grows db db'.
Proof.
  intros Ha. destruct Ha as [t u req d db db' H|t i v reason actor d db db' _ H|t i v n d d' db db' Hn H|now db db' _ H
    |now db db' _ H|now db db' _ H|now db db' _ H|t u db db' H|t u db db' H|t db db' H|t s db Ht Hs|id name now db|rows db H|db db' H].
  - by eapply created_grows.
  - destruct H as (tx & d0 & e & (Hd & Ht & Hl) & Hv & Ho & -> & _ & ->). intros Hinv.
    pose proof (inv_row db Hinv i d0 Hd) as [Hid _]. revert Hinv. apply (updated_grows _ (where_end t i v)).
    + apply sets_end. by right.
    + unfold where_end, in_tenant, has_id, has_version, is_live. by rewrite Ho, Hv, Z.eqb_refl, !bool_decide_true.
    + by rewrite Hid.
    + apply row_ok_status. set_solver.
  - destruct H as (tx & (Hd & Ht & Hl) & Hv & Hs & He & -> & ->). intros Hinv.
    pose proof (inv_row db Hinv i d Hd) as [Hid _]. revert Hinv. rewrite <- (no_events (put_row _ _)).
    apply (updated_grows _ (where_extend t i v) (set_extend n)).
    + apply sets_extend.
    + unfold where_extend, in_tenant, has_id, has_version, is_live, has_status, open_ended. by rewrite Hv, Z.eqb_refl, !bool_decide_true.
    + by rewrite Hid.
    + apply row_ok_review; [done|by apply between_Some].
  - revert H. apply step_of_grows; [done|intros; by apply endable; [right|]|].
    intros tx d (? & ?)%startable_open _. by apply start_row_step.
  - revert H. apply step_of_grows; [done|intros; by apply endable; [left|]|].
    intros tx d (? & ?)%expired_open _. by apply end_row_step.
  - destruct H as (days & Hdays & H). revert H. apply step_of_grows; [done| |].
    + intros tx d _ _ Hrow. apply row_ok_review; [by apply between_Some|by apply row_ok_window|done].
    + intros tx d (Hw & _) Hl. unfold warnable_at in Hw. apply andb_true_iff in Hw as [Hw _].
      apply bool_decide_eq_true in Hw as (_ & ? & _). by apply warn_row_step.
  - revert H. apply step_of_grows; [done|intros; by apply endable; [left|]|].
    intros tx d (? & ?)%overdue_open _. by apply end_row_step.
  - destruct H as (tx & ess & _ & ->). apply (swept_grows tx _ _ _ _ (involves_sets t u (tx_now tx))).
    intros d Hrow. apply row_ok_deleted, row_ok_status; [set_solver|done].
  - destruct H as (tx & ess & _ & ->). apply (swept_grows tx _ _ _ _ (delegated_to_sets t u)).
    intros d. apply row_ok_status. set_solver.
  - destruct H as (tx & ->). etransitivity; [|by apply settings_grow].
    rewrite <- (no_events (replace_where _ _ _)). by apply (swept_grows tx _ _ _ _ (live_in_sets t (Some (tx_now tx)))).
  - apply settings_grow. by intros x [= <-].
  - intros Hinv. unfold mark. case_match; [by split|]. split; [by split; apply Hinv|]. apply evolves_each. intros k a Ha. by exists a.
  - intros Hinv. split; [split; simpl; [|apply Hinv]|].
    + intros k d. rewrite foldr_delete_lookup. case_bool_decide; [done|apply Hinv].
    + intros k a Ha. simpl. rewrite foldr_delete_lookup. case_bool_decide as Hin; [|left; by exists a].
      apply list_elem_of_fmap in Hin as (d & -> & Hd). destruct (H d Hd) as [Hk Hdel]. right. exists a. split; [reflexivity|congruence].
  - destruct H as (Hd & Hs & _ & _). intros Hinv. split; [split; rewrite ?Hd, ?Hs; apply Hinv|].
    apply evolves_each. intros k a Ha. exists a. by rewrite Hd.
Qed.
Lemma acted_grows clk db db' : acted p clk db db' → grows db db'.
Proof.
  intros [g Hg]. induction Hg as [db|g1 g2 a b c Ha _ IH]; [intros Hd; by split|].
  etransitivity; [by eapply action_grows|exact IH].
Qed.
End grow.

(** ** What an action owes the outbox

    [tally]: the events of type [ty] about delegation [k].  [held]: 1 when [k] is
    a live delegation satisfying [Q], 0 otherwise. *)
Definition about `{UuidLib} (ty : string) (k : uuid) (e : Envelope EventData) : Prop :=
  env_Type e = ty ∧ env_Subject e = uuid_String k.
#[export] Instance about_dec `{UuidLib} ty k e : Decision (about ty k e).
Proof. unfold about. apply _. Defined.
Definition tally `{UuidLib} (ty : string) (k : uuid) (es : list (Envelope EventData)) : nat := length (filter (about ty k) es).
Definition holds (Q : Delegation → bool) (o : option Delegation) : nat :=
  match o with Some d => if bool_decide (DeletedAt d = None) && Q d then 1 else 0 | None => 0 end.
Definition held (Q : Delegation → bool) (k : uuid) (db : Db) : nat := holds Q (db_delegations db !! k).
Definition given (k : uuid) (g : list uuid) : nat := length (filter (λ x, x = k) g).

(** Events of type [ty] are paid for by delegations that were [Q] or are new, and
    a delegation that has become [C] has had one. *)
Record accounted `{UuidLib} (ty : string) (Q C : Delegation → bool) (g : list uuid)
    (es : list (Envelope EventData)) (db db' : Db) : Prop := {
  acc_paid : ∀ k, (tally ty k es + held Q k db' ≤ held Q k db + given k g)%nat;
  acc_told : ∀ k, (held C k db' ≤ held C k db + tally ty k es)%nat;
}.
Definition accounts `{UuidLib} (ty : string) (Q C : Delegation → bool) (g : list uuid) (db db' : Db) : Prop :=
  ∃ es, db_outbox db' = (db_outbox db ++ es)%list ∧ accounted ty Q C g es db db'.

(** An id that is given out once, and is not in the tables before, pays once. *)
Lemma given_out k g : k ∉ g → given k g = 0%nat.
Proof.
  unfold given. induction g as [|x g IH]; intros Hk; [done|]. apply not_elem_of_cons in Hk as [Hne Hk].
  rewrite filter_cons_False by congruence. by apply IH.
Qed.
Lemma given_once k g : NoDup g → (given k g ≤ 1)%nat.
Proof.
  unfold given. induction 1 as [|x g Hx _ IH]; [simpl; lia|]. rewrite filter_cons. case_decide as Heq; [|done].
  subst. simpl. by fold (given k g); rewrite given_out.
Qed.
Lemma new_or_held k g db :
  NoDup g → (k ∈ g → db_delegations db !! k = None) → ∀ F, (held F k db + given k g ≤ 1)%nat.
Proof.
  intros Hnd Hnew F. destruct (decide (k ∈ g)) as [Hin|Hout].
  - unfold held. rewrite Hnew by done. by apply given_once.
  - rewrite given_out by done. unfold held, holds. case_match; [|lia]. case_match; lia.
Qed.

Section account.
Context `{U : UuidLib} `{UL : !UuidLaws U} (p : Publisher) (ty : string) (Q C : Delegation → bool).

Lemma tally_app k es1 es2 : tally ty k (es1 ++ es2) = (tally ty k es1 + tally ty k es2)%nat.
Proof. unfold tally. by rewrite filter_app, length_app. Qed.
Lemma given_app k g1 g2 : given k (g1 ++ g2) = (given k g1 + given k g2)%nat.
Proof. unfold given. by rewrite filter_app, length_app. Qed.
Lemma given_self k : given k [k] = 1%nat.
Proof. unfold given. by rewrite filter_cons_True. Qed.
Lemma tally_announced ty' t i actor data e k :
  announces p ty' t (uuid_String i) actor data e →
  tally ty k [e] = if bool_decide (ty' = ty ∧ i = k) then 1%nat else 0%nat.
Proof.
  intros (Hty & _ & _ & Hs & _). unfold tally. case_bool_decide as Hd.
  - rewrite filter_cons_True; [done|]. destruct Hd as [-> ->]. by split.
  - rewrite filter_cons_False; [done|]. intros [Ht Hk]. apply Hd. split; [congruence|]. apply uuid_string_inj. congruence.
Qed.

Lemma accounts_trans g1 g2 db1 db2 db3 :
  accounts ty Q C g1 db1 db2 → accounts ty Q C g2 db2 db3 → accounts ty Q C (g1 ++ g2) db1 db3.
Proof.
  intros (es1 & Ho1 & [Hp1 Ht1]) (es2 & Ho2 & [Hp2 Ht2]). exists (es1 ++ es2)%list.
  split; [by rewrite Ho2, Ho1, app_assoc|]. split; intros k; rewrite tally_app, ?given_app;
    specialize (Hp1 k); specialize (Hp2 k); specialize (Ht1 k); specialize (Ht2 k); lia.
Qed.

(** *** By the shape of the action *)

(** The outbox is left alone, and no row gains either. *)
Lemma accounts_quiet db db' :
  db_outbox db' = db_outbox db → (∀ k, (held Q k db' ≤ held Q k db)%nat ∧ (held C k db' ≤ held C k db)%nat) →
  accounts ty Q C [] db db'.
Proof.
  intros Ho Hk. exists []. split; [by rewrite app_nil_r|]. split; intros k; destruct (Hk k); unfold tally, given; simpl; lia.
Qed.

(** One row is written, and the events are about it. *)
Lemma accounts_put g d es db :
  (∀ k, k ≠ ID d → tally ty k es = 0%nat) →
  (tally ty (ID d) es + holds Q (Some d) ≤ held Q (ID d) db + given (ID d) g)%nat →
  (holds C (Some d) ≤ held C (ID d) db + tally ty (ID d) es)%nat →
  accounts ty Q C g db (append_events es (put_row d db)).
Proof.
  intros Hother Hpaid Htold. exists es. split; [done|].
  assert (∀ F k, k ≠ ID d → held F k (append_events es (put_row d db)) = held F k db) as Hne
    by (intros F k Hk; unfold held; simpl; by rewrite lookup_insert_ne).
  assert (∀ F, held F (ID d) (append_events es (put_row d db)) = holds F (Some d)) as Heq
    by (intros F; unfold held; simpl; by rewrite lookup_insert_eq).
  split; intros k; (destruct (decide (k = ID d)) as [->|Hk]; [by rewrite Heq|]); rewrite Hne, Hother by done; lia.
Qed.
Lemma accounts_put_one g d ty' t actor data e db :
  announces p ty' t (uuid_String (ID d)) actor data e →
  let n := if bool_decide (ty' = ty) then 1%nat else 0%nat in
  (n + holds Q (Some d) ≤ held Q (ID d) db + given (ID d) g)%nat → (holds C (Some d) ≤ held C (ID d) db + n)%nat →
  accounts ty Q C g db (append_events [e] (put_row d db)).
Proof.
  intros He n. assert (tally ty (ID d) [e] = n) as Hn.
  { rewrite (tally_announced _ _ _ _ _ _ _ He). unfold n. by repeat case_bool_decide; try tauto. }
  rewrite <- Hn. apply accounts_put. intros k Hk. rewrite (tally_announced _ _ _ _ _ _ _ He). by rewrite bool_decide_false by naive_solver.
Qed.

(** A sweep: each row it changes comes with events about itself. *)
Lemma tally_concat (R : Delegation → list (Envelope EventData) → Prop) rows ess k :
  (∀ d es, R d es → ID d ≠ k → tally ty k es = 0%nat) → Forall2 R rows ess → NoDup (ID <$> rows) →
  (k ∉ ID <$> rows → tally ty k (concat ess) = 0%nat)
  ∧ (∀ d, d ∈ rows → ID d = k → ∃ es, R d es ∧ tally ty k (concat ess) = tally ty k es).
Proof.
  intros Hother. induction 1 as [|d es rows ess Hd _ IH]; intros Hnd; [by split; [|intros d ?%elem_of_nil]|].
  rewrite fmap_cons in Hnd. apply NoDup_cons in Hnd as [Hfresh Hnd]. destruct (IH Hnd) as [Hnone Hsome]. simpl.
  rewrite tally_app. split.
  - rewrite not_elem_of_cons. intros [Hne Hnin]. rewrite Hnone, (Hother d es) by first [done | congruence]. done.
  - intros x [->|Hx]%elem_of_cons Hk.
    + exists es. split; [done|]. rewrite Hnone; [lia|]. by rewrite <- Hk.
    + destruct (Hsome x Hx Hk) as (es' & ? & ->). exists es'. split; [done|]. rewrite (Hother d es); [done..|].
      intros <-. apply Hfresh. rewrite <- Hk. by apply list_elem_of_fmap_2.
Qed.

Lemma rows_where_NoDup Pw db : db_inv db → NoDup (ID <$> rows_where Pw db).
Proof.
  intros Hinv. unfold rows_where. rewrite <- list_fmap_compose.
  erewrite list_fmap_ext; [apply NoDup_fst_map_to_list|]. intros i [k d] Hi%list_elem_of_lookup_2. simpl.
  apply elem_of_map_to_list, map_lookup_filter_Some in Hi as [Hk _]. by apply (inv_row db Hinv) in Hk as [-> _].
Qed.

Lemma accounts_sweep Pw f (R : Delegation → list (Envelope EventData) → Prop) ess db :
  db_inv db → (∀ d, Pw d = true → ID (f d) = ID d) → Forall2 R (f <$> rows_where Pw db) ess →
  (∀ d es k, R d es → ID d ≠ k → tally ty k es = 0%nat) →
  (∀ d es, Pw d = true → R (f d) es →
     (tally ty (ID d) es + holds Q (Some (f d)) ≤ holds Q (Some d))%nat
     ∧ (holds C (Some (f d)) ≤ holds C (Some d) + tally ty (ID d) es)%nat) →
  accounts ty Q C [] db (append_events (concat ess) (replace_where Pw f db)).
Proof.
  intros Hinv Hid HF Hother Hrow. exists (concat ess). split; [done|].
  assert (ID <$> (f <$> rows_where Pw db) = ID <$> rows_where Pw db) as Hids.
  { rewrite <- list_fmap_compose. apply list_fmap_ext. intros j d Hj%list_elem_of_lookup_2.
    apply elem_of_rows_where in Hj as (? & _ & HP). by apply Hid. }
  assert (∀ k, (tally ty k (concat ess) + held Q k (replace_where Pw f db) ≤ held Q k db)%nat
    ∧ (held C k (replace_where Pw f db) ≤ held C k db + tally ty k (concat ess))%nat) as Hk;
    [|by split; intros k; destruct (Hk k); unfold given; simpl; [rewrite Nat.add_0_r|]].
  intros k. destruct (tally_concat R _ _ k (λ d es, Hother d es k) HF) as [Hnone Hsome];
    [rewrite Hids; by apply rows_where_NoDup|]. rewrite Hids in Hnone.
  assert ((∀ d, db_delegations db !! k = Some d → Pw d = false) → tally ty k (concat ess) = 0%nat) as Hout.
  { intros Hno. apply Hnone. intros (d & -> & Hd)%list_elem_of_fmap. apply elem_of_rows_where in Hd as (k' & Hk' & HP).
    rewrite (Hno d) in HP; [done|]. by destruct (inv_row db Hinv _ _ Hk') as [-> _]. }
  unfold held. simpl. rewrite lookup_fmap.
  destruct (db_delegations db !! k) as [d|] eqn:Hd; simpl; [|rewrite Hout by done; lia].
  destruct (Pw d) eqn:HP; [|rewrite Hout; [lia|by intros ? [= <-]]].
  destruct (inv_row db Hinv _ _ Hd) as [<- _]. destruct (Hsome (f d)) as (es & HR & ->); [|by apply Hid|].
  - apply list_elem_of_fmap_2, elem_of_rows_where. eauto.
  - by apply Hrow.
Qed.
End account.

(** *** Every action

    For a property of statuses: [q] is what an event of type [ty] uses up, [c]
    what it tells of. *)
Section by_status.
Context `{U : UuidLib} `{UL : !UuidLaws U} (p : Publisher) (ty : string) (q c : DelegationStatus → bool).
#[local] Abbreviation Q := (λ d, q (Status d)).
#[local] Abbreviation C := (λ d, c (Status d)).

Definition one (b : bool) : nat := if b then 1 else 0.
(** A row goes from status [s] to [s'] with an event of type [ty']. *)
Definition told (ty' : string) (s s' : DelegationStatus) : Prop :=
  let n := one (bool_decide (ty' = ty)) in (n + one (q s') ≤ one (q s))%nat ∧ (one (c s') ≤ one (c s) + n)%nat.

Lemma holds_live (F : DelegationStatus → bool) d : DeletedAt d = None → holds (λ d, F (Status d)) (Some d) = one (F (Status d)).
Proof. intros Hl. unfold holds. by rewrite bool_decide_true. Qed.
Lemma holds_deleted F d : DeletedAt d ≠ None → holds F (Some d) = 0%nat.
Proof. intros Hl. unfold holds. by rewrite bool_decide_false. Qed.
Lemma updated_columns tx f d : Status (updated_row tx f d) = Status (f d) ∧ DeletedAt (updated_row tx f d) = DeletedAt (f d).
Proof. unfold updated_row, touch_row. case_decide as Heq; [by rewrite <- Heq|done]. Qed.
Lemma holds_updated (F : DelegationStatus → bool) tx f d :
  holds (λ d, F (Status d)) (Some (updated_row tx f d)) = holds (λ d, F (Status d)) (Some (f d)).
Proof. unfold holds. by destruct (updated_columns tx f d) as [-> ->]. Qed.

Lemma accounts_update tx f d ty' t actor data e db :
  announces p ty' t (uuid_String (ID d)) actor data e → db_delegations db !! ID d = Some d →
  DeletedAt d = None → ID (f d) = ID d → DeletedAt (f d) = None → told ty' (Status d) (Status (f d)) →
  accounts ty Q C [] db (append_events [e] (put_row (updated_row tx f d) db)).
Proof.
  intros He Hd Hl Hid Hl' [Hpaid Htold]. assert (ID (updated_row tx f d) = ID d) as Hid' by by apply updated_row_id.
  eapply accounts_put_one; [by rewrite Hid'| |]; unfold held; rewrite Hid', Hd, holds_updated, !holds_live by done;
    unfold given, one in *; simpl in *; lia.
Qed.
Lemma accounts_step Qs f ty' data db db' :
  (∀ tx d, ID (f tx d) = ID d) → (∀ tx d, Qs d → DeletedAt d = None → DeletedAt (f tx d) = None) →
  (∀ tx d, Qs d → DeletedAt d = None → told ty' (Status d) (Status (f tx d))) →
  step_of p Qs f ty' data db db' → accounts ty Q C [] db db'.
Proof.
  intros Hid Hl Ht (d & Hd & Hld & HQ & tx & e & He & ->). by eapply accounts_update; eauto.
Qed.

(** A sweep that deletes what it changes. *)
Lemma accounts_retire Pw f (R : Delegation → list (Envelope EventData) → Prop) ess db :
  db_inv db → (∀ d, Pw d = true → ID (f d) = ID d ∧ DeletedAt (f d) ≠ None) → Forall2 R (f <$> rows_where Pw db) ess →
  (∀ d es k, R d es → ID d ≠ k → tally ty k es = 0%nat) →
  (∀ d es, Pw d = true → R (f d) es → (tally ty (ID d) es ≤ holds Q (Some d))%nat) →
  accounts ty Q C [] db (append_events (concat ess) (replace_where Pw f db)).
Proof.
  intros Hinv Hf HF Hother Hpaid. eapply accounts_sweep; [done|by intros; apply Hf|done..|].
  intros d es HP HR. destruct (Hf d HP) as [_ Hdel]. rewrite !(holds_deleted _ (f d)) by done.
  split; [rewrite Nat.add_0_r; by apply Hpaid|lia].
Qed.
End by_status.

(** What [ty], [q] and [c] have to do with each other. *)
Class Accountable (ty : string) (q c : DelegationStatus → bool) : Prop := {
  ac_scheduled : c DelegationScheduled = false;
  ac_granted : let n := one (bool_decide (EventDelegationStarted = ty)) in
    (n + one (q DelegationActive) ≤ 1)%nat ∧ (one (c DelegationActive) ≤ n)%nat;
  ac_started : told ty q c EventDelegationStarted DelegationScheduled DelegationActive;
  ac_ended : ∀ s s', open_status s = true → s' ∈ [DelegationEnded; DelegationCancelled] → told ty q c EventDelegationEnded s s';
  ac_warned : EventDelegationReviewRequested ≠ ty;
  ac_escalated : EventDelegationEscalationRequested ≠ ty;
}.
#[export] Instance ends_accountable : Accountable EventDelegationEnded open_status (λ s, negb (open_status s)).
Proof.
  split; try (vm_compute; (done || lia)). intros s s' Ho Hs'. unfold told. rewrite Ho, bool_decide_true by done.
  assert (open_status s' = false) as -> by (apply elem_of_cons in Hs' as [-> | ->%list_elem_of_singleton]; done). simpl. lia.
Qed.
#[export] Instance starts_accountable :
  Accountable EventDelegationStarted (λ s, bool_decide (s = DelegationScheduled)) (λ s, bool_decide (s = DelegationActive)).
Proof.
  split; try (vm_compute; (done || lia)). intros s s' _ Hs'. unfold told. rewrite (bool_decide_false (EventDelegationEnded = _)) by done.
  apply elem_of_cons in Hs' as [-> | ->%list_elem_of_singleton]; vm_compute; lia.
Qed.

Section each_action.
Context `{U : UuidLib} `{UL : !UuidLaws U} (p : Publisher) (ty : string) (q c : DelegationStatus → bool) `{!Accountable ty q c}.
#[local] Abbreviation Q := (λ d, q (Status d)).
#[local] Abbreviation C := (λ d, c (Status d)).

Lemma told_unchanged ty' s : ty' ≠ ty → told ty q c ty' s s.
Proof. intros Hne. unfold told. rewrite bool_decide_false by done. simpl. lia. Qed.

Lemma created_accounts t u req d db db' : created p t u req d db db' → accounts ty Q C [ID d] db db'.
Proof.
  intros (Hg & Hnew & Hdb). pose proof (g_fresh _ _ _ _ Hg) as (_ & Hl & _).
  destruct Hdb as [[Hs ->]|(Hs & e & He & ->)].
  - rewrite <- (no_events (put_row _ _)). apply accounts_put; [done| |]; unfold held; rewrite Hnew, holds_live, Hs by done.
    + rewrite given_self. simpl. by destruct (q _); simpl; lia.
    + rewrite ac_scheduled. simpl. lia.
  - destruct ac_granted as [Hpaid Htold]. eapply accounts_put_one; [exact He| |]; unfold held; rewrite Hnew, holds_live, Hs by done;
      rewrite ?given_self; unfold one in *; simpl in *; lia.
Qed.

Lemma told_ended s s' : open_status s = true → s' ∈ [DelegationEnded; DelegationCancelled] →
  (one (bool_decide (EventDelegationEnded = ty)) ≤ one (q s))%nat.
Proof. intros Ho Hs. destruct (ac_ended s s' Ho Hs) as [? _]. lia. Qed.

(** A removed user: the rows leave the API. *)
Lemma removed_accounts t u db db' : db_inv db → ended_for_user p t u db db' → accounts ty Q C [] db db'.
Proof.
  intros Hinv (tx & ess & HF & ->). apply (accounts_retire ty q c _ _ (removal_event p t u)); [done| |done| |].
  - intros d Hd. split; [by apply updated_row_id|]. unfold retired. by destruct (updated_columns tx (λ d, set_DeletedAt (Some (tx_now tx)) (set_Status DelegationEnded d)) d) as [_ ->].
  - intros d es k He Hk. unfold removal_event in He. case_bool_decide; [|by subst]. destruct He as (e & -> & He).
    rewrite (tally_announced _ _ _ _ _ _ _ _ _ He). by rewrite bool_decide_false by naive_solver.
  - intros d es Hd He. unfold removal_event in He. case_bool_decide; [|subst; unfold tally; simpl; lia]. destruct He as (e & -> & He).
    apply bool_decide_eq_true in Hd as (_ & _ & Ho & Hl). rewrite (tally_announced _ _ _ _ _ _ _ _ _ He), holds_live by done.
    unfold retired. rewrite updated_row_id by done. pose proof (told_ended (Status d) DelegationEnded Ho ltac:(by left)).
    unfold one in *. repeat case_bool_decide; try tauto; lia.
Qed.
(** A disabled delegate: each grant ends with two events, the end and the escalation. *)
Lemma disabled_accounts t u db db' : db_inv db → ended_for_disabled p t u db db' → accounts ty Q C [] db db'.
Proof.
  intros Hinv (tx & ess & HF & ->).
  assert (∀ d es k, disabled_events p t d es → tally ty k es = if bool_decide (EventDelegationEnded = ty ∧ ID d = k) then 1%nat else 0%nat) as Htally.
  { intros d es k (e1 & e2 & -> & H1 & H2). rewrite (tally_app ty k [e1] [e2]), (tally_announced _ _ _ _ _ _ _ _ _ H1), (tally_announced _ _ _ _ _ _ _ _ _ H2).
    pose proof ac_escalated. rewrite (bool_decide_false (EventDelegationEscalationRequested = ty ∧ _)) by tauto. lia. }
  apply (accounts_sweep ty Q C _ _ (disabled_events p t)); [done|intros; by apply updated_row_id|done| |].
  - intros d es k He Hk. rewrite (Htally _ _ _ He). by rewrite bool_decide_false by tauto.
  - intros d es Hd He. rewrite (Htally _ _ _ He). apply bool_decide_eq_true in Hd as (_ & _ & Ho & Hl).
    unfold ended in *. rewrite !holds_updated, !holds_live, updated_row_id by done.
    destruct (ac_ended (Status d) DelegationEnded Ho ltac:(by left)) as [Hpaid Htold]. cbn [Status set_Status].
    unfold one in *. repeat case_bool_decide; try tauto; lia.
Qed.

(** What leaves every row that is live as live and with its status gains nothing. *)
Lemma accounts_same db db' :
  db_outbox db' = db_outbox db →
  (∀ k, db_delegations db' !! k = db_delegations db !! k
        ∨ ∀ d, db_delegations db' !! k = Some d → DeletedAt d ≠ None) → accounts ty Q C [] db db'.
Proof.
  intros Ho Hk. apply accounts_quiet; [done|]. intros k. unfold held. destruct (Hk k) as [->|Hdel]; [done|].
  destruct (db_delegations db' !! k) as [d|] eqn:Hd; [|simpl; lia]. rewrite !holds_deleted by auto. lia.
Qed.

Lemma action_accounts clk g db db' : db_inv db → action p clk g db db' → accounts ty Q C g db db'.
Proof.
  intros Hinv Ha. destruct Ha as [t u req d db db' H|t i v reason actor d' db db' _ H|t i v n d d' db db' Hn H|now db db' _ H
    |now db db' _ H|now db db' _ H|now db db' _ H|t u db db' H|t u db db' H|t db db' H|t s db Ht Hs|id name now db|rows db H|db db' H].
  - by eapply created_accounts.
  - destruct H as (tx & d & e & (Hd & Ht & Hl) & Hv & Ho & -> & He & ->).
    pose proof (inv_row db Hinv i d Hd) as [<- _].
    eapply (accounts_update p); [exact He|done..|]. apply ac_ended; [done|]. by right; left.
  - destruct H as (tx & (Hd & Ht & Hl) & Hv & Hs & He & -> & ->). pose proof (inv_row db Hinv i d Hd) as [<- _].
    rewrite <- (no_events (put_row _ _)). apply accounts_put; [done| |]; rewrite updated_row_id by done; unfold held;
      rewrite Hd, holds_updated, !holds_live by done; unfold tally; simpl; lia.
  - revert H. apply accounts_step; [done|done|]. intros tx d (_ & ->)%startable_open _. apply ac_started.
  - revert H. apply accounts_step; [done|done|]. intros tx d (_ & Ho)%expired_open _. apply ac_ended; [done|by left].
  - destruct H as (days & _ & H). revert H. apply accounts_step; [done|done|]. intros tx d _ _. apply told_unchanged, ac_warned.
  - revert H. apply accounts_step; [done|done|]. intros tx d (_ & Ho)%overdue_open _. apply ac_ended; [done|by left].
  - by eapply removed_accounts.
  - by eapply disabled_accounts.
  - destruct H as (tx & ->). apply accounts_same; [done|]. intros k. simpl. rewrite lookup_fmap.
    destruct (db_delegations db !! k) as [d|]; [|by left]. simpl. destruct (live_in t d); [|by left]. right. intros ? [= <-].
    unfold scrubbed. by destruct (updated_columns tx (set_DeletedAt (Some (tx_now tx))) d) as [_ ->].
  - apply accounts_same; [done|by left].
  - unfold mark. case_match; (apply accounts_same; [done|by left]).
  - apply accounts_same; [done|]. intros k. simpl. rewrite foldr_delete_lookup. case_bool_decide; [by right|by left].
  - destruct H as (Hd & _ & Ho & _). apply accounts_same; [done|]. left. by rewrite Hd.
Qed.

Lemma acts_account clk g db db' : db_inv db → acts p clk g db db' → accounts ty Q C g db db'.
Proof.
  intros Hinv Hg. induction Hg as [db|g1 g2 a b c' Ha _ IH]; [by apply accounts_same; [|left]|].
  eapply accounts_trans; [by eapply action_accounts|]. apply IH. by destruct (action_grows p _ _ _ _ Ha Hinv).
Qed.
End each_action.
