(* ===== verification/BackgroundSpec.v ===== *)
(** * What the consumer and the cron jobs of the wired program do *)
From S2P Require Import Prelude GoLib Domain World Store StoreFacts MetricsRec EventBus EventSchema HttpClients Postgres Contracts StoreSpec PostgresSpec DelegationService CascadeService Consumer Jobs FloatFacts SchemaSpec ServiceFacts DelegationSpec CascadeSpec ConsumerSpec JobSpec Config System SystemFacts SystemSpec.
Local Open Scope string_scope.
Local Open Scope Z_scope.

(** The side conditions of a cascade called with the tenant bound. *)
Ltac bound_call := first [apply _ | eassumption | by apply sees_bound].

Section consumer.
Context `{E : Env} `{P : PgCommon} `{U : UuidLib} `{PL : !PgCommonLaws E P U} `{T : TimeText} `{UL : !UuidLaws U}.
Context `{F : Formats} `{SL : !SchemaLaws E U F} `{LO : !LawfulOthers E}.
Context (env : Environ) (upURL : string).
#[local] Abbreviation consumer := (cascadeConsumer env upURL).

(** A cascade in a transaction of its own: all of its effect on the tables the
    transaction began on, or, when the database fails it, none. *)
Definition cascades (effect : Db → Db → Prop) (d0 : Db) (r : result goerror unit) (d1 : Db) : Prop :=
  match r with
  | Ok _ => ∃ db, meanwhile d0 db ∧ effect db d1
  | Err _ => meanwhile d0 d1 ∧ ¬ healthy_db
  end.
Lemma cascaded_cascades ctx effect w r w' :
  ctx_tx ctx = None → cascaded ctx effect w r w' → cascades effect (w_db w) r (w_db w').
Proof using SL P.
  intros Htx (db & Hb%begins_on_meanwhile & H). destruct r as [[]|e]; [by exists db|].
  destruct H as [Hw Hr]. split; [by rewrite (Hw Htx)|by intros ?%healthy_reliable].
Qed.

(** C14. When a user's membership is removed, in one transaction every open, live
    delegation the user gives or receives in that tenant ends and leaves the API,
    all other rows stay as they are, and for each of those in which the user was
    the delegate, and only those, one DelegationEnded (delegate_removed) is in
    the outbox, in row order.  It fails only when the
    database does, and then nothing of it happens. *)
Theorem membership_removed ctx t u w :
  outermost outboxPublisher ctx → db_inv (w_db w) →
  wp (Cascade.EndForUser (cascadeServiceImpl upURL) (WithTenantGUC ctx t "iam-system") t u) (λ r w',
    cascades (ended_for_user outboxPublisher t u) (w_db w) r (w_db w')) w.
Proof.
  intros [Htx Hpub] Hinv. eapply wp_mono; [apply (wp_EndForUser AppRole outboxPublisher); bound_call|].
  intros r w'. by apply cascaded_cascades.
Qed.

(** C15. When a delegate's account is disabled, in one transaction every open, live
    delegation to that user in the tenant ends, and for each, in row order, a
    DelegationEnded (delegate_disabled) and then a DelegationEscalationRequested
    are in the outbox; nothing else changes.  It fails only when the database
    does, and then nothing changes. *)
Theorem delegate_disabled ctx t u w :
  outermost outboxPublisher ctx → db_inv (w_db w) →
  wp (Cascade.EndForDisabledDelegate (cascadeServiceImpl upURL) (WithTenantGUC ctx t "iam-system") t u) (λ r w',
    cascades (ended_for_disabled outboxPublisher t u) (w_db w) r (w_db w')) w.
Proof.
  intros [Htx Hpub] Hinv. eapply wp_mono; [apply (wp_EndForDisabledDelegate AppRole outboxPublisher); bound_call|].
  intros r w'. by apply cascaded_cascades.
Qed.

(** A scrubbed tenant has no live delegation and no policy of its own. *)
Definition offboarded (t : uuid) (db db' : Db) : Prop :=
  tenant_scrubbed t db db'
  ∧ (∀ k d, db_delegations db' !! k = Some d → TenantID d = t → DeletedAt d ≠ None)
  ∧ db_settings db' !! t = None.
Lemma scrubbed_offboarded t db db' : tenant_scrubbed t db db' → offboarded t db db'.
Proof.
  intros [tx Hdb]. split; [by exists tx|]. rewrite Hdb. simpl. split; [|by rewrite lookup_partial_alter_eq].
  intros k d. rewrite lookup_fmap. destruct (db_delegations db !! k) as [d0|]; [|done]. simpl. intros [= <-].
  destruct (live_in t d0) eqn:Hl.
  - intros _. unfold scrubbed, updated_row, touch_row. case_decide; done.
  - intros Ht Hdel. unfold live_in in Hl. apply bool_decide_eq_false in Hl. tauto.
Qed.

(** C16. Offboarding a tenant soft-deletes all its live delegations and drops its
    policy in one transaction, publishes nothing, touches no other tenant's rows,
    and fails only when the database does, and then does nothing. *)
Theorem tenant_offboarded ctx t w :
  outermost outboxPublisher ctx → db_inv (w_db w) →
  wp (Cascade.ScrubTenant (cascadeServiceImpl upURL) (WithTenantGUC ctx t "iam-system") t) (λ r w',
    cascades (offboarded t) (w_db w) r (w_db w')) w.
Proof.
  intros [Htx Hpub] Hinv. eapply wp_mono; [apply (wp_ScrubTenant AppRole outboxPublisher); bound_call|].
  intros r w' H%cascaded_cascades; [|done]. destruct r; [|done]. destruct H as (db & Hm & Hs).
  exists db. split; [done|by apply scrubbed_offboarded].
Qed.

(** C17. A delivery of the cascade queue takes effect together with the mark that
    records it, or not at all, whatever transactions of others commit in between.  For a message of
    a known type with a proper id: if it is acknowledged, either it was found
    recorded and nothing changed, or it was found not to be, and the tables its
    transaction began on went through the
    requested effect and the recording of the id, together; if it is refused (and
    so redelivered), nothing changed, and the message is malformed (rejected by
    the validator, undecodable, or a disabled user without a tenant) or the
    database failed: with a healthy database every proper message is served. *)
Theorem delivered_once msg id w :
  db_inv (w_db w) → uuid_Parse (env_ID msg) = Some id → id ≠ uuid_Nil → dispatched (env_Type msg) = true →
  wp (Handle consumer background msg) (λ r w',
    once (uuid_String id) (recorded_as msg) (requested outboxPublisher msg)
      (serviceable consumer msg = true → ¬ healthy_db) (w_db w) r (w_db w')) w.
Proof.
  intros Hinv Hid Hnil Hty. eapply wp_mono.
  - apply (wp_Handle_known AppRole outboxPublisher); [apply _|split; [done|by left]|done..].
  - intros r w'. apply once_mono; [done|]. intros Hr Hs ?%healthy_reliable. by apply Hr.
Qed.

(** What the consumed schemas accept the consumer can decode: a message of a known
    type that passes the validator, with member names that are exact and not
    repeated, is serviceable (a user update needs the tenant of the envelope). *)
Theorem accepted_message_serviceable msg :
  dispatched (env_Type msg) = true → valid_payload consumer msg = true → plain_names (env_Payload msg) = true →
  (env_Type msg = EventUserUpdated → uuid_Parse (env_TenantID msg) ≠ None) →
  serviceable consumer msg = true.
Proof.
  unfold serviceable. intros Hty Hv Hp Htenant. rewrite Hv. unfold decodes, valid_payload in *. simpl in *.
  apply bool_decide_eq_true in Hty. unfold ConsumedValidator_Validate in Hv.
  rewrite bool_decide_true in Hv by (revert Hty; set_solver).
  destruct (env_consumed_schema (env_Type msg) (env_Payload msg)) eqn:Hs; [done|]. clear Hv.
  destruct (bool_decide (env_Type msg = EventMembershipRevoked)) eqn:H1.
  { apply bool_decide_eq_true in H1. rewrite H1 in Hs. apply (consumed_decided _ document.MembershipRevoked) in Hs; [|done].
    apply bool_decide_eq_true, not_eq_None_Some. by apply revoked_decodes. }
  destruct (bool_decide (env_Type msg = EventTenantMembershipsPurged)) eqn:H2.
  { apply bool_decide_eq_true in H2. rewrite H2 in Hs. apply (consumed_decided _ document.TenantMembershipsPurged) in Hs; [|done].
    apply bool_decide_eq_true, not_eq_None_Some. by apply purged_decodes. }
  assert (env_Type msg = EventUserUpdated) as H3 by (apply bool_decide_eq_false in H1, H2; set_solver).
  rewrite H3 in Hs. apply (consumed_decided _ document.UserUpdated) in Hs; [|done].
  destruct (unmarshal_UserUpdated (env_Payload msg)) as [q|] eqn:Hq; [|by apply updated_decodes in Hq].
  case_match; [|done]. by apply bool_decide_eq_true, not_eq_None_Some, Htenant.
Qed.

(** C18. Once a message was acknowledged, delivering it again changes nothing,
    however often and whatever others commit meanwhile, as long as the ledger
    keeps its mark. *)
Theorem redelivery_changes_nothing msg id w w1 w2 :
  db_inv (w_db w) → db_inv (w_db w2) →
  uuid_Parse (env_ID msg) = Some id → id ≠ uuid_Nil → dispatched (env_Type msg) = true →
  Handle consumer background msg w = (Ok tt, w1) →
  (∀ k db, meanwhile (w_db w2) db → is_Some (db_processed (w_db w1) !! k) → is_Some (db_processed db !! k)) →
  meanwhile (w_db w2) (w_db (Handle consumer background msg w2).2).
Proof.
  intros Hinv Hinv2 Hid Hnil Hty Hfirst Hkeep.
  assert (is_marked (w_db w1) (uuid_String id) (recorded_as msg)) as Hmark.
  { pose proof (wp_run _ _ _ _ _ (wp_Handle_known AppRole outboxPublisher consumer background msg id w
      (conj eq_refl (or_introl eq_refl)) Hinv Hid Hnil Hty) Hfirst) as [[_ Hm]|(seen & db & mid & now & _ & _ & _ & _ & ->)]; [done|].
    unfold mark, is_marked. destruct (db_processed mid !! _) eqn:Hp; [by rewrite Hp|].
    simpl. by rewrite lookup_insert_eq. }
  pose proof (wp_Handle_known AppRole outboxPublisher consumer background msg id w2
    (conj eq_refl (or_introl eq_refl)) Hinv2 Hid Hnil Hty) as H2. unfold wp, once in H2.
  destruct (Handle consumer background msg w2) as [[[]|e] w3]; simpl in *; [|by destruct H2].
  destruct H2 as [[? _]|(seen & _ & _ & _ & Hm & Hno & _)]; [done|]. exfalso. apply Hno. by eapply Hkeep.
Qed.

(** A message whose envelope id is not a UUID, or is the nil one, is acknowledged
    without any effect on the tables: it could not be deduplicated. *)
Theorem unidentified_message_dropped msg w :
  (uuid_Parse (env_ID msg) = None ∨ uuid_Parse (env_ID msg) = Some uuid_Nil) →
  (Handle consumer background msg w).1 = Ok tt ∧ w_db (Handle consumer background msg w).2 = w_db w.
Proof.
  intros Hid. enough (wp (Handle consumer background msg) (λ r w', r = Ok tt ∧ w_db w' = w_db w) w) as Hw by exact Hw.
  unfold Handle. apply wp_advisory; [apply _|]. intros w1 Hdb1.
  destruct Hid as [-> | ->]; [by apply wp_ret|]. rewrite bool_decide_true by done. by apply wp_ret.
Qed.
End consumer.

(** ** The cron jobs of cmd/reconciler *)
Lemma background_outermost : outermost outboxPublisher background.
Proof. split; [done|by left]. Qed.

(** *** What the jobs achieve when nothing hinders them *)
Section drains.
Context `{E : Env} `{P : PgCommon} `{U : UuidLib} `{PL : !PgCommonLaws E P U} `{T : TimeText} `{UL : !UuidLaws U}.
Context `{F : Formats} `{SL : !SchemaLaws E U F} `{AL : !Alone E}.
Context (env : Environ) (url : string) (batch retention ttl : Z).
#[local] Abbreviation jctx := (reconciler_jctx env url batch retention ttl).

(** Every HTTP request is answered, with a 2xx status. *)
Definition peers_accept : Prop :=
  (∀ u, env_url_ok u = true) ∧ (∀ n r, ∃ status body, env_http n r = HttpResponded status body ∧ 200 ≤ status < 300).

Lemma command_accepted s e req w :
  peers_accept → is_ok (instrumented s e (resp ← Do "userprofile" req; UserProfile.command_answer resp) w).1 = true.
Proof.
  intros [Hurl Hhttp]. enough (wp (resp ← Do "userprofile" req; UserProfile.command_answer resp) (λ r _, r = Ok tt) w) as Hc.
  { change (wp (instrumented s e (resp ← Do "userprofile" req; UserProfile.command_answer resp)) (λ r _, is_ok r = true) w).
    unfold instrumented. apply wp_bind, wp_try. eapply wp_mono; [exact Hc|]. intros r w1 ->. by apply wp_bind, wp_ret, wp_of_result. }
  apply wp_bind. unfold Do. rewrite Hurl. simpl. apply wp_intro. simpl.
  destruct (Hhttp (w_step w) req) as (status & body & -> & Hs). unfold wp, UserProfile.command_answer. cbn [fst snd].
  assert ((200 <=? status) && (status <? 300) = true) as Hok; [|by rewrite Hok].
  rewrite andb_true_iff, Z.leb_le, Z.ltb_lt. lia.
Qed.

Lemma clear_accepted ctx t u w : peers_accept → is_ok (up_ClearDelegatePointer (UserProfile.client url) ctx t u w).1 = true.
Proof. apply command_accepted. Qed.
Lemma set_accepted ctx req w : peers_accept → is_ok (up_SetAvailability (UserProfile.client url) ctx req w).1 = true.
Proof. cbn [up_SetAvailability UserProfile.client]. unfold UserProfile.SetAvailability, UserProfile.setAvailability. apply command_accepted. Qed.

Lemma system_sees : unset env "SYSTEM_DATABASE_URL" = false →
  ∀ tx d, eff_tx (sysPool env) background tx → rls_check_tenant tx (TenantID d) = true.
Proof.
  intros Hset tx d Heff. unfold sysPool in Heff. rewrite Hset in Heff. destruct Heff as [Hr _].
  unfold rls_check_tenant. by rewrite Hr.
Qed.

Lemma job_unhindered ty data d :
  healthy_db → ty = type_of data → payload_ok data = true → unhindered AppRole jctx background ty data d.
Proof. intros Hh -> Hok. split; [done|]. split; [done|]. split; [by apply sees_bound|by apply encodable]. Qed.

(** What a job that nothing hinders reports: everything it picked was done, and
    below the batch limit nothing is left. *)
Definition drained_by (step : relation Db) (Pw : Delegation → bool) (r : result goerror Result) (db db' : Db) : Prop :=
  ∃ res n, r = Ok res ∧ nsteps step n db db' ∧ Attempted res = Z.of_nat n ∧ Succeeded res = Z.of_nat n
    ∧ Failed res = 0 ∧ Deferred res = 0
    ∧ ((n < batch_limit jctx)%nat → ∀ k d, db_delegations db' !! k = Some d → Pw d = false).

Lemma drains_result f ty data Pw r db db' :
  (∀ tx d, ID (f tx d) = ID d) → (∀ tx d, Pw d = true → Pw (updated_row tx (f tx) d) = false) →
  let step := step_of outboxPublisher (λ d, Pw d = true) f ty data in
  attempts_result True step Pw (batch_limit jctx) db r db' → drained_by step Pw r db db'.
Proof.
  intros Hid Hout step. destruct r as [res|e]; [|by intros [_ []]]. intros (n & Hn & ? & ? & ? & ? & ? & Hfine).
  destruct (Hfine I) as (Hinv & Hs & Ha & Hleft). exists res, n. split; [done|]. split; [by apply among_alone|]. do 2 (split; [lia|]). do 2 (split; [lia|]).
  intros Hlt. eapply drained; eauto using among_alone.
Qed.

Lemma expiry_drains w :
  healthy_db → peers_accept → unset env "SYSTEM_DATABASE_URL" = false → db_inv (w_db w) →
  let now := env_clock (w_step w) in
  wp (Expiry jctx background) (λ r w',
    drained_by (expire_step outboxPublisher now) (expired_at now) r (w_db w) (w_db w')) w.
Proof.
  intros Hh Hpeers Hset Hinv now. eapply wp_mono.
  { apply (wp_Expiry (sysPool env) AppRole outboxPublisher _ True); [apply background_outermost|done|].
    intros _. split; [done|]. split; [done|]. split; [by apply system_sees|]. split; [intros; by apply command_accepted|].
    intros d Hd _. apply job_unhindered; [done|done|]. apply payload_ended_event; [by apply (inv_row _ Hinv _ _ Hd)|by left]. }
  intros r w' Hr. apply drains_result; [done| |exact Hr].
  intros tx d _. unfold expired_at, updated_row, touch_row. apply andb_false_intro2, bool_decide_eq_false.
  case_decide as Heq; [|by intros [? _]]. rewrite Heq. by intros [? _].
Qed.

Lemma activation_drains w :
  healthy_db → peers_accept → unset env "SYSTEM_DATABASE_URL" = false → db_inv (w_db w) →
  let now := env_clock (w_step w) in
  (∀ k d, db_delegations (w_db w) !! k = Some d → startable_at now d = true → dates_ok d = true) →
  wp (Activation jctx background) (λ r w',
    drained_by (start_step outboxPublisher now) (startable_at now) r (w_db w) (w_db w')) w.
Proof.
  intros Hh Hpeers Hset Hinv now Hdates. eapply wp_mono.
  { apply (wp_Activation (sysPool env) AppRole outboxPublisher _ True); [apply background_outermost|done|].
    intros _. split; [done|]. split; [done|]. split; [by apply system_sees|]. split; [intros req w1; exact (set_accepted _ _ _ Hpeers)|].
    intros d Hd Hst. apply job_unhindered; [done|done|].
    apply payload_started; [by apply (inv_row _ Hinv _ _ Hd)|by eapply Hdates]. }
  intros r w' Hr. apply drains_result; [done| |exact Hr].
  intros tx d _. unfold startable_at, updated_row, touch_row. apply andb_false_intro2, bool_decide_eq_false.
  case_decide as Heq; [|by intros [? _]]. rewrite Heq. by intros [? _].
Qed.
End drains.

Section jobs.
Context `{E : Env} `{P : PgCommon} `{U : UuidLib} `{PL : !PgCommonLaws E P U} `{T : TimeText} `{UL : !UuidLaws U}.
Context `{F : Formats} `{SL : !SchemaLaws E U F} `{LO : !LawfulOthers E} `{UI : !UniqueIds E}.
Context (env : Environ) (url : string) (batch retention ttl : Z).
#[local] Abbreviation jctx := (reconciler_jctx env url batch retention ttl).

(** The counters of a job that moved the tables by [n] steps. *)
Definition attempts_ok (step : relation Db) (limit : nat) (r : result goerror Result) (db db' : Db) : Prop :=
  match r with
  | Ok res => ∃ n, among step n db db'
      ∧ 0 ≤ Succeeded res ≤ Z.of_nat n ∧ 0 ≤ Failed res ∧ 0 ≤ Deferred res
      ∧ Z.of_nat n + Failed res + Deferred res ≤ Attempted res
      ∧ Attempted res ≤ Z.of_nat limit
  | Err _ => meanwhile db db'
  end.
Lemma attempts_safe fine step Pw limit db r db' : attempts_result fine step Pw limit db r db' → attempts_ok step limit r db db'.
Proof. destruct r as [res|e]; [|by intros [? _]]. intros (n & ? & ? & ? & ? & ? & ? & _). by exists n. Qed.

(** C19. The expiry job only ever ends delegations that are active, live and past
    their end, as it read them, never a row another transaction has changed since:
    among the commits of others it moves the tables by [n] such steps, each with its
    DelegationEnded (expired) event; it picks at most the batch limit of rows and
    reports no more successes than it made, the failed and the deferred ones
    apart; if it cannot read its batch nothing changes.  And while nobody else is
    at work, the database and User Profile answer and the system pool is configured, it ends every one
    it picks, and after a run below the batch limit no delegation of any tenant
    is active past its end. *)
Theorem expiry_job w :
  db_inv (w_db w) →
  let now := env_clock (w_step w) in
  let step := expire_step outboxPublisher now in
  wp (Expiry jctx background) (λ r w',
    attempts_ok step (batch_limit jctx) r (w_db w) (w_db w')
    ∧ (Alone E → healthy_db → peers_accept → unset env "SYSTEM_DATABASE_URL" = false →
       drained_by env url batch retention ttl step (expired_at now) r (w_db w) (w_db w'))) w.
Proof.
  intros Hinv now step. apply wp_and.
  - eapply wp_mono; [by apply (wp_Expiry (sysPool env) AppRole outboxPublisher _ False);
      first [apply background_outermost | done | apply _]|].
    intros r w'. apply attempts_safe.
  - unfold wp. intros Hal Hh Hp Hset. by apply expiry_drains.
Qed.

(** C20. The activation job only ever starts scheduled, live delegations whose start
    has come, as it read them, each with its DelegationStarted event, at most a
    batch of them, whatever others commit in between; and while nobody else is at
    work, the database and User Profile answer, the system pool is configured and
    the dates of the due ones can be written in JSON, it starts every one it
    picks, and after a run below the batch limit none whose start has come is
    still scheduled. *)
Theorem activation_job w :
  db_inv (w_db w) →
  let now := env_clock (w_step w) in
  let step := start_step outboxPublisher now in
  wp (Activation jctx background) (λ r w',
    attempts_ok step (batch_limit jctx) r (w_db w) (w_db w')
    ∧ (Alone E → healthy_db → peers_accept → unset env "SYSTEM_DATABASE_URL" = false →
       (∀ k d, db_delegations (w_db w) !! k = Some d → startable_at now d = true → dates_ok d = true) →
       drained_by env url batch retention ttl step (startable_at now) r (w_db w) (w_db w'))) w.
Proof.
  intros Hinv now step. apply wp_and.
  - eapply wp_mono; [by apply (wp_Activation (sysPool env) AppRole outboxPublisher _ False);
      first [apply background_outermost | done | apply _]|].
    intros r w'. apply attempts_safe.
  - unfold wp. intros Hal Hh Hp Hset Hdates. by apply activation_drains.
Qed.

(** C21. The review sweep first warns and then ends, whatever others commit in
    between.  A warning goes to an active,
    open-ended delegation whose deadline is at most three days off, carries the
    exact number of days left, and never repeats the bucket the row was last
    warned for; a delegation is ended only when its deadline has passed.  Each
    step publishes its one event, and the counters never exceed the steps. *)
Theorem review_job w :
  db_inv (w_db w) →
  let now := env_clock (w_step w) in
  wp (ReviewSweep jctx background) (λ r w', ∃ n mid, among (warn_step outboxPublisher now) n (w_db w) mid ∧
    match r with
    | Ok res => ∃ m, among (lapse_step outboxPublisher now) m mid (w_db w')
        ∧ Warned3d res + Warned2d res + Warned1d res ≤ Z.of_nat (n + m)
        ∧ Warned3d res + Warned2d res + Warned1d res + Expired res ≤ Z.of_nat (n + m)
        ∧ 0 ≤ Failed res ∧ 0 ≤ Deferred res
        ∧ Z.of_nat (n + m) + Failed res + Deferred res ≤ Z.of_nat (2 * batch_limit jctx)
    | Err _ => w_db w' = mid
    end) w.
Proof. intros Hinv. apply (wp_ReviewSweep (sysPool env) AppRole outboxPublisher); first [apply background_outermost | done | apply _]. Qed.

(** C22. The cleanup job removes only delegations that were soft-deleted longer ago
    than the retention, at most a batch of them, and reports how many; the dedup
    ledger only loses entries; whatever happens to its pruning, policies and the
    outbox are left alone, and others may commit before either of the two. *)
Theorem cleanup_job w :
  db_inv (w_db w) →
  let now := env_clock (w_step w) in
  wp (Cleanup jctx background) (λ r w',
    match r with
    | Ok res => ∃ db (rows : list Delegation) pruning, meanwhile (w_db w) db
        ∧ (∀ d, d ∈ rows → db_delegations db !! ID d = Some d
                         ∧ ∃ t, DeletedAt d = Some t ∧ t < cutoff jctx now)
        ∧ (length rows ≤ batch_limit jctx)%nat ∧ Purged res = Z.of_nat (length rows)
        ∧ meanwhile (remove_rows (ID <$> rows) db) pruning ∧ ledger_pruned pruning (w_db w')
    | Err _ => meanwhile (w_db w) (w_db w')
    end) w.
Proof.
  intros Hinv now. eapply wp_mono; [by apply (wp_Cleanup (sysPool env) AppRole outboxPublisher); first [done | apply _]|].
  intros [res|e] w' H; [|done]. destruct H as (db & rows & pruning & Hm & [Hrows Hlen] & H).
  by exists db, rows, pruning.
Qed.

(** *** User Profile unreachable *)
Lemma clear_fails (Hdown : ∀ n r, ∃ e, env_http n r = HttpFailed e) ctx t u w :
  is_ok (up_ClearDelegatePointer (UserProfile.client url) ctx t u w).1 = false.
Proof.
  enough (wp (UserProfile.clearDelegatePointer url t u) (λ r _, is_ok r = false) w) as Hc.
  { change (wp (instrumented "user_profile" "clear_delegate_pointer" (UserProfile.clearDelegatePointer url t u))
      (λ r _, is_ok r = false) w). unfold instrumented. apply wp_bind, wp_try. eapply wp_mono; [exact Hc|].
    intros [a|e] w1; [done|]. intros _. apply wp_bind, wp_intro. by destruct (IncDependencyError _ _ _ w1).1. }
  unfold UserProfile.clearDelegatePointer. apply wp_bind. unfold Do. destruct (negb _); [done|]. apply wp_intro.
  simpl. destruct (Hdown (w_step w) (mkHttpRequest "DELETE"
    (url ++ "/api/v1/internal/users/" ++ uuid_String u ++ "/availability/delegate")
    (UserProfile.setInternalHeaders t) None)) as [e He].
  by rewrite He.
Qed.

(** Availability first: while User Profile cannot be reached the expiry job ends
    nothing; every row it picks is deferred to a later run and counted so. *)
Theorem expiry_defers_without_user_profile w :
  (∀ n r, ∃ e, env_http n r = HttpFailed e) → db_inv (w_db w) →
  wp (Expiry jctx background) (λ r w', meanwhile (w_db w) (w_db w') ∧
    match r with
    | Ok res => Deferred res = Attempted res ∧ Succeeded res = 0 ∧ Failed res = 0
    | Err _ => True
    end) w.
Proof.
  intros Hdown Hinv. unfold Expiry. apply wp_bind, wp_intro. simpl. apply wp_bind.
  eapply wp_mono; [apply (rc_ListExpiringBefore (sysPool env) (r:=delegationRepoSys env)); done|].
  intros [l|e] w1 (db & Hm%begins_on_meanwhile & <- & _); [|done]. simpl in Hm.
  apply (wp_fold_each _ _ _ (λ _ res w2, meanwhile (w_db w) (w_db w2) ∧ Deferred res = Attempted res ∧ Succeeded res = 0 ∧ Failed res = 0));
    [done| |by intros].
  intros pre d post res w2 _ (Hdb2 & Hd & Hs & Hf).
  eapply wp_mono; [apply (deferred_expiry (sysPool env) AppRole outboxPublisher)|].
  - apply _.
  - intros t u w3. by apply clear_fails.
  - intros r w3 [Hdb3 ->]. simpl. rewrite Hdb3. split; [done|]. lia.
Qed.
End jobs.

(** ** The system pool *)
Section fallback.
Context `{E : Env} `{P : PgCommon} `{U : UuidLib} `{PL : !PgCommonLaws E P U} `{T : TimeText} `{LO : !LawfulOthers E}.
Context (env : Environ) (url : string) (batch retention ttl : Z).
#[local] Abbreviation jctx := (reconciler_jctx env url batch retention ttl).

(** Without SYSTEM_DATABASE_URL the jobs read as the application role with no
    tenant bound: row-level security hides every row, the job succeeds, having
    found nothing and done nothing. *)
Theorem expiry_blind_without_system_pool w :
  unset env "SYSTEM_DATABASE_URL" = true → db_inv (w_db w) →
  wp (Expiry jctx background) (λ r w', meanwhile (w_db w) (w_db w') ∧
    match r with Ok res => res = zeroResult | Err _ => True end) w.
Proof.
  intros Hun Hinv. unfold Expiry. apply wp_bind, wp_intro. simpl. apply wp_bind.
  eapply wp_mono; [apply (rc_ListExpiringBefore (sysPool env) (r:=delegationRepoSys env)); done|].
  intros [l|e] w1 (db & Hm%begins_on_meanwhile & <- & Hb); [|done]. simpl in Hm.
  destruct Hb as (tx & Htx & Hb). assert (l = []) as ->; [|by apply wp_ret].
  destruct l as [|d l]; [done|]. exfalso.
  destruct (b_rows _ _ _ _ _ _ Hb d ltac:(left)) as [_ Hs].
  unfold sysPool in Htx. rewrite Hun in Htx. destruct Htx as [Hr Ht]. simpl in Ht.
  unfold selected, rls_check_tenant in Hs. by rewrite Hr, Ht in Hs.
Qed.
End fallback.
