(* ===== verification/Refinement.v ===== *)
(** * The running system refines the trace of actions

    Every request, delivery, job and gauge tick of the wired program moves the
    tables by actions of [Actions] only, whatever fails and whatever others, who
    are assumed to do no more than that, commit in between. *)
From S2P Require Import Prelude GoLib Domain World Store StoreFacts MetricsRec Valkey EventBus EventSchema HttpClients Postgres Contracts PostgresFacts StoreSpec PostgresSpec ClientFacts DelegationService CascadeService Consumer Jobs Http SchemaSpec ServiceFacts DelegationSpec CascadeSpec ConsumerSpec JobSpec Actions Config System SystemFacts SystemSpec BackgroundSpec.
Local Open Scope Z_scope.
Local Open Scope string_scope.

Section refinement.
Context `{E : Env} `{P : PgCommon} `{U : UuidLib} `{PL : !PgCommonLaws E P U} `{T : TimeText} `{UL : !UuidLaws U}.
Context `{CL : !SaneClock E} `{UI : !UniqueIds E}.
(** [clk] has every time this process or another one reads. *)
Context (clk : Time → Prop) (Hclk : ∀ n, clk (env_clock n)) `{RO : !OthersWithin E (refines outboxPublisher clk)}.
Context (env : Environ) (upURL omURL : string) (caURL : option string).
#[local] Abbreviation R := (refines outboxPublisher clk).
#[local] Abbreviation acted := (acted outboxPublisher clk).

#[local] Instance refines_preorder : PreOrder R.
Proof. unfold refines. apply _. Qed.
Lemma refines_grow d d' : R d d' → grows d d'.
Proof. intros Hr Hd. destruct (Hr Hd) as [_ Ha]. by apply (acted_grows outboxPublisher clk). Qed.
#[local] Instance others_grow : LawfulOthers E.
Proof. intros n d. apply refines_grow, RO. Qed.

Lemma meanwhile_refines d d' : meanwhile d d' → R d d'.
Proof. apply meanwhile_within; apply _. Qed.
Lemma meanwhile_acted d d' : db_inv d → meanwhile d d' → acted d d'.
Proof. intros Hd Hm. by destruct (meanwhile_refines _ _ Hm Hd). Qed.

(** [meanwhile], then one action. *)
Lemma acted_then g d0 d d' : db_inv d0 → meanwhile d0 d → action outboxPublisher clk g d d' → acted d0 d'.
Proof. intros Hd Hm Ha. etransitivity; [by apply meanwhile_acted|by eapply acted_once]. Qed.
Lemma among_acted (step : relation Db) n d d' :
  (∀ a b, step a b → action outboxPublisher clk [] a b) → db_inv d → among step n d d' → acted d d' ∧ db_inv d'.
Proof.
  intros Hs Hd (m & Hn & Hm). enough (acted d m ∧ db_inv m) as [Ha Hinv].
  { split; [etransitivity; [done|by apply meanwhile_acted]|by destruct (meanwhile_refines _ _ Hm)]. }
  clear Hm. induction Hn as [d|n d1 d2 d3 (b & Hb & Hstep) _ IH]; [by split|].
  assert (acted d1 d2) as Ha by (eapply acted_then; eauto). destruct IH as [? ?]; [by destruct (acted_grows _ _ _ _ Ha Hd)|].
  split; [by etransitivity|done].
Qed.

Lemma within_refines {A} (m : M A) :
  Within (DbRel grows) m → (∀ w, db_inv (w_db w) → wp m (λ _ w', acted (w_db w) (w_db w')) w) → Within (DbRel R) m.
Proof.
  intros Hm Ha w. destruct (Hm w) as [Hg Hc]. split; [|done]. intros Hinv. destruct (Hg Hinv) as [? _]. split; [done|].
  by apply (Ha w).
Qed.

(** ** Queries *)
Lemma within_read {A} pool ctx (f : Tx → Db → A) : Within (DbRel R) (withPool ctx pool (λ tx, query (f tx))).
Proof. apply within_withPool; [apply _..|]. intros tx _. apply within_query. apply _. Qed.
Lemma within_refined_FindByID pool ctx t i : Within (DbRel R) (Repo.FindByID pool ctx t i).
Proof.
  apply within_withPool; [apply _..|]. intros tx _. within_rule; [apply within_query, _|]. repeat within_rule.
Qed.
Lemma within_refined_dept pool ctx t u d : Within (DbRel R) (Repo.FindActiveDeptDelegateForUser pool ctx t u d).
Proof. apply within_withPool; [apply _..|]. intros tx _. within_rule; [apply within_query, _|apply _]. Qed.
Lemma within_refined_settings pool ctx t : Within (DbRel R) (SettingsRepo.Get pool ctx t).
Proof. apply within_withPool; [apply _..|]. intros tx _. within_rule; [apply within_query, _|]. repeat within_rule. Qed.
Lemma within_refined_count pool ctx : Within (DbRel R) (Gauge.CountActiveByTenant pool ctx).
Proof. apply within_wrap_conn. within_rule; [apply within_db_step, _|]. apply within_query, _. Qed.
Lemma within_refined_List ctx t u : Within (DbRel R) (DelegationService.List (delegationService upURL omURL caURL) ctx t u).
Proof.
  unfold DelegationService.List. simpl.
  within_rule; [apply quiet_within; [apply _|exact (quiet_cache_Get (c:=ListCache.NewCache) ctx t u)]|].
  within_rule; [apply _|]. within_rule; [apply within_read|]. within_rule; [|apply _].
  apply quiet_within; [apply _|exact (quiet_cache_Set (c:=ListCache.NewCache) ctx t u _)].
Qed.

(** ** The use cases *)
Lemma created_acted t u req d d0 d1 d2 :
  db_inv d0 → meanwhile d0 d1 → created outboxPublisher t u req d d1 d2 → acted d0 d2.
Proof. intros Hd Hm Hc. eapply acted_then; eauto using Grants. Qed.
Lemma cancelled_acted t i v reason actor d d0 d1 d2 :
  reason ∈ [EndReasonCancelled; EndReasonReassigned] →
  db_inv d0 → meanwhile d0 d1 → cancelled outboxPublisher t i v reason actor d d1 d2 → acted d0 d2.
Proof. intros Hr Hd Hm Hc. eapply acted_then; eauto using Cancels. Qed.

#[local] Abbreviation svc := (delegationService upURL omURL caURL).
#[local] Abbreviation K := (outermost outboxPublisher).
Lemma within_refined_Create ctx t u key req : K ctx → Within (DbRel R) (Create svc ctx t u key req).
Proof.
  intros HK. apply within_refines; [by_law (within_Create AppRole any_ctx grows)|]. intros w Hinv.
  eapply wp_mono; [by_law (wp_Create AppRole outboxPublisher)|].
  intros [d|e] w'; [|by apply meanwhile_acted]. intros [(db & Hm & Hc)|(_ & Hm & _)]; [by eapply created_acted|by apply meanwhile_acted].
Qed.
Lemma within_refined_Cancel ctx t i v : K ctx → Within (DbRel R) (Cancel svc ctx t i v).
Proof.
  intros HK. apply within_refines; [by_law (within_cancelInternal AppRole any_ctx grows)|]. intros w Hinv.
  eapply wp_mono; [by_law (wp_cancelInternal AppRole outboxPublisher)|].
  intros [d|e] w'; [intros (db & Hm & Hc)|intros [Hm _]]; [eapply cancelled_acted; eauto; by left|by apply meanwhile_acted].
Qed.
Lemma within_refined_Extend ctx t i n v : K ctx → Within (DbRel R) (Extend svc ctx t i n v).
Proof.
  intros HK. apply within_refines; [by_law (within_Extend AppRole any_ctx grows)|]. intros w Hinv.
  eapply wp_mono; [by_law (wp_Extend AppRole outboxPublisher)|].
  intros [d|e] w'; [intros (k & d0 & db & Hk & Hm & Hx & _)|intros [Hm _]]; [eapply acted_then; eauto using Extends|by apply meanwhile_acted].
Qed.
Lemma within_refined_Reassign ctx t i v req : K ctx → Within (DbRel R) (Reassign svc ctx t i v req).
Proof.
  intros HK. apply within_refines; [by_law (within_Reassign AppRole any_ctx grows)|]. intros w Hinv. eapply wp_mono.
  { apply (wp_Reassign AppRole outboxPublisher svc ctx t i v req w HK Hinv). by_law (within_cancelInternal AppRole any_ctx grows). }
  intros r w' [(e & _ & Hm)|(old & d & d1 & d2 & d3 & H1 & _ & _ & H2 & Hc & Hr)]; [by apply meanwhile_acted|].
  assert (acted (w_db w) d3) as H3 by (eapply cancelled_acted; [by right; left|done|by etransitivity|done]).
  destruct (acted_grows _ _ _ _ H3 Hinv) as [Hinv3 _]. etransitivity; [exact H3|].
  destruct r as [d'|e]; [|by apply meanwhile_acted]. destruct Hr as (d4 & Hm & Hn). by eapply created_acted.
Qed.

(** The policy: stored within bounds, or refused by row-level security. *)
Lemma upsert_acted tx t m v db s db' :
  db_inv db → SettingsRepo.sql_upsert tx t m v db = Ok (s, db') → acted db db'.
Proof.
  unfold SettingsRepo.sql_upsert. intros Hinv. destruct (negb _); [done|]. destruct (settings_ok _) eqn:Hok; [|done]. simpl.
  intros [= <- <-]. apply (acted_once _ _ []).
  match goal with |- action _ _ _ _ (SettingsRepo.with_settings (<[_ := ?row]> _) _) =>
    change (action outboxPublisher clk [] db (with_settings_of t (Some row) db)); apply Sets; [|exact Hok] end.
  destruct (db_settings db !! t); [by case_decide|done].
Qed.
Lemma within_refined_Set ctx t m v : Within (DbRel R) (Settings.Set_ settingsRepo ctx t m v).
Proof.
  unfold Settings.Set_. repeat case_match; try apply _. apply within_withPool; [apply _..|]. intros tx _.
  apply within_stmt; [apply _|]. intros d s d' Hup Hinv. pose proof (upsert_acted _ _ _ _ _ _ _ Hinv Hup) as Ha.
  split; [|done]. by destruct (acted_grows _ _ _ _ Ha Hinv).
Qed.

(** ** The jobs *)
Section job.
Context (jctx : JobContext) `{Hj : !JobContract (sysPool env) AppRole outboxPublisher jctx} (Hl : LawfulJobs any_ctx grows jctx).

Lemma within_refined_Expiry ctx : K ctx → Within (DbRel R) (Expiry jctx ctx).
Proof using All.
  intros HK. apply within_refines; [by_law (within_Expiry AppRole any_ctx grows)|]. intros w Hinv.
  eapply wp_mono; [by apply (wp_Expiry (sysPool env) AppRole outboxPublisher _ False); first [done | apply _]|].
  intros [res|e] w'; [intros (n & Hn & _)|intros [Hm _]; by apply meanwhile_acted].
  by eapply among_acted in Hn as [? _]; [|intros ? ?; apply Expires, Hclk|].
Qed.
Lemma within_refined_Activation ctx : K ctx → Within (DbRel R) (Activation jctx ctx).
Proof using All.
  intros HK. apply within_refines; [by_law (within_Activation AppRole any_ctx grows)|]. intros w Hinv.
  eapply wp_mono; [by apply (wp_Activation (sysPool env) AppRole outboxPublisher _ False); first [done | apply _]|].
  intros [res|e] w'; [intros (n & Hn & _)|intros [Hm _]; by apply meanwhile_acted].
  by eapply among_acted in Hn as [? _]; [|intros ? ?; apply Starts, Hclk|].
Qed.
Lemma within_refined_ReviewSweep ctx : K ctx → Within (DbRel R) (ReviewSweep jctx ctx).
Proof using All.
  intros HK. apply within_refines; [by_law (within_ReviewSweep AppRole any_ctx grows)|]. intros w Hinv.
  eapply wp_mono; [by apply (wp_ReviewSweep (sysPool env) AppRole outboxPublisher); first [done | apply _]|].
  intros r w' (n & mid & Hn & Hr). eapply among_acted in Hn as [Ha Hmid]; [|intros ? ?; apply Warns, Hclk|done].
  destruct r as [res|e]; [|by subst]. destruct Hr as (m & Hm & _). etransitivity; [exact Ha|].
  by eapply among_acted in Hm as [? _]; [|intros ? ?; apply Lapses, Hclk|].
Qed.
Lemma within_refined_Cleanup ctx : K ctx → Within (DbRel R) (Cleanup jctx ctx).
Proof using All.
  intros HK. apply within_refines; [by_law (within_Cleanup AppRole any_ctx grows)|]. intros w Hinv.
  eapply wp_mono; [by apply (wp_Cleanup (sysPool env) AppRole outboxPublisher); first [done | apply _]|].
  intros [res|e] w'; [|by apply meanwhile_acted]. intros (db & rows & pruning & Hm & [Hrows _] & _ & Hm2 & Hp).
  assert (acted (w_db w) (remove_rows (ID <$> rows) db)) as Ha.
  { eapply acted_then; [done..|]. apply Purges. intros d Hd. destruct (Hrows d Hd) as (? & x & Hx & _). by rewrite Hx. }
  destruct (acted_grows _ _ _ _ Ha Hinv). etransitivity; [exact Ha|]. eapply acted_then; eauto using Prunes.
Qed.
End job.

(** ** Deliveries *)
Lemma ended_by_message msg db mid : requested outboxPublisher msg db mid → acted db mid.
Proof.
  unfold requested. intros H. repeat case_match; [| | |by subst]; destruct H as (q & _ & H).
  - eapply acted_once, Removes, H.
  - eapply acted_once, Offboards, H.
  - case_match; [destruct H as (t & _ & H); eapply acted_once, Disables, H|by subst].
Qed.
Lemma within_refined_mark ctx n i :
  outermost outboxPublisher ctx → Within (DbRel R) (markProcessedInTx ctx (tx (cascadeConsumer env upURL)) (dedup (cascadeConsumer env upURL)) n i).
Proof.
  intros [Htx Hpub]. apply within_refines; [by_law (within_mark_tx AppRole any_ctx grows (cascadeConsumer env upURL))|].
  intros w Hinv. eapply wp_mono; [apply (wp_markProcessedInTx AppRole outboxPublisher); first [done | apply _]|].
  intros [[]|e] w' H; [|by destruct H as [Hm _]; apply meanwhile_acted]. destruct H as (db & mid & now & Hm & <- & ->).
  eapply acted_then; eauto using Records.
Qed.

Lemma within_refined_Handle msg : Within (DbRel R) (Handle (cascadeConsumer env upURL) background msg).
Proof.
  destruct (uuid_Parse (env_ID msg)) as [id|] eqn:Hid.
  2:{ apply within_refines; [by_law (within_Handle AppRole any_ctx grows)|]. intros w _. unfold wp.
      destruct (unidentified_message_dropped env upURL msg w ltac:(by left)) as [_ ->]. reflexivity. }
  destruct (decide (id = uuid_Nil)) as [->|Hnil].
  { apply within_refines; [by_law (within_Handle AppRole any_ctx grows)|]. intros w _. unfold wp.
    destruct (unidentified_message_dropped env upURL msg w ltac:(by right)) as [_ ->]. reflexivity. }
  destruct (dispatched (env_Type msg)) eqn:Hty.
  - apply within_refines; [by_law (within_Handle AppRole any_ctx grows)|]. intros w Hinv.
    eapply wp_mono; [apply (wp_Handle_known AppRole outboxPublisher); first [apply background_outermost | done | apply _]|].
    intros [[]|e] w' H; [|apply meanwhile_acted; [done|apply H]].
    destruct H as [[Hm _]|(seen & db & mid & now & H1 & _ & H2 & Hr & ->)]; [by apply meanwhile_acted|].
    etransitivity; [apply meanwhile_acted; [done|by etransitivity]|].
    etransitivity; [by eapply ended_by_message|]. eapply acted_once, Records.
  - unfold Handle, validatePayload, ackUnknown. rewrite Hid.
    assert (∀ m, Recorder m → Within (DbRel R) (live m)) as Hlive by (intros m Hm; unfold live; destruct env_metrics_live; apply _).
    within_rule; [apply Hlive, _|]. rewrite bool_decide_false by done. cbv zeta. rewrite Hty. simpl.
    within_rule; [apply _|]. apply bool_decide_eq_false in Hty.
    rewrite !bool_decide_false by (intros Heq; rewrite Heq in Hty; set_solver). unfold wrapping.
    within_rule; [|repeat within_rule]. within_rule. within_rule; [apply Hlive, _|].
    apply within_refined_mark, background_outermost.
Qed.

(** ** The steps *)
Lemma server_jobs_grow : LawfulJobs any_ctx grows (server_jctx env upURL).
Proof. apply (jobs_lawful env grows (λ pool, confined_grows pool)); simpl; eauto. Qed.
Lemma reconciler_jobs_grow b r t : LawfulJobs any_ctx grows (reconciler_jctx env upURL b r t).
Proof. apply (jobs_lawful env grows (λ pool, confined_grows pool)); simpl; eauto. Qed.
#[local] Instance handlers_refined health : LawfulHandlers K R (handlers env upURL omURL caURL health).
Proof.
  split; simpl; intros.
  - apply within_refined_List.
  - by apply within_refined_Create.
  - by apply within_refined_Cancel.
  - by apply within_refined_Extend.
  - by apply within_refined_Reassign.
  - apply within_refined_FindByID.
  - apply within_refined_settings.
  - apply within_refined_Set.
Qed.
#[local] Instance internal_refined health : LawfulInternal K R (handlers env upURL omURL caURL health).
Proof.
  split; simpl; intros.
  - unfold RunExpiry. within_rule; [|apply _]. by apply within_refined_Expiry; [apply _|apply server_jobs_grow|].
  - unfold RunReviewSweep. within_rule; [|apply _]. by apply within_refined_ReviewSweep; [apply _|apply server_jobs_grow|].
  - apply within_refined_dept.
  - apply within_read.
Qed.

Lemma within_refined_job jctx job `{!JobContract (sysPool env) AppRole outboxPublisher jctx} :
  LawfulJobs any_ctx grows jctx → Within (DbRel R) (run_job jctx job).
Proof.
  intros Hl. pose proof background_outermost as HK. unfold run_job.
  repeat first [ by apply within_refined_Expiry | by apply within_refined_Activation
               | by apply within_refined_ReviewSweep | by apply within_refined_Cleanup | within_rule ].
Qed.

Lemma public_outermost health r : rq_ctx r = background → K (public_ctx (handlers env upURL omURL caURL health) r).
Proof.
  intros Hctx. unfold public_ctx, ContextMiddleware, tenantGUCMiddleware. destruct (rq_identity r); simpl; rewrite ?Hctx; simpl.
  - unfold bindTenantGUC. by case_match; split; [|left| |left].
  - split; [by rewrite Hctx|left; by rewrite Hctx].
Qed.

Lemma sys_step_refines w w' : sys_step env upURL omURL caURL w w' → DbRel R w w'.
Proof.
  intros Hs. destruct Hs as [health r Hr|msg|b rt ttl' job|].
  - apply (within_serve K R); [apply _|]. intros m e _. destruct (is_internal e) eqn:Hi.
    + apply (within_dispatch_internal K R); [apply _..|done|]. rewrite Hr. apply background_outermost.
    + apply (within_dispatch_public K R); [apply _|done|]. intros _. by apply public_outermost.
  - apply within_refined_Handle.
  - apply within_refined_job; [apply _|apply reconciler_jobs_grow].
  - revert w. change (Within (DbRel R) (activeGaugeTick env background)). unfold activeGaugeTick. within_rule.
    + within_rule. apply within_refined_count.
    + within_rule; [apply within_modify; intros w'; by apply DbRel_uncounted|apply _].
Qed.

Lemma reachable_refines w w' : reachable env upURL omURL caURL w w' → DbRel R w w'.
Proof.
  induction 1 as [w|w1 w2 w3 Hs _ IH]; [apply DbRel_refl, _|]. eapply DbRel_trans; [apply _|by apply sys_step_refines|done].
Qed.

(** C2. The running system is nothing but a trace of the fourteen actions of
    [Actions]: whatever requests, deliveries, job runs and gauge ticks it serves,
    in whatever order, with whatever outages and retries, and whatever others
    (who do no more than this either) commit in between, the tables it leaves are
    those of some trace of grants, cancellations, extensions, starts, expiries,
    warnings, lapsed reviews, removed users, disabled delegates, offboardings,
    policies, recorded deliveries, purges and prunes, each with the events it
    owes, those of the jobs at times that were read off the clock; and the invariant of the tables holds on. *)
Theorem system_refines_actions w w' :
  reachable env upURL omURL caURL w w' → db_inv (w_db w) →
  db_inv (w_db w') ∧ ∃ granted, acts outboxPublisher clk granted (w_db w) (w_db w').
Proof. intros Hr. exact (DbRel_db _ _ _ (reachable_refines _ _ Hr)). Qed.

(** C3. Every start and every end is announced, and none twice.  Of the events a
    run adds to the outbox (its own and those of others): a delegation, not
    soft-deleted, that is found ended or cancelled, and was not, has a DelegationEnded
    among them, one that is found active, and was not, a DelegationStarted; for each
    there are at most as many DelegationEnded as it was open at the start or
    granted since, one fewer if it still is open, and likewise DelegationStarted
    for what was scheduled; so that as long as the ids of new grants are new, no
    delegation is announced as started, or as ended, more than once. *)
Theorem announcements_accounted w w' :
  reachable env upURL omURL caURL w w' → db_inv (w_db w) →
  let is_open d := open_status (Status d) in let is_over d := negb (open_status (Status d)) in
  let is_scheduled d := bool_decide (Status d = DelegationScheduled) in
  let is_active d := bool_decide (Status d = DelegationActive) in
  ∃ granted es, acts outboxPublisher clk granted (w_db w) (w_db w')
    ∧ db_outbox (w_db w') = (db_outbox (w_db w) ++ es)%list
    ∧ (∀ k, let ends := tally EventDelegationEnded k es in let starts := tally EventDelegationStarted k es in
         (held is_over k (w_db w') ≤ held is_over k (w_db w) + ends)%nat
         ∧ (held is_active k (w_db w') ≤ held is_active k (w_db w) + starts)%nat
         ∧ (ends + held is_open k (w_db w') ≤ held is_open k (w_db w) + given k granted)%nat
         ∧ (starts + held is_scheduled k (w_db w') ≤ held is_scheduled k (w_db w) + given k granted)%nat)
    ∧ (NoDup granted → (∀ k, k ∈ granted → db_delegations (w_db w) !! k = None) →
       ∀ k, (tally EventDelegationEnded k es ≤ 1)%nat ∧ (tally EventDelegationStarted k es ≤ 1)%nat).
Proof.
  intros Hr Hinv is_open is_over is_scheduled is_active.
  destruct (DbRel_db _ _ _ (reachable_refines _ _ Hr) Hinv) as [_ [g Hg]].
  destruct (acts_account outboxPublisher EventDelegationEnded open_status (λ s, negb (open_status s)) clk g _ _ Hinv Hg)
    as (es & Hes & [Hep Het]).
  destruct (acts_account outboxPublisher EventDelegationStarted (λ s, bool_decide (s = DelegationScheduled))
    (λ s, bool_decide (s = DelegationActive)) clk g _ _ Hinv Hg) as (es' & Hes' & [Hsp Hst]).
  rewrite Hes in Hes'. apply app_inv_head in Hes' as <-. exists g, es. split; [done|]. split; [done|]. split.
  - intros k. by split_and!.
  - intros Hnd Hnew k. specialize (Hep k). specialize (Hsp k). pose proof (new_or_held k g (w_db w) Hnd (Hnew k)) as Hk.
    pose proof (Hk is_open). pose proof (Hk is_scheduled). unfold is_open, is_scheduled in *. lia.
Qed.
End refinement.
