(* ===== verification/ReadCommitted.v ===== *)
(** * The program under READ COMMITTED

    Which transactions of the program might as well run one after the other,
    although others commit between their statements. *)
From S2P Require Import Prelude GoLib Domain World Store StoreFacts Statements MetricsRec Valkey EventBus HttpClients Postgres Contracts PostgresFacts DelegationService CascadeService Consumer Jobs Config System.
Local Open Scope Z_scope.

(** ** Statements that are stable *)
Section stable.
Context `{E : Env} `{P : PgCommon} `{U : UuidLib} `{!LawfulOthers E}.
Implicit Types (tx : Tx) (Pw : Delegation → bool) (f : Delegation → Delegation).

Lemma lookup_matching tx Pw m k d : matching tx Pw m !! k = Some d ↔ m !! k = Some d ∧ selected tx Pw d = true.
Proof. unfold matching. by rewrite map_lookup_filter_Some. Qed.

(** An UPDATE, when the others bring no row into its selection. *)
Definition no_new_rows tx Pw (c : Db) : Prop := ∀ c' k d, meanwhile c c' → agrees (selects tx Pw c) c c' →
  db_delegations c' !! k = Some d → selected tx Pw d = true → db_delegations c !! k = Some d.
Lemma update_stable tx Pw f c : no_new_rows tx Pw c → stable no_locks c c (selects tx Pw) (sql_update tx Pw f).
Proof.
  intros Hnew c' Hm [Ha _ _]. simpl in Ha. rewrite union_empty_l_L in Ha. rewrite rebase_start.
  assert (agrees (selects tx Pw c) c c') as Hagr by (split; [exact Ha|intros k Hk|intros k Hk]; by apply elem_of_empty in Hk).
  assert (matching tx Pw (db_delegations c') = matching tx Pw (db_delegations c)) as Hmatch.
  { apply map_eq. intros k. apply option_eq. intros d. rewrite !lookup_matching. split.
    - intros [Hk Hs]. split; [by eapply Hnew|done].
    - intros [Hk Hs]. split; [|done]. rewrite <- (Ha k); [done|]. apply elem_of_dom. exists d. by apply lookup_matching. }
  unfold sql_update, sql_select. rewrite Hmatch. destruct (forallb row_ok _); [|done]. do 2 f_equal.
  unfold rebase. simpl. rewrite !union_empty_l_L, !overlay_empty, drop_all, app_nil_r. f_equal.
  apply map_eq. intros k. rewrite lookup_overlay, !lookup_fmap. case_decide as Hk; [by rewrite (Ha k Hk)|].
  destruct (db_delegations c' !! k) as [d|] eqn:Hd; [|done]. simpl. destruct (selected tx Pw d) eqn:Hs; [|done].
  destruct Hk. apply elem_of_dom. exists d. apply lookup_matching. split; [by eapply Hnew|done].
Qed.
(** An UPDATE by primary key that finds its row. *)
Lemma keyed_no_new_rows tx Pw c id d :
  db_inv c → (∀ d, Pw d = true → ID d = id) → db_delegations c !! id = Some d → selected tx Pw d = true → no_new_rows tx Pw c.
Proof.
  intros Hc Hid Hd Hs c' k d' Hm Ha Hk Hs'. destruct (meanwhile_inv _ _ Hm Hc) as [Hc' _].
  assert (k = id) as ->.
  { unfold selected in Hs'. apply andb_true_iff in Hs' as [_ HP]. apply Hid in HP. by destruct (inv_row c' Hc' k d' Hk) as [<- _]. }
  destruct Ha as [Ha _ _]. rewrite (Ha id); [done|]. apply elem_of_dom. exists d. by apply lookup_matching.
Qed.

(** Such a statement finds its row and is stable, or finds none and writes nothing. *)
Lemma keyed_update tx Pw f id c :
  db_inv c → (∀ d, Pw d = true → ID d = id) →
  match sql_update tx Pw f c with
  | Ok ([], c1) => c1 = c ∧ selects tx Pw c = no_locks
  | Ok (_ :: _, c1) => stable no_locks c c (selects tx Pw) (sql_update tx Pw f) ∧ ahead c c1
  | Err _ => True
  end.
Proof.
  intros Hc Hid. destruct (sql_select tx Pw c) as [|d rows] eqn:Hsel.
  - rewrite sql_select_nil_update by done. split; [done|]. unfold selects, no_locks. f_equal.
    apply dom_empty_iff_L. unfold sql_select in Hsel. by apply fmap_nil_inv, map_to_list_empty_iff in Hsel.
  - assert (d ∈ sql_select tx Pw c) as Hin by (rewrite Hsel; by left). apply elem_of_sql_select in Hin as (k & Hk & Hs).
    assert (k = id) as ->.
    { destruct (inv_row c Hc k d Hk) as [<- _]. apply Hid. unfold selected in Hs. by apply andb_true_iff in Hs as [_ ?]. }
    pose proof (update_stable tx Pw f c (keyed_no_new_rows tx Pw c id d Hc Hid Hk Hs)) as Hst.
    destruct (sql_update tx Pw f c) as [[rows' c1]|e] eqn:Hu; [|done]. unfold sql_update in Hu. rewrite Hsel in Hu.
    destruct (forallb row_ok _); [|done]. injection Hu as <- <-.
    split; [exact Hst|]. by unfold ahead.
Qed.

(** An INSERT: nobody else inserts under its id before it ends. *)
Lemma insert_stable tx d c : stable no_locks c c (changes (sql_insert tx d)) (sql_insert tx d).
Proof.
  intros c' Hm [Ha _ _]. simpl in Ha. rewrite union_empty_l_L in Ha. rewrite rebase_start.
  unfold changes, sql_insert in *. destruct (rls_check_tenant _ _); [|done]. destruct (row_ok _); [|done]. simpl in *.
  destruct (db_delegations c !! ID d) as [x|] eqn:Hid; [done|]. simpl in *.
  set (row := inserted_row tx d) in *.
  assert (ID d ∈ changed (db_delegations c) (<[ID d:=row]> (db_delegations c))) as Hk.
  { apply elem_of_filter. rewrite lookup_insert_eq, Hid. split; [done|]. rewrite dom_insert_L. set_solver. }
  rewrite <- (Ha _ Hk), Hid. do 2 f_equal. unfold rebase. simpl.
  rewrite !changed_self, !union_empty_l_L, !overlay_empty, drop_all, app_nil_r. f_equal.
  apply map_eq. intros k. rewrite lookup_overlay. destruct (decide (k = ID d)) as [->|Hne].
  - by rewrite decide_True, !lookup_insert_eq.
  - rewrite !lookup_insert_ne by done. case_decide as Hc; [by rewrite (Ha k Hc)|done].
Qed.
End stable.

(** ** The statements of the repositories and of the publisher *)
Class InTx (ctx : Ctx) (tx : Tx) : Prop := in_tx : TxFromContext ctx = Some tx.
#[export] Instance in_tx_bound ctx tx : InTx (WithTx ctx tx) tx.
Proof. done. Qed.
#[export] Instance in_tx_publishing ctx tx p : InTx ctx tx → InTx (WithEventPublisher ctx p) tx.
Proof. done. Qed.

Section staged.
Context `{E : Env} `{P : PgCommon} `{U : UuidLib}.

(** [withPool] joins the transaction of its context. *)
#[export] Instance staged_joined {A} ctx tx pool (fn : Tx → M A) `{Hin : !InTx ctx tx} `{Hfn : !Staged (fn tx)} : Staged (withPool ctx pool fn).
Proof.
  refine {| stages := stages (wrap_conn (fn tx)) |}.
  abstract (intros w; rewrite run_stages; unfold withPool; by rewrite (in_tx (ctx := ctx) (tx := tx))).
Defined.

Context (pool : Role) (ctx : Ctx) (tx : Tx) `{Hin : !InTx ctx tx}.
#[export] Instance staged_probe {A} t i : Staged (Repo.probeVersionConflict (A := A) tx t i).
Proof. unfold Repo.probeVersionConflict. apply _. Defined.
#[export] Instance staged_End t i s v : Staged (Repo.End_ pool ctx t i s v).
Proof. unfold Repo.End_. apply _. Defined.
#[export] Instance staged_Activate t i v : Staged (Repo.Activate pool ctx t i v).
Proof. unfold Repo.Activate. apply _. Defined.
#[export] Instance staged_Warn t i b v : Staged (Repo.MarkReviewWarned pool ctx t i b v).
Proof. unfold Repo.MarkReviewWarned. apply _. Defined.
#[export] Instance staged_Insert d : Staged (Repo.Insert pool ctx d).
Proof. unfold Repo.Insert, Repo.insert_defaults. apply _. Defined.
#[export] Instance staged_Extend t i days v : Staged (Repo.ExtendReview pool ctx t i days v).
Proof. unfold Repo.ExtendReview. apply _. Defined.
End staged.

Section publishing.
Context `{E : Env} `{P : PgCommon} `{U : UuidLib}.
#[export] Instance staged_EnqueueCtx p ctx evt : Staged (EnqueueCtx p ctx evt).
Proof. unfold EnqueueCtx. apply _. Defined.
#[export] Instance staged_enqueue ctx ty t s a d : Staged (enqueue ctx ty t s a d).
Proof. unfold enqueue. apply _. Defined.
#[export] Instance staged_enqueueEvent ctx ty t s d c : Staged (enqueueEvent ctx ty t s d c).
Proof. unfold enqueueEvent. apply _. Defined.
End publishing.

(** ** The transactions on one delegation *)
Section bodies.
Context `{E : Env} `{P : PgCommon} `{U : UuidLib}.
Context (repoPool : Role) (pub : Publisher).

(** The context a runner hands to the closure. *)
Definition tx_context (ctx : Ctx) (tx : Tx) : Ctx := WithEventPublisher (WithTx ctx tx) pub.
#[local] Instance in_tx_context ctx tx : InTx (tx_context ctx tx) tx := _.

Context (st : SettingsRepository) (mc : MembershipCheckClient) (up : UserProfileClient) (ca : option CatalogAdminClient)
  (idem : option IdempotencyStore) (ch : option Cache) (runner : TxRunner) (mt : option Metrics).
Context (bind : Ctx → uuid → string → Ctx) (bl rd ttl : Z) (pe : option (Ctx → Z → Z → M Z)) (jm : option JobMetrics).
(** Any delegation service and any job context over the PostgreSQL repository. *)
Definition service_on : DelegationService := mkDelegationService (Repo.NewDelegationRepository repoPool) st mc up ca idem ch runner mt.
Definition jobs_on : JobContext := mkJobContext (Repo.NewDelegationRepository repoPool) up runner bind bl rd pe ttl jm.

#[export] Instance staged_endAndAnnounce t i d v reason actor ctx tx cap :
  Staged (endAndAnnounce service_on t i d v reason actor (tx_context ctx tx) cap).
Proof. unfold endAndAnnounce. cbn [repo_End service_on delegations Repo.NewDelegationRepository]. apply _. Defined.
#[export] Instance staged_insertAndAnnounce t g req starts scheduled row ctx tx cap :
  Staged (insertAndAnnounce service_on t g req starts scheduled row (tx_context ctx tx) cap).
Proof. unfold insertAndAnnounce. cbn [repo_Insert service_on delegations Repo.NewDelegationRepository]. apply _. Defined.
#[export] Instance staged_endInTx d reason cron ctx tx cap : Staged (endInTx jobs_on d reason cron (tx_context ctx tx) cap).
Proof. unfold endInTx. cbn [repo_End jobs_on Delegations Repo.NewDelegationRepository]. apply _. Defined.
#[export] Instance staged_activateInTx d ctx tx cap : Staged (activateInTx jobs_on d (tx_context ctx tx) cap).
Proof. unfold activateInTx. cbn [repo_Activate jobs_on Delegations Repo.NewDelegationRepository]. apply _. Defined.
#[export] Instance staged_warnInTx d days ctx tx cap : Staged (warnInTx jobs_on d days (tx_context ctx tx) cap).
Proof. unfold warnInTx. cbn [repo_MarkReviewWarned jobs_on Delegations Repo.NewDelegationRepository]. apply _. Defined.
End bodies.

Section publish.
Context `{E : Env} `{P : PgCommon} `{U : UuidLib}.
Lemma silent_winding_down {A} (p : prog A) : silent p → winding_down p.
Proof. induction p; simpl; auto; done. Qed.
Lemma append_changes_nothing env : appends (changes (λ db, Ok (tt, outbox_append env db))) (λ db, Ok (tt, outbox_append env db)).
Proof.
  split; [|by exists tt, [env]]. intros d. unfold changes. simpl. by rewrite !changed_self.
Qed.

(** Programs that only add to the outbox, and go on only when they did not fail. *)
Definition publishes {A} (p : prog A) : Prop := ∀ B (k : result goerror A → prog B),
  (∀ e, silent (k (Err e))) → (∀ x, winding_down (k (Ok x))) → winding_down (cont p k).
Lemma silent_cont {A B} (p : prog A) (k : result goerror A → prog B) : silent p → (∀ r, silent (k r)) → silent (cont p k).
Proof. intros Hp Hk. induction p; simpl in *; auto; done. Qed.
Lemma silent_assoc {A B C} (p : prog A) (k : result goerror A → prog B) (k' : result goerror B → prog C) :
  silent (cont p (λ r, cont (k r) k')) → silent (cont (cont p k) k').
Proof. induction p; simpl; auto; done. Qed.
Lemma winding_down_assoc {A B C} (p : prog A) (k : result goerror A → prog B) (k' : result goerror B → prog C) :
  winding_down (cont p (λ r, cont (k r) k')) → winding_down (cont (cont p k) k').
Proof.
  induction p as [r|X m Hm k0 IH|X ls f k0 IH]; simpl; [done|auto|]. intros [He Hk].
  split; [intros e; by apply silent_assoc|]. destruct Hk as [[Ha Hk]|Hk]; [left|right]; [split; [done|auto]|].
  intros r. by apply silent_assoc.
Qed.
Lemma publishes_silent {A} (p : prog A) : silent p → publishes p.
Proof.
  intros Hp B k He Hk. induction p as [r|X m Hm k0 IH|]; simpl in *; [|auto|done]. destruct r; [done|by apply silent_winding_down].
Qed.
Lemma publishes_and_then {A B} (p : prog A) (k : A → prog B) : publishes p → (∀ a, publishes (k a)) → publishes (and_then p k).
Proof.
  intros Hp Hk C k' He Hk'. apply winding_down_assoc, Hp; [intros e; simpl; apply He|]. intros x. by apply Hk.
Qed.
Lemma publishes_each {A} (l : list A) (body : A → prog unit) : (∀ a, publishes (body a)) → publishes (each_of l body).
Proof. intros Hb. induction l as [|a l IH]; simpl; [by apply publishes_silent|by apply publishes_and_then]. Qed.

Lemma publishes_EnqueueCtx p ctx evt : publishes (stages (EnqueueCtx p ctx evt)).
Proof.
  intros B k He Hk. unfold EnqueueCtx. cbn. destruct (marshalable _); cbn; [|by apply silent_winding_down].
  destruct (ValidatingCodec_Encode _ _); cbn; [|by apply silent_winding_down]. intros [n|e]; cbn; [|by apply silent_winding_down].
  destruct (TxFromContext ctx); cbn; [|by apply silent_winding_down]. split; [done|]. left. split; [apply append_changes_nothing|done].
Qed.
Lemma publishes_enqueue ctx ty t s a d : publishes (stages (enqueue ctx ty t s a d)).
Proof.
  intros B k He Hk. unfold enqueue, staged_enqueue. destruct (EventPublisherFromContext ctx); cbn -[staged_EnqueueCtx]; [|apply Hk].
  intros [n|e]; cbn -[staged_EnqueueCtx]; [|by apply silent_winding_down]. destruct (FromContext ctx); cbn -[staged_EnqueueCtx]; by apply publishes_EnqueueCtx.
Qed.
Lemma publishes_enqueueEvent ctx ty t s d c : publishes (stages (enqueueEvent ctx ty t s d c)).
Proof.
  intros B k He Hk. unfold enqueueEvent, staged_enqueueEvent. destruct (EventPublisherFromContext ctx); cbn -[staged_EnqueueCtx]; [|apply Hk].
  intros [n|e]; cbn -[staged_EnqueueCtx]; [|by apply silent_winding_down]. by apply publishes_EnqueueCtx.
Qed.
End publish.

(** Compute a tree down to its publishing and its probes. *)
Ltac tree := cbn -[staged_probe staged_enqueueEvent staged_enqueue Repo.probeVersionConflict enqueueEvent enqueue lost_race].

(** ** They might as well run one after the other *)
Section serialisable.
Context `{E : Env} `{P : PgCommon} `{U : UuidLib} `{Lawful : !LawfulOthers E}.
Context (repoPool : Role) (pub : Publisher).
Context (st : SettingsRepository) (mc : MembershipCheckClient) (up : UserProfileClient) (ca : option CatalogAdminClient)
  (idem : option IdempotencyStore) (ch : option Cache) (runner : TxRunner) (mt : option Metrics).
Context (bind : Ctx → uuid → string → Ctx) (bl rd ttl : Z) (pe : option (Ctx → Z → Z → M Z)) (jm : option JobMetrics).
#[local] Abbreviation service := (service_on repoPool st mc up ca idem ch runner mt).
#[local] Abbreviation job := (jobs_on repoPool up runner bind bl rd ttl pe jm).

(** What a transaction that wrote nothing says: the row is gone or has moved on,
    or the database failed. *)
Definition lost {A} (r : result goerror A) : Prop := ∃ e, r = Err e ∧ fails_with (λ e, lost_race e = true) e.
Definition raced (r : result goerror bool) : Prop := r = Ok true ∨ lost r.

Lemma reading_cont {A B} Q (p : prog A) (k : result goerror A → prog B) :
  reading (λ r, reading Q (k r)) p → reading Q (cont p k).
Proof. induction p as [r|X m Hm k' IH|X ls f k' IH]; simpl; [done|auto|]. intros (? & ? & ?). split_and!; eauto. Qed.
Lemma reading_probe {A} tx t i (Q : result goerror A → Prop) :
  (∀ e, fails_with (λ e, lost_race e = true) e → Q (Err e)) → reading Q (stages (Repo.probeVersionConflict tx t i)).
Proof.
  intros HQ. cbn. split; [intros d; eauto|]. split.
  - intros [|d rows]; cbn; [by apply HQ, fails_here|]. destruct (_ && _); cbn; by apply HQ, fails_here.
  - intros n e He. by eapply HQ, fault_fails.
Qed.

(** An UPDATE of one row comes first; then either events, or a look at why there was
    no such row. *)
Lemma serialisable_keyed {A} Q tx Pw f id (k : result goerror (list Delegation) → prog A) :
  (∀ d, Pw d = true → ID d = id) →
  (∀ e, silent (k (Err e))) → (∀ d rows, winding_down (k (Ok (d :: rows)))) → reading Q (k (Ok [])) →
  serialisable Q (Statement (selects tx Pw) (sql_update tx Pw f) k).
Proof.
  intros Hid He Hw Hr. apply serialisable_first; [exact He|]. intros c Hc.
  pose proof (keyed_update tx Pw f id c Hc Hid) as Hu. destruct (sql_update tx Pw f c) as [[[|d rows] c1]|e]; [| |done].
  - destruct Hu as [-> ->]. by right; right.
  - destruct Hu as [Hs Ha]. by right; left.
Qed.

Ltac by_id := let x := fresh in intros x;
  unfold where_end, where_activate, where_warn, where_extend, has_id; rewrite ?andb_true_iff, !bool_decide_eq_true; intros ?; destruct_and!; done.

Lemma serialisable_endInTx d reason cron ctx tx cap :
  serialisable raced (stages (endInTx job d reason cron (tx_context pub ctx tx) cap)).
Proof using Lawful.
  tree. apply (serialisable_keyed _ _ _ _ (ID d)).
  - by_id.
  - intros e. tree. by destruct (lost_race (wrapConnErr e)).
  - intros x rows. tree. apply publishes_enqueueEvent; done.
  - tree. do 3 apply reading_cont. apply reading_probe. intros e He. tree.
    destruct (lost_race (wrapConnErr e)) eqn:Hl; tree; [by left|right]. exists (wrapConnErr e). split; [done|by apply fails_wrap].
Qed.

Lemma serialisable_warnInTx d days ctx tx cap : serialisable raced (stages (warnInTx job d days (tx_context pub ctx tx) cap)).
Proof using Lawful.
  tree. apply (serialisable_keyed _ _ _ _ (ID d)).
  - by_id.
  - intros e. tree. by destruct (lost_race (wrapConnErr e)).
  - intros x rows. tree. apply publishes_enqueueEvent; done.
  - tree. do 3 apply reading_cont. apply reading_probe. intros e He. tree.
    destruct (lost_race (wrapConnErr e)) eqn:Hl; tree; [by left|right]. exists (wrapConnErr e). split; [done|by apply fails_wrap].
Qed.

Lemma serialisable_activateInTx d ctx tx cap : serialisable raced (stages (activateInTx job d (tx_context pub ctx tx) cap)).
Proof using Lawful.
  tree. apply (serialisable_keyed _ _ _ _ (ID d)).
  - by_id.
  - done.
  - intros x rows. tree. apply publishes_enqueueEvent; done.
  - by left.
Qed.

Lemma serialisable_endAndAnnounce t i d v reason actor ctx tx cap :
  serialisable lost (stages (endAndAnnounce service t i d v reason actor (tx_context pub ctx tx) cap)).
Proof using Lawful.
  tree. apply (serialisable_keyed _ _ _ _ i).
  - by_id.
  - done.
  - intros x rows. tree. apply publishes_enqueue; done.
  - tree. do 2 apply reading_cont. apply reading_probe. intros e He. exists (wrapConnErr e). split; [done|by apply fails_wrap].
Qed.

Lemma serialisable_insertAndAnnounce t g req starts scheduled row ctx tx cap :
  serialisable (λ _, False) (stages (insertAndAnnounce service t g req starts scheduled row (tx_context pub ctx tx) cap)).
Proof using Lawful.
  assert (∀ d, serialisable (λ _, False) (Statement (changes (sql_insert tx d)) (sql_insert tx d) (λ x, cont (classified (Done x)) (λ r,
    match r with
    | Ok out => stages (if scheduled then mret (Some out) else
        _ ← enqueue (tx_context pub ctx tx) EventDelegationStarted t (uuid_String (ID out)) (uuid_String g)
              (startedPayload t g (ID out) req starts); mret (Some out))
    | Err e => Done (Err e)
    end)))) as Hins.
  { intros d. apply serialisable_first; [done|]. intros c Hc. pose proof (insert_stable tx d c) as Hs.
    destruct (sql_insert tx d c) as [[out c1]|e] eqn:Hi; [|done]. right. left. split; [done|]. split.
    - tree. destruct scheduled; tree; [done|]. apply publishes_enqueue; done.
    - destruct (sql_insert_lawful _ _ _ _ _ Hi Hc) as [_ [_ _ Ho]]. unfold ahead. by rewrite Ho. }
  tree. destruct (bool_decide (ID row = uuid_Nil)), (IsZero (StartsAt row)); tree;
    repeat (apply serialisable_local; intros [?|?]; tree); first [apply Hins | apply serialisable_done].
Qed.
End serialisable.

(** ** Deliveries: the cascade and its mark in one transaction *)
#[export] Instance staged_inc `{E : Env} `{P : PgCommon} `{U : UuidLib} name labels : Staged (inc name labels).
Proof. apply staged_local. abstract (by intros w d). Defined.
#[export] Instance staged_Do `{E : Env} `{P : PgCommon} `{U : UuidLib} pkg req : Staged (Do pkg req).
Proof.
  apply staged_local. abstract (intros w d; unfold Do; destruct (env_url_ok _); simpl; [|done]; by destruct (env_http _ _)).
Defined.

Class Publishing (ctx : Ctx) : Prop := publishing : is_Some (EventPublisherFromContext ctx).
#[export] Instance publishing_bound ctx p : Publishing (WithEventPublisher ctx p).
Proof. by eexists. Qed.

Section deliveries.
Context `{E : Env} `{P : PgCommon} `{U : UuidLib} `{T : TimeText}.
Context (env : Environ) (upURL : string).

(** A nested transaction joins the one of its context. *)
#[export] Instance staged_nested {A} pool events ctx tx (cap : A) fn `{Hin : !InTx ctx tx} `{Hp : !Publishing ctx} `{Hfn : !Staged (fn ctx cap)} :
  Staged (tx_RunInTx (NewTxRunner pool events) ctx cap fn).
Proof.
  refine {| stages := stages (wrap_conn (fn ctx cap)) |}.
  abstract (intros w; rewrite run_stages; simpl; unfold RunInTx; rewrite (in_tx (ctx := ctx) (tx := tx));
    destruct (publishing (ctx := ctx)) as [p Hpub]; rewrite Hpub; by destruct events).
Defined.

Context (ctx : Ctx) (tx : Tx) `{Hin : !InTx ctx tx} `{Hp : !Publishing ctx}.
#[export] Instance staged_EndForUser pool t u : Staged (Repo.EndForUser pool ctx t u).
Proof. unfold Repo.EndForUser. apply _. Defined.
#[export] Instance staged_EndForDisabled pool t u : Staged (Repo.EndForDisabledDelegate pool ctx t u).
Proof. unfold Repo.EndForDisabledDelegate. apply _. Defined.
#[export] Instance staged_MarkProcessed pool c e : Staged (ProcessedEvents.MarkProcessed pool ctx c e).
Proof. unfold ProcessedEvents.MarkProcessed. apply _. Defined.
#[export] Instance staged_SoftDeleteRows pool t : Staged (Repo.SoftDeleteTenant pool ctx t).
Proof. unfold Repo.SoftDeleteTenant. apply _. Defined.
#[export] Instance staged_SoftDeletePolicy pool t : Staged (SettingsRepo.SoftDeleteTenant pool ctx t).
Proof. unfold SettingsRepo.SoftDeleteTenant. apply _. Defined.
#[export] Instance staged_announceRemoved c t u d : Staged (Cascade.announceRemoved c t u d).
Proof. unfold Cascade.announceRemoved. apply _. Defined.
#[export] Instance staged_announceDisabled c t d : Staged (Cascade.announceDisabled c t d).
Proof. unfold Cascade.announceDisabled. apply _. Defined.
#[export] Instance staged_clear c t u : Staged (UserProfile.ClearDelegatePointer upURL c t u).
Proof.
  unfold UserProfile.ClearDelegatePointer, instrumented, UserProfile.clearDelegatePointer, UserProfile.command_answer,
    IncDependencyError, Metrics_IncDependencyError. apply _.
Defined.
#[local] Ltac stage_cascade :=
  cbn [Cascade.delegations Cascade.settings Cascade.userProfile Cascade.txRunner Cascade.metrics cascadeServiceImpl
    repo_EndForUser repo_EndForDisabledDelegate repo_SoftDeleteTenant settings_SoftDeleteTenant delegationRepo settingsRepo
    SettingsRepo.NewSettingsRepository Repo.NewDelegationRepository
    up_ClearDelegatePointer UserProfile.client m_RecordUPAvailabilityFailure m_RecordEnded NewMetrics];
  unfold System.txRunner, RecordUPAvailabilityFailure, RecordEnded; apply _.
#[export] Instance staged_cascade_user t u : Staged (Cascade.EndForUser (cascadeServiceImpl upURL) ctx t u).
Proof. unfold Cascade.EndForUser, Cascade.clearPointerOf, when_some. stage_cascade. Defined.
#[export] Instance staged_cascade_disabled t u : Staged (Cascade.EndForDisabledDelegate (cascadeServiceImpl upURL) ctx t u).
Proof. unfold Cascade.EndForDisabledDelegate, when_some. stage_cascade. Defined.
#[export] Instance staged_cascade_tenant t : Staged (Cascade.ScrubTenant (cascadeServiceImpl upURL) ctx t).
Proof. unfold Cascade.ScrubTenant. stage_cascade. Defined.

(** What the consumer runs in one transaction for MembershipRevoked, for a disabled
    delegate and for TenantMembershipsPurged. *)
Definition revoked_delivery (t u : uuid) (consumerName eventID : string) (txCtx : Ctx) (_ : unit) : M unit :=
  _ ← wrapping "cascadeconsumer: EndForUser" (Cascade.EndForUser (cascadeServiceImpl upURL) txCtx t u);
  wrapping ("cascadeconsumer: mark event " ++ eventID ++ " processed")
    (ProcessedEvents.MarkProcessed (sysPool env) txCtx consumerName eventID).
Definition disabled_delivery (t u : uuid) (consumerName eventID : string) (txCtx : Ctx) (_ : unit) : M unit :=
  _ ← wrapping "cascadeconsumer: EndForDisabledDelegate" (Cascade.EndForDisabledDelegate (cascadeServiceImpl upURL) txCtx t u);
  wrapping ("cascadeconsumer: mark event " ++ eventID ++ " processed")
    (ProcessedEvents.MarkProcessed (sysPool env) txCtx consumerName eventID).
Definition purged_delivery (t : uuid) (consumerName eventID : string) (txCtx : Ctx) (_ : unit) : M unit :=
  _ ← wrapping "cascadeconsumer: ScrubTenant" (Cascade.ScrubTenant (cascadeServiceImpl upURL) txCtx t);
  wrapping ("cascadeconsumer: mark event " ++ eventID ++ " processed")
    (ProcessedEvents.MarkProcessed (sysPool env) txCtx consumerName eventID).
Lemma revoked_delivery_is t u name eventID c :
  runCascadeAndMark (cascadeConsumer env upURL) c name eventID (λ txCtx,
    wrapping "cascadeconsumer: EndForUser" (cs_EndForUser (cascade (cascadeConsumer env upURL)) txCtx t u))
  = tx_RunInTx System.txRunner c tt (revoked_delivery t u name eventID).
Proof. reflexivity. Qed.
Lemma disabled_delivery_is t u name eventID c :
  runCascadeAndMark (cascadeConsumer env upURL) c name eventID (λ txCtx,
    wrapping "cascadeconsumer: EndForDisabledDelegate" (cs_EndForDisabledDelegate (cascade (cascadeConsumer env upURL)) txCtx t u))
  = tx_RunInTx System.txRunner c tt (disabled_delivery t u name eventID).
Proof. reflexivity. Qed.
Lemma purged_delivery_is t name eventID c :
  runCascadeAndMark (cascadeConsumer env upURL) c name eventID (λ txCtx,
    wrapping "cascadeconsumer: ScrubTenant" (cs_ScrubTenant (cascade (cascadeConsumer env upURL)) txCtx t))
  = tx_RunInTx System.txRunner c tt (purged_delivery t name eventID).
Proof. reflexivity. Qed.
#[export] Instance staged_revoked t u name eventID : Staged (revoked_delivery t u name eventID ctx tt).
Proof. unfold revoked_delivery, wrapping. apply _. Defined.
#[export] Instance staged_disabled t u name eventID : Staged (disabled_delivery t u name eventID ctx tt).
Proof. unfold disabled_delivery, wrapping. apply _. Defined.
#[export] Instance staged_purged t name eventID : Staged (purged_delivery t name eventID ctx tt).
Proof. unfold purged_delivery, wrapping. apply _. Defined.
End deliveries.

Section arrivals.
Context `{E : Env} `{P : PgCommon} `{U : UuidLib} `{T : TimeText} `{!LawfulOthers E}.
Context (env : Environ) (upURL : string).

(** The others bring no row into a selection: nobody creates a delegation of the
    user while the user is being removed. *)
Class NoArrivals (Pw : Delegation → bool) : Prop := none_arrive : ∀ n d k x,
  db_delegations (env_others n d) !! k = Some x → Pw x = true → ∃ y, db_delegations d !! k = Some y ∧ Pw y = true.

Lemma no_arrivals_no_new_rows Pw tx t c :
  NoArrivals Pw → (∀ d, Pw d = true → TenantID d = t) → no_new_rows tx Pw c.
Proof.
  intros Hn Ht c' k x Hm Ha Hx Hs.
  assert (Pw x = true ∧ rls_check_tenant tx t = true) as [Hp Hr].
  { unfold selected in Hs. apply andb_true_iff in Hs as [? HP]. by rewrite <- (Ht x HP). }
  assert (∃ y, db_delegations c !! k = Some y ∧ Pw y = true) as (y & Hy & HPy).
  { clear Ha Hs. revert x Hx Hp. induction Hm as [d|d1 d2 d3 [n ->] _ IH]; intros x Hx Hp; [by exists x|].
    destruct (IH x Hx Hp) as (z & Hz & HPz). by apply (none_arrive (Pw := Pw) n d1 k z). }
  destruct Ha as [Ha _ _]. rewrite (Ha k); [done|]. apply elem_of_dom. exists y. apply lookup_matching. split; [done|].
  unfold selected. by rewrite (Ht y HPy), Hr, HPy.
Qed.

(** An UPDATE of the rows of a selection nobody adds to comes first, then events. *)
Lemma serialisable_selection {A} Q tx Pw f t (k : result goerror (list Delegation) → prog A) :
  NoArrivals Pw → (∀ d, Pw d = true → TenantID d = t) →
  (∀ e, silent (k (Err e))) → (∀ rows, winding_down (k (Ok rows))) →
  serialisable Q (Statement (selects tx Pw) (sql_update tx Pw f) k).
Proof.
  intros Hn Ht He Hw. apply serialisable_first; [exact He|]. intros c Hc.
  pose proof (update_stable tx Pw f c (no_arrivals_no_new_rows Pw tx t c Hn Ht)) as Hs.
  destruct (sql_update tx Pw f c) as [[rows c1]|e] eqn:Hu; [|done]. right. left. split; [done|]. split; [done|].
  unfold sql_update in Hu. destruct (forallb _ _); [|done]. injection Hu as _ <-. by unfold ahead.
Qed.

Lemma silent_clear c t u : silent (stages (UserProfile.ClearDelegatePointer upURL c t u)).
Proof.
  unfold UserProfile.ClearDelegatePointer, staged_clear. cbn. intros [[status body]|e]; cbn.
  - destruct (_ && _); cbn; [done|]. destruct (500 <=? status); cbn.
    + destruct env_metrics_live; cbn; [|done]. intros [|]; cbn; [|done]. intros [|]; done.
    + destruct (UserProfile.error_body body); cbn; (destruct env_metrics_live; cbn; [|done]); intros [|]; cbn; try done; intros [|]; done.
  - destruct env_metrics_live; cbn; [|done]. intros [|]; cbn; [|done]. intros [|]; done.
Qed.

#[local] Ltac publish lem :=
  repeat apply winding_down_assoc; apply lem; [|by intros; cbn|intros ?; cbn -[winding_down staged_clear]].
(** The mark is the last statement. *)
#[local] Ltac mark := split; [done|right; intros [|]; cbn; done].

Lemma serialisable_revoked t u name eventID ctx tx p `{!NoArrivals (where_user t u)} :
  serialisable (λ _, False) (stages (revoked_delivery env upURL t u name eventID (tx_context p ctx tx) tt)).
Proof.
  cbn -[staged_clear staged_announceRemoved winding_down]. apply (serialisable_selection _ _ _ _ t); [done| | |].
  - intros d. unfold where_user, in_tenant. rewrite !andb_true_iff, bool_decide_eq_true. tauto.
  - intros e. cbn. done.
  - intros rows. cbn -[staged_clear staged_announceRemoved winding_down]. publish @publishes_each.
    + intros d. unfold Cascade.announceRemoved, staged_announceRemoved. destruct (bool_decide _); [by apply publishes_silent|].
      apply publishes_enqueue.
    + publish @publishes_each.
      * intros d. apply publishes_silent. destruct (bool_decide _); cbn -[staged_clear]; [done|].
        apply silent_cont; [apply silent_cont; [apply silent_clear|done]|]. by intros [[|]|]; cbn.
      * publish @publishes_each; [|mark]. intros d. apply publishes_silent. destruct (bool_decide _); cbn; [by intros [|]|done].
Qed.

Lemma serialisable_disabled t u name eventID ctx tx p `{!NoArrivals (where_delegate t u)} :
  serialisable (λ _, False) (stages (disabled_delivery env upURL t u name eventID (tx_context p ctx tx) tt)).
Proof.
  cbn -[staged_announceDisabled winding_down]. apply (serialisable_selection _ _ _ _ t); [done| | |].
  - intros d. unfold where_delegate, in_tenant. rewrite !andb_true_iff, bool_decide_eq_true. tauto.
  - intros e. cbn. done.
  - intros rows. cbn -[staged_announceDisabled winding_down]. publish @publishes_each.
    + intros d. unfold Cascade.announceDisabled, staged_announceDisabled.
      apply publishes_and_then; [apply publishes_enqueue|intros _; apply publishes_enqueue].
    + publish @publishes_each; [|mark]. intros d. apply publishes_silent. cbn; by intros [|].
Qed.

(** The others leave the policy of the tenant alone. *)
Class PolicyLeftAlone (t : uuid) : Prop := policy_left : ∀ n d, db_settings (env_others n d) !! t = db_settings d !! t.

Lemma policy_meanwhile t c c' : PolicyLeftAlone t → meanwhile c c' → db_settings c' !! t = db_settings c !! t.
Proof. intros Hp Hm. induction Hm as [|d1 d2 d3 [n ->] _ IH]; [done|]. by rewrite IH, policy_left. Qed.
(** Removing the policy, by a transaction that has not touched policies before. *)
Lemma remove_policy_stable tx t L c v :
  PolicyLeftAlone t → l_settings L = ∅ → db_settings v = db_settings c →
  let f db := Ok (tt, if rls_check_tenant tx t then SettingsRepo.with_settings (delete t (db_settings db)) db else db) in
  stable L c v (changes f) f.
Proof.
  intros Hp HL Hv f c' Hm _. pose proof (policy_meanwhile t c c' Hp Hm) as Hc'. unfold f, changes. do 2 f_equal.
  destruct (rls_check_tenant tx t); unfold rebase; simpl; rewrite !changed_self, ?union_empty_r_L; [|done].
  rewrite HL, union_empty_l_L, overlay_empty, Hv. unfold SettingsRepo.with_settings. simpl. f_equal. apply map_eq. intros k. rewrite lookup_overlay.
  destruct (decide (k = t)) as [->|Hne].
  - rewrite lookup_delete_eq. case_decide as Hk; [by rewrite lookup_delete_eq|]. rewrite Hc'. apply not_changed in Hk. by rewrite Hk, lookup_delete_eq.
  - rewrite lookup_delete_ne by done. case_decide as Hk; [|done]. apply elem_of_filter in Hk as [Hk _]. by rewrite lookup_delete_ne in Hk.
Qed.

Lemma serialisable_purged t name eventID ctx tx p `{!NoArrivals (where_tenant_live t)} `{!PolicyLeftAlone t} :
  serialisable (λ _, False) (stages (purged_delivery env upURL t name eventID (tx_context p ctx tx) tt)).
Proof.
  cbn -[winding_down]. apply serialisable_steady; [done|]. intros c Hc.
  pose proof (update_stable tx (where_tenant_live t) (set_DeletedAt (Some (tx_now tx))) c) as Hs.
  destruct (sql_update _ _ _ c) as [[rows c1]|e] eqn:Hu; [|done]. right. left. split.
  { apply Hs, (no_arrivals_no_new_rows _ _ t); [done|]. intros d. unfold where_tenant_live, in_tenant.
    rewrite andb_true_iff, bool_decide_eq_true. tauto. }
  assert (db_settings c1 = db_settings c) as Hset.
  { unfold sql_update in Hu. destruct (forallb _ _); [|done]. by injection Hu as _ <-. }
  clear Hs Hu. intros w <-. cbn -[winding_down changes lock_more]. intros c' v Hv. split; [done|]. right.
  assert (db_settings v = db_settings c') as Hset'.
  { destruct Hv as [[-> ->]|(_ & _ & ->)]; [done|]. simpl. by rewrite union_empty_l_L, overlay_empty. }
  split; [by apply remove_policy_stable|]. intros c2 v2 _. split; [done|by left].
Qed.
End arrivals.

(** ** As if one after the other

    Every attempt of a runner at [fn], with the others between its statements, is
    an uninterrupted one on what they have made of the tables by its end, or has
    changed nothing and says why, as in [Q]. *)
Definition as_if_serial `{E : Env} `{P : PgCommon} `{U : UuidLib} {A} (Q : result goerror A → Prop) (pub : Publisher) (fn : Ctx → A → M A)
    `{!∀ ctx tx cap, Staged (fn (tx_context pub ctx tx) cap)} : Prop :=
  ∀ pool ctx cap w, db_inv (w_db w) →
    let x := rc_attempt pool ctx (λ tx, stages (fn (tx_context pub ctx tx) cap)) w in
    ∃ d, meanwhile (w_db w) d ∧
      (x = isolated_attempt pool ctx (λ tx, fn (tx_context pub ctx tx) cap) (set_db d w)
       ∨ w_db x.2 = d ∧ settles_as Q x.1).

Section read_committed.
Context `{E : Env} `{P : PgCommon} `{U : UuidLib} `{T : TimeText} `{!LawfulOthers E}.

Lemma serialisable_as_if_serial {A} Q pub (fn : Ctx → A → M A) `{!∀ ctx tx cap, Staged (fn (tx_context pub ctx tx) cap)} :
  (∀ ctx tx cap, serialisable Q (stages (fn (tx_context pub ctx tx) cap))) → as_if_serial Q pub fn.
Proof. intros Hs pool ctx cap w Hw. apply rc_attempt_serialisable; [|done|done]. intros tx w'. apply run_stages. Qed.

(** C24. PostgreSQL's READ COMMITTED is enough for the program: although others
    commit between the statements of a transaction, waiting only for the rows it
    has locked, each transaction of the service and of the jobs on one delegation
    (the end of a cancellation, the insert of a creation, the end, the activation
    and the warning of the jobs) is an uninterrupted one that began after them, or
    changes nothing, because the delegation was gone or had moved on, and says so.
    The same holds of the deliveries of the cascade queue, effect and mark, as
    long as nobody brings new rows into the selection of the cascade. *)
Theorem read_committed_suffices repoPool pub st mc up ca idem ch runner mt bind bl rd ttl pe jm env upURL :
  let service := service_on repoPool st mc up ca idem ch runner mt in
  let job := jobs_on repoPool up runner bind bl rd ttl pe jm in
  (∀ t i d v reason actor, as_if_serial lost pub (endAndAnnounce service t i d v reason actor)) ∧
  (∀ t g req starts scheduled row, as_if_serial (λ _, False) pub (insertAndAnnounce service t g req starts scheduled row)) ∧
  (∀ d reason cron, as_if_serial raced pub (endInTx job d reason cron)) ∧
  (∀ d, as_if_serial raced pub (activateInTx job d)) ∧
  (∀ d days, as_if_serial raced pub (warnInTx job d days)) ∧
  (∀ t u name event, NoArrivals (where_user t u) → as_if_serial (λ _, False) pub (revoked_delivery env upURL t u name event)) ∧
  (∀ t u name event, NoArrivals (where_delegate t u) → as_if_serial (λ _, False) pub (disabled_delivery env upURL t u name event)) ∧
  (∀ t name event, NoArrivals (where_tenant_live t) → PolicyLeftAlone t →
     as_if_serial (λ _, False) pub (purged_delivery env upURL t name event)).
Proof.
  intros service job. split_and!; intros; apply serialisable_as_if_serial; intros ctx tx cap.
  - apply serialisable_endAndAnnounce.
  - apply serialisable_insertAndAnnounce.
  - apply serialisable_endInTx.
  - apply serialisable_activateInTx.
  - apply serialisable_warnInTx.
  - destruct cap. by apply serialisable_revoked.
  - destruct cap. by apply serialisable_disabled.
  - destruct cap. by apply serialisable_purged.
Qed.
End read_committed.
