(* ===== verification/HttpSpec.v ===== *)
(** * What the HTTP layer does

    The gates in front of the handlers, the authorization of the routes on one
    delegation, and the mapping of errors to responses, for the wired program. *)
From S2P Require Import Prelude GoLib Domain World Store StoreFacts EventBus Postgres Contracts StoreSpec PostgresSpec DelegationService CascadeService Http ServiceFacts DelegationSpec Config System SystemFacts SystemSpec.
Local Open Scope string_scope.
Local Open Scope Z_scope.

(** ** errors.go *)

(** The status the table of errors.go gives a sentinel. *)
Definition status_of (s : Sentinel) : option Z :=
  snd <$> head (filter (λ p, p.1 = s) errorStatusTable).

Lemma errorStatus_range : map_Forall (λ _ s, 400 ≤ s ≤ 503) errorStatusByCode.
Proof. apply (bool_decide_unpack _). vm_compute. done. Qed.

Section errors.
Context `{P : PgCommon}.

Lemma HandleError_range e : 400 ≤ rs_Status (HandleError e) ≤ 503.
Proof.
  unfold HandleError, writeErrorWithDetails, writeError. destruct (as_domain e) as [derr|].
  - assert (400 ≤ default 500 (errorStatusByCode !! Code derr) ≤ 503) as Hs.
    { destruct (errorStatusByCode !! Code derr) as [s|] eqn:Hl; simpl; [|lia].
      apply (errorStatus_range _ _ Hl). }
    by case_bool_decide.
  - destruct (_ || _); simpl; lia.
Qed.

(** Every domain error reaches the client under its own code with the status of
    the table, which has one for each of them and never 500, also from inside a
    wrapping error; any other error shows as 503 [db_unavailable] or as an opaque
    500, without a word of its text. *)
Theorem error_mapping e :
  match as_domain e with
  | Some derr =>
      rs_Payload (HandleError e) = PError (Code derr) (Details derr)
      ∧ ∀ s, Code derr = wire_code s →
          status_of s = Some (rs_Status (HandleError e)) ∧ rs_Status (HandleError e) ≠ 500
  | None => HandleError e ∈ [writeError 503 "db_unavailable"; writeError 500 "internal_server_error"]
  end.
Proof.
  unfold HandleError. destruct (as_domain e) as [derr|].
  - unfold writeErrorWithDetails, writeError. split.
    + case_bool_decide as Hd; [by rewrite Hd|done].
    + intros s Hs. rewrite Hs.
      assert (status_of s = errorStatusByCode !! wire_code s
        ∧ errorStatusByCode !! wire_code s ≠ None ∧ errorStatusByCode !! wire_code s ≠ Some 500) as (Hst & Hsome & H500)
        by (destruct s; vm_compute; done).
      destruct (errorStatusByCode !! wire_code s) as [z|]; [|done]. simpl.
      destruct (bool_decide _); simpl; (split; [done|congruence]).
  - destruct (_ || _); set_solver.
Qed.
End errors.

(** ** The routes on one delegation *)
Section routes.
Context `{E : Env} `{P : PgCommon} `{U : UuidLib} `{PL : !PgCommonLaws E P U} `{T : TimeText} `{LO : !LawfulOthers E}.
Context (env : Environ) (upURL omURL : string) (caURL : option string) (health : option bool * option bool * option bool * option bool).
#[local] Abbreviation handlers := (handlers env upURL omURL caURL health).

(** A refused request: an error response, and the tables as they were but for what
    others commit. *)
Definition refused (w : World) (res : result goerror Response) (w' : World) : Prop :=
  meanwhile (w_db w) (w_db w') ∧ ∃ resp, res = Ok resp ∧ 400 ≤ rs_Status resp.

Lemma wp_respond_refused (m : M Response) w :
  wp m (λ r w', meanwhile (w_db w) (w_db w') ∧ is_ok r = false) w → wp (respond m) (refused w) w.
Proof.
  intros Hm. unfold respond. apply wp_bind, wp_try. eapply wp_mono; [exact Hm|].
  intros [resp|e] w' [Hdb Hr]; [done|]. apply wp_ret. split; [done|]. eexists. split; [done|].
  apply HandleError_range.
Qed.

(** Neither the delegator nor an admin: [authorized] fails before the service runs. *)
Lemma wp_authorized_refused {A} idParam r rc i t w (k : uuid * uuid → M A) :
  db_inv (w_db w) → FromContext (rq_ctx r) = Some rc → uuid_Parse idParam = Some i →
  uuid_Parse (requestctx.TenantID rc) = Some t → requestctx.IsAdmin rc = false →
  (∀ db d, meanwhile (w_db w) db → live_row db t i d → uuid_String (DelegatorID d) ≠ requestctx.UserID rc) →
  wp (authorized (repo_reader delegationRepo) idParam r ≫= k) (λ r w', meanwhile (w_db w) (w_db w') ∧ is_ok r = false) w.
Proof.
  intros Hinv Hrc Hi Ht Hadm Hself. apply wp_bind. unfold authorized, parseUUIDParam, identityOrError, tenantOf.
  rewrite Hi. apply wp_bind, wp_ret. rewrite Hrc. apply wp_bind, wp_ret. rewrite Ht. apply wp_bind, wp_ret.
  apply wp_bind. unfold requireSelfOrAdmin, identityOrError. rewrite Hrc. apply wp_bind, wp_ret. apply wp_bind.
  eapply wp_mono; [apply (rc_FindByID AppRole (r:=delegationRepo)); done|].
  intros [d|e] w1 (db & Hm%begins_on_meanwhile & <- & Hd); [|done].
  rewrite bool_decide_false by (by eapply Hself). rewrite Hadm. by apply wp_throw.
Qed.

(** C29. Cancel, extend and reassign are refused to anyone who is neither the
    delegator of the delegation nor an admin of the tenant: the request gets an
    error and no table changes but by the commits of others, whatever the body says. *)
Theorem only_delegator_or_admin e idParam r rc i t w :
  e ∈ [ECancel idParam; EExtend idParam; EReassign idParam] →
  db_inv (w_db w) → rq_identity r = Some rc → rq_ctx r = background →
  uuid_Parse idParam = Some i → uuid_Parse (requestctx.TenantID rc) = Some t →
  requestctx.IsAdmin rc = false →
  (∀ db d, meanwhile (w_db w) db → live_row db t i d → uuid_String (DelegatorID d) ≠ requestctx.UserID rc) →
  wp (dispatch handlers e r) (refused w) w.
Proof.
  intros He Hinv Hid Hctx Hi Ht Hadm Hself.
  assert (FromContext (rq_ctx (tenantGUCMiddleware (h_bind handlers) (ContextMiddleware r))) = Some rc) as Hrc.
  { unfold ContextMiddleware. rewrite Hid. unfold tenantGUCMiddleware. simpl. unfold bindTenantGUC. by rewrite Ht. }
  apply elem_of_cons in He as [->|He]; [|apply elem_of_cons in He as [->|He]; [|apply list_elem_of_singleton in He as ->]];
    simpl; unfold public; rewrite Hid; apply wp_respond_refused; by eapply wp_authorized_refused.
Qed.

(** C30. The gates let nothing through.  Without a gateway identity every public
    endpoint answers 401; a creation without a usable Idempotency-Key (missing,
    blank, or over 1024 bytes) is a 400; changing the tenant's policy without an
    admin role is a 403; in each case the world is exactly as it was. *)
Theorem public_gates r w :
  (rq_identity r = None → ∀ e, is_internal e = false → e ≠ EHealthz → e ≠ EReadyz →
     dispatch handlers e r w = (Ok (mkResponse 401 PNone), w))
  ∧ (rq_identity r ≠ None →
     Utf8.blank (rq_Header r "Idempotency-Key") = true
     ∨ (1024 < String.length (rq_Header r "Idempotency-Key"))%nat →
     ∃ resp, dispatch handlers ECreate r w = (Ok resp, w) ∧ rs_Status resp = 400)
  ∧ (∀ rc, rq_identity r = Some rc → rq_ctx r = background → requestctx.IsAdmin rc = false →
     ∃ resp, dispatch handlers ESettingsSet r w = (Ok resp, w) ∧ rs_Status resp = 403).
Proof.
  split; [|split].
  - intros Hid e Hint Hh Hr. destruct e; try done; simpl; unfold public; by rewrite Hid.
  - intros Hid Hkey. simpl. unfold public. destruct (rq_identity r) as [rc|] eqn:Hrc; [|done].
    assert (rq_Header (tenantGUCMiddleware (h_bind handlers) (ContextMiddleware r)) = rq_Header r) as Hsame.
    { unfold ContextMiddleware. rewrite Hrc. unfold tenantGUCMiddleware. by destruct (FromContext _). }
    unfold requireIdempotencyKey. rewrite Hsame.
    assert (Utf8.blank (rq_Header r "Idempotency-Key") || (maxIdempotencyKeyLen <? Z.of_nat (String.length (rq_Header r "Idempotency-Key"))) = true) as ->.
    { destruct Hkey as [->|Hlen]; [done|]. apply orb_true_iff. right. apply Z.ltb_lt. unfold maxIdempotencyKeyLen. lia. }
    eexists. split; [done|]. done.
  - intros rc Hid Hctx Hadm. simpl. unfold public. rewrite Hid. unfold RequireAnyRole.
    assert (FromContext (rq_ctx (tenantGUCMiddleware (h_bind handlers) (ContextMiddleware r))) = Some rc) as ->.
    { unfold ContextMiddleware. rewrite Hid. unfold tenantGUCMiddleware. simpl. unfold bindTenantGUC.
      by destruct (uuid_Parse _). }
    assert (existsb (requestctx.HasRole rc) settingsSetRoles = false) as ->.
    { unfold requestctx.IsAdmin in Hadm. simpl. by rewrite orb_false_r. }
    eexists. split; [done|]. done.
Qed.

End routes.

(** ** The tenant policy *)
Section policy.
Context `{E : Env} `{P : PgCommon} `{U : UuidLib} `{PL : !PgCommonLaws E P U} `{LO : !LawfulOthers E}.

(** The policy is stored only within bounds: outside 1 to 180 days either value
    is refused with its own error and nothing is written; inside, exactly the two
    values are stored over the policy the transaction finds, with a version that
    starts at 1 and grows by one with every real change. *)
Theorem policy_bounds ctx t m v w :
  db_inv (w_db w) → sees AppRole ctx t →
  wp (Settings.Set_ settingsRepo ctx t m v) (λ r w',
    match r with
    | Ok s => 1 ≤ m ≤ 180 ∧ 1 ≤ v ≤ 180 ∧ MaxDurationDays s = m ∧ ts_ReviewWindowDays s = v
        ∧ ∃ db, begins_on ctx (w_db w) db ∧ w_db w' = with_settings_of t (Some s) db
        ∧ match db_settings db !! t with
          | None => ts_RecordVersion s = 1
          | Some old => s = old ∨ ts_RecordVersion s = ts_RecordVersion old + 1
          end
    | Err e => begins_on ctx (w_db w) (w_db w') ∧
        (¬ 1 ≤ m ≤ 180 → is_sentinel ErrInvalidDelegationMaxDurationDays e = true)
        ∧ (1 ≤ m ≤ 180 → ¬ 1 ≤ v ≤ 180 → is_sentinel ErrInvalidDelegationReviewWindow e = true)
    end) w.
Proof.
  intros Hinv Hsees. unfold Settings.Set_.
  assert (∀ n, Settings.in_policy n = true ↔ 1 ≤ n ≤ 180) as Hpol.
  { intros n. unfold Settings.in_policy, PolicyDaysMin, PolicyDaysMax.
    rewrite negb_true_iff, orb_false_iff, !Z.ltb_ge. done. }
  destruct (Settings.in_policy m) eqn:Hm; [apply Hpol in Hm|].
  2:{ apply wp_throw. assert (¬ 1 ≤ m ≤ 180) by (rewrite <- Hpol; congruence). split; [apply begins_on_refl|]. split; [done|tauto]. }
  destruct (Settings.in_policy v) eqn:Hv; [apply Hpol in Hv|].
  2:{ apply wp_throw. assert (¬ 1 ≤ v ≤ 180) by (rewrite <- Hpol; congruence). split; [apply begins_on_refl|]. split; [tauto|done]. }
  simpl. eapply wp_mono; [apply (rc_settings_Upsert AppRole (r:=settingsRepo)); done|].
  intros [s|e] w' (db & Hb & H).
  - destruct H as (_ & ? & ? & ? & ?). do 4 (split; [done|]). by exists db.
  - destruct H as [-> _]. split; [done|]. split; [tauto|]. intros _ Hn. tauto.
Qed.
End policy.
