(* ===== verification/RequestSpec.v ===== *)
(** * The checks of create

    What a request must satisfy to be accepted, exactly, and why an accepted one
    cannot be rejected by the database. *)
From S2P Require Import Prelude GoLib Domain World Store StoreFacts Contracts DelegationService.
Local Open Scope string_scope.
Local Open Scope Z_scope.

(** C31. The time window is accepted exactly when a given start is no more than the
    five-second skew in the past and no more than 365 days ahead, an end comes
    after the start, and the span is within the tenant's limit, to the nanosecond
    and without overflow, however far apart the two instants are. *)
Theorem window_accepted_iff now req n :
  1 ≤ n ≤ 180 →
  (checkWindow now req = Ok tt ∧ checkSpan (startOf now req) n req = Ok tt)
  ↔ (∀ st, ci_StartsAt req = Some st → now - 5 * Second ≤ st ≤ now + 365 * Day)
    ∧ (∀ e, ci_EndsAt req = Some e → startOf now req < e ≤ startOf now req + n * Day).
Proof.
  intros Hn. unfold checkWindow, checkSpan.
  assert (∀ e st, (Days n <? Sub e st) = (n * Day <? e - st)) as Hspan.
  { intros e st. rewrite Days_exact by lia.
    pose proof (Sub_gt e st (n * Day)) as Hs. rewrite !Z.gtb_ltb in Hs. apply Hs.
    unfold min_int64, max_int64, Day, Hour, Minute, Second. lia. }
  assert (maxFutureStart = 365 * Day) as -> by done.
  set (st := startOf now req).
  assert (∀ s, ci_StartsAt req = Some s → st = s) as Hst by (intros s Hs; unfold st, startOf; by rewrite Hs).
  unfold Before, After, Add, skewTolerance.
  destruct (ci_StartsAt req) as [s|] eqn:Hs; [rewrite (Hst s eq_refl) in *|]; simpl.
  - destruct (Z.ltb_spec s (now + - (5 * Second))); [split; [by intros [? _]|intros [Hs1 _]; specialize (Hs1 s eq_refl); lia]|].
    destruct (Z.ltb_spec (now + 365 * Day) s); [split; [by intros [? _]|intros [Hs1 _]; specialize (Hs1 s eq_refl); lia]|].
    destruct (ci_EndsAt req) as [e|]; simpl; [|split; [|done]; intros _; split; [|done]; intros ? [= <-]; lia].
    rewrite Hspan. destruct (Z.ltb_spec s e); simpl;
      [|split; [by intros [? _]|intros [_ He2]; specialize (He2 e eq_refl); lia]].
    destruct (Z.ltb_spec (n * Day) (e - s)); [split; [by intros [_ ?]|intros [_ He2]; specialize (He2 e eq_refl); lia]|].
    split; [|done]. intros _. split; [intros ? [= <-]|intros ? [= <-]]; lia.
  - destruct (ci_EndsAt req) as [e|]; simpl; [|split; [|done]; intros _; split; done].
    rewrite Hspan. destruct (Z.ltb_spec st e); simpl;
      [|split; [by intros [? _]|intros [_ He2]; specialize (He2 e eq_refl); lia]].
    destruct (Z.ltb_spec (n * Day) (e - st)); [split; [by intros [_ ?]|intros [_ He2]; specialize (He2 e eq_refl); lia]|].
    split; [|done]. intros _. split; [done|]. intros ? [= <-]. lia.
Qed.

(** The next condition of a chain of early returns is false, the chain having
    ended well. *)
Ltac refused_unless H N :=
  match type of H with (if ?b then Err _ else _) = Ok _ => destruct b eqn:N; [congruence|] end.


Section memberships.
Context `{E : Env} `{U : UuidLib}.
Context (s : DelegationService) (ctx : Ctx) (t u d : uuid).
Context (a1 a2 : result goerror (bool * uuid)).

(** What the two answers of the membership service amount to. *)
Definition verdict : result goerror (uuid * uuid) :=
  match a1, a2 with
  | Ok (true, i1), Ok (true, i2) => Ok (i1, i2)
  | Ok _, Ok _ => Err (NewError ErrInvalidDelegate "delegator or delegate is not an active member")
  | _, _ => Err (NewError ErrOrgMembershipUnavailable "membership check unavailable")
  end.

(** C33. The two concurrent membership checks fail closed: only two positive answers
    let a create through, a failed check is an unavailability even when the other
    said no, and the verdict does not depend on which goroutine runs first. *)
Theorem membership_fail_closed w :
  (∀ w, (mc_Exists (membershipCheck s) ctx t u w).1 = a1) →
  (∀ w, (mc_Exists (membershipCheck s) ctx t d w).1 = a2) →
  (checkBothMemberships s ctx t u d w).1 = verdict.
Proof.
  intros H1 H2.
  enough (wp (checkBothMemberships s ctx t u d) (λ r _, r = verdict) w) as Hw by exact Hw.
  unfold checkBothMemberships, concurrently. apply wp_bind, wp_bind, wp_intro. simpl.
  assert (∀ w1, wp (match (a1, a2) with
    | (Ok (active1, id1), Ok (active2, id2)) =>
      if negb active1 || negb active2
      then throw (NewError ErrInvalidDelegate "delegator or delegate is not an active member")
      else mret (id1, id2)
    | _ => throw (NewError ErrOrgMembershipUnavailable "membership check unavailable")
    end : M (uuid * uuid)) (λ r _, r = verdict) w1) as Hend.
  { intros w1. unfold verdict. by destruct a1 as [[[] ?]|?], a2 as [[[] ?]|?]. }
  destruct (env_schedule _); apply wp_bind, wp_try, wp_intro; rewrite ?H1, ?H2;
    apply wp_bind, wp_try, wp_intro; rewrite ?H1, ?H2; apply wp_ret, Hend.
Qed.
End memberships.
