(* ===== verification/ValkeySpec.v ===== *)
(** * What the service does with Valkey

    The idempotency key of create and the list cache, for the wired service: a
    replay, the exclusive claim of a key, reads and the invalidation by writes. *)
From S2P Require Import Prelude GoLib Domain World Store StoreFacts MetricsRec Valkey EventBus HttpClients Postgres Contracts StoreSpec PostgresSpec ClientFacts DelegationService ServiceFacts DelegationSpec Config System SystemFacts SystemSpec.
Local Open Scope string_scope.
Local Open Scope Z_scope.

(** ** The client: no command of it waits for ever by default

    What the address says about timeouts is kept; what it leaves out is bounded by
    a tenth of a second. *)
Theorem NewClient_bounded ParseURL addr :
  let opts := Client.NewClient ParseURL addr in
  Forall (λ t, t ≠ 0) [Client.DialTimeout opts; Client.ReadTimeout opts; Client.WriteTimeout opts]
  ∧ match ParseURL addr with
    | Some given =>
        Client.Addr opts = Client.Addr given
        ∧ Forall (λ p : (Client.Options → Duration), p given ≠ 0 → p opts = p given)
            [Client.DialTimeout; Client.ReadTimeout; Client.WriteTimeout]
    | None => opts = Client.mkOptions addr (100 * Millisecond) (50 * Millisecond) (50 * Millisecond)
    end.
Proof.
  unfold Client.NewClient, Client.or_default. destruct (ParseURL addr) as [[a d r v]|]; simpl;
    [|by repeat constructor].
  split; [|split; [done|]]; repeat constructor; simpl; case_match; rewrite ?Z.eqb_eq, ?Z.eqb_neq in *; done.
Qed.

(** ** What leaves the keyspace alone *)
Definition same_keyspace (w w' : World) : Prop := w_kv w' = w_kv w.
#[export] Instance same_keyspace_preorder : PreOrder same_keyspace.
Proof. split; unfold same_keyspace; [done|]. intros w1 w2 w3. congruence. Qed.
Abbreviation QuietKv m := (Within same_keyspace m) (only parsing).

Section quiet.
Context `{E : Env} `{P : PgCommon} `{U : UuidLib} `{PL : !PgCommonLaws E P U} `{T : TimeText}.

(** A relation on worlds that interactions and changes of the tables respect
    bounds the database operations. *)
Class DbBlind (R : relation World) : Prop := {
  db_blind_pre : PreOrder R;
  db_blind_step : ∀ w, R w (next_step w);
  db_blind_db : ∀ w w' d, R w w' → R w (set_db d w');
}.
#[export] Existing Instance db_blind_pre.

Lemma blind_db_step R : DbBlind R → Within R db_step.
Proof. intros HR w. unfold db_step. destruct (env_db_fault (w_step w)); apply db_blind_step. Qed.
Lemma blind_stmt {A} R (f : Db → result goerror (A * Db)) : DbBlind R → Within R (stmt f).
Proof.
  intros HR w. change (wp (stmt f) (λ _ w', R w w') w).
  apply wp_stmt; intros; try apply db_blind_db; apply db_blind_step.
Qed.
Lemma blind_withPool {A} R ctx pool (fn : Tx → M A) :
  DbBlind R → (∀ tx, Within R (fn tx)) → Within R (withPool ctx pool fn).
Proof.
  intros HR Hfn. unfold withPool. destruct (TxFromContext ctx); apply within_wrap_conn; [apply Hfn|]. intros w.
  rewrite RunInTx_runs. unfold tx_attempt. etransitivity; [by apply (db_blind_db w w (env_others (w_step w) (w_db w)))|].
  fold (others_commit w). generalize (others_commit w). clear w. intros w. unfold isolated_attempt.
  assert (wp (begin_tx pool ctx ≫= fn) (λ _ w', R w w') w) as Hwp.
  { apply wp_bind, wp_begin_tx; [intros; apply db_blind_step|]. intros tx w1 _ ->.
    eapply wp_mono; [apply (within_wp _ _ _ (Hfn tx))|]. intros r w2 H2.
    do 2 (etransitivity; [apply db_blind_step|]). exact H2. }
  unfold wp in Hwp. destruct ((begin_tx pool ctx ≫= fn) w) as [[a|e] w1]; simpl in *; [|by apply db_blind_db].
  pose proof (blind_db_step R HR w1) as Hc. destruct (db_step w1) as [[]w2]; simpl in *;
    [|apply db_blind_db]; by etransitivity.
Qed.
Lemma blind_FindByID R pool ctx t i : DbBlind R → Within R (Repo.FindByID pool ctx t i).
Proof.
  intros HR. apply blind_withPool; [done|]. intros tx. within_rule; [by apply blind_stmt|]. within_rule; apply _.
Qed.

#[export] Instance outside_blind : DbBlind same_outside.
Proof. split; [apply _|done|done]. Qed.
(** The interaction counter never goes back. *)
Definition later (w w' : World) : Prop := (w_step w ≤ w_step w')%nat.
#[export] Instance later_blind : DbBlind later.
Proof. split; [split; unfold later; [intros w|intros w1 w2 w3]; lia|intros w|intros w w' d]; unfold later; simpl; lia. Qed.

Lemma reads_FindByID pool ctx t i : Within (DbRel meanwhile) (Repo.FindByID pool ctx t i).
Proof.
  apply within_withPool; [apply _..|]. intros tx _. within_rule; [apply within_query, _|]. within_rule; apply _.
Qed.

Lemma steps_Get ctx t key : Within later (Idempotency.Get ctx t key).
Proof.
  unfold Idempotency.Get. apply within_bind; [apply _| |intros [[]|]; apply _].
  intros w. unfold GET, kv_cmd, later. destruct (env_kv_fault (w_step w)); simpl; lia.
Qed.

#[export] Instance quietkv_inc name labels : QuietKv (inc name labels).
Proof. by intros w. Qed.
#[export] Instance quietkv_Do pkg req : QuietKv (Do pkg req).
Proof. intros w. unfold Do. destruct (negb _); [done|]. by destruct (env_http _ _). Qed.
#[export] Instance quietkv_SetAvailability url ctx req : QuietKv (up_SetAvailability (UserProfile.client url) ctx req).
Proof.
  simpl. unfold UserProfile.SetAvailability, instrumented, UserProfile.setAvailability, UserProfile.command_answer,
    IncDependencyError, Metrics_IncDependencyError. repeat first [within_rule | apply _].
Qed.
End quiet.

(** A phase whose outcome does not matter. *)
Lemma wp_any {W E A B} (m : GoM W E A) (k : A → GoM W E B) Q w :
  (∀ a w1, wp (k a) Q w1) → (∀ e w1, Q (Err e) w1) → wp (m ≫= k) Q w.
Proof. intros Hk He. apply wp_bind. apply wp_intro. destruct (m w).1; [apply Hk|apply He]. Qed.

(** ** The idempotency key *)
Section key.
Context `{E : Env} `{P : PgCommon} `{U : UuidLib} `{PL : !PgCommonLaws E P U} `{T : TimeText}.
Context (upURL omURL : string) (caURL : option string).
#[local] Abbreviation svc := (delegationService upURL omURL caURL).
#[local] Abbreviation slot t key := (Idempotency.idempotencyKey t key).

Definition idempotency_hits (w : World) : Z := count w "iam_delegation_idempotency_hits_total" [].

Lemma GET_ok k w : env_kv_fault (w_step w) = None →
  GET k w = (Ok (kv_live (env_clock (w_step w)) (w_kv w) k), next_step w).
Proof. intros Hf. unfold GET, kv_cmd. rewrite Hf. by destruct w. Qed.
Lemma SetNX_taken k v ttl w : kv_live (env_clock (w_step w)) (w_kv w) k ≠ None →
  SetNX k v ttl w = (match env_kv_fault (w_step w) with Some e => Err e | None => Ok false end, next_step w).
Proof.
  intros Hl. unfold SetNX, kv_cmd. destruct (env_kv_fault (w_step w)); [done|].
  destruct (kv_live _ _ _); [|done]. by destruct w.
Qed.

Lemma Get_recorded ctx t key rec w :
  env_kv_fault (w_step w) = None →
  kv_live (env_clock (w_step w)) (w_kv w) (slot t key) = Some (KVIdem rec) →
  Idempotency.Get ctx t key w = (Ok (Some rec), next_step w).
Proof. intros Hf Hl. unfold Idempotency.Get. erewrite bind_ok by (by apply GET_ok). by rewrite Hl. Qed.

(** The last resort of a claim: SET NX. *)
Definition reserve ctx t key : M claim :=
  reserved ← try (Idempotency.Reserve ctx t key);
  match reserved with
  | Ok true => mret (Proceed true)
  | Ok false => throw in_flight
  | Err _ => mret (Proceed false)
  end.

(** A claim of a key, as what it finds in the slot decides it. *)
Lemma claim_cases ctx t key w :
  key ≠ EmptyString →
  claimIdempotencyKey svc ctx t key w =
  match Idempotency.Get ctx t key w with
  | (Ok (Some rec), w1) =>
      if bool_decide (ir_Status rec = "created")
      then match Repo.FindByID AppRole ctx t (ir_DelegationID rec) w1 with
           | (Ok d, w2) => (Ok (Replayed d), (RecordIdempotencyHit w2).2)
           | (Err _, w2) => reserve ctx t key w2
           end
      else (Err in_flight, w1)
  | (_, w1) => reserve ctx t key w1
  end.
Proof.
  intros Hkey. unfold claimIdempotencyKey. rewrite bool_decide_false by done. simpl.
  destruct (Idempotency.Get ctx t key w) as [[[rec|]|e] w1] eqn:Hg; erewrite try_bind by exact Hg; cbv iota;
    [|reflexivity..].
  case_bool_decide; [|reflexivity].
  destruct (Repo.FindByID AppRole ctx t (ir_DelegationID rec) w1) as [[d|e] w2] eqn:Hd;
    erewrite try_bind by exact Hd; reflexivity.
Qed.


Lemma live_slot now kv k v expiry : kv !! k = Some (v, expiry) → now < expiry → kv_live now kv k = Some v.
Proof. intros Hk Hlt. unfold kv_live. rewrite Hk. apply Z.ltb_lt in Hlt. by rewrite Hlt. Qed.

Lemma reserve_reserved ctx t key w w1 :
  reserve ctx t key w = (Ok (Proceed true), w1) →
  w_step w1 = S (w_step w)
  ∧ w_kv w1 !! slot t key = Some (KVIdem Idempotency.pending, env_clock (w_step w) + 24 * Hour).
Proof.
  unfold reserve, Idempotency.Reserve, SetNX, kv_cmd, mbind, gom_bind, try.
  destruct (env_kv_fault (w_step w)); [done|]. destruct (kv_live _ _ _); [done|].
  simpl. intros [= <-]. split; [done|]. apply lookup_insert_eq.
Qed.

Lemma claim_reserved ctx t key w w1 :
  key ≠ EmptyString → claimIdempotencyKey svc ctx t key w = (Ok (Proceed true), w1) →
  ∃ n, (w_step w ≤ n < w_step w1)%nat
       ∧ w_kv w1 !! slot t key = Some (KVIdem Idempotency.pending, env_clock n + 24 * Hour).
Proof.
  intros Hkey. rewrite claim_cases by done.
  assert (∀ w', (w_step w ≤ w_step w')%nat → reserve ctx t key w' = (Ok (Proceed true), w1) →
    ∃ n, (w_step w ≤ n < w_step w1)%nat
       ∧ w_kv w1 !! slot t key = Some (KVIdem Idempotency.pending, env_clock n + 24 * Hour)) as Hres.
  { intros w' Hle Hr. apply reserve_reserved in Hr as [Hs Hk]. exists (w_step w'). split; [lia|done]. }
  pose proof (steps_Get ctx t key w) as H1.
  destruct (Idempotency.Get ctx t key w) as [[[rec|]|e] w'] eqn:Hg; [|by apply Hres..].
  case_bool_decide; [|done]. pose proof (blind_FindByID later AppRole ctx t (ir_DelegationID rec) _ w') as H2.
  destruct (Repo.FindByID AppRole ctx t (ir_DelegationID rec) w') as [[d|e] w''] eqn:Hd; [done|].
  apply Hres. unfold later in *. simpl in *. lia.
Qed.

(** C26. A key is claimed by one request at a time: after a claim succeeded, and
    until the claim is replaced, released or a day old, no other request obtains
    it, Valkey failures included; as long as Valkey answers, the others are told
    409 without any further effect. *)
Theorem key_claimed_once ctx ctx' t key w w1 :
  claimIdempotencyKey svc ctx t key w = (Ok (Proceed true), w1) →
  ∃ n, (w_step w ≤ n < w_step w1)%nat ∧
    let held := Some (KVIdem Idempotency.pending, env_clock n + 24 * Hour) in
    w_kv w1 !! slot t key = held ∧
    ∀ w2, w_kv w2 !! slot t key = held →
      env_clock (w_step w2) < env_clock n + 24 * Hour → env_clock (S (w_step w2)) < env_clock n + 24 * Hour →
      (claimIdempotencyKey svc ctx' t key w2).1 ≠ Ok (Proceed true)
      ∧ (env_kv_fault (w_step w2) = None → claimIdempotencyKey svc ctx' t key w2 = (Err in_flight, next_step w2)).
Proof.
  intros Hc.
  assert (key ≠ EmptyString) as Hkey by (intros ->; unfold claimIdempotencyKey in Hc; by rewrite bool_decide_true in Hc).
  destruct (claim_reserved ctx t key w w1 Hkey Hc) as (n & Hn & Hheld). exists n. split; [done|]. split; [done|].
  intros w2 Hslot Hnow Hnext. split.
  - rewrite (claim_cases ctx' t key w2 Hkey). unfold Idempotency.Get.
    assert (∀ w3, w_kv w3 = w_kv w2 → w_step w3 = S (w_step w2) → (reserve ctx' t key w3).1 ≠ Ok (Proceed true)) as Hno.
    { intros w3 Hkv Hst. unfold reserve. erewrite try_bind by (apply SetNX_taken; by rewrite Hkv, Hst, (live_slot _ _ _ _ _ Hslot)).
      by destruct (env_kv_fault (w_step w3)). }
    destruct (env_kv_fault (w_step w2)) as [e|] eqn:Hf.
    + assert (GET (slot t key) w2 = (Err e, next_step w2)) as Hg by (unfold GET, kv_cmd; by rewrite Hf).
      unfold mbind, gom_bind. rewrite Hg. by apply Hno.
    + erewrite bind_ok by (by apply GET_ok). by rewrite (live_slot _ _ _ _ _ Hslot).
  - intros Hf. rewrite (claim_cases ctx' t key w2 Hkey).
    by rewrite (Get_recorded ctx' t key Idempotency.pending w2 Hf (live_slot _ _ _ _ _ Hslot Hnow)).
Qed.
End key.

(** ** The list cache *)
Section list_cache.
Context `{E : Env} `{P : PgCommon} `{U : UuidLib} `{PL : !PgCommonLaws E P U} `{T : TimeText} `{CL : !SaneClock E} `{LO : !LawfulOthers E} `{UI : !UniqueIds E}.
Context (upURL omURL : string) (caURL : option string).
#[local] Abbreviation svc := (delegationService upURL omURL caURL).
#[local] Abbreviation slot t u := (ListCache.delegatorListKey t u).

(** The active, live delegations of a delegator, newest start first. *)
Definition active_list (db : Db) (t u : uuid) (l : list Delegation) : Prop :=
  (∀ d, d ∈ l ↔ live_row db t (ID d) d ∧ DelegatorID d = u ∧ Status d = DelegationActive)
  ∧ Sorted (desc_by StartsAt) l.

Lemma wp_ListByDelegator ctx t u w :
  db_inv (w_db w) → sees AppRole ctx t →
  wp (Repo.ListByDelegator AppRole ctx t u) (λ r w',
    (meanwhile (w_db w) (w_db w') ∧ match r with Ok l => active_list (w_db w') t u l | Err _ => True end) ∧ same_outside w w') w.
Proof.
  intros Hinv Hsees. apply wp_and.
  2:{ apply (blind_withPool same_outside ctx AppRole _ _). intros tx. apply blind_stmt, _. }
  eapply wp_mono.
  { apply (wp_method_inv ctx AppRole _ (λ db l db', db' = db ∧ active_list db t u l) (λ _ _, True) w Hinv). clear w Hinv.
    intros w Hinv tx w1 Htx Hdb. apply wp_query; [intros e He; by apply (fault_unchanged _ _ w)|]. split; [done|].
    simpl. rewrite Hdb. split; [|apply Sorted_merge_sort; intros a b; unfold desc_by; lia].
    intros d. unfold order_by_desc. rewrite merge_sort_Permutation, elem_of_sql_select.
    assert (selected tx (where_active_of t u) d = true ↔ rls_check_tenant tx (TenantID d) = true ∧
      TenantID d = t ∧ DelegatorID d = u ∧ Status d = DelegationActive ∧ DeletedAt d = None) as Hsel.
    { unfold selected, where_active_of, in_tenant, has_status, is_live.
      rewrite !andb_true_iff, !bool_decide_eq_true. tauto. }
    unfold live_row. split.
    - intros (k & Hk & Hs%Hsel). destruct (inv_row _ Hinv k d Hk) as [-> _]. tauto.
    - intros ((Hd & Ht & Hdel) & Hu & Hs). exists (ID d). split; [done|]. apply Hsel.
      rewrite Ht, (Hsees tx Htx). tauto. }
  intros [l|e] w' (db & Hm%begins_on_meanwhile & [-> H]); [|done]. done.
Qed.

Lemma GetDelegatorList_run ctx t u w :
  ∃ o, ListCache.GetDelegatorList ctx t u w = (Ok o, next_step w)
       ∧ ∀ l, o = Some l → kv_live (env_clock (w_step w)) (w_kv w) (slot t u) = Some (KVList l).
Proof.
  unfold ListCache.GetDelegatorList. destruct (env_kv_fault (w_step w)) as [e|] eqn:Hf.
  - exists None. split; [|done]. assert (GET (slot t u) w = (Err e, next_step w)) as Hg by (unfold GET, kv_cmd; by rewrite Hf).
    by erewrite try_bind by exact Hg.
  - pose proof (GET_ok (slot t u) w Hf) as Hg.
    destruct (kv_live (env_clock (w_step w)) (w_kv w) (slot t u)) as [[l|r|]|];
      erewrite try_bind by exact Hg; eexists; (split; [reflexivity|]); congruence.
Qed.
Lemma wp_SetDelegatorList ctx t u l w :
  wp (ListCache.SetDelegatorList ctx t u l) (λ r w', r = Ok tt ∧ w_db w' = w_db w ∧
    (w_kv w' = w_kv w ∨ ∃ n, w_kv w' = <[slot t u := (KVList l, env_clock n + 60 * Second)]> (w_kv w))) w.
Proof.
  unfold ListCache.SetDelegatorList. apply wp_bind, wp_try, wp_intro, wp_ret. split; [done|].
  unfold SET, kv_cmd. destruct (env_kv_fault (w_step w)); simpl; [by auto|]. split; [done|]. right. by exists (w_step w).
Qed.


Lemma wp_invalidate t u w : (∀ n, env_kv_fault n = None) → ∀ ctx,
  wp (ListCache.InvalidateDelegatorList ctx t u) (λ _ w', w_kv w' !! slot t u = None) w.
Proof.
  intros Hf ctx. unfold ListCache.InvalidateDelegatorList. apply wp_bind, wp_try, wp_intro, wp_ret.
  unfold DEL, kv_cmd. rewrite Hf. apply lookup_delete_eq.
Qed.
#[local] Instance quietkv_recorder (m : M unit) : Recorder m → QuietKv m.
Proof. intros Hm w. destruct (Hm w) as (w1 & -> & _ & Hkv & _). done. Qed.
#[local] Instance quietkv_best_effort path (m : M unit) : QuietKv m → QuietKv (best_effort svc path m).
Proof. intros Hm. unfold best_effort. simpl. repeat first [within_rule | apply _]. Qed.

Lemma wp_createClaimed_invalidates ctx t u key req w :
  (∀ n, env_kv_fault n = None) →
  wp (createClaimed svc ctx t u key req) (λ r w', is_ok r = true → w_kv w' !! slot t u = None) w.
Proof.
  intros Hf. unfold createClaimed. repeat (apply wp_any; [intros ? ?|done]; cbv zeta).
  match goal with o : result goerror (option Delegation) |- _ => destruct o as [[d|]|e] end; [|done|by apply wp_any].
  unfold afterCreate. apply wp_any; [|done]. intros [] w'. apply wp_bind. simpl.
  eapply wp_mono; [by apply wp_invalidate|]. intros [[]|e] w'' Hgone; [|done].
  apply wp_bind, wp_intro. simpl. apply wp_ret. by intros _.
Qed.

Lemma wp_cancel_invalidates ctx t i v reason w :
  outermost outboxPublisher ctx → (∀ n, env_kv_fault n = None) → db_inv (w_db w) →
  wp (cancelInternal svc ctx t i v reason) (λ r w', ∀ d, r = Ok d → w_kv w' !! slot t (DelegatorID d) = None) w.
Proof.
  intros Hctx Hf Hinv. unfold cancelInternal. apply wp_bind.
  eapply wp_mono; [apply (rc_FindByID AppRole (r:=delegationRepo)); done|].
  intros [d|e] w1 (db & Hm%begins_on_meanwhile & <- & Hd); [|done]. destruct (meanwhile_inv _ _ Hm Hinv) as [Hinv1 _].
  apply wp_advisory; [by apply (advisory_best_effort AppRole outboxPublisher svc _ _ (quiet_ClearDelegatePointer _ _ _))|intros w2 Hdb2; cbv zeta].
  apply wp_bind. eapply wp_mono; [apply (wp_endTx AppRole outboxPublisher svc); [done|by rewrite Hdb2..]|].
  intros [o|e] w3 (db & _ & Ho); [|done]. destruct Ho as (d' & -> & Hu & _).
  apply wp_bind. eapply wp_mono; [by apply wp_invalidate|]. intros [[]|e] w4 Hgone; [|done].
  apply wp_bind, wp_intro. simpl. apply wp_ret. intros ? [= <-]. by rewrite Hu.
Qed.

(** C28. A write is not hidden by the cache: as long as Valkey answers, after a
    create, a cancellation or an extension succeeded the cached list of the
    delegator it concerns is gone. *)
Theorem writes_invalidate_list ctx t u i v days key req w :
  outermost outboxPublisher ctx → db_inv (w_db w) → (∀ n, env_kv_fault n = None) →
  wp (Create svc ctx t u key req) (λ r w', is_ok r = true → meanwhile (w_db w) (w_db w') ∨ w_kv w' !! slot t u = None) w
  ∧ wp (Cancel svc ctx t i v) (λ r w', ∀ d, r = Ok d → w_kv w' !! slot t (DelegatorID d) = None) w
  ∧ wp (Extend svc ctx t i days v) (λ r w', ∀ d, r = Ok d → w_kv w' !! slot t (DelegatorID d) = None) w.
Proof.
  intros Hctx Hinv Hf. split; [|split].
  - unfold Create. apply wp_bind. eapply wp_mono; [by apply (wp_claim AppRole outboxPublisher svc)|].
    intros [[d|reserved]|e] w1 [Hdb1 _]; [apply wp_ret; by left| |done].
    apply wp_bind, wp_try. eapply wp_mono; [by apply wp_createClaimed_invalidates|].
    intros [d|e] w2 Hk; [|by apply wp_any].
    apply wp_bind, wp_ret, wp_of_result. intros _. right. by apply Hk.
  - by apply wp_cancel_invalidates.
  - unfold Extend. destruct (match days with Some n => _ | None => _ end); [done|].
    apply wp_any; [|done]. intros d w1. case_bool_decide; [done|]. case_bool_decide; [done|].
    apply wp_any; [|done]. intros policy w2. cbv zeta. apply wp_any; [|done]. intros out w3.
    apply wp_bind. eapply wp_mono; [by apply wp_invalidate|]. intros [[]|e] w4 Hgone; [|done].
    apply wp_bind. eapply wp_mono; [apply (within_wp same_keyspace), quietkv_best_effort, quietkv_SetAvailability|]. intros [[]|e] w5 Hkv; [|done].
    apply wp_ret. intros d' [= <-]. by rewrite Hkv.
Qed.
End list_cache.
