(* ===== verification/AsyncSpec.v ===== *)
(** * The AsyncAPI viewer answers, and answers the same every time

    The table of a schema sorts the shared property order in place.  Resolution
    ends on a specification without reference cycles; and when a merged schema
    asks of the parts it refers to nothing they do not ask themselves, what one
    request sorted no later request can see. *)
From S2P Require Import Prelude GoLib Domain World Http PageText AsyncDocs.
Local Open Scope string_scope.
Local Open Scope Z_scope.

(** ** The stable sort of the rows *)
(** Two orders the sort cannot tell apart. *)
Definition alike (R l l' : list string) : Prop :=
  filter (λ k, k ∈ R) l = filter (λ k, k ∈ R) l' ∧ filter (λ k, k ∉ R) l = filter (λ k, k ∉ R) l'.
#[export] Instance alike_equiv R : Equivalence (alike R).
Proof. split; [done|by intros l l' []|]. intros l1 l2 l3 [] []. split; congruence. Qed.

Lemma filter_all {A} (P : A → Prop) `{!∀ x, Decision (P x)} (l : list A) : Forall P (filter P l).
Proof. apply Forall_forall. by intros x [? _]%list_elem_of_filter. Qed.
Lemma filter_same {A} (P Q : A → Prop) `{!∀ x, Decision (P x), !∀ x, Decision (Q x)} (l : list A) :
  (∀ x, x ∈ l → P x ↔ Q x) → filter P l = filter Q l.
Proof.
  induction l as [|x l IH]; intros HPQ; [done|]. rewrite !filter_cons, IH by (intros; apply HPQ; by right).
  specialize (HPQ x (list_elem_of_here _ _)). repeat case_decide; tauto.
Qed.
Lemma insert_optional (R : list string) x a b :
  x ∉ R → Forall (λ k, k ∈ R) a → Forall (λ k, k ∉ R) b →
  insert_stable (λ a b, bool_decide (a ∈ R) && negb (bool_decide (b ∈ R))) x (a ++ b) = (a ++ x :: b)%list.
Proof.
  intros Hx Ha Hb. induction Ha as [|y a Hy _ IH]; simpl.
  - destruct Hb as [|z b Hz _]; simpl; [done|]. by rewrite (bool_decide_false (z ∈ R)).
  - rewrite bool_decide_true, (bool_decide_false (x ∈ R)) by done. simpl. by rewrite IH.
Qed.
Lemma required_first_split (R l : list string) :
  required_first R l = (filter (λ k, k ∈ R) l ++ filter (λ k, k ∉ R) l)%list.
Proof.
  unfold required_first, SliceStable. induction l as [|x l IH]; simpl; [done|]. rewrite IH, !filter_cons.
  destruct (decide (x ∈ R)) as [Hx|Hx].
  - rewrite decide_False by (intros Hn; by apply Hn). simpl.
    destruct (_ ++ _)%list eqn:Hl; simpl; [done|]. by rewrite (bool_decide_true (x ∈ R)), andb_false_r.
  - rewrite decide_True by done. apply insert_optional; [done|apply filter_all..].
Qed.
Lemma required_first_alike R l l' : alike R l l' → required_first R l = required_first R l'.
Proof. intros [H1 H2]. by rewrite !required_first_split, H1, H2. Qed.
Lemma required_first_perm (R l : list string) : required_first R l ≡ₚ l.
Proof.
  rewrite required_first_split. induction l as [|x l IH]; simpl; [done|]. rewrite !filter_cons.
  destruct (decide (x ∈ R)); [rewrite decide_False by auto; simpl; by rewrite IH|].
  rewrite decide_True by done. rewrite <- Permutation_middle. by rewrite IH.
Qed.
Lemma filter_twice {A} (P : A → Prop) `{!∀ x, Decision (P x)} (l : list A) : filter P (filter P l) = filter P l.
Proof. induction l as [|x l IH]; [done|]. rewrite filter_cons. case_decide; [|done]. by rewrite filter_cons, decide_True, IH. Qed.
Lemma filter_excluded {A} (P Q : A → Prop) `{!∀ x, Decision (P x), !∀ x, Decision (Q x)} (l : list A) :
  (∀ x, Q x → ¬ P x) → filter P (filter Q l) = [].
Proof.
  intros HPQ. induction l as [|x l IH]; [done|]. rewrite filter_cons. case_decide; [|done].
  by rewrite filter_cons, decide_False, IH by auto.
Qed.
Lemma alike_sorted R l : alike R l (required_first R l).
Proof.
  rewrite required_first_split.
  split; rewrite filter_app, filter_twice; rewrite filter_excluded by auto; [by rewrite app_nil_r|done].
Qed.
(** Sorting by requirements that agree on the list is the same sort. *)
Lemma required_first_agree (R R' l : list string) : (∀ k, k ∈ l → k ∈ R ↔ k ∈ R') → required_first R l = required_first R' l.
Proof.
  intros Ha. rewrite !required_first_split. f_equal; apply filter_same; intros k Hk; by rewrite (Ha k Hk).
Qed.

(** *** Merging orders *)
Lemma filter_add_new P `{!∀ x : string, Decision (P x)} acc k :
  filter P (add_new acc k) = if decide (P k) then add_new (filter P acc) k else filter P acc.
Proof.
  unfold add_new. destruct (decide (P k)) as [Hk|Hk].
  - destruct (bool_decide (k ∈ acc)) eqn:Hin.
    + apply bool_decide_eq_true in Hin. by rewrite bool_decide_true by by apply list_elem_of_filter.
    + apply bool_decide_eq_false in Hin. rewrite bool_decide_false by (rewrite list_elem_of_filter; tauto).
      by rewrite filter_app, filter_cons, decide_True.
  - case_bool_decide; [done|]. by rewrite filter_app, filter_cons, decide_False, app_nil_r.
Qed.
Lemma filter_merged P `{!∀ x : string, Decision (P x)} acc o :
  filter P (foldl add_new acc o) = foldl add_new (filter P acc) (filter P o).
Proof.
  revert acc. induction o as [|k o IH]; intros acc; [done|]. simpl. rewrite IH, filter_add_new, filter_cons.
  by case_decide.
Qed.
Lemma alike_merged R a a' o o' : alike R a a' → alike R o o' → alike R (foldl add_new a o) (foldl add_new a' o').
Proof. intros [] []. split; rewrite !filter_merged; congruence. Qed.

(** ** Resolution *)

(** The reference of a schema that has no parts, when it names a component. *)
Definition target (c : asyncComponents) (sc : asyncSchema) : option (string * asyncSchema) :=
  if bool_decide (sc_Ref sc = "") then None
  else let name := TrimPrefix (sc_Ref sc) schemas_ref in sub ← Schemas c !! name; Some (name, sub).
Lemma resolve_leaf fuel c owner sc :
  AllOf sc = [] →
  resolveSchema (S fuel) c owner sc =
    match target c sc with Some (name, sub) => resolveSchema fuel c (Some name) sub | None => Some (sc, owner) end.
Proof. intros Ha. simpl. rewrite Ha. unfold target. case_bool_decide; [done|]. by destruct (Schemas c !! _). Qed.
Lemma resolve_parts fuel c owner sc :
  AllOf sc ≠ [] →
  resolveSchema (S fuel) c owner sc =
    resolved ← mapM (resolveSchema fuel c None) (AllOf sc); Some (foldl merge_part empty_schema (fst <$> resolved), None).
Proof. intros Ha. simpl. by destruct (AllOf sc). Qed.

(** The components that a schema refers to, directly or in a part. *)
Inductive refers (c : asyncComponents) : asyncSchema → string → Prop :=
| refers_here sc name sub : AllOf sc = [] → target c sc = Some (name, sub) → refers c sc name
| refers_part sc part name : part ∈ AllOf sc → refers c part name → refers c sc name.
(** No component refers to itself, however far around. *)
Definition acyclic (c : asyncComponents) (rank : string → nat) : Prop :=
  ∀ name sc, Schemas c !! name = Some sc → ∀ other, refers c sc other → (rank other < rank name)%nat.

(** Induction over the parts of a schema. *)
Section schema_ind.
Context (P : asyncSchema → Prop)
  (HP : ∀ sc, Forall P (AllOf sc) → P sc).
Fixpoint schema_parts_ind (sc : asyncSchema) : P sc :=
  HP sc (match sc with
         | mkSchema _ _ _ _ parts _ =>
             (fix go l : Forall P l := match l with [] => Forall_nil_2 P | s :: l' => Forall_cons_2 P s l' (schema_parts_ind s) (go l') end) parts
         end).
End schema_ind.

Definition settles (c : asyncComponents) (owner : option string) (sc : asyncSchema) : Prop :=
  ∃ N r, ∀ fuel, (N ≤ fuel)%nat → resolveSchema fuel c owner sc = Some r.
Lemma settles_parts c l :
  Forall (settles c None) l → ∃ N rs, ∀ fuel, (N ≤ fuel)%nat → mapM (resolveSchema fuel c None) l = Some rs.
Proof.
  induction 1 as [|sc l (N1 & r & H1) _ (N2 & rs & H2)]; [by exists 0%nat, []|].
  exists (N1 `max` N2)%nat, (r :: rs). intros fuel Hf. simpl. rewrite H1 by lia. simpl. by rewrite H2 by lia.
Qed.
Lemma settles_below c rank n :
  acyclic c rank → ∀ sc, (∀ other, refers c sc other → (rank other < n)%nat) → ∀ owner, settles c owner sc.
Proof.
  intros Hac. induction (lt_wf n) as [n _ IHn]. intros sc. induction sc as [sc IH] using schema_parts_ind.
  intros Hlow owner. destruct (decide (AllOf sc = [])) as [Ha|Ha].
  - destruct (target c sc) as [[name sub]|] eqn:Ht.
    + assert (rank name < n)%nat as Hn by (eapply Hlow, refers_here; eauto).
      assert (Schemas c !! name = Some sub) as Hsub.
      { unfold target in Ht. case_bool_decide; [done|]. by destruct (Schemas c !! _) eqn:?; simplify_eq/=. }
      destruct (IHn _ Hn sub (Hac _ _ Hsub) (Some name)) as (N & r & Hr). exists (S N), r.
      intros [|fuel] Hf; [lia|]. rewrite resolve_leaf, Ht by done. apply Hr. lia.
    + exists 1%nat, (sc, owner). intros [|fuel] Hf; [lia|]. by rewrite resolve_leaf, Ht.
  - destruct (settles_parts c (AllOf sc)) as (N & rs & Hrs).
    { apply Forall_forall. intros part Hin. rewrite Forall_forall in IH. apply (IH part Hin).
      intros other Ho. eapply Hlow, refers_part; eauto. }
    exists (S N). eexists. intros [|fuel] Hf; [lia|]. rewrite resolve_parts, Hrs by (done || lia). done.
Qed.
Lemma settles_named c rank name sc owner : acyclic c rank → Schemas c !! name = Some sc → settles c owner sc.
Proof. intros Hac Hsc. eapply settles_below; [done|]. by apply Hac. Qed.

(** ** What requests do to the shared specification *)
Definition sorted_version (s0 s : asyncSchema) : Prop :=
  s = s0 ∨ (sorts_in_place s0 = true ∧ s = set_order (table_keys s0) s0).
Definition version (c0 c : asyncComponents) : Prop :=
  Messages c = Messages c0 ∧ ∀ name, option_Forall2 sorted_version (Schemas c0 !! name) (Schemas c !! name).
#[export] Instance sorted_version_refl : Reflexive sorted_version.
Proof. by left. Qed.
#[export] Instance version_refl : Reflexive version.
Proof. intros c. split; [done|]. intros name. reflexivity. Qed.

Lemma sorted_version_parts s0 s :
  sorted_version s0 s → AllOf s = AllOf s0 ∧ sc_Ref s = sc_Ref s0 ∧ Required s = Required s0 ∧ Properties s = Properties s0.
Proof. by intros [->|[_ ->]]. Qed.
Lemma in_place s : sorts_in_place s = true ↔ PropertyOrder s ≠ [] ∧ missing_keys s (PropertyOrder s) = [].
Proof. unfold sorts_in_place. by rewrite andb_true_iff, negb_true_iff, bool_decide_eq_false, bool_decide_eq_true. Qed.
Lemma in_place_keys s : sorts_in_place s = true → unsorted_keys s = PropertyOrder s.
Proof. intros [Hne Hm]%in_place. unfold unsorted_keys. destruct (PropertyOrder s); [done|]. by rewrite Hm, app_nil_r. Qed.

(** A reference chain or a part leads to a component that is a table of its own. *)
Inductive reaches (c : asyncComponents) : bool → asyncSchema → asyncSchema → Prop :=
| reaches_here sc : AllOf sc = [] → target c sc = None → reaches c true sc sc
| reaches_ref b sc name sub leaf : AllOf sc = [] → target c sc = Some (name, sub) → reaches c true sub leaf → reaches c b sc leaf
| reaches_part b sc part leaf : part ∈ AllOf sc → reaches c false part leaf → reaches c b sc leaf.
(** [R] asks of the properties of every such component what it asks itself. *)
Definition agrees (c : asyncComponents) (b : bool) (sc : asyncSchema) (R : list string) : Prop :=
  ∀ leaf, reaches c b sc leaf → ∀ k, k ∈ PropertyOrder leaf → k ∈ R ↔ k ∈ Required leaf.

Record resolved_alike (c0 : asyncComponents) (R : list string) (ok : Prop) (r0 r : asyncSchema) : Prop := {
  ra_Required : Required r = Required r0;
  ra_Properties : Properties r = Properties r0;
  ra_order : ok → alike R (PropertyOrder r0) (PropertyOrder r) }.

Lemma table_order_alike s0 s R :
  sorted_version s0 s → (∀ k, k ∈ PropertyOrder s0 → k ∈ R ↔ k ∈ Required s0) → alike R (PropertyOrder s0) (PropertyOrder s).
Proof.
  intros [->|[Hs ->]] Ha; [done|]. simpl. unfold table_keys. rewrite (in_place_keys s0 Hs).
  rewrite <- (required_first_agree R) by done. apply alike_sorted.
Qed.

Lemma merge_alike c0 R ok rs0 rs m0 m :
  Forall2 (λ x y : asyncSchema * option string, resolved_alike c0 R ok x.1 y.1) rs0 rs → resolved_alike c0 R ok m0 m →
  resolved_alike c0 R ok (foldl merge_part m0 (fst <$> rs0)) (foldl merge_part m (fst <$> rs)).
Proof.
  intros Hrs. revert m0 m. induction Hrs as [|[x ox] [y oy] rs0 rs [Hreq Hprop Hord] _ IH]; intros m0 m [Mreq Mprop Mord]; simpl in *; [done|].
  apply IH. split; simpl; [congruence..|]. intros Hok. apply alike_merged; auto.
Qed.

Lemma target_version c0 c s0 s :
  version c0 c → sc_Ref s = sc_Ref s0 →
  match target c0 s0 with
  | Some (name, sub0) => ∃ sub, target c s = Some (name, sub) ∧ Schemas c0 !! name = Some sub0 ∧ Schemas c !! name = Some sub
  | None => target c s = None
  end.
Proof.
  intros [_ Hv] Href. unfold target. rewrite Href. case_bool_decide; [done|]. specialize (Hv (TrimPrefix (sc_Ref s0) schemas_ref)).
  destruct (Schemas c0 !! _) as [sub0|] eqn:H0; inversion Hv as [? sub Hsv|]; subst; simpl; eauto.
Qed.
Lemma named_version c0 c name s0 s :
  version c0 c → Schemas c0 !! name = Some s0 → Schemas c !! name = Some s → sorted_version s0 s.
Proof. intros [_ Hv] H0 H1. specialize (Hv name). rewrite H0, H1 in Hv. by inversion Hv. Qed.

(** Whatever requests have sorted before, a schema resolves to the same up to an
    order its table does not show. *)
Lemma resolve_version c0 c R :
  version c0 c → ∀ fuel owner s0 s r0 o,
  match owner with Some n => Schemas c0 !! n = Some s0 ∧ Schemas c !! n = Some s | None => s = s0 end →
  resolveSchema fuel c0 owner s0 = Some (r0, o) →
  ∃ r, resolveSchema fuel c owner s = Some (r, o)
    ∧ resolved_alike c0 R (agrees c0 (match owner with Some _ => true | None => false end) s0 R) r0 r
    ∧ match o with Some n => Schemas c0 !! n = Some r0 ∧ Schemas c !! n = Some r | None => True end.
Proof.
  intros Hv. induction fuel as [|fuel IH]; intros owner s0 s r0 o Hown; [done|].
  assert (sorted_version s0 s) as Hsv
    by (destruct owner; [destruct Hown; by eapply named_version|subst; reflexivity]).
  destruct (sorted_version_parts _ _ Hsv) as (Hall & Href & Hreq & Hprop).
  destruct (decide (AllOf s0 = [])) as [Ha|Ha].
  - rewrite !resolve_leaf by congruence. pose proof (target_version c0 c s0 s Hv Href) as Ht.
    destruct (target c0 s0) as [[name sub0]|] eqn:Ht0.
    + destruct Ht as (sub & -> & Hsub0 & Hsub). intros Hr.
      destruct (IH (Some name) sub0 sub r0 o (conj Hsub0 Hsub) Hr) as (r & Hr' & [Rq Rp Ro] & Hn).
      exists r. split; [done|]. split; [|done]. split; [done..|]. intros Hok. apply Ro. intros leaf Hleaf.
      apply Hok. by eapply reaches_ref.
    + rewrite Ht. intros [= <- <-]. exists s. split; [done|]. split; [|by destruct owner]. split; [done..|].
      intros Hok. destruct owner; [|by subst]. apply table_order_alike; [done|]. apply Hok. by constructor.
  - rewrite !resolve_parts by congruence. rewrite Hall. intros (rs0 & Hrs0 & [= <- <-])%bind_Some.
    apply mapM_Some in Hrs0.
    assert (∃ rs, mapM (resolveSchema fuel c None) (AllOf s0) = Some rs
      ∧ Forall2 (λ x y : asyncSchema * option string, resolved_alike c0 R
           (agrees c0 (match owner with Some _ => true | None => false end) s0 R) x.1 y.1) rs0 rs) as (rs & -> & Hrs).
    { assert (∀ part, part ∈ AllOf s0 → agrees c0 (match owner with Some _ => true | None => false end) s0 R →
                agrees c0 false part R) as Hparts by (intros part Hin Hok leaf Hl; apply Hok; by eapply reaches_part).
      revert Hparts. generalize (agrees c0 (match owner with Some _ => true | None => false end) s0 R). intros ok Hparts.
      clear -IH Hrs0 Hparts. induction Hrs0 as [|part [x ox] l rs0 Hx _ IHl]; [by exists []|].
      destruct (IH None part part x ox eq_refl Hx) as (y & Hy & [Yq Yp Yo] & _).
      destruct IHl as (rs & Hrs & Hall); [intros; apply Hparts; [by right|done]|].
      exists ((y, ox) :: rs). simpl. rewrite Hy. simpl. rewrite Hrs. split; [done|]. constructor; [|done].
      split; [done..|]. intros Hok. apply Yo, Hparts; [by left|done]. }
    eexists. split; [done|]. split; [|done]. apply merge_alike; [done|]. by split.
Qed.

(** ** Tables *)
Lemma alike_elem R l l' (k : string) : alike R l l' → k ∈ l ↔ k ∈ l'.
Proof.
  intros [H1 H2]. assert (∀ a : list string, k ∈ a ↔ k ∈ filter (λ k, k ∈ R) a ∨ k ∈ filter (λ k, k ∉ R) a) as Hs.
  { intros a. rewrite !list_elem_of_filter. destruct (decide (k ∈ R)); naive_solver. }
  by rewrite (Hs l), (Hs l'), H1, H2.
Qed.
Lemma alike_app R a a' b : alike R a a' → alike R (a ++ b) (a' ++ b).
Proof. intros [H1 H2]. split; rewrite !filter_app; congruence. Qed.

Lemma table_keys_alike s s' :
  Required s' = Required s → Properties s' = Properties s → alike (Required s) (PropertyOrder s) (PropertyOrder s') →
  table_keys s' = table_keys s ∧ sorts_in_place s' = sorts_in_place s.
Proof.
  intros Hr Hp Ho.
  assert (PropertyOrder s = [] ↔ PropertyOrder s' = []) as Hnil.
  { split; intros He; rewrite He in Ho; apply elem_of_nil_inv; intros k Hk; apply (alike_elem _ _ _ k Ho) in Hk;
      by apply not_elem_of_nil in Hk. }
  assert (∀ l l', alike (Required s) l l' → missing_keys s' l' = missing_keys s l) as Hm.
  { intros l l' Hl. unfold missing_keys. rewrite Hp. apply filter_same. intros k _. by rewrite (alike_elem _ _ _ k Hl). }
  split.
  - unfold table_keys. rewrite Hr. symmetry. apply required_first_alike. unfold unsorted_keys.
    destruct (decide (PropertyOrder s = [])) as [He|He].
    + assert (PropertyOrder s' = []) as -> by by apply Hnil. rewrite He, Hp. by rewrite (Hm (sortedKeys (Properties s)) _).
    + assert (PropertyOrder s' ≠ []) as He' by (by rewrite <- Hnil).
      destruct (PropertyOrder s) as [|k l] eqn:Hl; [done|]. destruct (PropertyOrder s') as [|k' l'] eqn:Hl'; [done|].
      rewrite (Hm _ _ Ho). by apply alike_app.
  - unfold sorts_in_place. rewrite (Hm _ _ Ho). f_equal. f_equal. by apply bool_decide_ext; symmetry.
Qed.

(** A declared order names every property once. *)
Definition full (s : asyncSchema) : Prop :=
  NoDup (PropertyOrder s) ∧ ∀ k, k ∈ PropertyOrder s ↔ is_Some (Properties s !! k).
Inductive declared : asyncSchema → Prop :=
  declared_intro sc : (AllOf sc = [] → full sc) → Forall declared (AllOf sc) → declared sc.

Lemma elem_of_merged acc o k : k ∈ foldl add_new acc o ↔ k ∈ acc ∨ k ∈ o.
Proof.
  revert acc. induction o as [|x o IH]; intros acc; simpl; [set_solver|]. rewrite IH. unfold add_new.
  case_bool_decide; set_solver.
Qed.
Lemma NoDup_merged acc o : NoDup acc → NoDup (foldl add_new acc o).
Proof.
  revert acc. induction o as [|x o IH]; intros acc Ha; simpl; [done|]. apply IH. unfold add_new. case_bool_decide; [done|].
  apply NoDup_app. split; [done|]. split; [set_solver|apply NoDup_singleton].
Qed.
Lemma full_merge m r : full m → full r → full (merge_part m r).
Proof.
  intros [Nm Hm] [Nr Hr]. split; simpl; [by apply NoDup_merged|]. intros k.
  rewrite elem_of_merged, Hm, Hr, lookup_union_is_Some. tauto.
Qed.
Lemma full_merged rs m : full m → Forall (λ x : asyncSchema * option string, full x.1) rs → full (foldl merge_part m (fst <$> rs)).
Proof. intros Hm Hrs. revert m Hm. induction Hrs as [|x rs Hx _ IH]; intros m Hm; simpl; [done|]. by apply IH, full_merge. Qed.

Lemma resolve_full c fuel owner sc r o :
  (∀ name s, Schemas c !! name = Some s → declared s) → declared sc → resolveSchema fuel c owner sc = Some (r, o) → full r.
Proof.
  intros Hc. revert owner sc r o. induction fuel as [|fuel IH]; intros owner sc r o Hd; [done|].
  destruct Hd as [sc Hf Hparts]. destruct (decide (AllOf sc = [])) as [Ha|Ha].
  - rewrite resolve_leaf by done. destruct (target c sc) as [[name sub]|] eqn:Ht; [|intros [= <- <-]; auto].
    apply IH. apply Hc with name. unfold target in Ht. case_bool_decide; [done|]. by destruct (Schemas c !! _) eqn:?; simplify_eq/=.
  - rewrite resolve_parts by done. intros (rs & Hrs%mapM_Some & [= <- <-])%bind_Some. apply full_merged.
    + split; [constructor|]. intros k. simpl. rewrite lookup_empty. split; [set_solver|by intros []].
    + clear Ha Hf. induction Hrs as [|part [x ox] l rs Hx _ IHl]; [constructor|]. apply Forall_cons in Hparts as [Hp Hl].
      constructor; [by eapply IH|auto].
Qed.

Lemma elem_of_keys {A} (m : gmap string A) k : k ∈ fst <$> map_to_list m ↔ is_Some (m !! k).
Proof.
  rewrite list_elem_of_fmap. split.
  - intros ([k' x] & -> & Hin). apply elem_of_map_to_list in Hin. eauto.
  - intros [x Hx]. exists (k, x). split; [done|]. by apply elem_of_map_to_list.
Qed.
Lemma elem_of_sortedKeys {A} (m : gmap string A) k : k ∈ sortedKeys m ↔ is_Some (m !! k).
Proof. unfold sortedKeys. by rewrite merge_sort_Permutation, elem_of_keys. Qed.
Lemma full_complete s : full s → missing_keys s (PropertyOrder s) = [].
Proof.
  intros [_ Hk]. unfold missing_keys. apply elem_of_nil_inv. intros k Hin.
  apply list_elem_of_filter in Hin as [Hn Hin]. apply Hn, Hk. by apply elem_of_sortedKeys.
Qed.

(** The table of a schema, merged or not, has one row for every property of any
    part and no other: the required ones first, and among the required as among
    the optional the order in which the parts declare them.  Of a property that
    several parts declare, the last wins. *)
Theorem table_rows c fuel owner sc r o :
  (∀ name s, Schemas c !! name = Some s → declared s) → declared sc → resolveSchema fuel c owner sc = Some (r, o) →
  NoDup (table_keys r)
  ∧ (∀ k, k ∈ table_keys r ↔ is_Some (Properties r !! k))
  ∧ table_keys r = (filter (λ k, k ∈ Required r) (PropertyOrder r) ++ filter (λ k, k ∉ Required r) (PropertyOrder r))%list
  ∧ (AllOf sc ≠ [] → ∃ parts, Forall2 (λ part x, ∃ f o', resolveSchema f c None part = Some (x, o')) (AllOf sc) parts
       ∧ Required r = concat (Required <$> parts)
       ∧ Properties r = foldl (λ m x, Properties x ∪ m) ∅ parts
       ∧ PropertyOrder r = foldl add_new [] (concat (PropertyOrder <$> parts))).
Proof.
  intros Hc Hd Hr. pose proof (resolve_full c fuel owner sc r o Hc Hd Hr) as Hfull. pose proof Hfull as [Hnd Hk].
  assert (unsorted_keys r = PropertyOrder r) as Hu.
  { unfold unsorted_keys. pose proof (full_complete r Hfull) as Hm. destruct (PropertyOrder r) as [|k0 l] eqn:Ho; [|by rewrite Hm, app_nil_r].
    assert (sortedKeys (Properties r) = []) as Hs.
    { apply elem_of_nil_inv. intros k Hin. apply elem_of_sortedKeys, Hk in Hin. by apply not_elem_of_nil in Hin. }
    unfold missing_keys. by rewrite Hs. }
  assert (table_keys r ≡ₚ PropertyOrder r) as Hp by (unfold table_keys; by rewrite required_first_perm, Hu).
  split_and!.
  - by rewrite Hp.
  - intros k. by rewrite Hp.
  - unfold table_keys. by rewrite required_first_split, Hu.
  - intros Ha. destruct fuel as [|fuel]; [done|]. rewrite resolve_parts in Hr by done.
    apply bind_Some in Hr as (rs & Hrs%mapM_Some & [= <- <-]). exists (fst <$> rs). split.
    + clear -Hrs. induction Hrs as [|part [x ox] l rs Hx _ IH]; constructor; [eauto|done].
    + generalize (fst <$> rs). intros parts. clear.
      assert (∀ m, Required (foldl merge_part m parts) = (Required m ++ concat (Required <$> parts))%list
                   ∧ Properties (foldl merge_part m parts) = foldl (λ m x, Properties x ∪ m) (Properties m) parts
                   ∧ PropertyOrder (foldl merge_part m parts) = foldl add_new (PropertyOrder m) (concat (PropertyOrder <$> parts))) as Hall.
      { induction parts as [|x parts IH]; intros m; simpl; [by rewrite app_nil_r|].
        destruct (IH (merge_part m x)) as (-> & -> & ->). simpl. by rewrite <- app_assoc, foldl_app. }
      apply Hall.
Qed.

(** ** The page *)
Section page.
Context `{UnicodeCase} (c0 : asyncComponents).

(** Whatever was sorted before, [m] yields [a] and does no more than sort. *)
Definition steady {A} (m : Render A) (a : A) : Prop :=
  ∀ c, version c0 c → ∃ c', m c = Some (a, c') ∧ version c0 c'.
(** With enough fuel, it always yields the same. *)
Definition settled {A} (m : nat → Render A) : Prop := ∃ N a, ∀ fuel, (N ≤ fuel)%nat → steady (m fuel) a.

Lemma settled_ret {A} (a : A) : settled (λ _, mret a).
Proof. exists 0%nat, a. intros fuel _ c Hc. by exists c. Qed.
Lemma settled_bind {A B} (m : nat → Render A) (k : nat → A → Render B) :
  settled m → (∀ a, settled (λ fuel, k fuel a)) → settled (λ fuel, m fuel ≫= k fuel).
Proof.
  intros (N1 & a & Hm) Hk. destruct (Hk a) as (N2 & b & Hb). exists (N1 `max` N2)%nat, b. intros fuel Hf c Hc.
  destruct (Hm fuel ltac:(lia) c Hc) as (c1 & Hm1 & Hc1). destruct (Hb fuel ltac:(lia) c1 Hc1) as (c2 & Hb2 & Hc2).
  exists c2. split; [|done]. unfold mbind, Render_bind. by rewrite Hm1.
Qed.
Lemma settled_each {A} (f : nat → A → Render string) l :
  (∀ x, x ∈ l → settled (λ fuel, f fuel x)) → settled (λ fuel, render_each (f fuel) l).
Proof.
  induction l as [|x l IH]; intros Hf; simpl; [apply settled_ret|].
  apply settled_bind; [apply Hf; by left|]. intros s. apply settled_bind; [|intros; apply settled_ret].
  apply IH. intros y Hy. apply Hf. by right.
Qed.

Lemma write_back_steady n r0 r c :
  version c0 c → Schemas c0 !! n = Some r0 → Schemas c !! n = Some r →
  table_keys r = table_keys r0 → sorts_in_place r = sorts_in_place r0 →
  ∃ c', write_back (Some n) r c = Some (tt, c') ∧ version c0 c'.
Proof.
  intros Hv H0 H1 Hkeys Hplace. pose proof (named_version _ _ _ _ _ Hv H0 H1) as Hsv.
  unfold write_back. rewrite Hplace. destruct (sorts_in_place r0) eqn:Hs; [|by exists c].
  eexists. split; [done|]. destruct Hv as [Hm Hv]. split; [done|]. intros name. simpl.
  destruct (decide (name = n)) as [->|Hne]; [|rewrite lookup_alter_ne by done; apply Hv].
  rewrite lookup_alter_eq, H0, H1. constructor. right. split; [done|]. rewrite Hkeys.
  by destruct Hsv as [->|[_ ->]].
Qed.

Lemma props_table_alike s s' id :
  Required s' = Required s → Properties s' = Properties s → table_keys s' = table_keys s → props_table s' id = props_table s id.
Proof.
  intros Hr Hp Hk. unfold props_table, table_row. by rewrite Hk, Hr, Hp.
Qed.
Definition table_text (s : asyncSchema) (id : string) : string :=
  if bool_decide (Properties s = ∅) then html "<p style=`color:var(--muted);font-size:.8rem`>No properties.</p>"
  else props_table s id.

Lemma table_steady fuel n s0 s r0 o id c :
  Schemas c0 !! n = Some s0 → resolveSchema fuel c0 (Some n) s0 = Some (r0, o) → agrees c0 true s0 (Required r0) →
  version c0 c → Schemas c !! n = Some s →
  ∃ c', (r ← resolved fuel (Some n) s; renderPropsTable r id) c = Some (table_text r0 id, c') ∧ version c0 c'.
Proof.
  intros H0 Hr0 Hag Hv H1.
  destruct (resolve_version c0 c (Required r0) Hv fuel (Some n) s0 s r0 o (conj H0 H1) Hr0)
    as (r & Hr & [Hq Hp Hord] & Hown).
  destruct (table_keys_alike r0 r Hq Hp (Hord Hag)) as [Hkeys Hplace].
  unfold mbind, Render_bind, resolved, table_text. rewrite Hr. simpl. rewrite Hp.
  case_bool_decide; [by exists c|]. destruct o as [m|].
  - destruct Hown as [M0 M1]. destruct (write_back_steady m r0 r c Hv M0 M1 Hkeys Hplace) as (c' & Hw & Hv').
    exists c'. split; [|done]. unfold mbind, Render_bind. rewrite Hw. simpl. by rewrite (props_table_alike r0 r).
  - exists c. split; [|done]. simpl. by rewrite (props_table_alike r0 r).
Qed.

(** No merged schema demands a property that a component it refers to leaves
    optional. *)
Definition undemanding : Prop :=
  ∀ name s r o fuel, Schemas c0 !! name = Some s → resolveSchema fuel c0 (Some name) s = Some (r, o) →
    agrees c0 true s (Required r).

Context (rank : string → nat) (Hac : acyclic c0 rank) (Hun : undemanding).

Lemma settled_table name id (wrap : string → string) (missing : string) :
  settled (λ fuel c, match Schemas c !! name with
    | Some sc => (r ← resolved fuel (Some name) sc; t ← renderPropsTable r id; mret (wrap t)) c
    | None => Some (missing, c) end).
Proof.
  destruct (Schemas c0 !! name) as [s0|] eqn:H0.
  - destruct (settles_named c0 rank name s0 (Some name) Hac H0) as (N & [r0 o] & Hr0).
    exists N, (wrap (table_text r0 id)). intros fuel Hf c Hc. pose proof Hc as [_ Hv]. specialize (Hv name).
    rewrite H0 in Hv. inversion Hv as [? s Hs Hx Hy|]; subst.
    destruct (table_steady fuel name s0 s r0 o id c H0 (Hr0 fuel Hf) (Hun _ _ _ _ _ H0 (Hr0 fuel Hf)) Hc) as (c' & Hrun & Hc'); [done|].
    exists c'. split; [|done]. unfold mbind, Render_bind in *. destruct (resolved fuel (Some name) s c) as [[r c1]|]; [|done].
    simpl in *. by rewrite Hrun.
  - exists 0%nat, missing. intros fuel _ c Hc. pose proof Hc as [_ Hv]. specialize (Hv name). rewrite H0 in Hv.
    inversion Hv. by exists c.
Qed.

Lemma settled_message name msg : settled (λ fuel, renderMessage fuel name msg).
Proof.
  unfold renderMessage. destruct (isConsumed msg); (apply settled_bind; [|intros; apply settled_ret]);
    (case_bool_decide; [apply settled_ret|apply settled_table]).
Qed.
Lemma settled_schema name : settled (λ fuel, renderSchema fuel name).
Proof. apply settled_table. Qed.
Lemma settled_section id title names : settled (λ fuel, message_section fuel id title names).
Proof.
  unfold message_section. destruct names as [|n names]; [apply settled_ret|].
  apply settled_bind; [|intros; apply settled_ret]. apply settled_each. intros name _.
  destruct (Messages c0 !! name) as [msg|] eqn:Hmsg.
  - destruct (settled_message name msg) as (N & t & Ht). exists N, t. intros fuel Hf c Hc.
    pose proof Hc as [-> _]. rewrite Hmsg. by apply Ht.
  - exists 0%nat, "". intros fuel _ c Hc. pose proof Hc as [-> _]. rewrite Hmsg. by exists c.
Qed.

Lemma sortedKeys_version c : version c0 c → sortedKeys (Schemas c) = sortedKeys (Schemas c0).
Proof.
  intros [_ Hv]. apply (Sorted_unique String.le); [apply Sorted_merge_sort, _..|].
  apply NoDup_Permutation; [by unfold sortedKeys; rewrite merge_sort_Permutation; apply NoDup_fst_map_to_list..|].
  intros k. rewrite !elem_of_sortedKeys. specialize (Hv k). inversion Hv; by rewrite ?is_Some_alt.
Qed.

Lemma sections_steady desc servers :
  ∃ N page, ∀ fuel, (N ≤ fuel)%nat → ∀ c, version c0 c →
    ∃ c', renderSections fuel desc servers c = Some (page, c') ∧ version c0 c'.
Proof.
  destruct (splitMessagesByDirection (Messages c0)) as [pub con] eqn:Hsplit.
  assert (settled (λ fuel, pub' ← message_section fuel "messages-published" "Published Messages" pub;
    con' ← message_section fuel "messages-consumed" "Consumed Messages" con;
    sch ← render_each (renderSchema fuel) (sortedKeys (Schemas c0));
    mret (pub', con', sch))) as (N & [[spub scon] ssch] & Hp).
  { repeat (apply settled_bind; [|intros ?]); try apply settled_section; [|apply settled_ret].
    apply settled_each. intros. apply settled_schema. }
  eexists N, _. intros fuel Hf c Hc. destruct (Hp fuel Hf c Hc) as (c' & Hrun & Hc').
  exists c'. split; [|done].
  revert Hrun. unfold renderSections. pose proof Hc as [HM _].
  rewrite HM, Hsplit, (sortedKeys_version c Hc).
  cbv beta iota delta [mbind mret Render_bind Render_ret option_bind].
  destruct (message_section fuel "messages-published" "Published Messages" pub c) as [[? c1]|]; cbv beta iota; [|discriminate].
  destruct (message_section fuel "messages-consumed" "Consumed Messages" con c1) as [[? c2]|]; cbv beta iota; [|discriminate].
  destruct (render_each (renderSchema fuel) (sortedKeys (Schemas c0)) c2) as [[? c3]|]; cbv beta iota; [|discriminate].
  intros [= -> -> -> ->]. reflexivity.
Qed.
End page.

(** ** The routes *)

(** What a server without any state would answer. *)
Definition stateless (raw : string) (d : DocsConfig) (viewer : DocsAnswer) (request : docs_route * string) : DocsAnswer :=
  match docs_gate d request.2 with
  | Some status => DocsStatus status
  | None => match request.1 with
            | RTheme => DocsTheme | RInitializer => DocsInitializer | RSwagger => DocsSwagger
            | RYAML => DocsYAML raw | RViewer => viewer
            end
  end.

Section routes.
Context `{UnicodeCase} (Unmarshal : string → result goerror asyncSpec) (raw : string).

(** What requests leave in the cache. *)
Definition cached (cache : SpecCache) : Prop :=
  match Unmarshal raw, cache with
  | _, None => True
  | Ok s0, Some (Ok s) => ∃ c, version (Comps s0) c ∧ s = mkSpec (AsyncAPI s0) (Info s0) (Servers s0) c
  | Err _, Some (Err _) => True
  | _, _ => False
  end.
Definition viewer_answers (fuel : nat) (env : string) (answer : DocsAnswer) : Prop :=
  ∀ cache, cached cache → ∃ cache', AsyncAPIHandler Unmarshal raw fuel env cache = Some (answer, cache') ∧ cached cache'.

Lemma load_cached cache :
  cached cache →
  match Unmarshal raw with
  | Ok s0 => ∃ c, version (Comps s0) c
      ∧ (loadAsyncSpec Unmarshal raw cache).1 = Ok (mkSpec (AsyncAPI s0) (Info s0) (Servers s0) c)
  | Err _ => ∃ e, loadAsyncSpec Unmarshal raw cache = (Err e, Some (Err e))
  end.
Proof.
  unfold cached, loadAsyncSpec, parseAsyncSpec. destruct (Unmarshal raw) as [s0|e]; simpl.
  - destruct cache as [[s|]|]; [intros (c & Hc & ->); by exists c|done|intros _]. exists (Comps s0). by destruct s0.
  - destruct cache as [[s|e']|]; [done|by exists e'|by eexists].
Qed.
Lemma viewer_page s0 rank env :
  Unmarshal raw = Ok s0 → acyclic (Comps s0) rank → undemanding (Comps s0) →
  ∃ N page, ∀ fuel, (N ≤ fuel)%nat → viewer_answers fuel env (DocsPage page).
Proof.
  intros Hs0 Hac Hun. destruct (sections_steady (Comps s0) rank Hac Hun (in_Desc (Info s0)) (Servers s0)) as (N & sections & Hpage).
  exists N, (page_header s0 env ++ sections)%string. intros fuel Hf cache Hc. pose proof (load_cached cache Hc) as Hload.
  rewrite Hs0 in Hload. destruct Hload as (c & Hv & Hl). destruct (Hpage fuel Hf c Hv) as (c' & Hrun & Hv').
  unfold AsyncAPIHandler. destruct (loadAsyncSpec Unmarshal raw cache) as [r cache']. simpl in Hl. subst r.
  unfold renderPage. simpl. cbv beta iota delta [mbind mret Render_bind Render_ret option_bind]. rewrite Hrun.
  eexists. split; [reflexivity|]. unfold cached. rewrite Hs0. by exists c'.
Qed.
Lemma viewer_error e fuel env : Unmarshal raw = Err e → viewer_answers fuel env (DocsError (writeError 500 "internal_server_error")).
Proof.
  intros He cache Hc. pose proof (load_cached cache Hc) as Hload. rewrite He in Hload. destruct Hload as [e' Hl].
  unfold AsyncAPIHandler. rewrite Hl. eexists. split; [done|]. unfold cached. by rewrite He.
Qed.
Lemma serve_all_stateless d fuel answer :
  viewer_answers fuel (docs_Environment d) answer →
  ∀ requests cache, cached cache →
    ∃ cache', serve_all Unmarshal raw fuel d requests cache = Some (stateless raw d answer <$> requests, cache') ∧ cached cache'.
Proof.
  intros Hview requests. induction requests as [|[route authorization] rest IH]; intros cache Hc; [by exists cache|].
  assert (∃ cache1, serve_docs Unmarshal raw fuel d route authorization cache = Some (stateless raw d answer (route, authorization), cache1)
            ∧ cached cache1) as (cache1 & Hone & Hc1).
  { unfold serve_docs, stateless. simpl. destruct (docs_gate d authorization); [by exists cache|].
    destruct route; [by exists cache..| |by exists cache]. by apply Hview. }
  destruct (IH cache1 Hc1) as (cache2 & Hrest & Hc2). exists cache2. simpl. rewrite Hone. simpl. by rewrite Hrest.
Qed.
End routes.

(** C38. The documentation routes answer as a server without state would: any
    sequence of requests gets, route by route, the page, the file or the refusal
    that depends on the request alone.  All requests share the parsed
    specification, and rendering sorts the property orders of its schemas in
    place; when references have no cycle and merged schemas demand nothing of
    the components they refer to, the viewer nevertheless returns, with one and
    the same page; a specification that does not parse is one and the same 500. *)
Theorem viewer_steady `{UnicodeCase} Unmarshal raw d rank :
  (∀ s0, Unmarshal raw = Ok s0 → acyclic (Comps s0) rank ∧ undemanding (Comps s0)) →
  ∃ N answer, (match Unmarshal raw with
               | Ok _ => ∃ page, answer = DocsPage page
               | Err _ => answer = DocsError (writeError 500 "internal_server_error") end)
    ∧ ∀ fuel, (N ≤ fuel)%nat → ∀ requests,
        ∃ cache, serve_all Unmarshal raw fuel d requests None = Some (stateless raw d answer <$> requests, cache).
Proof.
  intros Hspec. destruct (Unmarshal raw) as [s0|e] eqn:Hraw.
  - destruct (Hspec s0 eq_refl) as [Hac Hun].
    destruct (viewer_page Unmarshal raw s0 rank (docs_Environment d) Hraw Hac Hun) as (N & page & Hview).
    exists N, (DocsPage page). split; [by eexists|]. intros fuel Hf requests.
    destruct (serve_all_stateless Unmarshal raw d fuel _ (Hview fuel Hf) requests None) as (cache & Hrun & _); [|by exists cache].
    unfold cached. by rewrite Hraw.
  - exists 0%nat, (DocsError (writeError 500 "internal_server_error")). split; [done|]. intros fuel _ requests.
    destruct (serve_all_stateless Unmarshal raw d fuel _ (viewer_error Unmarshal raw e fuel _ Hraw) requests None) as (cache & Hrun & _);
      [|by exists cache].
    unfold cached. by rewrite Hraw.
Qed.
