(* ===== verification/OutboxColumn.v ===== *)
(** * The payload column of the outbox: outbox_normalize_payload

    The column is text.  In the simple protocol pgx sends a byte slice as the text
    of a bytea, [\x] and hexadecimal digits; the trigger of 000001_schema.up.sql
    turns that back, so the relay finds the document either way.  Texts are lists
    of bytes. *)
From S2P Require Import Prelude GoLib.
Local Open Scope Z_scope.

(** What the driver sends for a byte slice. *)
Definition hex_byte (b : Z) : list Z := [hex_digit (b / 16); hex_digit (b mod 16)].
Definition bytea_text (bs : list Z) : list Z := 92 :: 120 :: mjoin (hex_byte <$> bs).

(** decode(..., 'hex'): white space is allowed between the bytes. *)
Definition hex_space (c : Z) : bool := bool_decide (c ∈ [32; 9; 10; 13]).
Definition hex_nibble (c : Z) : option Z :=
  if (48 <=? c) && (c <=? 57) then Some (c - 48)
  else if (97 <=? c) && (c <=? 102) then Some (c - 87)
  else if (65 <=? c) && (c <=? 70) then Some (c - 55) else None.
Fixpoint decode_hex (l : list Z) : option (list Z) :=
  match l with
  | [] => Some []
  | c :: rest =>
      if hex_space c then decode_hex rest
      else match rest with
           | d :: rest' => hi ← hex_nibble c; lo ← hex_nibble d; bs ← decode_hex rest'; Some (16 * hi + lo :: bs)
           | [] => None
           end
  end.
(** Texts of a UTF-8 database: valid, without the zero byte. *)
Definition utf8_text (bs : list Z) : bool := Utf8.valid_fuel (length bs) bs && forallb (λ b, negb (b =? 0)) bs.

(** The trigger; [None] when the INSERT fails. *)
Definition outbox_normalize_payload (payload : list Z) : option (list Z) :=
  match payload with
  | 92 :: 120 :: digits => bs ← decode_hex digits; if utf8_text bs then Some bs else None
  | _ => Some payload
  end.

Lemma hex_digit_nibble n : 0 ≤ n < 16 → hex_nibble (hex_digit n) = Some n ∧ hex_space (hex_digit n) = false.
Proof.
  intros Hn. assert (n ∈ seqZ 0 16) as Hin by (apply elem_of_seqZ; lia). revert n Hn Hin.
  enough (Forall (λ n, hex_nibble (hex_digit n) = Some n ∧ hex_space (hex_digit n) = false) (seqZ 0 16)) as Hall
    by (intros n _ Hin; by apply (proj1 (Forall_forall _ _) Hall)).
  repeat (constructor; [split; reflexivity|]). constructor.
Qed.
Lemma decode_hex_bytes bs : Forall (λ b, 0 ≤ b < 256) bs → decode_hex (mjoin (hex_byte <$> bs)) = Some bs.
Proof.
  induction 1 as [|b bs Hb _ IH]; [done|].
  change (mjoin (hex_byte <$> b :: bs)) with (hex_digit (b / 16) :: hex_digit (b mod 16) :: mjoin (hex_byte <$> bs)). cbn [decode_hex].
  destruct (hex_digit_nibble (b / 16)) as [Hhi Hsp]; [split; [apply Z.div_pos|apply Z.div_lt_upper_bound]; lia|].
  destruct (hex_digit_nibble (b mod 16)) as [Hlo _]; [apply Z.mod_pos_bound; lia|].
  rewrite Hsp, Hhi, Hlo, IH. simpl. do 2 f_equal. pose proof (Z.div_mod b 16). lia.
Qed.

(** However the driver sends a document, the column holds the document. *)
Theorem payload_restored doc sent :
  Forall (λ b, 0 ≤ b < 256) doc → utf8_text doc = true → take 2 doc ≠ [92; 120] → sent ∈ [doc; bytea_text doc] →
  outbox_normalize_payload sent = Some doc.
Proof.
  intros Hb Hu Hd [->|[->|[]%elem_of_nil]%elem_of_cons]%elem_of_cons.
  - unfold outbox_normalize_payload. destruct doc as [|[|p|p] [|[|q|q] rest]]; try done; repeat (case_match; try done).
  - simpl. rewrite decode_hex_bytes by done. simpl. by rewrite Hu.
Qed.
Example payload_restored_sample :
  outbox_normalize_payload (bytea_text (bytes_of "{}")) = Some (bytes_of "{}")
  ∧ bytea_text (bytes_of "{}") = bytes_of "\x7b7d".
Proof. split; vm_compute; reflexivity. Qed.
