(* ===== verification/CodecSpec.v ===== *)
(** * The wire format of the Glue schema registry

    The header a published payload gets is the one the decoder strips, the
    registry is asked once per event type, and the schema text sent to it is
    ASCII and means the same JSON. *)
From S2P Require Import Prelude GoLib Domain World Store EventBus.
Local Open Scope string_scope.
Local Open Scope Z_scope.

Section header.
Context `{G : Glue.GlueClient} `{U : UuidLib}.

Lemma length_be_bytes n v : length (Glue.be_bytes n v) = n.
Proof. revert v. induction n as [|n IH]; intros v; simpl; [done|]. rewrite length_app, IH. simpl. lia. Qed.

(** The header of a schema version: version byte, no compression, the UUID. *)
Definition glue_header (u : uuid) : list Z := 3 :: 0 :: Glue.uuid_bytes u.
Lemma length_glue_header u : length (glue_header u) = 18%nat.
Proof. unfold glue_header, Glue.uuid_bytes. by rewrite !length_cons, length_be_bytes. Qed.

Lemma strip_header u payload : Glue.stripGlueHeader (glue_header u ++ payload) = Ok payload.
Proof.
  unfold Glue.stripGlueHeader. rewrite bool_decide_false.
  2:{ rewrite length_app, length_glue_header. unfold Glue.glueHeaderSize. lia. }
  rewrite drop_app_length' by (by rewrite length_glue_header). done.
Qed.

End header.

(** ** asciiEscape *)
Definition is_byte (b : Z) : Prop := 0 ≤ b < 256.
Definition scalar (r : Z) : Prop := 0 ≤ r < 1114112 ∧ ¬ 55296 ≤ r ≤ 57343.

Lemma lor_shift a n b : 0 ≤ n → 0 ≤ b < 2 ^ n → Z.lor (Z.shiftl a n) b = a * 2 ^ n + b.
Proof.
  intros Hn Hb. pose proof (Z.add_lor_land (Z.shiftl a n) b) as Hsum.
  assert (Z.land (Z.shiftl a n) b = 0) as Hdisj; [|rewrite Hdisj, Z.add_0_r in Hsum; by rewrite Hsum, Z.shiftl_mul_pow2].
  apply Z.bits_inj'. intros m Hm. rewrite Z.land_spec, Z.bits_0. apply andb_false_iff.
  destruct (decide (m < n)); [left; apply Z.shiftl_spec_low; lia|right].
  rewrite <- (Z.mod_small b (2 ^ n)) by done. apply Z.mod_pow2_bits_high. lia.
Qed.
Lemma low_bits a n : 0 ≤ n → Z.land a (2 ^ n - 1) = a mod 2 ^ n.
Proof. intros Hn. rewrite <- Z.land_ones by done. f_equal. rewrite Z.ones_equiv. lia. Qed.
Lemma land63 a : Z.land a 63 = a mod 64.
Proof. apply (low_bits a 6). lia. Qed.
Lemma land31 a : Z.land a 31 = a mod 32.
Proof. apply (low_bits a 5). lia. Qed.
Lemma land15 a : Z.land a 15 = a mod 16.
Proof. apply (low_bits a 4). lia. Qed.
Lemma land7 a : Z.land a 7 = a mod 8.
Proof. apply (low_bits a 3). lia. Qed.
Lemma land1023 a : Z.land a 1023 = a mod 1024.
Proof. apply (low_bits a 10). lia. Qed.

(** Two, three and four bytes assembled. *)
Lemma assemble2 a b : Z.lor (Z.shiftl (Z.land a 31) 6) (Utf8.low6 b) = (a mod 32) * 64 + b mod 64.
Proof.
  unfold Utf8.low6. rewrite land63, land31.
  rewrite lor_shift; [lia|lia|]. apply Z.mod_pos_bound. lia.
Qed.
Lemma assemble3 a b c :
  Z.lor (Z.lor (Z.shiftl (Z.land a 15) 12) (Z.shiftl (Utf8.low6 b) 6)) (Utf8.low6 c)
  = (a mod 16) * 4096 + (b mod 64) * 64 + c mod 64.
Proof.
  unfold Utf8.low6. rewrite !land63, land15. rewrite <- Z.lor_assoc.
  pose proof (Z.mod_pos_bound b 64 eq_refl). pose proof (Z.mod_pos_bound c 64 eq_refl).
  rewrite (lor_shift (b mod 64)) by lia. rewrite lor_shift by lia. lia.
Qed.
Lemma assemble4 a b c d :
  Z.lor (Z.lor (Z.shiftl (Z.land a 7) 18) (Z.shiftl (Utf8.low6 b) 12)) (Z.lor (Z.shiftl (Utf8.low6 c) 6) (Utf8.low6 d))
  = (a mod 8) * 262144 + (b mod 64) * 4096 + (c mod 64) * 64 + d mod 64.
Proof.
  unfold Utf8.low6. rewrite !land63, land7. rewrite <- Z.lor_assoc.
  pose proof (Z.mod_pos_bound b 64 eq_refl). pose proof (Z.mod_pos_bound c 64 eq_refl). pose proof (Z.mod_pos_bound d 64 eq_refl).
  rewrite (lor_shift (c mod 64)) by lia. rewrite (lor_shift (b mod 64)) by lia. rewrite lor_shift by lia. lia.
Qed.

Ltac bounds :=
  repeat match goal with
  | H : (_ && _) = true |- _ => apply andb_true_iff in H as [? ?]
  | H : (_ <=? _) = true |- _ => apply Z.leb_le in H
  | H : (_ =? _) = true |- _ => apply Z.eqb_eq in H
  end.

(** What a leading byte promises about the bytes that follow. *)
Lemma lead_cases b n lo hi : Utf8.lead b = Some (n, lo, hi) →
  (n = 2%nat ∧ 194 ≤ b ≤ 223 ∧ lo = 128 ∧ hi = 191)
  ∨ (n = 3%nat ∧ 224 ≤ b ≤ 239 ∧ 128 ≤ lo ∧ hi ≤ 191 ∧ (b = 224 → lo = 160) ∧ (b = 237 → hi = 159))
  ∨ (n = 4%nat ∧ 240 ≤ b ≤ 244 ∧ 128 ≤ lo ∧ hi ≤ 191 ∧ (b = 240 → lo = 144) ∧ (b = 244 → hi = 143)).
Proof.
  unfold Utf8.lead.
  repeat match goal with |- (if ?c then _ else _) = _ → _ => destruct c eqn:? end; intros Heq; simplify_eq; bounds;
    repeat match goal with H : (_ =? _) = false |- _ => apply Z.eqb_neq in H end; lia.
Qed.

Lemma DecodeRune_scalar bs : Forall is_byte bs → scalar (Utf8.DecodeRune bs).1.
Proof.
  assert (scalar Utf8.RuneError) as Herr by (unfold scalar, Utf8.RuneError; lia).
  intros Hbs. destruct Hbs as [|b0 tl H0 Htl]; [done|]. unfold is_byte in H0. simpl.
  destruct (Z.ltb_spec b0 Utf8.RuneSelf) as [Hlt|Hge]; [unfold scalar, Utf8.RuneSelf in *; simpl; lia|].
  destruct (Utf8.lead b0) as [[[n lo] hi]|] eqn:Hlead; [|done].
  apply lead_cases in Hlead as [(-> & ? & -> & ->)|[(-> & ? & ? & ? & ? & ?)|(-> & ? & ? & ? & ? & ?)]].
  - destruct tl as [|b1 tl]; [done|]. destruct (_ && _) eqn:Hc; [|done]. bounds. simpl. rewrite assemble2.
    unfold scalar. Z.to_euclidean_division_equations. lia.
  - destruct tl as [|b1 [|b2 tl]]; [done..|]. destruct (_ && _ && _) eqn:Hc; [|done]. unfold Utf8.cont in Hc. bounds.
    simpl. rewrite assemble3. unfold scalar. Z.to_euclidean_division_equations. lia.
  - destruct tl as [|b1 [|b2 [|b3 tl]]]; [done..|]. destruct (_ && _ && _ && _) eqn:Hc; [|done]. unfold Utf8.cont in Hc. bounds.
    simpl. rewrite assemble4. unfold scalar. Z.to_euclidean_division_equations. lia.
Qed.
Lemma runes_scalar bs : Forall is_byte bs → Forall scalar (Utf8.runes bs).
Proof.
  unfold Utf8.runes. generalize (length bs) as fuel. intros fuel. revert bs.
  induction fuel as [|fuel IH]; intros bs Hbs; [destruct bs; constructor|].
  destruct bs as [|b bs]; [constructor|]. unfold Utf8.runes_fuel; fold Utf8.runes_fuel.
  pose proof (DecodeRune_scalar (b :: bs) Hbs) as Hr. destruct (Utf8.DecodeRune (b :: bs)) as [r size].
  constructor; [exact Hr|]. apply IH. by apply Forall_drop.
Qed.

(** How a JSON reader reads the escape of one rune: [\uXXXX], or two of them that
    form a surrogate pair. *)
Definition hex_value (c : Z) : option Z :=
  if (48 <=? c) && (c <=? 57) then Some (c - 48)
  else if (97 <=? c) && (c <=? 102) then Some (c - 87) else None.
Definition read_unit (l : list Z) : option Z :=
  match l with
  | [x; y; a; b; c; d] =>
      if (x =? 92) && (y =? 117)
      then va ← hex_value a; vb ← hex_value b; vc ← hex_value c; vd ← hex_value d;
           Some (va * 4096 + vb * 256 + vc * 16 + vd)
      else None
  | _ => None
  end.
Definition read_escape (l : list Z) : option Z :=
  if bool_decide (length l = 6%nat)
  then u ← read_unit l; if (55296 <=? u) && (u <=? 57343) then None else Some u
  else hi ← read_unit (take 6 l); lo ← read_unit (drop 6 l);
       if (55296 <=? hi) && (hi <=? 56319) && (56320 <=? lo) && (lo <=? 57343)
       then Some (65536 + (hi - 55296) * 1024 + (lo - 56320)) else None.

Lemma hex_digit_value n : 0 ≤ n < 16 → hex_value (hex_digit n) = Some n ∧ 0 ≤ hex_digit n < 128.
Proof.
  intros Hn. unfold hex_digit, hex_value. destruct (Z.ltb_spec n 10).
  - rewrite (proj2 (andb_true_iff _ _)) by (rewrite !Z.leb_le; lia). split; [f_equal|]; lia.
  - rewrite (proj2 (andb_false_iff _ _)) by (right; apply Z.leb_gt; lia).
    rewrite (proj2 (andb_true_iff _ _)) by (rewrite !Z.leb_le; lia). split; [f_equal|]; lia.
Qed.
Lemma nibble_of n k : 0 ≤ k → Z.land (Z.shiftr n k) 15 = (n / 2 ^ k) mod 16.
Proof. intros. by rewrite land15, Z.shiftr_div_pow2. Qed.
Lemma hex04_nibbles n : hex04 n =
  [hex_digit ((n / 4096) mod 16); hex_digit ((n / 256) mod 16);
   hex_digit ((n / 16) mod 16); hex_digit (n mod 16)].
Proof. unfold hex04. rewrite !nibble_of by lia. by rewrite land15. Qed.
Lemma read_unit_escape n : 0 ≤ n < 65536 → read_unit (unicode_escape n) = Some n.
Proof.
  intros Hn. unfold unicode_escape. rewrite hex04_nibbles. unfold read_unit. simpl.
  rewrite !(fun m H => proj1 (hex_digit_value m H)) by (apply Z.mod_pos_bound; lia). simpl. f_equal.
  Z.to_euclidean_division_equations. lia.
Qed.
Lemma unicode_escape_ascii n : Forall (λ c, 0 ≤ c < 128) (unicode_escape n).
Proof.
  unfold unicode_escape. rewrite hex04_nibbles.
  repeat constructor; try lia; apply hex_digit_value, Z.mod_pos_bound; lia.
Qed.

(** The schema text sent to the registry is ASCII.  ASCII text is sent as it
    is; every other rune becomes an escape from which a JSON reader gets exactly
    that rune back, as one code unit or as a surrogate pair. *)
Theorem asciiEscape_faithful b :
  Forall is_byte b →
  Forall (λ c, 0 ≤ c < 128) (Glue.asciiEscape b)
  ∧ (Forall (λ c, c < 128) (Utf8.runes b) → Glue.asciiEscape b = Utf8.runes b)
  ∧ ∀ r, r ∈ Utf8.runes b → 128 ≤ r → read_escape (Glue.escape_rune r) = Some r.
Proof.
  intros Hb. apply runes_scalar in Hb. unfold Glue.asciiEscape. split; [|split].
  - apply Forall_concat, Forall_fmap. eapply Forall_impl; [exact Hb|]. intros r [Hr _]. simpl.
    unfold Glue.escape_rune, Utf8.RuneSelf.
    destruct (Z.ltb_spec r 128); [constructor; [lia|constructor]|].
    destruct (_ <? r); [apply Forall_app; split|]; apply unicode_escape_ascii.
  - intros Hall. induction Hall as [|r l Hr _ IH]; [done|]. simpl. unfold Glue.escape_rune at 1, Utf8.RuneSelf.
    destruct (Z.ltb_spec r 128); [|lia]. simpl. f_equal. apply IH. by inversion Hb.
  - intros r Hr Hge. rewrite Forall_forall in Hb. destruct (Hb r Hr) as [Hlt Hsur].
    unfold Glue.escape_rune, Utf8.RuneSelf. destruct (Z.ltb_spec r 128); [lia|].
    destruct (Z.ltb_spec 65535 r).
    + rewrite Z.shiftr_div_pow2, land1023 by lia. change (2 ^ 10) with 1024.
      pose proof (Z.mod_pos_bound (r - 65536) 1024 eq_refl).
      assert (0 ≤ (r - 65536) / 1024 < 1024) by (Z.to_euclidean_division_equations; lia).
      unfold read_escape. rewrite bool_decide_false by done.
      rewrite take_app_length', drop_app_length' by done. rewrite !read_unit_escape by lia. simpl.
      rewrite !(proj2 (Z.leb_le _ _)) by lia. simpl. f_equal. Z.to_euclidean_division_equations. lia.
    + unfold read_escape. rewrite bool_decide_true by done. rewrite read_unit_escape by lia. simpl.
      destruct (_ && _) eqn:Hs; [|done]. bounds. lia.
Qed.
