(* ===== verification/ConfigSpec.v ===== *)
(** * What start-up guarantees

    The fail-fast checks of cmd/server, and the statement timeout of the DSNs. *)
From S2P Require Import Prelude GoLib Domain World Config System.
Local Open Scope string_scope.
Local Open Scope Z_scope.

(** ** loadConfig *)
Lemma parsed_bind {A B} (r : result goerror A) (k : A → result goerror B) b :
  (r ≫= k) = Ok b → ∃ a, r = Ok a ∧ k a = Ok b.
Proof. destruct r; simpl; [eauto|done]. Qed.

Lemma checkRequiredEnv_ok env cfg cfg' :
  checkRequiredEnv env cfg = Ok cfg' →
  cfg' = cfg
  ∧ (unset env "DATABASE_URL" = false
     ∨ (unset env "PG_HOST" = false ∧ unset env "PG_USER" = false ∧ unset env "PG_PASSWORD" = false))
  ∧ (env "PG_BOUNCER_MODE" = "true" → unset env "MIGRATION_DATABASE_URL" = false)
  ∧ SNSTopicARN cfg ≠ "" ∧ CascadeQueueURL cfg ≠ ""
  ∧ (isDevLikeEnvironment (resolveAppEnv env) = false → unset env "SYSTEM_DATABASE_URL" = false)
  ∧ (Environment cfg = "production" → DocsEnabled cfg = true → DocsAuthToken cfg ≠ "").
Proof.
  unfold checkRequiredEnv.
  destruct (_ && (_ || _ || _)) eqn:Hdb; [done|].
  destruct (bool_decide (env "PG_BOUNCER_MODE" = "true") && _) eqn:Hmig; [done|].
  destruct (bool_decide (SNSTopicARN cfg = "")) eqn:Hsns; [done|]. apply bool_decide_eq_false in Hsns.
  destruct (bool_decide (CascadeQueueURL cfg = "")) eqn:Hq; [done|]. apply bool_decide_eq_false in Hq.
  destruct (negb _ && _) eqn:Hsys; [done|].
  destruct (_ && DocsEnabled cfg && _) eqn:Hdocs; [done|]. intros [= <-]. split; [done|].
  split; [|split; [|split; [done|split; [done|split]]]].
  - destruct (unset env "DATABASE_URL"), (unset env "PG_HOST"), (unset env "PG_USER"), (unset env "PG_PASSWORD");
      simpl in Hdb; auto; done.
  - intros Hm. rewrite bool_decide_true in Hmig by done. exact Hmig.
  - intros Hd. rewrite Hd in Hsys. exact Hsys.
  - intros He Hen. rewrite bool_decide_true, Hen in Hdocs by done. simpl in Hdocs.
    by apply bool_decide_eq_false in Hdocs.
Qed.

(** C36. The server starts only when it is safely configured: a database, the SNS
    topic and the queue are named, migrations bypass a transaction pooler, outside
    development the background work runs on the system pool, whose role sees every
    tenant, and with ENVIRONMENT=production the API docs are off unless asked for,
    and then behind a token. *)
Theorem loadConfig_fail_fast env cfg :
  loadConfig env = Ok cfg →
  (unset env "DATABASE_URL" = false
   ∨ (unset env "PG_HOST" = false ∧ unset env "PG_USER" = false ∧ unset env "PG_PASSWORD" = false))
  ∧ (env "PG_BOUNCER_MODE" = "true" → unset env "MIGRATION_DATABASE_URL" = false)
  ∧ env "SNS_TOPIC_ARN" ≠ "" ∧ env "CASCADE_QUEUE_URL" ≠ ""
  ∧ (isDevLikeEnvironment (resolveAppEnv env) = false → sysPool env = SysRole)
  ∧ (env "ENVIRONMENT" = "production" →
       (unset env "DOCS_ENABLED" = true → DocsEnabled cfg = false)
       ∧ (DocsEnabled cfg = true → DocsAuthToken cfg ≠ "")).
Proof.
  unfold loadConfig. intros H.
  repeat (apply parsed_bind in H as (? & ? & H)).
  apply checkRequiredEnv_ok in H as (-> & Hdb & Hmig & Hsns & Hq & Hsys & Hdocs). simpl in *.
  split; [done|]. split; [done|]. split; [done|]. split; [done|]. split.
  - intros Hd. unfold sysPool. by rewrite (Hsys Hd).
  - intros He. assert (getEnv env "ENVIRONMENT" "development" = "production") as Henv.
    { unfold getEnv, unset. by rewrite He. }
    rewrite Henv in *. split; [|by apply Hdocs].
    intros Hun. match goal with Hb : getEnvBool _ _ _ = Ok ?d |- ?d = false => unfold getEnvBool, parsed in Hb;
      rewrite Hun in Hb; simpl in Hb; congruence end.
Qed.

(** ** The environment both binaries see

    Each package has its own helpers; they read a variable the same way. *)
Section reconciler.
Context (env : Environ).

Lemma reconciler_getEnv key fallback : Reconciler.getEnv env key fallback = getEnv env key fallback.
Proof. unfold Reconciler.getEnv, getEnv. by destruct (unset env key). Qed.
Lemma reconciler_isDevLike e : Reconciler.isDevLikeEnvironment e = isDevLikeEnvironment e.
Proof.
  unfold isDevLikeEnvironment, Reconciler.isDevLikeEnvironment. rewrite <- !bool_decide_or.
  apply bool_decide_ext. set_solver.
Qed.
Lemma reconciler_resolveAppEnv : Reconciler.resolveAppEnv env = resolveAppEnv env.
Proof. unfold Reconciler.resolveAppEnv, resolveAppEnv. by rewrite reconciler_isDevLike, !reconciler_getEnv. Qed.
Lemma reconciler_getEnvDurationMS key fallback :
  Reconciler.getEnvDurationMS env key fallback = getEnvDuration env key fallback.
Proof. unfold Reconciler.getEnvDurationMS, getEnvDuration, parsed. by destruct (unset env key), (Atoi (env key)). Qed.
Lemma reconciler_getEnvIntVar key fallback : Reconciler.getEnvIntVar env key fallback = getEnvInt env key fallback.
Proof. unfold Reconciler.getEnvIntVar, getEnvInt, parsed. by destruct (unset env key), (Atoi (env key)). Qed.
End reconciler.

(** Filling in what is unset leaves what is set, and the variables it does not name. *)
Lemma backfill_other key val env k : k ≠ key → backfill key val env k = env k.
Proof. intros Hk. unfold backfill, Setenv. destruct (unset env key); [|done]. by rewrite bool_decide_false. Qed.
Lemma backfill_set key val env : env key ≠ "" → backfill key val env = env.
Proof. intros Hk. unfold backfill, unset. by rewrite bool_decide_false. Qed.
Lemma backfill_lookup key val env : backfill key val env key = getEnv env key val.
Proof. unfold backfill, getEnv, Setenv. destruct (unset env key); [by rewrite bool_decide_true|done]. Qed.

Definition telemetryVars : list string := ["APP_ENV"; "APP_NAME"; "OTEL_SERVICE_NAME"; "BUILD_VERSION"].
Lemma ensureGincommonEnv_other version env k : k ∉ telemetryVars → ensureGincommonEnv version env k = env k.
Proof.
  intros Hk. unfold telemetryVars in Hk. unfold ensureGincommonEnv.
  destruct (_ && _); unfold Setenv; rewrite ?bool_decide_false by set_solver; rewrite !backfill_other by set_solver; done.
Qed.
Lemma resolveAppEnv_nonempty env : resolveAppEnv env ≠ "".
Proof.
  unfold resolveAppEnv, isDevLikeEnvironment, unset. case_bool_decide; [|done]. simpl.
  case_bool_decide as Hd; [done|]. unfold getEnv, unset in *. case_bool_decide; [done|done].
Qed.
Lemma ensureGincommonEnv_app_env version env : ensureGincommonEnv version env "APP_ENV" = resolveAppEnv env.
Proof.
  unfold ensureGincommonEnv. destruct (_ && _); unfold Setenv; rewrite ?bool_decide_false by done;
    rewrite !(backfill_other _ _ _ "APP_ENV") by done; rewrite backfill_lookup; unfold getEnv; destruct (unset env "APP_ENV") eqn:Hu; try done;
    unfold resolveAppEnv; by rewrite Hu.
Qed.
Lemma ensureGincommonEnv_resolveAppEnv version env : resolveAppEnv (ensureGincommonEnv version env) = resolveAppEnv env.
Proof.
  pose proof (resolveAppEnv_nonempty env) as Hne. unfold resolveAppEnv at 1, unset.
  by rewrite ensureGincommonEnv_app_env, bool_decide_false.
Qed.

(** Completing the environment for telemetry changes no setting of the server, and
    no outcome of its start-up checks: APP_ENV becomes what it was taken for. *)
Theorem loadConfig_after_ensureGincommonEnv version env :
  loadConfig (ensureGincommonEnv version env) = loadConfig env.
Proof.
  pose proof (ensureGincommonEnv_other version env) as Ho. pose proof (ensureGincommonEnv_resolveAppEnv version env) as Hr.
  set (env' := ensureGincommonEnv version env) in *. clearbody env'.
  unfold loadConfig, checkRequiredEnv, getEnvDuration, getEnvDurationSeconds, getEnvDurationStr, getEnvBool, getEnvInt,
    parsed, getEnv, unset. rewrite Hr.
  repeat match goal with |- context [env' ?k] => rewrite (Ho k) by (unfold telemetryVars; set_solver) end.
  done.
Qed.

(** ** ApplyStatementTimeout *)
Lemma Contains_app s s' sub : Contains s' sub = true → Contains (s ++ s') sub = true.
Proof. intros Hc. induction s as [|a s IH]; [done|]. simpl. rewrite IH. by rewrite orb_true_r. Qed.

Lemma HasPrefix_app s s' : HasPrefix (s ++ s') s = true.
Proof. induction s as [|a s IH]; [by destruct s'|]. simpl. unfold HasPrefix in *. simpl. by destruct (ascii_dec a a). Qed.
Lemma HasPrefix_app_nil s : HasPrefix s s = true.
Proof. induction s as [|a s IH]; [done|]. unfold HasPrefix in *. simpl. by destruct (ascii_dec a a). Qed.

(** The statement timeout is added to a DSN at most once, behind what is there:
    the DSN is unchanged when no positive timeout is configured or when it names one
    already, and applying the function again changes nothing. *)
Theorem ApplyStatementTimeout_once env dsn :
  HasPrefix (ApplyStatementTimeout env dsn) dsn = true
  ∧ (Contains dsn "statement_timeout" = true → ApplyStatementTimeout env dsn = dsn)
  ∧ (ApplyStatementTimeout env dsn ≠ dsn → Contains (ApplyStatementTimeout env dsn) "statement_timeout" = true)
  ∧ ApplyStatementTimeout env (ApplyStatementTimeout env dsn) = ApplyStatementTimeout env dsn.
Proof.
  assert (HasPrefix dsn dsn = true) as Hrefl by apply HasPrefix_app_nil.
  set (A := ApplyStatementTimeout env).
  assert (A dsn = dsn ∨ ∃ sfx, A dsn = dsn ++ sfx ∧ Contains sfx "statement_timeout" = true ∧ Contains dsn "statement_timeout" = false)
    as Hcases.
  { unfold A, ApplyStatementTimeout. case_bool_decide; [by left|]. destruct (unset _ _); [by left|].
    destruct (DurationText.ParseDuration _); [|by left]. destruct (0 <? _); [|by left].
    destruct (Contains dsn "statement_timeout") eqn:Hc; [by left|]. right. eexists. split; [done|]. split; [|done].
    destruct (Contains dsn "?"); reflexivity. }
  destruct Hcases as [Heq|(sfx & Heq & Hs & Hno)].
  - rewrite !Heq. done.
  - assert (Contains (A dsn) "statement_timeout" = true) as Hc by (rewrite Heq; by apply Contains_app).
    split; [rewrite Heq; apply HasPrefix_app|]. split; [congruence|]. split; [done|].
    unfold A at 1, ApplyStatementTimeout. rewrite Hc. case_bool_decide; [done|]. destruct (unset _ _); [done|].
    destruct (DurationText.ParseDuration _); [|done]. by destruct (0 <? _).
Qed.

(** *** The docs and APP_ENV *)

(** A server configured for production by APP_ENV alone, as the platform sets it. *)
Definition app_env_only : Environ := λ key,
  if bool_decide (key = "APP_ENV") then "production"
  else if bool_decide (key ∈ ["DATABASE_URL"; "SYSTEM_DATABASE_URL"; "SNS_TOPIC_ARN"; "CASCADE_QUEUE_URL"]) then "set"
  else "".

(** The two production checks read different variables: with APP_ENV=production
    and ENVIRONMENT unset the program takes itself for production when it requires
    the system pool, but for development when it decides on the docs, which it
    then serves, without asking for a token. *)
Theorem docs_open_without_ENVIRONMENT :
  resolveAppEnv app_env_only = "production" ∧
  match loadConfig app_env_only with
  | Ok cfg => DocsEnabled cfg = true ∧ DocsAuthToken cfg = "" ∧ Environment cfg = "development"
  | Err _ => False
  end.
Proof. vm_compute. done. Qed.
