(* ===== verification/Serving.v ===== *)
(** * The goroutine group of the server: the end of run in cmd/server/main.go

    Seven goroutines under one errgroup: the relay, the queue consumer, the gauge
    exporter, the prune sweep, two listeners and the one that shuts the others
    down.  Each is a piece of [Code]; [step] lets any of them move, whichever the
    scheduler, the timers, the clients and the signals choose.  golang.org/x/sync
    and the runners of platform-events are parameters; net/http is modelled as far
    as it is used. *)
From S2P Require Import Prelude GoLib Domain World Config Startup.
Local Open Scope string_scope.

(** ** Parameters *)
(** errgroup: what the goroutines have returned so far, in some form. *)
Class ErrGroup := {
  group : Type;
  WithContext : group;
  finished : option goerror → group → group;
  Wait : group → option goerror;
  cancelled : group → bool;                 (* the derived context, by the group itself *)
}.
(** "The derived Context is canceled the first time a function passed to Go returns
    a non-nil error"; "Wait ... returns the first non-nil error (if any)". *)
Class ErrGroupLaws `{ErrGroup} := {
  Wait_start : Wait WithContext = None;
  Wait_finished e g : Wait (finished e g) = match Wait g with Some e0 => Some e0 | None => e end;
  cancelled_start : cancelled WithContext = false;
  cancelled_finished e g : cancelled (finished e g) = cancelled g || match e with Some _ => true | None => false end;
}.

(** Start of the outbox runner and of the SQS consumer: what it may return, given
    whether its context is done and whether Stop was called. *)
Inductive Runner := OutboxRunner | SQSConsumer.
Class Runners := start_returns : Runner → bool → bool → option goerror → bool.
(** With its context done it does return. *)
Class RunnersLaws `{Runners} := start_ends : ∀ r stopped, ∃ e, start_returns r true stopped e = true.

(** ** Code of a goroutine *)
Inductive Server := APIServer | MetricsServer.
Definition shutdown_of (s : Server) : Action := match s with APIServer => ShutdownHTTP | MetricsServer => ShutdownMetricsServer end.

(** Calls that block.  [Stop_] is one of the four of the shutdown sequence. *)
Inductive Call :=
| Start_ (r : Runner)
| ListenAndServe (s : Server)
| CountActiveAndReplace | PrunePublished
| Stop_ (a : Action).

Inductive Code :=
| Return (e : option goerror)
| Block (c : Call) (k : option goerror → Code)
| AwaitDone (k : Code)                       (* <-gCtx.Done() *)
| NewTicker (k : Code)
| Loop (body : Call).                        (* for { select { <-gCtx.Done(): return nil; <-ticker.C: body } } *)

Definition ErrServerClosed : goerror := EPlain "http: Server closed".
Definition is_server_closed (e : goerror) : bool :=
  match e with EPlain m => bool_decide (m = "http: Server closed") | _ => false end.

Definition outboxRelay : Code := Block (Start_ OutboxRunner) Return.
Definition cascadeWorker : Code := Block (Start_ SQSConsumer) Return.
(** exporters.go, tick: a failed query is logged. *)
Definition gaugeExporter : Code := Block CountActiveAndReplace (λ _, NewTicker (Loop CountActiveAndReplace)).
Definition pruneSweep : Code := NewTicker (Loop PrunePublished).
Definition listener (s : Server) (msg : string) : Code :=
  Block (ListenAndServe s) (λ err,
    match err with
    | Some e => if is_server_closed e then Return None else Return (Some (EWrap msg e))
    | None => Return None
    end).
Definition shutdownSequence : Code :=
  AwaitDone (
  Block (Stop_ ShutdownHTTP) (λ _,
  Block (Stop_ ShutdownMetricsServer) (λ _,
  Block (Stop_ StopOutboxRunner) (λ _,
  Block (Stop_ StopSQSConsumer) (λ _,
  Return None))))).

Definition goroutines : list Code :=
  [outboxRelay; cascadeWorker; gaugeExporter; pruneSweep;
   listener APIServer "http server"; listener MetricsServer "metrics server"; shutdownSequence].

(** ** The group *)
Inductive Where := Ready (c : Code) | Inside (c : Call) (k : option goerror → Code) | Finished.
(** A ticker holds at most one tick. *)
Record Task := mkTask { t_at : Where; t_ticker : option bool }.

Section group.
Context `{ErrGroup} `{Runners}.

Record Group := mkGroup {
  g_tasks : list Task;
  g_signalled : bool;                        (* SIGINT, SIGTERM *)
  g_group : group;
  g_returned : list (option goerror);        (* in order *)
  g_begun : list Action;                     (* calls of the shutdown sequence, begun *)
  g_stops : Log;                             (* and returned, with their success *)
  g_inflight : nat;                          (* requests of the API *)
}.
Definition started : Group :=
  mkGroup ((λ c, mkTask (Ready c) None) <$> goroutines) false WithContext [] [] [] 0.

(** gCtx: of the group, derived from that of the signals. *)
Definition done (g : Group) : bool := g_signalled g || cancelled (g_group g).
Definition begun (a : Action) (g : Group) : bool := bool_decide (a ∈ g_begun g).

Definition stop_of (r : Runner) : Action := match r with OutboxRunner => StopOutboxRunner | SQSConsumer => StopSQSConsumer end.
(** What a blocking call may return.  ListenAndServe always returns an error, and
    ErrServerClosed only once Shutdown was called; Shutdown of the API succeeds when
    no request is in flight, or fails at its deadline. *)
Definition may_return (g : Group) (c : Call) (r : option goerror) : bool :=
  match c with
  | Start_ w => start_returns w (done g) (begun (stop_of w) g) r
  | ListenAndServe s =>
      match r with None => false | Some e => negb (is_server_closed e) || begun (shutdown_of s) g end
  | Stop_ ShutdownHTTP => match r with None => bool_decide (g_inflight g = 0%nat) | Some _ => true end
  | Stop_ _ | CountActiveAndReplace | PrunePublished => true
  end.

Definition place (i : nat) (t : Task) (g : Group) : Group :=
  mkGroup (<[i := t]> (g_tasks g)) (g_signalled g) (g_group g) (g_returned g) (g_begun g) (g_stops g) (g_inflight g).
Definition enter (c : Call) (g : Group) : Group :=
  match c with
  | Stop_ a => mkGroup (g_tasks g) (g_signalled g) (g_group g) (g_returned g) (g_begun g ++ [a])%list (g_stops g) (g_inflight g)
  | _ => g
  end.
Definition leave (c : Call) (r : option goerror) (g : Group) : Group :=
  match c with
  | Stop_ a => mkGroup (g_tasks g) (g_signalled g) (g_group g) (g_returned g) (g_begun g)
                 (g_stops g ++ [(a, match r with None => true | Some _ => false end)])%list (g_inflight g)
  | _ => g
  end.
Definition finish (e : option goerror) (g : Group) : Group :=
  mkGroup (g_tasks g) (g_signalled g) (finished e (g_group g)) (g_returned g ++ [e])%list (g_begun g) (g_stops g) (g_inflight g).

(** A goroutine moves; [r] is what the call it is in returns. *)
Definition move (i : nat) (r : option goerror) (g : Group) : option Group :=
  t ← g_tasks g !! i;
  match t_at t with
  | Ready (Return e) => Some (place i (mkTask Finished None) (finish e g))
  | Ready (Block c k) => Some (place i (mkTask (Inside c k) (t_ticker t)) (enter c g))
  | Ready (AwaitDone k) => if done g then Some (place i (mkTask (Ready k) (t_ticker t)) g) else None
  | Ready (NewTicker k) => Some (place i (mkTask (Ready k) (Some false)) g)
  | Ready (Loop body) => if done g then Some (place i (mkTask (Ready (Return None)) (t_ticker t)) g) else None
  | Inside c k => if may_return g c r then Some (place i (mkTask (Ready (k r)) (t_ticker t)) (leave c r g)) else None
  | Finished => None
  end.
(** The other branch of the select: when both are ready, either is taken. *)
Definition take_tick (i : nat) (g : Group) : option Group :=
  t ← g_tasks g !! i;
  match t_at t, t_ticker t with
  | Ready (Loop body), Some true => Some (place i (mkTask (Ready (Block body (λ _, Loop body))) (Some false)) g)
  | _, _ => None
  end.
(** The timer fires; a tick nobody has taken yet is dropped. *)
Definition fire (i : nat) (g : Group) : option Group :=
  t ← g_tasks g !! i;
  match t_ticker t with Some _ => Some (place i (mkTask (t_at t) (Some true)) g) | None => None end.
Definition listening (s : Server) (t : Task) : bool :=
  match t_at t, s with
  | Inside (ListenAndServe APIServer) _, APIServer | Inside (ListenAndServe MetricsServer) _, MetricsServer => true
  | _, _ => false
  end.
Definition set_inflight (n : nat) (g : Group) : Group :=
  mkGroup (g_tasks g) (g_signalled g) (g_group g) (g_returned g) (g_begun g) (g_stops g) n.
Definition signal (g : Group) : Group :=
  mkGroup (g_tasks g) true (g_group g) (g_returned g) (g_begun g) (g_stops g) (g_inflight g).

Inductive Choice := Move (i : nat) (r : option goerror) | TakeTick (i : nat) | Fire (i : nat) | Signal | Accept | Answered.
Definition step (c : Choice) (g : Group) : option Group :=
  match c with
  | Move i r => move i r g
  | TakeTick i => take_tick i g
  | Fire i => fire i g
  | Signal => Some (signal g)
  | Accept => if existsb (listening APIServer) (g_tasks g) && negb (begun ShutdownHTTP g)
              then Some (set_inflight (S (g_inflight g)) g) else None
  | Answered => match g_inflight g with S n => Some (set_inflight n g) | O => None end
  end.
Fixpoint steps (cs : list Choice) (g : Group) : option Group :=
  match cs with [] => Some g | c :: cs' => g' ← step c g; steps cs' g' end.

(** g.Wait() returns when every goroutine has. *)
Definition waited (g : Group) : bool := forallb (λ t, match t_at t with Finished => true | _ => false end) (g_tasks g).
End group.
