(* ===== verification/ServingSpec.v ===== *)
(** * The goroutine group ends, in order, and is what [serve_and_stop] says

    An invariant of every reachable group (how far the shutdown sequence is, what
    it has called, what the others never call), and a budget that every move of a
    goroutine uses up. *)
From S2P Require Import Prelude GoLib Domain World Config Startup Serving.
Local Open Scope nat_scope.

(** ** The budget: how many moves are left *)
Inductive within : nat → Where → Prop :=
| within_finished n : within n Finished
| within_return n e : within (S n) (Ready (Return e))
| within_enter n c k : within n (Inside c k) → within (S n) (Ready (Block c k))
| within_leave n c k : (∀ r, within n (Ready (k r))) → within (S n) (Inside c k)
| within_await n k : within n (Ready k) → within (S n) (Ready (AwaitDone k))
| within_ticker n k : within n (Ready k) → within (S n) (Ready (NewTicker k))
| within_loop n body : within (S (S n)) (Ready (Loop body)).
#[local] Hint Constructors within : core.

(** A tick that waits lets its loop move three times more. *)
Definition pending (t : Task) : nat := match t_ticker t with Some true => 3 | _ => 0 end.
Definition affords (n : nat) (t : Task) : Prop := ∃ m, within m (t_at t) ∧ m + pending t ≤ n.

Definition own_move (c : Choice) : nat := match c with Move _ _ | TakeTick _ => 1 | _ => 0 end.
Definition one_tick (c : Choice) : nat := match c with Fire _ => 1 | _ => 0 end.
Definition moves (cs : list Choice) : nat := sum_list (own_move <$> cs).
Definition ticks (cs : list Choice) : nat := sum_list (one_tick <$> cs).

(** ** The shutdown sequence *)
Definition stop_calls : list Action := [ShutdownHTTP; ShutdownMetricsServer; StopOutboxRunner; StopSQSConsumer].
Fixpoint stopping (l : list Action) : Code :=
  match l with [] => Return None | a :: l' => Block (Stop_ a) (λ _, stopping l') end.
Lemma shutdownSequence_stops : shutdownSequence = AwaitDone (stopping stop_calls).
Proof. reflexivity. Qed.

Definition is_stop (c : Call) : bool := match c with Stop_ _ => true | _ => false end.
Fixpoint never_stops (c : Code) : Prop :=
  match c with
  | Return _ => True
  | Block c k => is_stop c = false ∧ ∀ r, never_stops (k r)
  | AwaitDone k | NewTicker k => never_stops k
  | Loop body => is_stop body = false
  end.
Definition no_stop (w : Where) : Prop :=
  match w with
  | Ready c => never_stops c
  | Inside c k => is_stop c = false ∧ ∀ r, never_stops (k r)
  | Finished => True
  end.

Section group.
Context `{EG : ErrGroup} `{R : Runners} `{!ErrGroupLaws} `{!RunnersLaws}.
Implicit Types (g : Group).

(** *** Using up the budget *)
Definition affordable (ns : list nat) g : Prop := Forall2 affords ns (g_tasks g).

Lemma sum_list_insert (ns : list nat) i a b : ns !! i = Some a → sum_list (<[i := b]> ns) + a = sum_list ns + b.
Proof.
  revert i. induction ns as [|n ns IH]; intros [|i]; simpl; [done..|intros [= ->]; lia|]. intros Hi. specialize (IH i Hi). lia.
Qed.
Lemma started_affordable : affordable [3; 3; 5; 3; 3; 3; 10] started.
Proof.
  unfold affordable, started. simpl. repeat (apply Forall2_cons; split); [..|apply Forall2_nil; done];
    (eexists; split; [|apply Nat.eq_le_incl, Nat.add_0_r]); simpl; repeat (constructor; intros); try done;
    repeat case_match; constructor.
Qed.
Lemma affordable_at ns g i t : affordable ns g → g_tasks g !! i = Some t → ∃ n, ns !! i = Some n ∧ affords n t.
Proof. intros Ha Hi. destruct (Forall2_lookup_r _ _ _ _ _ Ha Hi) as (n & ? & ?). by exists n. Qed.
(** A move of goroutine [i] that leaves it cheaper. *)
Lemma affordable_move ns g g' i n t' d :
  affordable ns g → ns !! i = Some n → g_tasks g' = <[i := t']> (g_tasks g) → affords (n + d - 1) t' → 1 ≤ n + d →
  ∃ ns', affordable ns' g' ∧ sum_list ns' + 1 ≤ sum_list ns + d.
Proof.
  intros Ha Hn Hg Ht Hd. exists (<[i := n + d - 1]> ns). split.
  - unfold affordable. rewrite Hg. by apply Forall2_insert.
  - pose proof (sum_list_insert ns i n (n + d - 1) Hn). lia.
Qed.

(** *** The cases of a move *)
Inductive moved g (t : Task) (r : option goerror) : Task → Group → Prop :=
| moved_return e : t_at t = Ready (Return e) → moved g t r (mkTask Finished None) (finish e g)
| moved_enter c k : t_at t = Ready (Block c k) → moved g t r (mkTask (Inside c k) (t_ticker t)) (enter c g)
| moved_leave c k : t_at t = Inside c k → may_return g c r = true →
    moved g t r (mkTask (Ready (k r)) (t_ticker t)) (leave c r g)
| moved_await k : t_at t = Ready (AwaitDone k) → done g = true → moved g t r (mkTask (Ready k) (t_ticker t)) g
| moved_ticker k : t_at t = Ready (NewTicker k) → moved g t r (mkTask (Ready k) (Some false)) g
| moved_done body : t_at t = Ready (Loop body) → done g = true →
    moved g t r (mkTask (Ready (Return None)) (t_ticker t)) g.
Lemma move_moved i r g g' : move i r g = Some g' →
  ∃ t t' g1, g_tasks g !! i = Some t ∧ moved g t r t' g1 ∧ g' = place i t' g1 ∧ g_tasks g1 = g_tasks g.
Proof.
  unfold move. intros Hm. destruct (g_tasks g !! i) as [t|] eqn:Hi; [|done]. simpl in Hm. exists t.
  destruct (t_at t) as [[]|c k|] eqn:Hat; try destruct (done g) eqn:Hd; try destruct (may_return g c r) eqn:Hr; simplify_eq;
    eexists _, _; (split; [done|]); (split; [by econstructor|]); (split; [reflexivity|]); try done; by destruct c.
Qed.
Lemma moved_move g i r t t' g1 : g_tasks g !! i = Some t → moved g t r t' g1 → move i r g = Some (place i t' g1).
Proof. intros Hi Hm. unfold move. rewrite Hi. simpl. destruct Hm as [? Ha|? ? Ha|? ? Ha Hb|? Ha Hb|? Ha|? Ha Hb]; rewrite Ha, ?Hb; done. Qed.

Lemma move_cost ns g g' i r : affordable ns g → move i r g = Some g' →
  ∃ ns', affordable ns' g' ∧ sum_list ns' + 1 ≤ sum_list ns.
Proof.
  intros Ha Hm. destruct (move_moved _ _ _ _ Hm) as (t & t' & g1 & Hi & Hmv & -> & Hts).
  destruct (affordable_at _ _ _ _ Ha Hi) as (n & Hn & m & Hw & Hle).
  assert (affords (n - 1) t' ∧ 1 ≤ n) as [Ht Hn1].
  { split; [exists (m - 1)|]; unfold pending in *; destruct Hmv as [? Hat|? ? Hat|? ? Hat _|? Hat _|? Hat|? Hat _]; rewrite Hat in Hw;
      inversion Hw; subst; simplify_eq; simpl; rewrite ?Nat.sub_0_r; try lia; (split; [by eauto|lia]). }
  destruct (affordable_move ns g (place i t' g1) i n t' 0 Ha Hn) as (ns' & ? & ?);
    [simpl; by rewrite Hts|by replace (n + 0 - 1) with (n - 1) by lia|lia|]. exists ns'. split; [done|lia].
Qed.
Lemma step_cost ns g g' c : affordable ns g → step c g = Some g' →
  ∃ ns', affordable ns' g' ∧ sum_list ns' + own_move c ≤ sum_list ns + 3 * one_tick c.
Proof.
  intros Ha. destruct c as [i r|i|i| | |]; simpl; unfold take_tick, fire; intros Hs.
  - destruct (move_cost ns g g' i r Ha Hs) as (ns' & ? & ?). exists ns'. split; [done|lia].
  - destruct (g_tasks g !! i) as [t|] eqn:Hi; [|done]. simpl in Hs. destruct (affordable_at _ _ _ _ Ha Hi) as (n & Hn & m & Hw & Hle).
    destruct t as [[[| | | |body]| |] [[]|]]; simplify_eq/=. unfold pending in Hle. simpl in *. inversion Hw; subst.
    eapply affordable_move; [exact Ha|exact Hn|reflexivity| |lia]. exists 4. split; [repeat (constructor; intros)|unfold pending; simpl; lia].
  - destruct (g_tasks g !! i) as [t|] eqn:Hi; [|done]. simpl in Hs. destruct (affordable_at _ _ _ _ Ha Hi) as (n & Hn & m & Hw & Hle).
    destruct (t_ticker t) eqn:Htk; [|done]. simplify_eq.
    destruct (affordable_move ns g (place i (mkTask (t_at t) (Some true)) g) i n (mkTask (t_at t) (Some true)) 4 Ha Hn) as (ns' & ? & ?);
      [done| |lia|exists ns'; split; [done|lia]]. exists m. split; [done|unfold pending; simpl; lia].
  - simplify_eq. exists ns. split; [done|lia].
  - destruct (_ && _); simplify_eq. exists ns. split; [done|lia].
  - destruct (g_inflight g); simplify_eq. exists ns. split; [done|lia].
Qed.
Lemma steps_cost ns g g' cs : affordable ns g → steps cs g = Some g' → moves cs ≤ sum_list ns + 3 * ticks cs.
Proof.
  revert ns g. induction cs as [|c cs IH]; intros ns g Ha; cbn [steps]; [change (moves []) with 0; lia|].
  destruct (step c g) as [g1|] eqn:Hs; [|done]. simpl. intros Hcs. destruct (step_cost _ _ _ _ Ha Hs) as (ns1 & Ha1 & Hle).
  pose proof (IH ns1 g1 Ha1 Hcs). change (moves (c :: cs)) with (own_move c + moves cs).
  change (ticks (c :: cs)) with (one_tick c + ticks cs). lia.
Qed.

(** *** How far the shutdown is *)
Definition called g : list Action := fst <$> g_stops g.
Inductive phase g : Where → Prop :=
| phase_waiting : g_begun g = [] → g_stops g = [] → phase g (Ready (AwaitDone (stopping stop_calls)))
| phase_between rest : called g ++ rest = stop_calls → g_begun g = called g → done g = true → phase g (Ready (stopping rest))
| phase_inside a rest : called g ++ a :: rest = stop_calls → g_begun g = called g ++ [a] → done g = true →
    phase g (Inside (Stop_ a) (λ _, stopping rest))
| phase_over : called g = stop_calls → g_begun g = stop_calls → done g = true → phase g Finished.

Record group_inv g : Prop := {
  inv_length : length (g_tasks g) = 7;
  inv_others : ∀ i t, g_tasks g !! i = Some t → i ≠ 6 → no_stop (t_at t);
  inv_shutdown : ∃ t, g_tasks g !! 6 = Some t ∧ phase g (t_at t);
  inv_wait : Wait (g_group g) = head (omap id (g_returned g));
  inv_cancelled : cancelled (g_group g) = match Wait (g_group g) with Some _ => true | None => false end;
  inv_drained : (ShutdownHTTP, true) ∈ g_stops g → g_inflight g = 0;
}.

Lemma phase_same g g' w : phase g w → g_begun g' = g_begun g → g_stops g' = g_stops g → (done g = true → done g' = true) → phase g' w.
Proof.
  intros Hp Hb Hs Hd. destruct Hp as [? ?|? Hc ? ?|? ? Hc ? ?|Hc ? ?]; constructor; unfold called in *;
    rewrite ?Hb, ?Hs; auto.
Qed.
Lemma phase_begun g w a ok : phase g w → (a, ok) ∈ g_stops g → a ∈ g_begun g.
Proof.
  intros Hp Hin. assert (a ∈ called g) as Ha by (apply list_elem_of_fmap; by exists (a, ok)).
  destruct Hp as [? Hs|? Hc -> ?|? ? Hc -> ?|Hc -> ?]; [rewrite Hs in Hin; set_solver|done|set_solver|congruence].
Qed.
Lemma phase_begun_done g w : phase g w → g_begun g ≠ [] → done g = true.
Proof. by intros []. Qed.
Lemma phase_prefix g w : phase g w → called g `prefix_of` stop_calls.
Proof.
  intros [? Hs|rest Hc ? ?|a rest Hc ? ?|Hc ? ?]; rewrite <- ?Hc; [unfold called; rewrite Hs; apply prefix_nil|by eexists..|by rewrite Hc].
Qed.

Lemma finish_done e g : done g = true → done (finish e g) = true.
Proof. unfold done. simpl. rewrite cancelled_finished. destruct (g_signalled g), (cancelled (g_group g)); done. Qed.

Lemma phase_moved g t r t' g1 : phase g (t_at t) → moved g t r t' g1 → phase g1 (t_at t').
Proof.
  intros Hp Hm. destruct Hm as [e Ha|c k Ha|c k Ha Hr|k Ha Hd|k Ha|body Ha Hd]; rewrite Ha in Hp; simpl.
  - inversion Hp as [|rest Hc Hb Hdn Heq| |]. destruct rest; [|done]. rewrite app_nil_r in Hc.
    constructor; [done|simpl; congruence|by apply finish_done].
  - inversion Hp as [|[|a rest] Hc Hb Hdn Heq| |]; simplify_eq/=. by constructor; simpl; [|by rewrite Hb|].
  - inversion Hp as [| |a rest Hc Hb Hdn Heq|]; subst. constructor; [|simpl|done]; unfold called in *; simpl; rewrite fmap_app; simpl.
    + by rewrite <- app_assoc.
    + done.
  - inversion Hp as [Hb Hs Heq|[|]| |]; subst. apply (phase_between g stop_calls); unfold called; [by rewrite Hs|by rewrite Hb, Hs|done].
  - inversion Hp as [|[|]| |]; done.
  - inversion Hp as [|[|]| |]; done.
Qed.
(** The others do not call what the shutdown sequence calls. *)
Lemma others_moved g t r t' g1 : no_stop (t_at t) → moved g t r t' g1 →
  no_stop (t_at t') ∧ g_begun g1 = g_begun g ∧ g_stops g1 = g_stops g ∧ (done g = true → done g1 = true).
Proof.
  intros Hn Hm. destruct Hm as [e Ha|c k Ha|c k Ha Hr|k Ha Hd|k Ha|body Ha Hd]; rewrite Ha in Hn; simpl in *.
  - split_and!; [done..|apply finish_done].
  - destruct Hn as [Hc Hk]. by destruct c.
  - destruct Hn as [Hc Hk]. destruct c; done.
  - done.
  - done.
  - done.
Qed.
Lemma moved_rest g t r t' g1 : moved g t r t' g1 →
  g_inflight g1 = g_inflight g
  ∧ (∃ e, g_group g1 = finished e (g_group g) ∧ g_returned g1 = g_returned g ++ [e]
     ∨ g_group g1 = g_group g ∧ g_returned g1 = g_returned g)
  ∧ ((ShutdownHTTP, true) ∈ g_stops g1 → (ShutdownHTTP, true) ∈ g_stops g ∨ g_inflight g = 0).
Proof.
  intros [e Ha|c k Ha|c k Ha Hr|k Ha Hd|k Ha|body Ha Hd]; [| | |split_and!; [done|by exists None; right|by left]..].
  - split_and!; [done|exists e; by left|by left].
  - by destruct c; (split_and!; [done|exists None; by right|by left]).
  - destruct c as [| | | |a]; try (split_and!; [done|exists None; by right|by left]). simpl.
    split_and!; [done|exists None; by right|]. intros [Hin|Hin%list_elem_of_singleton]%elem_of_app; [by left|]. right.
    destruct r; simplify_eq. by apply bool_decide_eq_true in Hr.
Qed.

Lemma started_inv : group_inv started.
Proof.
  split; try done.
  - intros i t Hi Hne. do 7 (destruct i as [|i]; [simplify_eq/=; repeat (split || intros || case_match || done)|]). done.
  - eexists. split; [reflexivity|]. simpl. rewrite shutdownSequence_stops. by constructor.
  - simpl. by rewrite Wait_start.
  - simpl. by rewrite Wait_start, cancelled_start.
Qed.
Lemma inv_placed g g1 i t t' : group_inv g → g_tasks g !! i = Some t → g_tasks g1 = g_tasks g →
  (i ≠ 6 → no_stop (t_at t') ∧ ∀ w, phase g w → phase g1 w) → (i = 6 → phase g (t_at t) → phase g1 (t_at t')) →
  Wait (g_group g1) = head (omap id (g_returned g1)) →
  cancelled (g_group g1) = match Wait (g_group g1) with Some _ => true | None => false end →
  ((ShutdownHTTP, true) ∈ g_stops g1 → g_inflight g1 = 0) →
  group_inv (place i t' g1).
Proof.
  intros [Hl Ho Hs _ _ _] Hi Hts Hother H6 Hw Hc Hd. split; simpl; rewrite ?Hts; [by rewrite length_insert| | |done..].
  - intros j u Hu Hne. destruct (decide (i = j)) as [->|Hij].
    + rewrite list_lookup_insert_eq in Hu by (by eapply lookup_lt_Some). simplify_eq. by apply Hother.
    + rewrite list_lookup_insert_ne in Hu by done. by apply (Ho j).
  - destruct Hs as (t6 & Ht6 & Hp). destruct (decide (i = 6)) as [->|Hi6].
    + exists t'. rewrite list_lookup_insert_eq by (by eapply lookup_lt_Some). simplify_eq. split; [done|].
      apply (phase_same g1); [by apply H6|done..].
    + exists t6. rewrite list_lookup_insert_ne by done. split; [done|]. apply (phase_same g1); [by apply Hother|done..].
Qed.
Lemma inv_at g i t : group_inv g → g_tasks g !! i = Some t → i ≠ 6 ∧ no_stop (t_at t) ∨ i = 6 ∧ phase g (t_at t).
Proof.
  intros [_ Ho (t6 & Ht6 & Hp) _ _ _] Hi. destruct (decide (i = 6)) as [->|Hne]; [right; by simplify_eq|left; split; [done|by apply (Ho i)]].
Qed.

Lemma move_inv i r g g' : group_inv g → move i r g = Some g' → group_inv g'.
Proof.
  intros Hg Hm. destruct (move_moved _ _ _ _ Hm) as (t & t' & g1 & Hi & Hmv & -> & Hts).
  destruct (moved_rest _ _ _ _ _ Hmv) as (Hin & (e & Hgr) & Hdr). pose proof Hg as [_ _ _ Hw Hc Hd].
  apply inv_placed with g t; [done..| | | | |].
  - intros Hne. destruct (inv_at g i t Hg Hi) as [[_ Hn]|[-> _]]; [|done].
    destruct (others_moved _ _ _ _ _ Hn Hmv) as (? & ? & ? & ?). split; [done|]. intros w Hp. by apply (phase_same g).
  - intros _ Hp. by eapply phase_moved.
  - destruct Hgr as [[-> ->]|[-> ->]]; [|done]. rewrite Wait_finished, Hw, omap_app.
    by destruct (omap id (g_returned g)), e.
  - destruct Hgr as [[-> _]|[-> _]]; [|done]. rewrite Wait_finished, cancelled_finished, Hc.
    by destruct (Wait (g_group g)), e.
  - rewrite Hin. intros Hs. destruct (Hdr Hs); auto.
Qed.
Lemma step_inv c g g' : group_inv g → step c g = Some g' → group_inv g'.
Proof.
  intros Hg. pose proof Hg as [Hl Ho Hsd Hw Hc Hd]. destruct c as [i r|i|i| | |]; simpl; unfold take_tick, fire; intros Hs.
  - by eapply move_inv.
  - destruct (g_tasks g !! i) as [t|] eqn:Hi; [|done]. simpl in Hs.
    destruct t as [[[| | | |body]| |] [[]|]]; simplify_eq/=. eapply (inv_placed g g i); [done|exact Hi|done| | |done..].
    + intros Hne. split; [|done]. pose proof (Ho i _ Hi Hne) as Hb. simpl in *. done.
    + intros _ Hp. simpl in Hp. inversion Hp as [|[|]| |]; done.
  - destruct (g_tasks g !! i) as [t|] eqn:Hi; [|done]. simpl in Hs. destruct (t_ticker t); [|done]. simplify_eq.
    apply (inv_placed g g i t); [done|done|done| |done|done|done|done]. intros Hne. split; [exact (Ho i t Hi Hne)|done].
  - simplify_eq. split; try done. destruct Hsd as (t & Ht & Hp). exists t. split; [done|]. by apply (phase_same g).
  - destruct (existsb _ _ && negb (begun ShutdownHTTP g)) eqn:Hb; simplify_eq. apply andb_true_iff in Hb as [_ Hb].
    destruct Hsd as (t & Ht & Hp). split; try done.
    + exists t. split; [done|]. by apply (phase_same g).
    + simpl. intros Hin%(phase_begun _ _ _ _ Hp). unfold begun in Hb. by rewrite bool_decide_true in Hb.
  - destruct (g_inflight g) as [|n] eqn:Hn; simplify_eq. destruct Hsd as (t & Ht & Hp). split; try done.
    + exists t. split; [done|]. by apply (phase_same g).
    + simpl. intros Hin. by apply Hd in Hin.
Qed.
Lemma steps_inv cs g g' : group_inv g → steps cs g = Some g' → group_inv g'.
Proof.
  revert g. induction cs as [|c cs IH]; intros g Hg; simpl; [by intros [= <-]|].
  destruct (step c g) as [g1|] eqn:Hs; [|done]. simpl. apply IH. by eapply step_inv.
Qed.

(** *** Nobody waits for ever *)
Lemma not_waited g : waited g = false → ∃ i t, g_tasks g !! i = Some t ∧ t_at t ≠ Finished.
Proof.
  unfold waited. induction (g_tasks g) as [|t ts IH]; simpl; [done|]. intros Hw.
  destruct (t_at t) eqn:Ht; try (exists 0, t; split; [done|congruence]). simpl in Hw. destruct (IH Hw) as (i & u & ? & ?). by exists (S i), u.
Qed.
(** Outside a call every goroutine moves once the context is done; inside one of
    these it also does. *)
Definition returns_now g (c : Call) : Prop :=
  match c with
  | ListenAndServe s => begun (shutdown_of s) g = true
  | _ => True
  end.
Lemma can_return g c : done g = true → returns_now g c → ∃ r, may_return g c r = true.
Proof.
  intros Hd Hc. destruct c as [w|s| | |a]; simpl in *.
  - rewrite Hd. apply start_ends.
  - exists (Some ErrServerClosed). by rewrite Hc.
  - by exists None.
  - by exists None.
  - exists (Some EDeadlineExceeded). by destruct a.
Qed.
Lemma can_move g i t : g_tasks g !! i = Some t → t_at t ≠ Finished → done g = true →
  (∀ c k, t_at t = Inside c k → returns_now g c) → ∃ r g', move i r g = Some g'.
Proof.
  intros Hi Hf Hd Hc. enough (∃ r t' g1, moved g t r t' g1) as (r & t' & g1 & Hm) by (exists r; eexists; by eapply moved_move).
  destruct (t_at t) as [[e|c k|k|k|body]|c k|] eqn:Ht; [exists None; eexists _, _; by econstructor..| |done].
  destruct (can_return g c Hd (Hc c k eq_refl)) as [r Hr]. exists r. eexists _, _. by econstructor.
Qed.
Lemma unblocked g : group_inv g → done g = true → waited g = false → ∃ i r g', move i r g = Some g'.
Proof.
  intros [_ _ (t6 & Ht6 & Hp) _ _ _] Hd Hw.
  assert (t_at t6 = Finished ∨ t_at t6 ≠ Finished) as [Hf|Hf] by (destruct (t_at t6); auto).
  - destruct (not_waited g Hw) as (i & t & Hi & Hnf). exists i. apply can_move with t; [done..|].
    rewrite Hf in Hp. inversion Hp as [| | |_ Hb _]. intros [w|s| | |a] k _; try done. simpl. unfold begun. rewrite Hb.
    by destruct s.
  - exists 6. apply can_move with t6; [done..|]. intros c k Hc. rewrite Hc in Hp. by inversion Hp.
Qed.

Lemma head_some_errors (l : list (option goerror)) : (∃ e, head (omap id l) = Some e) ↔ ∃ e, Some e ∈ l.
Proof.
  induction l as [|[e|] l IH]; simpl; [|split; [intros _; exists e; set_solver|by exists e]|].
  - split; [by intros []|intros [e He]; set_solver].
  - rewrite IH. split; intros [e He]; exists e; set_solver.
Qed.
Lemma done_when g : group_inv g → done g = true ↔ g_signalled g = true ∨ ∃ e, Some e ∈ g_returned g.
Proof.
  intros [_ _ _ Hw Hc _]. unfold done. rewrite orb_true_iff, Hc, <- head_some_errors, <- Hw.
  destruct (Wait (g_group g)) as [e|]; [|naive_solver]. split; [intros _; right; by exists e|by right].
Qed.
Lemma waited_over g t : waited g = true → g_tasks g !! 6 = Some t → t_at t = Finished.
Proof.
  unfold waited. rewrite forallb_forall. intros Hall Ht%list_elem_of_lookup_2%list_elem_of_In. specialize (Hall t Ht).
  by destruct (t_at t).
Qed.

(** *** What [Startup] sees of it *)
Definition wait_result g : result goerror unit := match Wait (g_group g) with None => Ok tt | Some e => Err e end.
Definition succeeded (r : option goerror) : bool := match r with None => true | Some _ => false end.
(** The outcomes of the actions of [serve_and_stop] in a run of the group. *)
Definition outcomes g (a : Action) : option goerror :=
  match a with
  | Serve => Wait (g_group g)
  | _ => if bool_decide ((a, true) ∈ g_stops g) then None else Some EDeadlineExceeded
  end.
Lemma serve_and_stop_is g : called g = stop_calls → ∀ p,
  serve_and_stop (outcomes g) p
  = (wait_result g, mkProcess (p_log p ++ (Serve, succeeded (Wait (g_group g))) :: g_stops g) (p_defers p)).
Proof.
  unfold called. intros Hc p. destruct (g_stops g) as [|[a1 b1] [|[a2 b2] [|[a3 b3] [|[a4 b4] [|]]]]] eqn:Hs; try done.
  injection Hc as -> -> -> ->. assert (∀ a b, a ≠ Serve → ((a, true) ∈ g_stops g ↔ b = true) → outcome (outcomes g) a = (a, b)) as Ho.
  { intros a b Ha Hb. unfold outcome, outcomes. destruct a; try done; rewrite (bool_decide_ext _ _ Hb); by destruct b. }
  unfold serve_and_stop, call, act. simpl. unfold mbind, P_bind. simpl.
  rewrite (Ho ShutdownHTTP b1), (Ho ShutdownMetricsServer b2), (Ho StopOutboxRunner b3), (Ho StopSQSConsumer b4)
    by (done || rewrite Hs, !elem_of_cons, elem_of_nil; naive_solver).
  unfold wait_result, outcome, outcomes, succeeded. by rewrite <- !app_assoc.
Qed.

End group.

(** ** A server that comes down

    A request is being answered and the prune sweep has just failed when the signal
    comes; the metrics listener does not close in time. *)
Section serving.
#[local] Instance first_error : ErrGroup :=
  {| group := option goerror; WithContext := None; finished e g := match g with Some e0 => Some e0 | None => e end;
     Wait g := g; cancelled g := match g with Some _ => true | None => false end |}.
#[local] Instance first_error_laws : ErrGroupLaws.
Proof. split; [done|done|done|]. by intros [e|] [e0|]. Qed.
#[local] Instance willing : Runners := λ _ context_done stopped _, context_done || stopped.
#[local] Instance willing_ends : RunnersLaws.
Proof. intros r stopped. by exists None. Qed.

Definition coming_down : list Choice :=
  [Move 0 None; Move 1 None; Move 2 None; Move 2 None; Move 2 None; Move 3 None; Move 4 None; Move 5 None; Accept;
   Fire 3; TakeTick 3; Move 3 None; Move 3 (Some EDeadlineExceeded); Signal;
   Move 6 None; Move 6 None; Move 4 (Some ErrServerClosed); Answered; Move 6 None;
   Move 6 None; Move 6 (Some EDeadlineExceeded); Move 6 None; Move 6 None; Move 6 None; Move 6 None; Move 6 None;
   Move 5 (Some ErrServerClosed); Move 5 None; Move 0 (Some (EPlain "context canceled"%string)); Move 1 None; Move 1 None; Move 0 None;
   Move 2 None; Move 2 None; Move 3 None; Move 3 None; Move 4 None].
#[local] Abbreviation down := (default started (steps coming_down started)).
End serving.
