(* ===== verification/StartupSpec.v ===== *)
(** * Start-up and shutdown are orderly

    An automaton over the actions of a process says in which order resources may
    be acquired, used and released; every run of the two binaries, whatever
    fails, is one of its runs and ends with nothing held. *)
From S2P Require Import Prelude GoLib Domain World EventSchema EventBus HttpClients Config Startup.
Local Open Scope string_scope.
Local Open Scope Z_scope.

(** ** The protocol *)
Inductive Life := Absent | Up | Gone.
#[export] Instance Life_eq_dec : EqDecision Life.
Proof. solve_decision. Defined.
Definition is_up (l : Life) : bool := bool_decide (l = Up).
Definition released (l : Life) : bool := negb (is_up l).

(** How far the schema of the database is: nothing, the outbox, everything. *)
Inductive SchemaStage := NoSchema | OutboxOnly | Migrated.
Definition is_migrated (s : SchemaStage) : bool := match s with Migrated => true | _ => false end.

Record Held := mkHeld {
  h_signals : Life; h_tracing : Life; h_telemetry : Life; h_schema : SchemaStage;
  h_app : Life; h_sys : Life; h_redis : Life; h_serving : Life }.
Definition nothing_held (s : SchemaStage) : Held := mkHeld Absent Absent Absent s Absent Absent Absent Absent.

(** What may happen next.  Databases come after telemetry and after the whole
    schema, outbox first; serving needs both pools and the cache; a pool closes
    only when nobody serves, after a drain; telemetry goes last, traces before
    the rest. *)
Definition advance (h : Held) (x : Action * bool) : option Held :=
  let '(a, ok) := x in
  let '(mkHeld sig tra tel sch app sys red srv) := h in
  let when (b : bool) (h' : Held) := if b then Some h' else None in
  let idle := released srv in
  match a with
  | NotifySignals => when (bool_decide (sig = Absent)) (mkHeld Up tra tel sch app sys red srv)
  | StopSignals => when (is_up sig && released tel) (mkHeld Gone tra tel sch app sys red srv)
  | InstallTracing => when (bool_decide (tra = Absent)) (mkHeld sig Up Up sch app sys red srv)
  | FlushTracing => when (is_up tra && released app && released sys) (mkHeld sig Gone tel sch app sys red srv)
  | ShutdownTelemetry => when (is_up tel && released tra) (mkHeld sig tra Gone sch app sys red srv)
  | ApplyOutboxSchema _ =>
      when (is_up tra && released app && released sys) (mkHeld sig tra tel (if ok then OutboxOnly else sch) app sys red srv)
  | ApplyDomainMigrations _ =>
      when (match sch with OutboxOnly => true | _ => false end && released app && released sys)
        (mkHeld sig tra tel (if ok then Migrated else sch) app sys red srv)
  | OpenPool AppPool _ =>
      when (is_up tra && is_migrated sch && bool_decide (app = Absent))
        (mkHeld sig tra tel sch (if ok then Up else app) sys red srv)
  | OpenPool SysPool _ =>
      when (is_up tra && is_migrated sch && is_up app && bool_decide (sys = Absent))
        (mkHeld sig tra tel sch app (if ok then Up else sys) red srv)
  | DrainAndClose AppPool => when (idle && is_up app) (mkHeld sig tra tel sch Gone sys red srv)
  | DrainAndClose SysPool => when (idle && is_up sys) (mkHeld sig tra tel sch app Gone red srv)
  | ClosePool AppPool => when (bool_decide (app = Gone)) h
  | ClosePool SysPool => when (bool_decide (sys = Gone)) h
  | OpenRedis _ => when (bool_decide (red = Absent)) (mkHeld sig tra tel sch app sys Up srv)
  | CloseRedis => when (idle && is_up red) (mkHeld sig tra tel sch app sys Gone srv)
  | Serve => when (is_up tra && is_up app && is_up sys && is_up red && bool_decide (srv = Absent))
               (mkHeld sig tra tel sch app sys red Up)
  | ShutdownHTTP | ShutdownMetricsServer | StopOutboxRunner => when (is_up srv) h
  | StopSQSConsumer => when (is_up srv) (mkHeld sig tra tel sch app sys red Gone)
  | RunJob _ => when (is_up tra && is_up app && is_up sys) h
  | _ => Some h
  end.
Fixpoint follow (h : Held) (log : Log) : option Held :=
  match log with [] => Some h | x :: log' => h' ← advance h x; follow h' log' end.

Definition nothing_left (h : Held) : bool :=
  released (h_signals h) && released (h_tracing h) && released (h_telemetry h) && released (h_app h)
  && released (h_sys h) && released (h_redis h) && released (h_serving h).
Definition orderly (s : SchemaStage) (log : Log) : bool :=
  match follow (nothing_held s) log with Some h => nothing_left h | None => false end.
Lemma follow_app h log1 log2 : follow h (log1 ++ log2)%list = h' ← follow h log1; follow h' log2.
Proof. revert h. induction log1 as [|x log1 IH]; intros h; simpl; [done|]. destruct (advance h x); simpl; auto. Qed.

(** ** Reasoning about a run

    [runs h ds m Q]: from a process that holds [h] and has deferred [ds], [m]
    follows the protocol and ends in [Q]. *)
Section rules.
Context (ext : Action → option goerror) (start : SchemaStage).
Abbreviation defers := (list (Log → list Action)).

Definition holds (h : Held) (ds : defers) (p : Process) : Prop :=
  follow (nothing_held start) (p_log p) = Some h ∧ p_defers p = ds.
Definition runs {A} (h : Held) (ds : defers) (m : P A) (Q : result goerror A → Held → defers → Prop) : Prop :=
  ∀ p, holds h ds p → ∃ h' ds', holds h' ds' (m p).2 ∧ Q (m p).1 h' ds'.

Lemma runs_mono {A} h ds (m : P A) (Q1 Q2 : result goerror A → Held → defers → Prop) :
  runs h ds m Q1 → (∀ r h' ds', Q1 r h' ds' → Q2 r h' ds') → runs h ds m Q2.
Proof. intros Hm HQ p Hp. destruct (Hm p Hp) as (h' & ds' & ? & ?). eauto. Qed.
Lemma runs_ret {A} h ds (a : A) (Q : result goerror A → Held → defers → Prop) : Q (Ok a) h ds → runs h ds (mret a) Q.
Proof. intros HQ p Hp. by exists h, ds. Qed.
Lemma runs_lift {A} h ds (r : result goerror A) (Q : result goerror A → Held → defers → Prop) :
  Q r h ds → runs h ds (lift r) Q.
Proof. intros HQ p Hp. by exists h, ds. Qed.
Lemma runs_bind {A B} h ds (m : P A) (k : A → P B) (Q : result goerror B → Held → defers → Prop) :
  runs h ds m (λ r h' ds', match r with Ok a => runs h' ds' (k a) Q | Err e => Q (Err e) h' ds' end) →
  runs h ds (m ≫= k) Q.
Proof.
  intros Hm p Hp. unfold mbind, P_bind. destruct (Hm p Hp) as (h' & ds' & Hp' & HQ).
  destruct (m p) as [[a|e] p']; [by apply HQ|by exists h', ds'].
Qed.
Lemma runs_wrapped {A} h ds msg (m : P A) (Q : result goerror A → Held → defers → Prop) :
  runs h ds m (λ r h' ds', match r with Ok a => Q (Ok a) h' ds' | Err e => Q (Err (EWrap msg e)) h' ds' end) →
  runs h ds (wrapped msg m) Q.
Proof.
  intros Hm p Hp. unfold wrapped. destruct (Hm p Hp) as (h' & ds' & Hp' & HQ).
  destruct (m p) as [[a|e] p']; by exists h', ds'.
Qed.
Lemma holds_step h ds a h' p :
  holds h ds p → advance h (outcome ext a) = Some h' → holds h' ds (mkProcess (p_log p ++ [outcome ext a])%list (p_defers p)).
Proof. intros [Hf Hd] Ha. split; [|done]. simpl. rewrite follow_app, Hf. cbn [mbind option_bind follow]. by rewrite Ha. Qed.
Lemma runs_call h ds a (Q : result goerror unit → Held → defers → Prop) hT hF :
  advance h (a, true) = Some hT → advance h (a, false) = Some hF →
  Q (Ok tt) hT ds → (∀ e, Q (Err e) hF ds) → runs h ds (call ext a) Q.
Proof.
  intros HT HF HQT HQF p Hp. unfold call. pose proof (holds_step h ds a) as Hs. unfold outcome in *.
  destruct (ext a) as [e|]; [exists hF, ds|exists hT, ds]; (split; [by apply Hs|done || apply HQF]).
Qed.
Lemma runs_act h ds a (Q : result goerror unit → Held → defers → Prop) h' :
  (∀ ok, advance h (a, ok) = Some h') → Q (Ok tt) h' ds → runs h ds (act ext a) Q.
Proof. intros Ha HQ p Hp. exists h', ds. split; [apply holds_step with h; [done|apply Ha]|done]. Qed.
Lemma runs_defer h ds f (Q : result goerror unit → Held → defers → Prop) :
  Q (Ok tt) h (f :: ds) → runs h ds (defer_fn f) Q.
Proof. intros HQ p [Hf Hd]. exists h, (f :: ds). split; [|done]. split; [done|]. simpl. by rewrite Hd. Qed.
Lemma runs_each h ds f names (Q : result goerror unit → Held → defers → Prop) :
  (∀ n, runs h ds (f n) (λ r h' ds', h' = h ∧ ds' = ds)) → (∀ r, Q r h ds) → runs h ds (each f names) Q.
Proof.
  intros Hf HQ. induction names as [|n names IH]; simpl; [by apply runs_ret|].
  apply runs_bind. eapply runs_mono; [apply Hf|]. intros [[]|e] h' ds' [-> ->]; [done|apply HQ].
Qed.

(** The deferred functions release everything. *)
Definition closes (h : Held) (ds : defers) : Prop :=
  ∀ log, follow (nothing_held start) log = Some h →
    orderly start (foldl (λ log f, (log ++ (outcome ext <$> f log))%list) log ds) = true.
Lemma closes_nil h : nothing_left h = true → closes h [].
Proof. intros Hh log Hlog. unfold orderly. simpl. by rewrite Hlog. Qed.
Lemma closes_fn h f ds :
  (∀ log, follow (nothing_held start) log = Some h →
     ∃ h', follow h (outcome ext <$> f log) = Some h' ∧ closes h' ds) → closes h (f :: ds).
Proof.
  intros Hf log Hlog. simpl. destruct (Hf log Hlog) as (h' & Hh' & Hc). apply Hc. by rewrite follow_app, Hlog.
Qed.
Lemma closes_defer h a ds h' : (∀ ok, advance h (a, ok) = Some h') → closes h' ds → closes h ((λ _, [a]) :: ds).
Proof. intros Ha Hc. apply closes_fn. intros log _. exists h'. split; [|done].
  cbn [fmap list_fmap follow]. unfold outcome. by rewrite Ha.
Qed.

Lemma returned_orderly {A} (m : P A) :
  runs (nothing_held start) [] m (λ _ h ds, closes h ds) → orderly start (returned ext m).2 = true.
Proof.
  intros Hm. destruct (Hm fresh_process) as (h & ds & [Hf Hd] & Hc); [done|]. unfold returned.
  destruct (m fresh_process) as [r p]. simpl in *. subst. by apply Hc.
Qed.
End rules.

(** The system pool is there once it was opened. *)
Definition acquired (l : Life) : bool := negb (bool_decide (l = Absent)).
Lemma sys_advance h x h' : advance h x = Some h' → acquired (h_sys h') = acquired (h_sys h) || opened SysPool [x].
Proof.
  destruct x as [a ok], h as [sig tra tel sch app sys red srv]. destruct a; try match goal with p : PoolName |- _ => destruct p end; simpl;
    rewrite ?orb_false_r; repeat case_match; intros; simplify_eq/=; rewrite ?orb_false_r; try done;
    repeat match goal with H : _ && _ = true |- _ => apply andb_true_iff in H as [? ?] end;
    repeat match goal with H : bool_decide _ = true |- _ => apply bool_decide_eq_true in H end;
    unfold is_up in *; repeat match goal with H : bool_decide _ = true |- _ => apply bool_decide_eq_true in H end; by subst.
Qed.
Lemma sys_opened start log h : follow (nothing_held start) log = Some h → opened SysPool log = acquired (h_sys h).
Proof.
  enough (∀ h0, follow h0 log = Some h → acquired (h_sys h) = acquired (h_sys h0) || opened SysPool log) as Hall.
  { intros Hf. apply Hall in Hf. by rewrite Hf. }
  induction log as [|x log IH]; intros h0; simpl; [intros [= ->]; by rewrite orb_false_r|].
  destruct (advance h0 x) as [h1|] eqn:Ha; simpl; [|done]. intros Hf. rewrite (IH _ Hf), (sys_advance _ _ _ Ha).
  unfold opened at 1. simpl. by rewrite orb_false_r, orb_assoc.
Qed.

Lemma closes_drainPools ext sys sig tra tel red ds :
  released red = true →
  closes ext Migrated (mkHeld sig tra tel Migrated Gone (if acquired sys then Gone else Absent) red Absent) ds →
  acquired sys = is_up sys →
  closes ext Migrated (mkHeld sig tra tel Migrated Up sys red Absent) (drainPools :: ds).
Proof.
  intros Hred Hc Hsys. apply closes_fn. intros log Hlog. unfold drainPools. rewrite (sys_opened _ _ _ Hlog). cbn [h_sys].
  eexists. split; [|exact Hc]. rewrite Hsys. destruct sys; try reflexivity. done.
Qed.

Ltac closing :=
  repeat first [ eapply closes_defer; [intros []; reflexivity|] | apply closes_nil; reflexivity
               | apply closes_drainPools; [reflexivity| |reflexivity] ].
Ltac step :=
  first [ apply runs_bind | apply runs_wrapped
        | eapply runs_act; [intros []; reflexivity|]
        | apply runs_defer
        | eapply runs_call; [reflexivity|reflexivity| |intros ?; closing] ].

(** ** The two binaries *)
Section binaries.
Context (ext : Action → option goerror) (dsn : Environ → string) (env : Environ).

Lemma runs_compile start h ds names (f : string → string) (Q : result goerror unit → Held → list (Log → list Action) → Prop) :
  (∀ r, Q r h ds) → runs start h ds (each (λ n, wrapped (f n) (call ext (CompileSchema n))) names) Q.
Proof.
  intros HQ. apply runs_each; [|done]. intros n. apply runs_wrapped.
  by destruct h; eapply runs_call.
Qed.
Lemma runs_glue start h ds registry names (Q : result goerror unit → Held → list (Log → list Action) → Prop) :
  (∀ r, Q r h ds) → runs start h ds (NewGlueCodec ext registry names) Q.
Proof.
  intros HQ. apply runs_each; [|done]. intros n. apply runs_wrapped. by destruct h; eapply runs_call.
Qed.

Lemma runs_serve start h ds (Q : result goerror unit → Held → list (Log → list Action) → Prop) :
  runs start h ds (_ ← act ext Serve; _ ← act ext ShutdownHTTP; _ ← act ext ShutdownMetricsServer;
                   _ ← act ext StopOutboxRunner; act ext StopSQSConsumer) (λ _ h' ds', ∀ r, Q r h' ds') →
  runs start h ds (serve_and_stop ext) Q.
Proof. intros Hm p Hp. destruct (Hm p Hp) as (h' & ds' & Hp' & HQ). exists h', ds'. split; [exact Hp'|apply HQ]. Qed.

Ltac startup_step :=
  first [ apply runs_compile; intros [[]|?]; [|closing]
        | apply runs_glue; intros [[]|?]; [|closing]
        | apply runs_serve
        | apply runs_ret
        | apply runs_lift; match goal with |- match ?r with _ => _ end => destruct r; [|closing] end
        | apply runs_lift
        | match goal with |- runs _ _ _ (if ?b then _ else _) _ => destruct b end
        | step ].

Lemma server_run_closes :
  runs NoSchema (nothing_held NoSchema) [] (server_run ext dsn env) (λ _ h ds, closes ext NoSchema h ds).
Proof.
  unfold server_run, telemetry, Migrate, open_pool, publishing, clients, defer, NewConsumedValidator.
  repeat startup_step; intros; closing.
Qed.
Lemma reconciler_closes jobName :
  runs Migrated (nothing_held Migrated) [] (reconciler_process ext dsn env jobName) (λ _ h ds, closes ext Migrated h ds).
Proof. unfold reconciler_process, telemetry, defer, dispatch_job. repeat startup_step; intros; closing. Qed.

End binaries.

(** [main] adds nothing to hold, and its status tells whether [run] failed. *)
Lemma logged_main_orderly ext s appEnv (run : P unit) :
  orderly s (returned ext run).2 = true →
  orderly s (logged_main ext appEnv run).2 = true ∧
  ((logged_main ext appEnv run).1 = 0 ↔ ext (NewLogger appEnv) = None ∧ (returned ext run).1 = Ok tt).
Proof.
  unfold logged_main. destruct (ext (NewLogger appEnv)); [intros _; split; [done|split; [done|by intros []]]|].
  destruct (returned ext run) as [[[]|e] log]; simpl; intros Hlog; (split; [exact Hlog|split; [done|by intros []]]).
Qed.
