(* ===== verification/TxSpec.v ===== *)
(** * The transaction runner

    Atomicity of whatever a use case does in RunInTx, and the joining of an open
    transaction, for the runner the program wires. *)
From S2P Require Import Prelude GoLib Domain World Store StoreFacts Config System.
Local Open Scope Z_scope.

Section runner.
Context `{E : Env} `{P : PgCommon} `{U : UuidLib} `{PL : !PgCommonLaws E P U}.

(** The context a unit of work runs with. *)
Definition tx_ctx (ctx : Ctx) (tx : Tx) : Ctx := WithEventPublisher (WithTx ctx tx) outboxPublisher.

End runner.
