(* ===== verification/OutboundSpec.v ===== *)
(** * What the service asks of User Profile, and what it makes of the answers *)
From S2P Require Import Prelude GoLib Domain World Store StoreFacts MetricsRec EventBus HttpClients Postgres DelegationService Config System Samples.
Local Open Scope string_scope.
Local Open Scope Z_scope.

Section availability.
Context `{E : Env} `{P : PgCommon} `{U : UuidLib} `{PL : !PgCommonLaws E P U} `{T : TimeText}.
Context (upURL omURL : string) (caURL : option string).
#[local] Abbreviation svc := (delegationService upURL omURL caURL).

(** The out-of-office request of a create: from now or the later start, until the
    end or the review deadline, with the delegate. *)
Definition out_of_office (t u : uuid) (now starts : Time) (review : option Time) (req : CreateInput) : HttpRequest :=
  mkHttpRequest "PUT" (upURL ++ "/api/v1/internal/users/" ++ uuid_String u ++ "/availability")
    (("Content-Type", "application/json") :: UserProfile.setInternalHeaders t)
    (Some (JObj (UserProfile.buildBody (mkSetAvailability t u (Some "ooo") (Some (Z.max now starts))
       (match ci_EndsAt req with Some e => Some e | None => review end) (Some (ci_DelegateID req)) (ci_Reason req))))).

Definition up_failures (w : World) (path : string) : Z := count w "iam_delegation_up_availability_failures_total" [path].

Lemma wp_setAvailability req request w :
  request = mkHttpRequest "PUT" (upURL ++ "/api/v1/internal/users/" ++ uuid_String (sa_UserID req) ++ "/availability")
    (("Content-Type", "application/json") :: UserProfile.setInternalHeaders (sa_TenantID req))
    (Some (JObj (UserProfile.buildBody req))) →
  env_url_ok (hr_URL request) = true →
  wp (UserProfile.setAvailability upURL req) (λ r w',
    w_http w' = (w_http w ++ [request])%list ∧ w_db w' = w_db w ∧ w_counters w' = w_counters w
    ∧ match env_http (w_step w) request with
      | HttpFailed _ => ∃ e, r = Err e ∧ is_dependency_unavailable e = true
      | HttpResponded status _ =>
          if (200 <=? status) && (status <? 300) then r = Ok tt
          else ∃ e, r = Err e ∧ is_dependency_unavailable e = (500 <=? status)
      end) w.
Proof.
  intros Hreq Hurl. unfold UserProfile.setAvailability. rewrite <- Hreq. unfold Do. rewrite Hurl. simpl.
  apply wp_bind, wp_intro. destruct (env_http (w_step w) request) as [e|status body]; simpl.
  - do 3 (split; [done|]). eexists. split; [done|]. unfold is_dependency_unavailable. simpl. by rewrite orb_true_r.
  - unfold UserProfile.command_answer. destruct (_ && _); [by apply wp_ret|].
    destruct (500 <=? status); [apply wp_throw; eauto 10|].
    destruct (UserProfile.error_body body); apply wp_throw; eauto 10.
Qed.

(** One call of User Profile: what is sent and how the answer is classified. *)
Lemma wp_SetAvailability ctx req request w :
  request = mkHttpRequest "PUT" (upURL ++ "/api/v1/internal/users/" ++ uuid_String (sa_UserID req) ++ "/availability")
    (("Content-Type", "application/json") :: UserProfile.setInternalHeaders (sa_TenantID req))
    (Some (JObj (UserProfile.buildBody req))) →
  env_url_ok (hr_URL request) = true →
  wp (up_SetAvailability (UserProfile.client upURL) ctx req) (λ r w',
    w_http w' = (w_http w ++ [request])%list ∧ w_db w' = w_db w
    ∧ (∀ path, w_counters w' !! ("iam_delegation_up_availability_failures_total", [path])
               = w_counters w !! ("iam_delegation_up_availability_failures_total", [path]))
    ∧ match env_http (w_step w) request with
      | HttpFailed _ => ∃ e, r = Err e ∧ is_dependency_unavailable e = true
      | HttpResponded status _ =>
          if (200 <=? status) && (status <? 300) then r = Ok tt
          else ∃ e, r = Err e ∧ is_dependency_unavailable e = (500 <=? status)
      end) w.
Proof.
  intros Hreq Hurl. simpl. unfold UserProfile.SetAvailability, instrumented. apply wp_bind, wp_try.
  eapply wp_mono; [by apply wp_setAvailability|]. intros r w1 (Hh & Hdb & Hc & Hr). apply wp_bind, wp_intro.
  destruct r as [[]|e]; simpl.
  - apply wp_of_result. split; [done|]. split; [done|]. split; [intros path; by rewrite Hc|done].
  - unfold IncDependencyError. destruct env_metrics_live; apply wp_of_result; simpl;
      (split; [done|]; split; [done|]; split; [intros path|done]); unfold bump;
      rewrite ?lookup_insert_ne by done; by rewrite Hc.
Qed.
Lemma count_up_failure path w : up_failures (RecordUPAvailabilityFailure path w).2 path = up_failures w path + 1.
Proof. apply count_inc_same. Qed.

(** A create sets the delegator out of office with exactly one request, never
    starting in the past.  A 2xx lets the create go on; no answer or a 5xx is an
    unavailable dependency, any other answer an invalid delegate, and the failure
    is counted; the tables are not touched in any case. *)
Theorem availability_answers ctx t u now starts review req w :
  let request := out_of_office t u now starts review req in
  env_url_ok (hr_URL request) = true →
  wp (setOutOfOffice svc ctx t u now starts review req) (λ r w',
    w_http w' = (w_http w ++ [request])%list ∧ w_db w' = w_db w ∧
    match env_http (w_step w) request with
    | HttpResponded status _ =>
        if (200 <=? status) && (status <? 300) then r = Ok tt
        else r = Err (if 500 <=? status then NewError ErrUserProfileUnavailable "user profile unavailable"
                      else NewError ErrInvalidDelegate "delegate validation failed via user profile")
             ∧ up_failures w' "create" = up_failures w "create" + 1
    | HttpFailed _ => r = Err (NewError ErrUserProfileUnavailable "user profile unavailable")
             ∧ up_failures w' "create" = up_failures w "create" + 1
    end) w.
Proof.
  intros request Hurl. unfold setOutOfOffice. apply wp_bind, wp_try.
  assert (Z.max now starts = if Before starts now then now else starts) as Hfrom.
  { unfold Before. destruct (Z.ltb_spec starts now); lia. }
  eapply wp_mono; [apply (wp_SetAvailability _ _ request); [by unfold request, out_of_office; rewrite Hfrom|done]|].
  intros r w1 (Hhttp & Hdb & Hc & Hr). destruct (env_http (w_step w) request) as [e|status body].
  - destruct Hr as (e' & -> & Hdep). rewrite Hdep. apply wp_bind, wp_intro, wp_throw. simpl.
    split; [done|]. split; [done|]. split; [done|]. etransitivity; [apply (count_up_failure _ w1)|].
    unfold up_failures, count. by rewrite Hc.
  - destruct (_ && _); [rewrite Hr; by apply wp_ret|].
    destruct Hr as (e' & -> & Hdep). rewrite Hdep. apply wp_bind, wp_intro. simpl.
    destruct (500 <=? status); apply wp_throw; (split; [done|]; split; [done|]; split; [done|]);
      (etransitivity; [apply (count_up_failure _ w1)|]; unfold up_failures, count; by rewrite Hc).
Qed.
End availability.

(** ** The delegate pointer and rejected cancellations *)
Section pointer.
#[local] Existing Instance sample_env.
#[local] Abbreviation svc := (delegationService "https://up" "https://om" None).

(** Alice has an active delegation to Bob and a later one to Carol. *)
Definition active : Delegation := grant (id 1) acme alice bob None (Some (noon + 30 * Day)).
Definition later_on : Delegation :=
  set_Status DelegationScheduled (grant (id 2) acme alice carol None (Some (noon + 60 * Day))).
Definition two_grants : World := world_of [active; later_on].
Definition as_acme : Ctx := WithTenantGUC background acme "iam-system".
Definition pointer_cleared (u : uuid) (w : World) : bool :=
  existsb (λ r, bool_decide (hr_Method r = "DELETE" ∧
    hr_URL r = "https://up/api/v1/internal/users/" ++ uuid_String u ++ "/availability/delegate")) (w_http w).

(** A cancellation clears the delegator's availability before it knows whether
    it succeeds, and whichever delegation it is for: one at a stale version is
    refused and changes no delegation and announces nothing, and one of a
    delegation that has not begun leaves the active delegation active; both have
    User Profile drop the pointer of the active one. *)
Theorem cancel_clears_pointer_first :
  (let '(r, w') := Cancel svc as_acme acme (id 1) 7 two_grants in
   match r with Err e => is_sentinel ErrOptimisticLockConflict e = true | Ok _ => False end
   ∧ (∀ i, i ∈ [id 1; id 2] → db_delegations (w_db w') !! i = db_delegations (w_db two_grants) !! i)
   ∧ db_outbox (w_db w') = [] ∧ pointer_cleared alice w' = true)
  ∧ (let '(r, w') := Cancel svc as_acme acme (id 2) 1 two_grants in
     is_ok r = true ∧ db_delegations (w_db w') !! id 1 = Some active ∧ pointer_cleared alice w' = true).
Proof.
  split.
  - destruct (Cancel _ _ _ _ 7 _) as [r w'] eqn:Hrun.
    assert (r = (Cancel svc as_acme acme (id 1) 7 two_grants).1) as -> by (by rewrite Hrun).
    assert (w' = (Cancel svc as_acme acme (id 1) 7 two_grants).2) as -> by (by rewrite Hrun). clear Hrun.
    split; [vm_compute; reflexivity|]. split; [|split; vm_compute; reflexivity].
    apply Forall_forall. apply (bool_decide_unpack _). vm_compute. done.
  - destruct (Cancel _ _ _ _ 1 _) as [r w'] eqn:Hrun.
    assert (r = (Cancel svc as_acme acme (id 2) 1 two_grants).1) as -> by (by rewrite Hrun).
    assert (w' = (Cancel svc as_acme acme (id 2) 1 two_grants).2) as -> by (by rewrite Hrun). clear Hrun.
    split; [vm_compute; reflexivity|]. split; [|vm_compute; reflexivity].
    apply (bool_decide_unpack _). vm_compute. done.
Qed.
End pointer.
