(* ===== verification/MetricsSpec.v ===== *)
(** * What registering the metrics achieves

    On a registry where none of the names is taken every instrument is
    registered with its constant labels, and every series whose labels the
    program draws from a fixed vocabulary exists from the start. *)
From S2P Require Import Prelude GoLib Domain World MetricsRec Consumer.
Local Open Scope string_scope.
Local Open Scope Z_scope.

(** The constant labels the service adds to gincommon's. *)
Definition constant_labels : list string := ["domain"; "service"; "version"; "environment"].
Definition proper_labels (ls : Labels) : Prop :=
  map_Forall (λ l v, l ∈ constant_labels ∧ Utf8.ValidString v = true) ls.

(** Names and labels of every instrument are fit for such constant labels. *)
Definition fit (i : Instrument) : bool :=
  valid_name (i_Name i) && forallb valid_label (i_Labels i) && bool_decide (NoDup (i_Labels i))
  && forallb (λ l, valid_label l && bool_decide (l ∉ i_Labels i)) constant_labels.
Lemma instruments_fit : forallb fit instruments = true.
Proof. vm_compute. reflexivity. Qed.
Lemma names_distinct : NoDup (i_Name <$> instruments).
Proof. apply (bool_decide_unpack _). vm_compute. done. Qed.

Lemma valid_instrument i ls : i ∈ instruments → proper_labels ls → valid_desc (mkDesc i ls) = true.
Proof.
  intros Hi Hls. pose proof instruments_fit as Hfit. rewrite forallb_forall in Hfit.
  specialize (Hfit i (proj1 (list_elem_of_In _ _) Hi)). unfold fit in Hfit.
  rewrite andb_true_iff in Hfit. destruct Hfit as [Hfit Hc]. unfold valid_desc, d_Name. simpl. rewrite Hfit. simpl.
  apply bool_decide_eq_true. intros l v Hl. destruct (Hls l v Hl) as [Hin Hv]. rewrite forallb_forall in Hc.
  specialize (Hc l (proj1 (list_elem_of_In _ _) Hin)). apply andb_true_iff in Hc as [? Hni].
  by apply bool_decide_eq_true in Hni.
Qed.

(** The calls [HttpClients] counts the errors of. *)
Definition counted_calls : list (string * string) :=
  [("user_profile", "get_availability"); ("user_profile", "clear_delegate_pointer");
   ("user_profile", "set_availability"); ("org_membership", "i15_member_exists");
   ("catalog_admin", "cat7_dept_active")].
(** Label values the program draws from a fixed vocabulary. *)
Inductive vocabulary : Series → Prop :=
| VScope s : s ∈ [ScopeAll; ScopeDepartment; ScopeTender] → vocabulary (series instrument.createdTotal [s])
| VReason r :
    r ∈ [EndReasonExpired; EndReasonCancelled; EndReasonReassigned; EndReasonDelegateRemoved;
         EndReasonReviewExpired; EndReasonDelegateDisabled] →
    vocabulary (series instrument.endedTotal [r])
| VDays n : 1 ≤ n ≤ 3 → vocabulary (series instrument.reviewWarnedTotal [Itoa n])
| VConsumer c :
    c ∈ [consumerCascade; consumerOffboarding; consumerDelegateDisable] →
    vocabulary (series instrument.processedEventsDuplicatesTotal [c])
| VQueue i :
    i ∈ [instrument.platformMessagesReceivedTotal; instrument.platformMessagesProcessedTotal;
         instrument.platformMessagesFailedTotal; instrument.platformDuplicateMessagesTotal] →
    vocabulary (series i [cascadeQueueName])
| VOutcome i svc ep e :
    i ∈ [instrument.platformDependencyErrorsTotal; instrument.dependencyCallFailuresTotal] →
    (svc, ep) ∈ counted_calls → vocabulary (series i [svc; ep; DependencyOutcome e]).
Lemma in_preinitialised k : bool_decide (k ∈ preinitialised) = true → k ∈ preinitialised.
Proof. apply bool_decide_eq_true. Qed.
Lemma outcomes e : DependencyOutcome e ∈ ["timeout"; "5xx"].
Proof. unfold DependencyOutcome. repeat case_match; set_solver. Qed.
Lemma members {A} (f : A → Series) l x : x ∈ l → Forall (λ x, f x ∈ preinitialised) l → f x ∈ preinitialised.
Proof. intros Hx Hl. by apply (proj1 (Forall_forall _ l) Hl). Qed.
Lemma vocabulary_preinitialised k : vocabulary k → k ∈ preinitialised.
Proof.
  intros [s H|r H|n Hn|c H|i H|i svc ep e H Hc].
  - apply (members (λ s, series instrument.createdTotal [s]) _ _ H). apply (bool_decide_unpack _). vm_compute. done.
  - apply (members (λ r, series instrument.endedTotal [r]) _ _ H). apply (bool_decide_unpack _). vm_compute. done.
  - assert (n = 1 ∨ n = 2 ∨ n = 3) as [-> | [-> | ->]] by lia; apply in_preinitialised; vm_compute; reflexivity.
  - apply (members (λ c, series instrument.processedEventsDuplicatesTotal [c]) _ _ H). apply (bool_decide_unpack _). vm_compute. done.
  - apply (members (λ i, series i [cascadeQueueName]) _ _ H). apply (bool_decide_unpack _). vm_compute. done.
  - pose proof (outcomes e) as Ho. revert Ho. generalize (DependencyOutcome e).
    cut (Forall (λ c, Forall (λ o, Forall (λ i, series i [c.1; c.2; o] ∈ preinitialised)
           [instrument.platformDependencyErrorsTotal; instrument.dependencyCallFailuresTotal]) ["timeout"; "5xx"]) counted_calls).
    + intros Hall. rewrite Forall_forall in Hall. specialize (Hall _ Hc). rewrite Forall_forall in Hall.
      intros o Ho. specialize (Hall o Ho). rewrite Forall_forall in Hall. by apply Hall.
    + apply (bool_decide_unpack _). vm_compute. done.
Qed.

Section registration.
Context `{G : Registerer} `{GL : !RegistererLaws G}.

Lemma register_all_ok register (mk mk' : Instrument → Desc) its r :
  (∀ i r, register (mk i) r = reg_Register (mk' i) r) → (∀ i, d_Name (mk' i) = i_Name i) →
  (∀ i, i ∈ its → valid_desc (mk' i) = true) → NoDup (i_Name <$> its) →
  (∀ i, i ∈ its → i_Name i ∉ d_Name <$> registered r) →
  ∃ r', register_all register (mk <$> its) r = (Ok tt, r') ∧ registered r' = (registered r ++ (mk' <$> its))%list.
Proof.
  intros Hreg Hname. revert r. induction its as [|i its IH]; intros r Hv Hnd Hfree; simpl.
  { exists r. by rewrite app_nil_r. }
  apply NoDup_cons in Hnd as [Hni Hnd].
  destruct (Register_ok (mk' i) r) as (r1 & Hr1 & Hreg1).
  { apply Hv. by left. }
  { rewrite Hname. apply Hfree. by left. }
  rewrite Hreg, Hr1. destruct (IH r1) as (r2 & Hr2 & Hreg2); [by intros; apply Hv; right|done| |].
  { intros j Hj. rewrite Hreg1, fmap_app, elem_of_app. intros [Hin|Hin].
    - revert Hin. apply Hfree. by right.
    - simpl in Hin. apply list_elem_of_singleton in Hin. rewrite Hname in Hin. apply Hni. rewrite <- Hin.
      by apply list_elem_of_fmap_2. }
  exists r2. split; [done|]. by rewrite Hreg2, Hreg1, <- app_assoc.
Qed.

(** The descriptors of one deployment. *)
Definition descriptors (env : string) : list Desc :=
  (((λ i, mkDesc i (platformLabels env)) <$> instrument.platformCollectors)
   ++ ((λ i, mkDesc i (extendedServiceLabels env)) <$> instrument.svcCollectors))%list.

Lemma platform_labels_proper env : Utf8.ValidString env = true → proper_labels (platformLabels env).
Proof.
  intros He. unfold platformLabels. repeat apply map_Forall_insert_2; try apply map_Forall_singleton;
    (split; [apply (bool_decide_unpack _); vm_compute; done|done]).
Qed.
Lemma service_labels_proper env :
  Utf8.ValidString env = true → proper_labels MetricsConstLabels → proper_labels (extendedServiceLabels env).
Proof.
  intros He Hb. unfold extendedServiceLabels, gincommonLabels.
  assert (proper_labels (default ∅ (if bool_decide (MetricsConstLabels = ∅) then None else Some MetricsConstLabels)))
    by (case_bool_decide; [apply map_Forall_empty|done]).
  destruct (bool_decide (env = "")); [done|]. apply map_Forall_insert_2; [|done].
  split; [apply (bool_decide_unpack _); vm_compute; done|done].
Qed.

Lemma registerOn_ok env r :
  Utf8.ValidString env = true → proper_labels MetricsConstLabels →
  (∀ i, i ∈ instruments → i_Name i ∉ d_Name <$> registered r) →
  ∃ r', registerOn (mkRegisterConfig env) r = (Ok preinitialised, r')
        ∧ registered r' = (registered r ++ descriptors env)%list.
Proof.
  intros He Hb Hfree. pose proof names_distinct as Hnd. unfold instruments in Hnd.
  rewrite fmap_app in Hnd. apply NoDup_app in Hnd as (Hp & Hps & Hs). unfold registerOn. simpl rc_Environment.
  destruct (register_all_ok (reg_RegisterWith (platformLabels env)) (λ i, mkDesc i ∅)
              (λ i, mkDesc i (platformLabels env)) instrument.platformCollectors r) as (r1 & -> & Hr1).
  - intros. apply Register_wrapped.
  - done.
  - intros i Hi. apply valid_instrument; [apply elem_of_app; by left|by apply platform_labels_proper].
  - done.
  - intros i Hi. apply Hfree, elem_of_app. by left.
  - destruct (register_all_ok reg_Register (λ i, mkDesc i (extendedServiceLabels env))
                (λ i, mkDesc i (extendedServiceLabels env)) instrument.svcCollectors r1) as (r2 & -> & Hr2); try done.
    + intros i Hi. apply valid_instrument; [apply elem_of_app; by right|by apply service_labels_proper].
    + intros i Hi. rewrite Hr1, fmap_app, elem_of_app. intros [Hin|Hin].
      * revert Hin. apply Hfree, elem_of_app. by right.
      * rewrite <- list_fmap_compose in Hin. by apply (Hps (i_Name i)), list_elem_of_fmap_2.
    + exists r2. split; [done|]. by rewrite Hr2, Hr1, <- app_assoc.
Qed.

End registration.
