(* ===== verification/Interference.v ===== *)
(** * The others

    What the theorems assume of the transactions that commit before one of this
    process begins, discharged: every run of the program is within the assumption,
    so processes of this service may interleave at will.  And a rival to evaluate
    runs against: another process that cancels one delegation. *)
From S2P Require Import Prelude GoLib Domain World Store StoreFacts MetricsRec Valkey EventBus EventSchema HttpClients Postgres Contracts PostgresFacts StoreSpec PostgresSpec ClientFacts DelegationService CascadeService Consumer Jobs SchemaSpec ServiceFacts DelegationSpec ConsumerSpec JobSpec Actions Config System SystemFacts Refinement Statements ReadCommitted Samples.
Local Open Scope Z_scope.

(** ** Runs of the program as the others *)
Section closure.
Context `{E : Env} `{P : PgCommon} `{U : UuidLib} `{PL : !PgCommonLaws E P U} `{T : TimeText}.
Context (env : Environ) (upURL omURL : string) (caURL : option string) (others : nat → Db → Db).

(** What [others] commit are runs of the program, from the tables they find. *)
Definition runs_of_program : Prop := ∀ n d, ∃ w w',
  reachable env upURL omURL caURL w w' ∧ w_db w = d ∧ w_db w' = others n d.

(** What the program guarantees is what it assumes of its others, provided it is
    assumed of the others of those as well. *)
Lemma runs_within (R : relation Db) :
  (∀ pool, Confined pool any_ctx R) → runs_of_program → ∀ n d, R d (others n d).
Proof.
  intros Hany Hruns n d. destruct (Hruns n d) as (w & w' & Hr & <- & <-).
  by apply (reachable_within env upURL omURL caURL R), DbRel_db in Hr.
Qed.
Lemma runs_lawful `{!LawfulOthers E} start http db kv :
  runs_of_program → LawfulOthers (env_among others start http db kv).
Proof. intros Hruns n d. apply runs_within; [intros pool; apply confined_grows|exact Hruns]. Qed.

(** Likewise for the trace of actions: what this program refines, the programs
    beside it do. *)
Lemma runs_refine `{!UuidLaws U} `{!SaneClock E} `{!UniqueIds E} clk `{!OthersWithin E (refines outboxPublisher clk)} start http db kv :
  (∀ n, clk (env_clock n)) → runs_of_program →
  OthersWithin (env_among others start http db kv) (refines outboxPublisher clk).
Proof.
  intros Hclk Hruns n d. change (refines outboxPublisher clk d (others n d)). destruct (Hruns n d) as (w & w' & Hr & <- & <-).
  exact (DbRel_db _ _ _ (reachable_refines clk Hclk env upURL omURL caURL _ _ Hr)).
Qed.
End closure.

(** ** A rival *)
Section rival.
Context (t i : uuid) (v : Z).

(** A cancellation: the UPDATE and the event, in a transaction of their own. *)
Definition rival_tx : Tx := mkTx AppRole (Some t) noon.
Definition rival_event (d : Delegation) : Envelope EventData :=
  mkEnvelope "rival" EventDelegationEnded (pub_source outboxPublisher) (uuid_String t) (uuid_String i)
    (uuid_String (DelegatorID d)) "1" "" "" (endedPayload t i d EndReasonCancelled (DelegatorID d)).
Definition rival (d : Db) : Db :=
  match sql_update rival_tx (where_end t i v) (set_Status DelegationCancelled) d with
  | Ok (r :: _, d') => append_events [rival_event r] d'
  | _ => d
  end.
(** It commits from interaction [k] on. *)
Definition from_step (k n : nat) (d : Db) : Db := if (k <=? n)%nat then rival d else d.

(** Nothing, or the update and its event. *)
Lemma rival_cases d : rival d = d ∨ ∃ r d', rival d = append_events [rival_event r] d' ∧ lawful rival_tx d d' ∧ row_ok r = true.
Proof.
  unfold rival. destruct (sql_update _ _ _ d) as [[[|r rows] d']|e] eqn:Hu; [by left| |by left]. right. exists r, d'.
  split; [done|]. split; [eapply sql_update_lawful; [apply sets_end; by right|exact Hu]|].
  unfold sql_update in Hu. destruct (forallb row_ok _) eqn:Hok; [|done]. injection Hu as Hrows _. rewrite Hrows in Hok.
  by apply andb_true_iff in Hok as [? _].
Qed.
(** One cancellation, as the program would have made it. *)
Lemma rival_refines clk d : refines outboxPublisher clk d (rival d).
Proof.
  intros Hinv. enough (acted outboxPublisher clk d (rival d)) as Ha by (split; [by destruct (acted_grows _ _ _ _ Ha Hinv)|done]).
  unfold rival. destruct (update_keyed t i rival_tx (where_end t i v)
    (λ d, has_version v d && open_status (Status d)) (set_Status DelegationCancelled) d) as [(x & Hx & HQ & ->)|[-> _]].
  - intros x. unfold where_end. by destruct (in_tenant t x), (has_id i x), (has_version v x), (is_live x), (open_status (Status x)).
  - done.
  - apply sets_end. by right.
  - intros x (Hx & _) _. apply row_ok_status; [set_solver|]. by apply (inv_row d Hinv i).
  - apply andb_true_iff in HQ as [Hv%Z.eqb_eq Ho]. eapply acted_once, (Cancels _ _ t i v EndReasonCancelled DelegatorID); [by left|].
    exists rival_tx, x, (rival_event (updated_row rival_tx (set_Status DelegationCancelled) x)).
    destruct Hx as (? & ? & ?). split_and!; try done. unfold rival_event, announces, endedPayload, updated_row, touch_row. simpl.
    by case_decide.
  - reflexivity.
Qed.
Lemma rival_kept d : kept d (rival d).
Proof.
  unfold rival, sql_update. destruct (forallb _ _); [|intros k b Hb; by exists b].
  destruct (updated_row _ _ <$> _) as [|r rows]; [intros k b Hb; by exists b|].
  intros k b. simpl. rewrite lookup_fmap. destruct (db_delegations d !! k) as [a|]; [|done]. intros [= <-].
  exists a. split; [done|]. destruct (selected _ _ a) eqn:Hs; [|reflexivity].
  apply (updated_row_step _ (where_end t i v)); [apply sets_end; by right|].
  unfold selected in Hs. by apply andb_true_iff in Hs as [_ ?].
Qed.
Lemma from_step_id (R : relation Db) k n d : Reflexive R → R d (rival d) → R d (from_step k n d).
Proof. intros HR Hr. unfold from_step. by destruct (k <=? n)%nat. Qed.

Section instances.
Context (k : nat) (start : Time) (http : HttpRequest → HttpOutcome) (db kv : nat → option goerror).
#[local] Abbreviation busy := (env_among (from_step k) start http db kv).

#[export] Instance rival_within_grows : LawfulOthers busy.
Proof. intros n d. apply (from_step_id grows k n d); [unfold grows; apply _|]. intros Hd. eapply (acted_grows outboxPublisher (λ _, True)), Hd. by apply rival_refines. Qed.
#[export] Instance rival_within_refines clk : OthersWithin busy (refines outboxPublisher clk).
Proof. intros n d. apply (from_step_id (refines _ clk) k n d); [unfold refines; apply _|]. apply rival_refines. Qed.
#[export] Instance rival_unique : UniqueIds busy.
Proof. apply kept_unique. intros n d. apply (from_step_id kept k n d); [intros x j b Hb; by exists b|apply rival_kept]. Qed.
Lemma rival_within_spares t' : t' ≠ t → OthersWithin busy (spares t').
Proof.
  intros Hne n d. apply (from_step_id (spares t') k n d); [unfold spares; apply _|].
  destruct (rival_cases d) as [->|(r & d' & -> & Hl & _)]; [unfold spares; reflexivity|]. intros Hd.
  assert (rls_check_tenant rival_tx t' = false) as Hrls by (apply bool_decide_eq_false; simpl; congruence).
  destruct (lawful_spares _ t' _ _ Hrls Hl Hd) as [[Hr Hs] [Hu Hset]]. split; by split.
Qed.
Lemma rival_within_announcing : OthersWithin busy (announcing (E:=busy)).
Proof.
  intros n d. apply (from_step_id (announcing (E:=busy)) k n d); [unfold announcing; apply _|]. intros Hd.
  destruct (rival_cases d) as [->|(r & d' & -> & Hl & Hrow)]; [split; [done|]; exists []; by rewrite app_nil_r|].
  destruct (Hl Hd) as [Hd' [_ _ Ho]]. split; [by destruct Hd'|]. exists [rival_event r]. simpl. rewrite Ho. split; [done|].
  apply Forall_singleton. split; [done|done|done|]. apply (accepted (E:=busy) (endedPayload t i r EndReasonCancelled (DelegatorID r))), payload_ended; [done|]. by repeat first [left | right].
Qed.
End instances.
End rival.

(** ** Overlapping deliveries of one message *)
Section overlap.
#[local] Abbreviation consumer := (cascadeConsumer (λ _, ""%string) "https://up").
#[local] Abbreviation svc := (delegationService "https://up" "https://om" None).

(** Bob's membership is revoked. *)
Definition leave_message : Envelope json :=
  (mkEnvelope (uuid_String (id 900)) EventMembershipRevoked "iam-org" (uuid_String acme) "" "" "1" "" ""
    (JObj [("tenant_id", JStr (uuid_String acme)); ("user_id", JStr (uuid_String bob)); ("actor_id", JStr (uuid_String carol))]))%string.
Definition one_grant : World := world_of [grant (id 1) acme alice bob None (Some (noon + 20 * Day))].

(** Another process: it handles the message and then, Bob being back, serves
    Alice's request to delegate to him again. *)
Section sibling.
#[local] Existing Instance sample_env.
Definition sibling (d : Db) : result goerror Delegation * World :=
  Create svc (WithTenantGUC background acme "iam-system") acme alice "" (mkCreateInput bob ScopeAll None "again" None None)
    (Handle consumer background leave_message (mkWorld 100 d ∅ ∅ ∅ [])).2.
End sibling.

(** Its commits fall between the check of the ledger by this process, which
    received the same message, and the transaction of the cascade. *)
#[local] Instance overlapped : Env :=
  env_among (λ n d, if (n =? 4)%nat then w_db (sibling d).2 else d) noon friendly healthy healthy.

(** The ledger is asked before the transaction that writes it, and that one does
    not look again: the second process, the message recorded and acknowledged by
    the first, applies it once more, to a delegation made since. *)
Theorem overlapping_deliveries :
  match sibling (w_db one_grant) with
  | (Ok again, between) =>
      is_marked (w_db between) (uuid_String (id 900)) consumerCascade
      ∧ Status again = DelegationActive
      ∧ let '(r, w') := Handle consumer background leave_message one_grant in
        r = Ok tt ∧ Status <$> db_delegations (w_db w') !! ID again = Some DelegationEnded
  | _ => False
  end.
Proof.
  assert (is_ok (sibling (w_db one_grant)).1 = true) as Hok by (vm_compute; reflexivity).
  destruct (sibling (w_db one_grant)) as [[again|e] between] eqn:Hrun; [|discriminate Hok].
  assert (again = match (sibling (w_db one_grant)).1 with Ok d => d | Err _ => again end) as Ha by (by rewrite Hrun).
  assert (between = (sibling (w_db one_grant)).2) as -> by (by rewrite Hrun). clear Hrun Hok.
  split; [apply (bool_decide_unpack _); vm_compute; reflexivity|]. rewrite Ha. clear Ha.
  split; [vm_compute; reflexivity|].
  destruct (Handle consumer background leave_message one_grant) as [r w'] eqn:Hh.
  assert (r = (Handle consumer background leave_message one_grant).1) as -> by (by rewrite Hh).
  assert (w' = (Handle consumer background leave_message one_grant).2) as -> by (by rewrite Hh). clear Hh.
  split; vm_compute; reflexivity.
Qed.
End overlap.

(** ** Between the UPDATE and the look at why it found no row

    A cancellation at version 2 of a delegation that is at version 1: the others
    extend it, to version 2, once the UPDATE has found no row. *)
Section probe.
Definition extended_by_others (n : nat) (d : Db) : Db :=
  if (n =? 3)%nat then
    match sql_update (mkTx AppRole (Some acme) noon) (where_extend acme (id 1) 1) (set_extend 5) d with
    | Ok (_, d') => d'
    | Err _ => d
    end
  else d.
#[local] Instance between_statements : Env := env_among extended_by_others noon friendly healthy healthy.
#[local] Abbreviation cancelling ctx cap :=
  (endAndAnnounce (delegationService "https://up" "https://om" None) acme (id 1)
     (grant (id 1) acme alice bob None (Some (noon + 20 * Day))) 2 EndReasonCancelled alice ctx cap).
#[local] Instance staged_cancelling ctx tx cap : Staged (cancelling (tx_context outboxPublisher ctx tx) cap) :=
  staged_endAndAnnounce pool outboxPublisher _ _ _ _ _ _ _ _ _ _ _ _ _ _ ctx tx cap.
Definition bound_ctx : Ctx := WithTenantGUC background acme "iam-system".

(** The caller is told of a conflict with version 2, the very version it sent.  No
    order of the two without interruption says so: first, the cancellation would be
    refused for version 1; second, it would succeed. *)
Theorem conflict_with_the_version_sent :
  (rc_attempt pool bound_ctx (λ tx, stages (cancelling (tx_context outboxPublisher bound_ctx tx) None)) one_grant).1
    = BodyFailed (Repo.version_conflict 2)
  ∧ (isolated_attempt pool bound_ctx (λ tx, cancelling (tx_context outboxPublisher bound_ctx tx) None) one_grant).1
    = BodyFailed (Repo.version_conflict 1)
  ∧ match (isolated_attempt pool bound_ctx (λ tx, cancelling (tx_context outboxPublisher bound_ctx tx) None)
             (set_db (extended_by_others 3 (w_db one_grant)) one_grant)).1 with
    | Committed (Some d) => Status d = DelegationCancelled
    | _ => False
    end.
Proof. split; [vm_compute; reflexivity|]. split; vm_compute; reflexivity. Qed.
End probe.
