(* ===== verification/Witnesses.v ===== *)
(** * The theorems at work

    Each property with a hypothesis applied to a concrete run: small tables, a
    clock, favourable or failing peers.  Where the property speaks of success
    and failure, the branch the run takes is computed alongside. *)
From S2P Require Import Prelude GoLib Domain World Store StoreFacts MetricsRec Valkey EventBus EventSchema HttpClients Postgres Contracts PostgresFacts StoreSpec PostgresSpec ClientFacts DelegationService CascadeService Consumer Jobs FloatFacts Http PageText AsyncDocs SchemaSpec ServiceFacts DelegationSpec CascadeSpec ConsumerSpec JobSpec Actions Config System SystemFacts SystemSpec BackgroundSpec Refinement Statements ReadCommitted HttpSpec RequestSpec ValkeySpec AsyncSpec CodecSpec ConfigSpec TxSpec OutboundSpec MetricsSpec Samples Interference.
Local Open Scope string_scope.
Local Open Scope Z_scope.

#[local] Existing Instance sample_env.
#[local] Instance sample_clock : SaneClock sample_env.
Proof. intros n. simpl. unfold noon, Day, Hour, Minute, Second. lia. Qed.

(** ** The stage *)
Definition local_env : Environ := λ _, "".
Definition prod_env : Environ := λ key, if bool_decide (key = "SYSTEM_DATABASE_URL") then "postgres://system" else "".
Definition up : string := "https://up".
Definition om : string := "https://om".
#[local] Abbreviation svc := (delegationService up om None).
#[local] Abbreviation cascades := (cascadeServiceImpl up).
#[local] Abbreviation consumer := (cascadeConsumer prod_env up).
#[local] Abbreviation crons := (reconciler_jctx prod_env up 50 90 30).
#[local] Abbreviation api := (handlers prod_env up om None (Some true, None, None, None)).

(** One open-ended delegation from Alice to Bob, due in 20 days; one that has run
    out; one that lapsed; one to start; one soft-deleted long ago. *)
Definition open_grant : Delegation := grant (id 1) acme alice bob None (Some (noon + 20 * Day)).
Definition expired_grant : Delegation := grant (id 2) acme alice bob (Some (noon - Hour)) None.
Definition due_grant : Delegation := grant (id 3) acme alice bob None (Some (noon + 2 * Day)).
Definition future_grant : Delegation := set_Status DelegationScheduled (grant (id 4) acme alice bob None (Some (noon + 20 * Day))).
Definition deleted_grant : Delegation :=
  set_DeletedAt (Some (noon - 200 * Day)) (set_Status DelegationEnded (grant (id 5) acme alice bob None None)).
Definition stage : World := world_of [open_grant; expired_grant; due_grant; future_grant; deleted_grant].
Definition bare : World := world_of [].
Definition bound : Ctx := WithTenantGUC background acme "iam-system".
Definition to_bob : CreateInput := mkCreateInput bob "all" None "leave" None None.

Lemma stage_inv : db_inv (w_db stage).
Proof. apply db_inv_check. vm_compute. reflexivity. Qed.
Lemma bare_inv : db_inv (w_db bare).
Proof. apply db_inv_check. vm_compute. reflexivity. Qed.
Lemma bound_outermost : outermost outboxPublisher bound.
Proof. split; [reflexivity|by left]. Qed.
Lemma bound_sees : sees AppRole bound acme.
Proof. by apply sees_bound. Qed.

Lemma reachable_inv msg : db_inv (w_db (Handle (cascadeConsumer prod_env up) background msg stage).2).
Proof.
  pose proof (sys_step_within prod_env up om None grows (confined_grows (U:=sample_uuid)) stage _
                (StepDelivery prod_env up om None stage msg)) as Hg.
  by apply (DbRel_db _ _ _ Hg stage_inv).
Qed.

(** A membership of Bob revoked by the platform. *)
Definition revoked : Envelope json :=
  mkEnvelope (uuid_String (id 900)) EventMembershipRevoked "iam-org" (uuid_String acme) "" "" "1" "" ""
    (JObj [("tenant_id", JStr (uuid_String acme)); ("user_id", JStr (uuid_String bob)); ("actor_id", JStr (uuid_String carol))]).

(** While another process cancels the delegation due in two days, from interaction
    [k] on. *)
Definition among_rivals (k : nat) : Env := env_among (from_step acme (id 3) 1 k) noon friendly healthy healthy.
#[local] Instance rivals_clock k : SaneClock (among_rivals k).
Proof. intros n. apply (sample_clock n). Qed.

(** ** The running system *)
Definition busy : Env := among_rivals 0.
Section rivals.
#[local] Existing Instance busy.
Lemma reachable_lifecycle_witness :
  let w' := (Handle consumer background revoked stage).2 in
  fmap Status (db_delegations (w_db w') !! id 3) = Some DelegationCancelled
  ∧ db_inv (w_db w') ∧ evolves (w_db stage) (w_db w').
Proof.
  split; [vm_compute; reflexivity|]. apply (reachable_lifecycle prod_env up om None); [|apply stage_inv].
  apply rtc_once, (StepDelivery prod_env up om None stage revoked).
Defined.
(** Bob's membership is revoked while a rival cancels one of Alice's grants to him;
    then the activation job runs. *)
Definition bob_left : World := (Handle consumer background revoked stage).2.
Definition job_run : World := (run_job crons "delegation-activation" bob_left).2.
Lemma job_run_reachable : reachable prod_env up om None stage job_run.
Proof.
  apply (rtc_l _ _ bob_left); [exact (StepDelivery prod_env up om None stage revoked)|].
  exact (rtc_once _ _ (StepJob prod_env up om None bob_left 50 90 30 "delegation-activation")).
Qed.
Definition from_noon (t : Time) : Prop := noon ≤ t.
Lemma reads_from_noon n : from_noon (env_clock n).
Proof. unfold from_noon. simpl. unfold Second. lia. Qed.
Lemma system_refines_actions_witness :
  length (db_outbox (w_db job_run)) = 4%nat
  ∧ db_inv (w_db job_run) ∧ ∃ granted, acts outboxPublisher from_noon granted (w_db stage) (w_db job_run).
Proof.
  split; [vm_compute; reflexivity|].
  apply (system_refines_actions from_noon reads_from_noon prod_env up om None); [apply job_run_reachable|apply stage_inv].
Defined.
Lemma announcements_accounted_witness :
  held (λ d, negb (open_status (Status d))) (id 3) (w_db stage) = 0%nat
  ∧ held (λ d, negb (open_status (Status d))) (id 3) (w_db job_run) = 1%nat
  ∧ ∃ es, db_outbox (w_db job_run) = (db_outbox (w_db stage) ++ es)%list ∧ (1 ≤ tally EventDelegationEnded (id 3) es)%nat.
Proof.
  assert (held (λ d, negb (open_status (Status d))) (id 3) (w_db stage) = 0%nat) as H0 by (vm_compute; reflexivity).
  assert (held (λ d, negb (open_status (Status d))) (id 3) (w_db job_run) = 1%nat) as H1 by (vm_compute; reflexivity).
  split; [exact H0|]. split; [exact H1|].
  destruct (announcements_accounted from_noon reads_from_noon prod_env up om None stage job_run job_run_reachable stage_inv) as (granted & es & _ & Hes & Hk & _).
  exists es. split; [exact Hes|]. destruct (Hk (id 3)) as [Hover _]. lia.
Defined.
End rivals.


Lemma outbox_well_formed_witness :
  let w' := (Handle consumer background revoked stage).2 in
  length (db_outbox (w_db w')) = 4%nat
  ∧ ∃ es, db_outbox (w_db w') = (db_outbox (w_db stage) ++ es)%list
    ∧ Forall (λ e, ∃ s, entry (env_Type e) schema_ByEventType = Some s
                     ∧ conforms s (payload_json (env_Payload e)) = true
                     ∧ env_Type e = type_of (env_Payload e)
                     ∧ env_TenantID e = uuid_String (payload_tenant (env_Payload e))
                     ∧ env_Subject e = uuid_String (payload_delegation (env_Payload e))) es.
Proof.
  split; [vm_compute; reflexivity|].
  apply (outbox_well_formed prod_env up om None); [|apply stage_inv].
  apply rtc_once, (StepDelivery prod_env up om None stage revoked).
Defined.

Definition alice_at (tenant : uuid) : requestctx.Context := requestctx.mkContext (uuid_String alice) (uuid_String tenant) [] "" "".
Definition request (rc : option requestctx.Context) (method : string) (path : list string) (key : string) : Request :=
  mkRequest method path (λ _, "") (λ h, if bool_decide (h = "Idempotency-Key") then key else "") Malformed rc background.

Lemma request_isolation_witness :
  let r := request (Some (alice_at other)) "DELETE" ["api"; "v1"; "delegations"; uuid_String (id 1)] "" in
  untouched acme (w_db stage) (w_db (serve api r stage).2).
Proof.
  apply (request_isolation prod_env up om None acme); [done| | |apply stage_inv].
  - intros m e. vm_compute. intros He. apply list_elem_of_singleton in He. by injection He as -> ->.
  - intros rc [= <-]. apply (bool_decide_unpack _). vm_compute. done.
Defined.

Lemma delivery_isolation_witness :
  message_tenant revoked ≠ Some other
  ∧ untouched other (w_db stage) (w_db (Handle consumer background revoked stage).2).
Proof.
  assert (message_tenant revoked ≠ Some other) as Hne by (apply (bool_decide_unpack _); vm_compute; done).
  split; [exact Hne|]. apply (delivery_isolation prod_env up other); [exact Hne|apply stage_inv].
Defined.

(** ** The use cases *)
Section use_cases.
#[local] Existing Instance busy.


(** Both cancellations of the same delegation: the rival is first. *)
Lemma cancel_all_or_nothing_witness :
  is_ok (Cancel svc bound acme (id 1) 1 stage).1 = true ∧ is_ok (Cancel svc bound acme (id 3) 1 stage).1 = false
  ∧ ∀ i, wp (Cancel svc bound acme i 1) (λ r w',
      match r with
      | Ok d => ∃ db, meanwhile (w_db stage) db
                  ∧ cancelled outboxPublisher acme i 1 EndReasonCancelled (cancelActor bound) d db (w_db w')
      | Err e => refused_for (w_db stage) (cancel_refused acme i 1 (sees AppRole bound acme)) e (w_db w')
      end) stage.
Proof.
  split; [vm_compute; reflexivity|]. split; [vm_compute; reflexivity|]. intros i.
  apply (cancel_all_or_nothing up om None); [apply bound_outermost|apply stage_inv].
Defined.

Lemma extend_all_or_nothing_witness :
  is_ok (Extend svc bound acme (id 1) (Some 30) 1 stage).1 = true
  ∧ wp (Extend svc bound acme (id 1) (Some 30) 1) (λ r w',
      match r with
      | Ok d' => ∃ n d db, 1 ≤ n ≤ 180 ∧ meanwhile (w_db stage) db ∧ extended acme (id 1) 1 n d d' db (w_db w') ∧ n = 30
      | Err e => refused_for (w_db stage) (extend_refused acme (id 1) (Some 30) 1 (sees AppRole bound acme)) e (w_db w')
      end) stage.
Proof.
  split; [vm_compute; reflexivity|].
  apply (extend_all_or_nothing up om None bound acme (id 1) (Some 30) 1 stage); [apply bound_outermost|apply stage_inv].
Defined.

Definition to_carol : ReassignInput := mkReassignInput (Some carol) None None false None false None.
Lemma reassign_two_transactions_witness :
  is_ok (Reassign svc bound acme (id 1) 1 to_carol stage).1 = true
  ∧ wp (Reassign svc bound acme (id 1) 1 to_carol) (λ r w',
      (∃ e, r = Err e ∧ meanwhile (w_db stage) (w_db w'))
      ∨ (∃ old ended db1 db2 db3, meanwhile (w_db stage) db1 ∧ live_row db1 acme (id 1) old ∧ Status old = DelegationActive
         ∧ meanwhile db1 db2
         ∧ cancelled outboxPublisher acme (id 1) 1 EndReasonReassigned (cancelActor bound) ended db2 db3
         ∧ match r with
           | Ok d => ∃ db4, meanwhile db3 db4
                       ∧ created outboxPublisher acme (DelegatorID old) (reassignInput old to_carol) d db4 (w_db w')
           | Err _ => meanwhile db3 (w_db w')
           end)) stage.
Proof.
  split; [vm_compute; reflexivity|].
  apply (reassign_two_transactions up om None); [apply bound_outermost|apply stage_inv].
Defined.
End use_cases.

Lemma sample_healthy : healthy_db.
Proof. done. Qed.
Lemma stage_row : live_row (w_db stage) acme (id 1) open_grant.
Proof. split; [|done]. apply (bool_decide_unpack _). vm_compute. done. Qed.
Lemma cancel_and_extend_succeed_witness :
  let v := RecordVersion open_grant in
  is_ok (Cancel svc bound acme (id 1) v stage).1 = true ∧ is_ok (Extend svc bound acme (id 1) (Some 30) v stage).1 = true.
Proof.
  destruct (cancel_and_extend_succeed up om None background acme "iam-system" (id 1) open_grant stage)
    as [Hcancel Hextend].
  - apply background_outermost.
  - apply sample_healthy.
  - apply stage_inv.
  - apply stage_row.
  - split; [exact (Hcancel eq_refl)|assert (1 ≤ 30 ≤ 180) as H30 by lia; exact (Hextend 30 eq_refl eq_refl H30)].
Defined.

Lemma end_single_winner_witness :
  let first := Repo.End_ AppRole bound acme (id 1) DelegationCancelled 1 stage in
  is_ok first.1 = true ∧ is_ok (Repo.End_ AppRole bound acme (id 1) DelegationEnded 1 first.2).1 = false.
Proof.
  destruct (Repo.End_ AppRole bound acme (id 1) DelegationCancelled 1 stage) as [[d1|e] w1] eqn:Hend.
  2:{ exfalso. apply (f_equal (λ p, is_ok p.1)) in Hend. vm_compute in Hend. discriminate. }
  simpl. split; [reflexivity|].
  pose proof (wp_run _ _ _ _ _ (end_contract AppRole bound acme (id 1) DelegationCancelled 1 stage stage_inv
    (or_intror eq_refl)) Hend) as (db1 & ->%begins_on_alone & tx & d & _ & (Hd & _) & _ & Hd1 & Hdb).
  destruct (inv_row _ stage_inv _ _ Hd) as [Hid _].
  pose proof (DbRel_db _ _ _ (law_End any_ctx grows (r:=Repo.NewDelegationRepository AppRole) bound acme (id 1)
    DelegationCancelled 1 I (or_intror eq_refl) stage) stage_inv) as [Hinv1 _]. change (db_inv (w_db (Repo.End_ AppRole bound acme (id 1) DelegationCancelled 1 stage).2)) in Hinv1.
  rewrite Hend in Hinv1.
  apply (end_single_winner AppRole bound bound acme (id 1) DelegationCancelled DelegationEnded 1 stage w1 w1 d1).
  - apply stage_inv.
  - exact Hinv1.
  - by right.
  - by left.
  - exact Hend.
  - intros db x ->%alone_meanwhile (Hx & _). rewrite Hdb in Hx. simpl in Hx.
    assert (ID d1 = id 1) as Hi by (rewrite Hd1, updated_row_id; [done|done]).
    rewrite Hi, lookup_insert_eq in Hx. injection Hx as <-. reflexivity.
Defined.

(** ** The consumer *)
Lemma membership_removed_witness :
  is_ok (Cascade.EndForUser cascades (WithTenantGUC background acme "iam-system") acme bob stage).1 = true
  ∧ wp (Cascade.EndForUser cascades (WithTenantGUC background acme "iam-system") acme bob) (λ r w',
      BackgroundSpec.cascades (ended_for_user outboxPublisher acme bob) (w_db stage) r (w_db w')) stage.
Proof.
  split; [vm_compute; reflexivity|]. apply membership_removed; [apply background_outermost|apply stage_inv].
Defined.

Lemma delegate_disabled_witness :
  is_ok (Cascade.EndForDisabledDelegate cascades (WithTenantGUC background acme "iam-system") acme bob stage).1 = true
  ∧ wp (Cascade.EndForDisabledDelegate cascades (WithTenantGUC background acme "iam-system") acme bob) (λ r w',
      BackgroundSpec.cascades (ended_for_disabled outboxPublisher acme bob) (w_db stage) r (w_db w')) stage.
Proof.
  split; [vm_compute; reflexivity|]. apply delegate_disabled; [apply background_outermost|apply stage_inv].
Defined.

Lemma tenant_offboarded_witness :
  is_ok (Cascade.ScrubTenant cascades (WithTenantGUC background acme "iam-system") acme stage).1 = true
  ∧ wp (Cascade.ScrubTenant cascades (WithTenantGUC background acme "iam-system") acme) (λ r w',
      BackgroundSpec.cascades (offboarded acme) (w_db stage) r (w_db w')) stage.
Proof.
  split; [vm_compute; reflexivity|]. apply tenant_offboarded; [apply background_outermost|apply stage_inv].
Defined.

Lemma delivered_once_witness :
  is_ok (Handle consumer background revoked stage).1 = true
  ∧ wp (Handle consumer background revoked) (λ r w',
      once (uuid_String (id 900)) (recorded_as revoked) (requested outboxPublisher revoked)
        (serviceable consumer revoked = true → ¬ healthy_db) (w_db stage) r (w_db w')) stage.
Proof.
  split; [vm_compute; reflexivity|].
  apply delivered_once; [apply stage_inv|apply UuidText.of_to_text|done|done].
Defined.

Lemma accepted_message_serviceable_witness : serviceable consumer revoked = true.
Proof.
  apply accepted_message_serviceable; [reflexivity|vm_compute; reflexivity|apply (bool_decide_unpack _); vm_compute; done|done].
Defined.

Lemma redelivery_changes_nothing_witness :
  let w1 := (Handle consumer background revoked stage).2 in
  w_db (Handle consumer background revoked w1).2 = w_db w1.
Proof.
  assert ((Handle consumer background revoked stage).1 = Ok tt) as Hok by (vm_compute; reflexivity).
  destruct (Handle consumer background revoked stage) as [r w1] eqn:Hrun. simpl in Hok. subst r. simpl.
  apply alone_meanwhile, (redelivery_changes_nothing prod_env up revoked (id 900) stage w1 w1).
  - apply stage_inv.
  - pose proof (reachable_inv revoked) as Hi. rewrite Hrun in Hi. apply Hi.
  - apply UuidText.of_to_text.
  - done.
  - done.
  - exact Hrun.
  - by intros k db ->%alone_meanwhile.
Defined.

Definition anonymous : Envelope json :=
  mkEnvelope "not-a-uuid" EventMembershipRevoked "iam-org" (uuid_String acme) "" "" "1" "" "" (env_Payload revoked).
Lemma unidentified_message_dropped_witness :
  (Handle consumer background anonymous stage).1 = Ok tt ∧ w_db (Handle consumer background anonymous stage).2 = w_db stage.
Proof. apply unidentified_message_dropped. left. vm_compute. reflexivity. Defined.

(** ** The jobs *)
Lemma sample_peers : peers_accept.
Proof. split; [done|]. intros n r. by exists 200, (match friendly r with HttpResponded _ b => b | _ => None end). Qed.
Lemma expiry_job_witness :
  fmap (λ res, (Attempted res, Succeeded res)) (match (Expiry crons background stage).1 with Ok res => Some res | Err _ => None end)
    = Some (1, 1)
  ∧ wp (Expiry crons background) (λ r w',
      attempts_ok (expire_step outboxPublisher (env_clock (w_step stage))) (batch_limit crons) r (w_db stage) (w_db w')
      ∧ drained_by prod_env up 50 90 30 (expire_step outboxPublisher (env_clock (w_step stage)))
          (expired_at (env_clock (w_step stage))) r (w_db stage) (w_db w')) stage.
Proof.
  split; [vm_compute; reflexivity|]. eapply wp_mono; [apply expiry_job, stage_inv|]. intros r w' [Hok Hdrain].
  split; [exact Hok|]. apply Hdrain; [apply sample_alone|apply sample_healthy|apply sample_peers|reflexivity].
Defined.

Lemma stage_dates : map_Forall (λ _ d, dates_ok d = true) (db_delegations (w_db stage)).
Proof. apply (bool_decide_unpack _). vm_compute. done. Qed.
Lemma activation_job_witness :
  fmap (λ res, (Attempted res, Succeeded res)) (match (Activation crons background stage).1 with Ok res => Some res | Err _ => None end)
    = Some (1, 1)
  ∧ wp (Activation crons background) (λ r w',
      attempts_ok (start_step outboxPublisher (env_clock (w_step stage))) (batch_limit crons) r (w_db stage) (w_db w')
      ∧ drained_by prod_env up 50 90 30 (start_step outboxPublisher (env_clock (w_step stage)))
          (startable_at (env_clock (w_step stage))) r (w_db stage) (w_db w')) stage.
Proof.
  split; [vm_compute; reflexivity|]. eapply wp_mono; [apply activation_job, stage_inv|]. intros r w' [Hok Hdrain].
  split; [exact Hok|]. apply Hdrain; [apply sample_alone|apply sample_healthy|apply sample_peers|reflexivity|].
  intros k d Hd _. by apply (stage_dates k).
Defined.

(** The rival cancels the delegation to warn about after the sweep has read it:
    the sweep warns nobody, and fails at nothing. *)
Section overtaken.
#[local] Instance late : Env := among_rivals 4.
Lemma review_job_witness :
  fmap (λ res, (Warned2d res, Failed res)) (match (ReviewSweep crons background stage).1 with Ok res => Some res | Err _ => None end)
    = Some (0, 0)
  ∧ wp (ReviewSweep crons background) (λ r w',
      ∃ n mid, among (warn_step outboxPublisher (env_clock (w_step stage))) n (w_db stage) mid ∧
      match r with
      | Ok res => ∃ m, among (lapse_step outboxPublisher (env_clock (w_step stage))) m mid (w_db w')
          ∧ Warned3d res + Warned2d res + Warned1d res ≤ Z.of_nat (n + m)
          ∧ Warned3d res + Warned2d res + Warned1d res + Expired res ≤ Z.of_nat (n + m)
          ∧ 0 ≤ Failed res ∧ 0 ≤ Deferred res
          ∧ Z.of_nat (n + m) + Failed res + Deferred res ≤ Z.of_nat (2 * batch_limit crons)
      | Err _ => w_db w' = mid
      end) stage.
Proof. split; [vm_compute; reflexivity|]. apply review_job, stage_inv. Defined.
End overtaken.

Lemma cleanup_job_witness :
  is_ok (Cleanup crons background stage).1 = true
  ∧ wp (Cleanup crons background) (λ r w',
      match r with
      | Ok res => ∃ db (rows : list Delegation) pruning, meanwhile (w_db stage) db
          ∧ (∀ d, d ∈ rows → db_delegations db !! ID d = Some d
                           ∧ ∃ t, DeletedAt d = Some t ∧ t < cutoff crons (env_clock (w_step stage)))
          ∧ (length rows ≤ batch_limit crons)%nat ∧ Purged res = Z.of_nat (length rows)
          ∧ meanwhile (remove_rows (ID <$> rows) db) pruning ∧ ledger_pruned pruning (w_db w')
      | Err _ => meanwhile (w_db stage) (w_db w')
      end) stage.
Proof. split; [vm_compute; reflexivity|]. apply cleanup_job, stage_inv. Defined.

Section outage.
(** Every HTTP peer is unreachable. *)
#[local] Instance peers_down : Env := env_with noon unreachable_peer healthy healthy.

Lemma expiry_defers_without_user_profile_witness :
  is_ok (Expiry crons background stage).1 = true
  ∧ wp (Expiry crons background) (λ r w', meanwhile (w_db stage) (w_db w') ∧
      match r with
      | Ok res => Deferred res = Attempted res ∧ Succeeded res = 0 ∧ Failed res = 0
      | Err _ => True
      end) stage.
Proof.
  split; [vm_compute; reflexivity|].
  apply expiry_defers_without_user_profile; [|apply stage_inv].
  intros n r. eexists. reflexivity.
Defined.
End outage.

Lemma expiry_blind_without_system_pool_witness :
  is_ok (Expiry (reconciler_jctx local_env up 50 90 30) background stage).1 = true
  ∧ wp (Expiry (reconciler_jctx local_env up 50 90 30) background) (λ r w', meanwhile (w_db stage) (w_db w') ∧
      match r with Ok res => res = zeroResult | Err _ => True end) stage.
Proof.
  split; [vm_compute; reflexivity|].
  apply expiry_blind_without_system_pool; [reflexivity|apply stage_inv].
Defined.

Lemma computeDaysRemaining_exact_witness :
  computeDaysRemaining (Some (noon + 2 * Day + 1)) noon = 3 ∧ 1 ≤ computeDaysRemaining (Some (noon + 2 * Day + 1)) noon ≤ 3.
Proof.
  destruct (computeDaysRemaining_exact (noon + 2 * Day + 1) noon) as [Heq Hrange].
  - unfold noon, Day, Hour, Minute, Second. lia.
  - split; [|exact Hrange]. rewrite Heq. reflexivity.
Defined.

(** ** HTTP *)
Lemma only_delegator_or_admin_witness :
  let carol_here := requestctx.mkContext (uuid_String carol) (uuid_String acme) [] "" "" in
  let r := request (Some carol_here) "DELETE" [] "" in
  wp (dispatch api (ECancel (uuid_String (id 1))) r) (refused stage) stage.
Proof.
  eapply (only_delegator_or_admin prod_env up om None _ _ (uuid_String (id 1)) _ _ (id 1) acme).
  - by left.
  - apply stage_inv.
  - reflexivity.
  - reflexivity.
  - apply UuidText.of_to_text.
  - apply UuidText.of_to_text.
  - reflexivity.
  - intros db d ->%alone_meanwhile (Hd & _). assert (db_delegations (w_db stage) !! id 1 = Some open_grant) as Hopen
      by (apply (bool_decide_unpack _); vm_compute; done).
    rewrite Hopen in Hd. injection Hd as <-. apply (bool_decide_unpack _). vm_compute. done.
Defined.

Lemma policy_bounds_witness :
  is_ok (Settings.Set_ settingsRepo bound acme 30 60 stage).1 = true
  ∧ wp (Settings.Set_ settingsRepo bound acme 30 60) (λ r w',
      match r with
      | Ok s => 1 ≤ 30 ≤ 180 ∧ 1 ≤ 60 ≤ 180 ∧ MaxDurationDays s = 30 ∧ ts_ReviewWindowDays s = 60
          ∧ ∃ db, begins_on bound (w_db stage) db ∧ w_db w' = with_settings_of acme (Some s) db
          ∧ match db_settings db !! acme with
            | None => ts_RecordVersion s = 1
            | Some old => s = old ∨ ts_RecordVersion s = ts_RecordVersion old + 1
            end
      | Err e => begins_on bound (w_db stage) (w_db w') ∧
          (¬ 1 ≤ 30 ≤ 180 → is_sentinel ErrInvalidDelegationMaxDurationDays e = true)
          ∧ (1 ≤ 30 ≤ 180 → ¬ 1 ≤ 60 ≤ 180 → is_sentinel ErrInvalidDelegationReviewWindow e = true)
      end) stage.
Proof.
  split; [vm_compute; reflexivity|]. apply policy_bounds; [apply stage_inv|apply bound_sees].
Defined.

(** ** The checks of create *)
Definition for_a_week : CreateInput := mkCreateInput bob "all" None "" (Some noon) (Some (noon + 7 * Day)).
Lemma window_accepted_iff_witness :
  checkWindow noon for_a_week = Ok tt ∧ checkSpan (startOf noon for_a_week) 90 for_a_week = Ok tt.
Proof.
  apply window_accepted_iff; [lia|].
  split; intros ? [= <-]; apply (bool_decide_unpack _); vm_compute; reflexivity.
Defined.


Lemma membership_fail_closed_witness :
  (checkBothMemberships (delegationService up om None) bound acme alice bob stage).1
  = verdict (Ok (true, id 77)) (Ok (true, id 77)).
Proof.
  apply membership_fail_closed; intros w; destruct w; vm_compute; reflexivity.
Defined.

(** ** Valkey *)
Definition with_slot (k : string) (v : kv_value) (w : World) : World :=
  set_kv (<[k := (v, noon + 24 * Hour)]> (w_kv w)) w.
Definition key_slot : string := Idempotency.idempotencyKey acme "k1".


Lemma key_claimed_once_witness :
  let first := claimIdempotencyKey svc bound acme "k1" stage in
  first.1 = Ok (Proceed true)
  ∧ claimIdempotencyKey svc bound acme "k1" first.2 = (Err in_flight, next_step first.2).
Proof.
  assert ((claimIdempotencyKey svc bound acme "k1" stage).1 = Ok (Proceed true)) as Hok by (vm_compute; reflexivity).
  assert (w_step (claimIdempotencyKey svc bound acme "k1" stage).2 = 2%nat) as Hstep by (vm_compute; reflexivity).
  destruct (claimIdempotencyKey svc bound acme "k1" stage) as [r w1] eqn:Hrun. simpl in *. subst r. split; [reflexivity|].
  destruct (key_claimed_once up om None bound bound acme "k1" stage w1 Hrun) as (n & Hn & Hheld & Hothers).
  change (w_step stage) with 0%nat in Hn. rewrite Hstep in Hn.
  destruct (Hothers w1 Hheld) as [_ Hin].
  - rewrite Hstep. simpl. unfold noon, Day, Hour, Minute, Second. lia.
  - rewrite Hstep. simpl. unfold noon, Day, Hour, Minute, Second. lia.
  - apply Hin. reflexivity.
Defined.


Lemma writes_invalidate_list_witness :
  let cached := with_slot (ListCache.delegatorListKey acme alice) (KVList []) stage in
  let '(r, w') := Cancel svc bound acme (id 1) 1 cached in
  match r with
  | Ok d => w_kv w' !! ListCache.delegatorListKey acme (DelegatorID d) = None
  | Err _ => False
  end.
Proof.
  intros cached.
  assert (is_ok (Cancel svc bound acme (id 1) 1 cached).1 = true) as Hok by (vm_compute; reflexivity).
  destruct (writes_invalidate_list up om None bound acme alice (id 1) 1 None "" to_bob cached) as (_ & Hcancel & _).
  - apply bound_outermost.
  - apply stage_inv.
  - reflexivity.
  - unfold wp in Hcancel. destruct (Cancel svc bound acme (id 1) 1 cached) as [[d|e] w']; [|discriminate Hok].
    apply (Hcancel d eq_refl).
Defined.

(** ** The wire format *)
#[local] Instance registry : Glue.GlueClient := {|
  Glue.GetSchemaByDefinition _ _ _ := Ok (Some (uuid_String (id 500)), "AVAILABLE") |}.
Definition fresh_codec : Glue.GlueCodec := Glue.mkGlueCodec "iam-delegation-events" {["DelegationStarted" := [123; 125]]} ∅.


(** The section sign, U+00A7, in UTF-8. *)
Lemma asciiEscape_faithful_witness :
  Glue.asciiEscape [194; 167] = [92; 117; 48; 48; 97; 55]
  ∧ read_escape (Glue.escape_rune 167) = Some 167.
Proof.
  split; [vm_compute; reflexivity|].
  destruct (asciiEscape_faithful [194; 167]) as (_ & _ & Hread).
  - repeat constructor; discriminate.
  - apply Hread; [|discriminate]. apply (bool_decide_unpack _). vm_compute. reflexivity.
Defined.

(** ** Start-up *)
Definition minimal_env : Environ := λ key,
  if bool_decide (key ∈ ["DATABASE_URL"; "SNS_TOPIC_ARN"; "CASCADE_QUEUE_URL"; "SYSTEM_DATABASE_URL"]) then "set"
  else if bool_decide (key = "ENVIRONMENT") then "production" else "".
Lemma loadConfig_fail_fast_witness :
  match loadConfig minimal_env with
  | Ok cfg => DocsEnabled cfg = false ∧ sysPool minimal_env = SysRole
  | Err _ => False
  end.
Proof.
  assert (is_ok (loadConfig minimal_env) = true) as Hok by (vm_compute; reflexivity).
  destruct (loadConfig minimal_env) as [cfg|e] eqn:Hload; [|discriminate Hok].
  destruct (loadConfig_fail_fast minimal_env cfg Hload) as (_ & _ & _ & _ & Hsys & Hdocs).
  split; [apply Hdocs; reflexivity|apply Hsys; reflexivity].
Defined.

(** ** User Profile *)
Lemma availability_answers_witness :
  (setOutOfOffice svc bound acme alice noon (noon - Hour) None to_bob stage).1 = Ok tt
  ∧ w_http (setOutOfOffice svc bound acme alice noon (noon - Hour) None to_bob stage).2
    = [out_of_office up acme alice noon (noon - Hour) None to_bob].
Proof.
  destruct (availability_answers up om None bound acme alice noon (noon - Hour) None to_bob stage) as (Hhttp & _ & Hr).
  - reflexivity.
  - split; [exact Hr|exact Hhttp].
Defined.

(** ** Transactions: a body that asks for tenants' rows and then fails *)
Definition half_done (ctx : Ctx) (n : nat) : M nat :=
  _ ← repo_SoftDeleteTenant (delegationRepo : DelegationRepository) ctx acme;
  throw (EPlain "second thoughts").

(** ** Between the statements: the rival cancels after our UPDATE, before our event *)
Section between.
#[local] Instance in_between : Env := among_rivals 3.
#[local] Abbreviation job := (jobs_on SysRole (UserProfile.client up) txRunner WithTenantGUC 50 90 30 None None).
#[local] Abbreviation ended := (rc_attempt pool bound
  (λ tx, stages (endInTx job open_grant EndReasonExpired "delegation-expiry" (tx_context outboxPublisher bound tx) false)) stage).
Lemma read_committed_suffices_witness :
  ended.1 = Committed false
  ∧ fmap Status (db_delegations (w_db ended.2) !! id 1) = Some DelegationEnded
  ∧ fmap Status (db_delegations (w_db ended.2) !! id 3) = Some DelegationCancelled
  ∧ map env_Subject (db_outbox (w_db ended.2)) = [uuid_String (id 3); uuid_String (id 1)]
  ∧ ∃ d, meanwhile (w_db stage) d
      ∧ ended = isolated_attempt pool bound
          (λ tx, endInTx job open_grant EndReasonExpired "delegation-expiry" (tx_context outboxPublisher bound tx) false) (set_db d stage).
Proof.
  assert (ended.1 = Committed false) as Hc by (vm_compute; reflexivity).
  split; [exact Hc|]. split; [vm_compute; reflexivity|]. split; [vm_compute; reflexivity|]. split; [vm_compute; reflexivity|].
  destruct (read_committed_suffices SysRole outboxPublisher settingsRepo (OrgMembership.client om) (UserProfile.client up) None None None
    txRunner None WithTenantGUC 50 90 30 None None prod_env up) as (_ & _ & Hend & _).
  destruct (Hend open_grant EndReasonExpired "delegation-expiry"%string pool bound false stage stage_inv) as (d & Hm & [Hs|[_ Hs]]).
  - exists d. split; [exact Hm|exact Hs].
  - exfalso. revert Hs. rewrite Hc. intros [Hs|(e & Hs & _)]; discriminate Hs.
Defined.
End between.

(** ** Registration of the metrics *)
#[local] Existing Instance sample_registerer.
Definition fresh_registry : Bootstrap := mkBootstrap false None None [].

(** ** The viewer: a published and a consumed message on a merged envelope *)
#[local] Instance sample_case : UnicodeCase := {| unicode_upper := λ s, s; unicode_lower := λ s, s |}.
Definition text_prop (desc : string) : asyncProp := mkProp "string" "" desc None [] "" None.
Definition base_schema : asyncSchema :=
  mkSchema "object" ["id"; "type"] {["note" := text_prop "free"; "type" := text_prop "kind"; "id" := text_prop "unique"]}
    ["note"; "type"; "id"] [] "".
Definition base_ref : asyncSchema := mkSchema "" [] ∅ [] [] "#/components/schemas/Base".
Definition data_part : asyncSchema :=
  mkSchema "object" ["data"] {["source" := text_prop "who"; "data" := text_prop "what"]} ["source"; "data"] [] "".
Definition envelope_schema : asyncSchema := mkSchema "" [] ∅ [] [base_ref; data_part] "".
Definition sample_message (tags : list string) : asyncMessage :=
  mkMessage "m" "" "a message" "application/json" tags "#/components/schemas/Envelope" (mkNode ZeroNode "" []).
Definition sample_spec : asyncComponents :=
  mkComps {["Started" := sample_message ["x/published"]; "Revoked" := sample_message ["y/consumed"]]}
    {["Base" := base_schema; "Envelope" := envelope_schema]}.
Definition sample_rank (name : string) : nat := if bool_decide (name = "Envelope") then 1 else 0.
Lemma sample_schemas name s :
  Schemas sample_spec !! name = Some s → (name = "Base" ∧ s = base_schema) ∨ (name = "Envelope" ∧ s = envelope_schema).
Proof. unfold sample_spec. simpl Schemas. intros [[<- <-]|[_ [<- <-]%lookup_singleton_Some]]%lookup_insert_Some; auto. Qed.
Lemma sample_acyclic : acyclic sample_spec sample_rank.
Proof.
  intros name s [[-> ->]|[-> ->]]%sample_schemas other Hr.
  - inversion Hr as [? ? ? _ Ht|? ? ? Hin]; subst; [discriminate Ht|by apply not_elem_of_nil in Hin].
  - inversion Hr as [? ? ? Ha|? part ? Hin Hp]; subst; [discriminate Ha|].
    simpl in Hin. apply elem_of_cons in Hin as [->| ->%list_elem_of_singleton].
    + inversion Hp as [? ? ? _ Ht|? ? ? Hin]; subst; [|by apply not_elem_of_nil in Hin].
      assert (other = "Base") as -> by (vm_compute in Ht; congruence). vm_compute. lia.
    + inversion Hp as [? ? ? _ Ht|? ? ? Hin]; subst; [discriminate Ht|by apply not_elem_of_nil in Hin].
Qed.
Lemma base_leaf b leaf : reaches sample_spec b base_schema leaf → leaf = base_schema.
Proof. inversion 1 as [|? ? ? ? ? _ Ht|? ? ? ? Hin]; subst; [done|discriminate Ht|by apply not_elem_of_nil in Hin]. Qed.
Lemma envelope_leaf b leaf : reaches sample_spec b envelope_schema leaf → leaf = base_schema.
Proof.
  inversion 1 as [|? ? ? ? ? Ha|? ? part ? Hin Hp]; subst; [discriminate|discriminate Ha|].
  simpl in Hin. apply elem_of_cons in Hin as [->| ->%list_elem_of_singleton].
  - inversion Hp as [|? ? ? sub ? _ Ht Hl|? ? ? ? Hin]; subst; [|by apply not_elem_of_nil in Hin].
    assert (sub = base_schema) as -> by (vm_compute in Ht; injection Ht as _ <-; reflexivity). by eapply base_leaf.
  - inversion Hp as [|? ? ? ? ? _ Ht|? ? ? ? Hin]; subst; [discriminate Ht|by apply not_elem_of_nil in Hin].
Qed.

Lemma sample_undemanding : undemanding sample_spec.
Proof.
  intros name s r o fuel [[-> ->]|[-> ->]]%sample_schemas Hr leaf.
  - intros ->%base_leaf k _. destruct fuel; [discriminate Hr|]. injection Hr as <- _. reflexivity.
  - intros ->%envelope_leaf k Hk.
    assert (Required r = ["id"; "type"; "data"]) as ->.
    { destruct fuel as [|[|[|fuel]]]; vm_compute in Hr; [discriminate Hr..|]. by injection Hr as <- _. }
    simpl in *. set_solver.
Qed.
Definition sample_document : asyncSpec :=
  mkSpec "3.0.0" (mkInfo "Delegation events" "1" "about") (mkNode ZeroNode "" []) sample_spec.
Definition locked_docs : DocsConfig := mkDocsConfig "production" true "secret".
(** Three visits to the viewer, one of them without the token, and the file. *)
Definition visits : list (docs_route * string) :=
  [(RViewer, "Bearer secret"); (RViewer, ""); (RViewer, "Bearer secret"); (RYAML, "Bearer secret")].
Lemma viewer_steady_witness :
  ∃ N page, ∀ fuel, (N ≤ fuel)%nat →
    ∃ cache, serve_all (λ _, Ok sample_document) "asyncapi: 3.0.0" fuel locked_docs visits None
      = Some ([DocsPage page; DocsStatus 401; DocsPage page; DocsYAML "asyncapi: 3.0.0"], cache).
Proof.
  destruct (viewer_steady (λ _, Ok sample_document) "asyncapi: 3.0.0" locked_docs sample_rank) as (N & a & (page & ->) & H).
  - intros s0 [= <-]. split; [exact sample_acyclic|exact sample_undemanding].
  - exists N, page. intros fuel Hf. destruct (H fuel Hf visits) as [cache Hr]. exists cache. exact Hr.
Defined.

Lemma sample_declared : ∀ name s, Schemas sample_spec !! name = Some s → declared s.
Proof.
  assert (∀ s, AllOf s = [] → bool_decide (NoDup (PropertyOrder s)) = true →
            bool_decide ((list_to_set (PropertyOrder s) : gset string) = dom (Properties s)) = true → declared s) as Hleaf.
  { intros s Ha Hnd%bool_decide_eq_true Hdom%bool_decide_eq_true. constructor; [|by rewrite Ha]. intros _. split; [done|].
    intros k. rewrite <- elem_of_dom, <- Hdom. by rewrite elem_of_list_to_set. }
  intros name s [[_ ->]|[_ ->]]%sample_schemas; [by apply Hleaf|].
  constructor; [discriminate|]. apply Forall_cons. split; [by apply Hleaf|]. apply Forall_singleton. by apply Hleaf.
Qed.
Lemma table_rows_witness :
  match resolveSchema 3 sample_spec (Some "Envelope") envelope_schema with
  | Some (r, _) => table_keys r = ["type"; "id"; "data"; "note"; "source"] ∧ NoDup (table_keys r)
  | None => False
  end.
Proof.
  destruct (resolveSchema 3 sample_spec (Some "Envelope") envelope_schema) as [[r o]|] eqn:Hr; [|discriminate Hr].
  destruct (table_rows sample_spec 3 (Some "Envelope") envelope_schema r o sample_declared) as (Hnd & _ & Hk & _).
  - apply (sample_declared "Envelope"). reflexivity.
  - exact Hr.
  - split; [|exact Hnd]. rewrite Hk. clear -Hr. vm_compute in Hr. injection Hr as <- _. vm_compute. reflexivity.
Defined.
